(* ===== verification/_CoqProject ===== *)
-Q . S2P
Prelude.v
Status.v
Encoding.v
Tokens.v
Proto.v
Json.v
Platform.v
Keys.v
World.v
FileStore.v
Files.v
Durability.v
Storage.v
Core.v
Commands.v
Model.v
Unique.v
Reads.v
Scan.v
Spec.v
SystemMessages.v
Refine.v
Handlers.v
ChannelHandlers.v
Invariant.v
Queries.v
Pages.v
Startup.v
Objects.v
Services.v
Effects.v
Requests.v
Concurrency.v
Service.v
Tracks.v
Crash.v
Subscription.v
SubInvariant.v
Delivery.v
SubProgress.v
CatchUp.v
History.v
Snapshots.v
ServerConfig.v
Endpoints.v
Root.v
Process.v
RootOpen.v
Lives.v
FirstStart.v
Reference.v
Demo.v
RootReference.v
HandlerTheorems.v
SystemTheorems.v
ServiceTheorems.v
StorageTheorems.v
SubTheorems.v
RootTheorems.v
ServerTheorems.v
CrashTheorems.v
