(* ===== verification/Prelude.v ===== *)
(** * OpenEvent: a verification library

    OpenEvent is a server for a globally ordered, durable log of events.  Clients
    authenticate with a principal and a token, create channels, publish messages
    into them, page through the log or subscribe to it, and store binary objects.  The server keeps
    everything in one RocksDB database and one directory of object files.  This
    library models the server's C++ sources as computations over an explicit
    state, says what each operation promises on an abstract state, and proves that
    the operations keep their promises, alone and interleaved.

    ** The program and the files that model it

    - src/src/common/status.h and the limit headers: [Status.v].  An operation that
      returns a [Status] or a [Result<T>] is a computation that returns a [Result];
      [let?] is the early return of the code, [let!] plain sequencing.
    - src/src/storage/encoding.h: [Encoding.v].  The credentials' text forms
      ([GenerateToken], [GenerateObjectToken], [IsBase64UrlToken]): [Tokens.v].
    - The data exchanged between the parts: [Proto.v].  The payloads of system
      messages ([JsonString], [ChannelInitializedPayload], [MemberChangedPayload]):
      [Json.v], with a reader for JSON they are proved against.
    - What the sources call and do not contain (RocksDB, protobuf, OpenSSL, the
      kernel, gRPC contexts, the fault injector, [rocksdb_status.h], [io_error.h]):
      [Platform.v] and [World.v], as classes of operations over an abstract state
      ([RocksDB], [Protobuf], [Host], [PosixDir]) with a second class each for the
      documented behaviour relied on ([RocksDBSpec], [ProtobufSpec], [HostSpec],
      [PosixDirSpec]).  Every call can fail, and differently each time.  What a crash
      can leave is part of these classes: [db_disk] relates an open database to the
      contents it can be found with, [fs_durable] and [tr_durable] say which
      directory entries are on disk as they are, [fs_synced] which files are.
    - src/src/storage/object_file_store.cpp: [FileStore.v]; what its operations do
      to the directory: [Files.v]; what of it is on disk: [Durability.v].
    - src/src/storage/unified_storage.cpp: [Keys.v] (the layout of keys) and
      [Storage.v] (snapshots, reads, scans, batches, validation, initialization,
      recovery); creating, opening and closing a root: [Root.v], over the file
      system and the databases on disk as classes of their own ([RootFs],
      [RocksEnv], with [RootFsSpec] and [RocksEnvSpec]); the ownership of snapshots
      by the objects of class [ReadSnapshot]: [Snapshots.v], with its theorem that
      each is released once.
    - src/src/service/open_event_core.cpp: [Core.v] (state, availability latch,
      authentication, permissions, handlers that read) and [Commands.v] (handlers
      that write).  Where the core and the storage class have methods of the same
      name, the core's has the prefix [Core].
    - src/src/service/grpc_services.cpp: [Services.v], every unary RPC; which class has
      which method (src/src/service/grpc_services.h) and with which of the two servers
      [main] registers it: [Endpoints.v].
    - Several threads: [Concurrency.v].  A handler runs under the coordinator's
      mutex, or on a snapshot taken under it, and is one step; [WriteObject] gives
      the mutex up while it writes the object's file, so it is a sequence of steps
      that others interleave with.  A request that passed the test of the availability
      latch just before a fault closed it is a step of its own ([S_late]).  [step] is
      the relation, [SysInv] the invariant.
    - The subscriptions of open_event_core.cpp and grpc_services.cpp:
      [Subscription.v].  The refresher thread and each stream are machines that
      move from one waiting point to the next; [sub_step] interleaves them with the
      requests and writers of [step], and with subscribing and stopping.
    - src/src/server/server_config.cpp: [ServerConfig.v], over yaml-cpp as a class.
    - src/src/server/main.cpp: [Endpoints.v], what the two gRPC builders are given, and
      [Process.v].  [main_start] composes the
      configuration, [Open], the constructor of the core and the two servers, with what a
      start that fails writes to the standard error; the
      shutdown protocol is a transition system with a program counter for [main]
      and each of its threads and the flags they share.  A [grpc::Server] is serving,
      closing or down: [Shutdown()] closes it and returns when it is down, which it is
      only when none of its handlers runs, as gRPC documents; the handlers that run are
      counted, and a Subscribe handler ends only when [StopSubscriptions] was called or
      its client is gone.

    ** The abstract state and the proofs

    - [Model.v]: [AState] (the log, the used uuids, the channels, the credentials,
      registered and committed objects, the counters), [repr] (a database holds
      exactly the records of a state, byte for byte), [WF] (the invariant).
      [Unique.v]: a database represents at most one well-formed state.
    - [Spec.v]: each writing handler as a function on [AState].
    - [Reads.v], [Scan.v]: every read of a represented state returns what the state
      says or reports a storage fault; it never finds corruption.
    - [SystemMessages.v]: what the server writes into the log passes the checks the
      scan makes when it reads it back.
    - [Refine.v], [Handlers.v], [ChannelHandlers.v], [Objects.v]: each writing
      handler ends in one of the ways of [Outcome]: the specified answer and state;
      a refusal, by the specification or the host, with nothing changed; or a
      storage fault, with nothing or all of the change stored.
    - [Invariant.v]: the specifications preserve [WF].  [Queries.v], [Pages.v]: the
      reading handlers.  [Startup.v]: creating, validating, recovering a root.
      [Effects.v]: what any request does to the state and when it does nothing.
    - [Requests.v]: one specification for all unary requests, [request_spec], and that
      [handle] meets it.  [Service.v]: the service as clients see it, a machine without
      database, files, counters or objects being written, in which each request is
      answered at one moment ([service]); the steps of the server with what clients see
      of them ([lstep]), and the simulation [sim] between the two.
    - [Tracks.v]: the commit counter follows the commits.  [SubInvariant.v]: the
      invariant [SubInv] of the server with its refresher and streams, kept by every
      [sub_step].  [Delivery.v]: what a stream has sent, page by page.
      [SubProgress.v]: how long a stream can wait and how fast it ends.
      [CatchUp.v]: a stream on a current snapshot reaches the end of the log.
      [History.v]: the states a run passes through ([history]), that a snapshot shows
      one of them, and that a message sent was stored at one of them at which the
      subscriber was [entitled] to it.
    - [RootOpen.v]: the operations of [Root.v], call by call.
    - [Crash.v]: the invariant [CrashInv], that every state a crash can leave between
      two steps or in the middle of one is well formed, has the files of its objects
      and extends the last state that was all on disk.  [Lives.v]: a [life] is a
      start that fails or is cut short by a crash, or a start of [main], any steps,
      and an end ([ended]): the storage is closed, or the power fails between two
      steps or during one.
      [Rooted] is the invariant of a root through [lives], [Live] the one of a server
      that runs on it.  [FirstStart.v]: a root that is being made when the power fails
      ([creation_interrupted]), any number of times; [Unborn] is what is kept.
    - [Reference.v], [Demo.v]: instances of the platform (a database with a fault
      tape, one that never fails, a codec, a directory, a host) and a server run on
      them, so that theorems with hypotheses can be applied to concrete inputs;
      [RootReference.v] adds a disk with three roots.

    ** The theorems

    [HandlerTheorems.v] has the refinement of each handler and what a successful
    answer means (a post is in the log under the number returned; pages are exact
    and paging is complete; channels and objects are shown to those allowed;
    the credential check accepts a credential from when it is added until it is
    deleted; a post is answered as specified unless its own context has ended).
    Who may see what is stated there on the stored records ([open_to], [selects]),
    not with the permission functions of the code.  [SystemTheorems.v] is about whole runs: the
    invariant, that a uuid is consumed once and never handed out twice, that an
    object written is the object read, that a closed
    server stays closed and refuses.  [ServiceTheorems.v] says that every run of the
    server is a run of the service with the same requests and answers, and, from that,
    that clients of the public server cannot change credentials and clients of the admin
    server nothing else, and that errors have no effect: none at all for the unary requests
    of the type [Request], which are all but WriteObject, and none that clients can see for
    WriteObject, which may leave a registered object and a higher object counter.
    [StorageTheorems.v] is about the layers below:
    the order and injectivity of keys, the credentials, the object files, a new root,
    and the wrap-around of the uuid counter.  [SubTheorems.v] is
    about subscriptions: a stream reads a state of the run not older than the moment it
    asked (unless the server was closed or is being destroyed, when the code hands out
    the last snapshot), delivers in order and without gaps what its subscriber was
    entitled to at a moment of the run, is served by the refresher, catches up with the log and
    ends when it is stopped.  [RootTheorems.v] is about roots: foreign directories are left alone,
    new directories are on disk, and what a root holds when it is opened.
    [ServerTheorems.v] is about the process: which configurations are accepted, that
    [main] starts a server with the invariant from whatever was left on disk, and
    that shutting down always completes, with no handler left running.  [CrashTheorems.v] is about crashes and
    restarts: a root stays one through any number of lives, an acknowledged post and
    an acknowledged object are there in every later one, an open server shows nothing
    it could lose, the first start makes such a root, and making it can be interrupted.
    What [Extends] keeps through restarts is the log, the uuids, the channels with all but
    their members, and the committed objects; credentials and members are those of the
    recovered state ([crash_loses_nothing], [open_existing_root]).
    It also shows where the code is weaker than its names say: a process that is killed
    between creating the directory of a root and its fsync, and started again, serves from
    a root whose own entry is not on disk ([killed_creation_not_durable]).

    A fault in a theorem is always one the platform reported: the outcomes of a
    storage failure carry [fallible], the existence of a call that fails, so that on
    a platform without faults only the specified answers remain.

    ** Bounds and fuel

    A [uint64_t] is a [Z] with its wrap-around written out.  Theorems about runs
    have a [Budget]: enough room in the counters for the number of steps, because
    the code lets the uuid, channel and object counters wrap; from a new root 2^53
    steps are within it.  Loops over system calls carry fuel: the bytes left plus
    the interruptions and retries the platform can still report, which the theorems
    show to be enough.  The model's JSON reader uses the length of the text, the search
    for an existing ancestor of a path the length of the path.  The shutdown
    protocol has finitely many control states: its invariant is evaluated on all of them,
    and a measure that counts the running handlers bounds its runs.  The steps a stream needs to catch up are bounded by the
    length of the log, those a cancelled stream needs by its batch.

    ** What is not modelled

    - The availability test of a stream and what it does then are one step.
    - A commit and the increment of the commit counter after it are one step; in the
      code the refresher can read the counter between them, and then takes a
      snapshot that is newer than its generation says.  Read the counter, take the
      snapshot and install it are steps that may fall before and after the commit, so
      what this leaves out is a wait of the refresher that ends one round later.
    - A process that is killed, without a failure of the power, while it makes a root: the
      directories it leaves may not be on disk.  A failure of the power then is a step of
      [creations]; one during a run, or during a start on an existing root with its recovery,
      is the end of a life, and a process that is killed there leaves no less.
      [tr_durable] and [fs_durable] are about whole entries: a file that is not on
      disk can be found in any state, a database only in one [db_disk] allows.
    - The timed waits of the subscriptions may end at any step; their 100 ms are not
      modelled.  The memory model is sequentially consistent.
    - main.cpp: output that does not come with an exit.  The admin server
      answers requests before the public server has started; when that then fails, the
      life is one of [Lives.v] that serves and closes its storage, but [main_start]
      shows it as a start that served nothing.  gRPC itself:
      a stream only asks it whether it is cancelled and whether a message was
      written, and of its servers only what [Shutdown()] and [Wait()] wait for is modelled.
      In the shutdown protocol a handler is only counted: that a cancelled stream ends is
      [stopped_streams_end], with [waiting_streams_served] for its waits; that another call
      returns is taken from the handlers being total functions here.  The descriptor of the object directory once it is open.
    - Memory other than the snapshot objects, and the contents of error messages
      that come from outside. *)

From Stdlib Require Export ZArith Lia Bool Ascii.
From stdpp Require Export base tactics list gmap strings sets fin_maps sorting.

#[global] Open Scope string_scope.
#[global] Open Scope list_scope.
#[global] Open Scope Z_scope.

#[global] Arguments String.append !_ _ /.

(** The development's hint and rewriting databases. *)
Create HintDb oe.
Create Rewrite HintDb oe.

(** ** Machine integers *)

(** [uint64_t] values are [Z] in [0, 2^64); arithmetic on them wraps. *)
Definition two64 : Z := 18446744073709551616.

Definition is_u64 (z : Z) : Prop := 0 <= z < two64.

Definition u64_add (a b : Z) : Z := (a + b) mod two64.

#[export] Instance is_u64_dec z : Decision (is_u64 z).
Proof. unfold is_u64. apply _. Defined.

Lemma two64_pow : two64 = 2 ^ 64.
Proof. reflexivity. Qed.

Lemma u64_add_is_u64 a b : is_u64 (u64_add a b).
Proof. unfold is_u64, u64_add. apply Z.mod_pos_bound. done. Qed.

Lemma u64_add_small a b : 0 <= a + b < two64 -> u64_add a b = a + b.
Proof. intros. unfold u64_add. by apply Z.mod_small. Qed.

(** The increment of a [uint64_t] is zero exactly when it overflows. *)
Lemma u64_succ_zero a : is_u64 a -> u64_add a 1 = 0 <-> a = two64 - 1.
Proof.
  unfold is_u64, u64_add. intros Ha. split; [|intros ->; reflexivity].
  intros H. destruct (decide (a = two64 - 1)) as [|Hne]; [done|].
  rewrite Z.mod_small in H; lia.
Qed.

(** ** Byte strings *)

(** [std::string] is a sequence of bytes: Rocq's [string] over 8-bit [ascii]. *)
Definition str_size (s : string) : Z := Z.of_nat (String.length s).

Definition str_empty (s : string) : bool := match s with EmptyString => true | _ => false end.

Definition byte_of_Z (z : Z) : ascii := ascii_of_N (Z.to_N (z mod 256)).

Definition Z_of_byte (c : ascii) : Z := Z.of_N (N_of_ascii c).

Lemma Z_of_byte_bound c : 0 <= Z_of_byte c < 256.
Proof. unfold Z_of_byte. pose proof (N_ascii_bounded c). lia. Qed.

Lemma Z_of_byte_of_Z z : 0 <= z < 256 -> Z_of_byte (byte_of_Z z) = z.
Proof.
  intros H. unfold Z_of_byte, byte_of_Z. rewrite Z.mod_small by lia.
  rewrite N_ascii_embedding by lia. lia.
Qed.

Lemma byte_of_Z_of_byte c : byte_of_Z (Z_of_byte c) = c.
Proof.
  pose proof (Z_of_byte_bound c). unfold byte_of_Z.
  rewrite Z.mod_small by done. unfold Z_of_byte.
  rewrite N2Z.id. apply ascii_N_embedding.
Qed.

Lemma Z_of_byte_inj c1 c2 : Z_of_byte c1 = Z_of_byte c2 -> c1 = c2.
Proof. intros H. by rewrite <- (byte_of_Z_of_byte c1), H, byte_of_Z_of_byte. Qed.

Lemma str_length_app s t :
  String.length (s +:+ t) = (String.length s + String.length t)%nat.
Proof. induction s as [|c s IH]; simpl; [done|]. by rewrite IH. Qed.

Lemma str_size_app s t : str_size (s +:+ t) = str_size s + str_size t.
Proof. unfold str_size. rewrite str_length_app. lia. Qed.

Lemma str_app_assoc s t u : (s +:+ t) +:+ u = s +:+ (t +:+ u).
Proof. induction s as [|c s IH]; simpl; [done|]. by rewrite IH. Qed.

Lemma str_app_nil_r s : s +:+ "" = s.
Proof. induction s as [|c s IH]; simpl; [done|]. by rewrite IH. Qed.

Lemma str_size_nonneg s : 0 <= str_size s.
Proof. unfold str_size. lia. Qed.

Lemma str_empty_spec s : str_empty s = true <-> s = "".
Proof. by destruct s. Qed.

Lemma str_app_inv_l p s t : p +:+ s = p +:+ t -> s = t.
Proof. induction p as [|c p IH]; simpl; [done|]. intros [= H]. auto. Qed.

(** Two byte strings of equal length split at the same place. *)
Lemma str_app_inv_len s1 s2 t1 t2 :
  String.length s1 = String.length s2 -> s1 +:+ t1 = s2 +:+ t2 -> s1 = s2 /\ t1 = t2.
Proof.
  revert s2. induction s1 as [|c s1 IH]; intros [|c' s2]; simpl; try done.
  intros [= Hl] [= -> Ht]. destruct (IH _ Hl Ht) as [-> ->]. done.
Qed.

(** [Slice::starts_with] and [memcmp] on a prefix. *)
Lemma str_prefix_app p s : String.prefix p (p +:+ s) = true.
Proof.
  induction p as [|c p IH]; simpl; [by destruct s|].
  destruct (ascii_dec c c); done.
Qed.

Lemma str_prefix_split p s : String.prefix p s = true -> exists t, s = p +:+ t.
Proof.
  revert s. induction p as [|c p IH]; intros s; [by exists s|].
  destruct s as [|d s]; [done|]. simpl. destruct (ascii_dec c d) as [->|]; [|done].
  intros [t ->]%IH. by exists t.
Qed.

(** [substr(pos)] and [substr(0, count)]; the callers' positions are within the string. *)
Fixpoint drop_bytes (n : nat) (s : string) : string :=
  match n, s with
  | O, _ => s
  | S n, String _ s => drop_bytes n s
  | S _, EmptyString => ""
  end.

Fixpoint take_bytes (n : nat) (s : string) : string :=
  match n, s with
  | O, _ => ""
  | S n, String c s => String c (take_bytes n s)
  | S _, EmptyString => ""
  end.

Lemma take_drop_bytes n s : take_bytes n s +:+ drop_bytes n s = s.
Proof. revert s. induction n as [|n IH]; intros [|c s]; cbn; try done. by rewrite IH. Qed.

Lemma take_bytes_all n s : (String.length s <= n)%nat -> take_bytes n s = s.
Proof. revert n. induction s as [|c s IH]; intros [|n]; cbn; intros; [done|done|lia|]. f_equal. apply IH. lia. Qed.

Lemma drop_bytes_length n s : String.length (drop_bytes n s) = (String.length s - n)%nat.
Proof. revert s. induction n as [|n IH]; intros [|c s]; cbn; rewrite ?IH; lia. Qed.

Lemma take_bytes_length n s : String.length (take_bytes n s) = Nat.min n (String.length s).
Proof. revert s. induction n as [|n IH]; intros [|c s]; cbn; rewrite ?IH; lia. Qed.

Lemma drop_drop_bytes n k s : drop_bytes k (drop_bytes n s) = drop_bytes (n + k) s.
Proof. revert s. induction n as [|n IH]; intros [|c s]; cbn; auto; by destruct k. Qed.

Lemma take_add_bytes n k s : take_bytes n s +:+ take_bytes k (drop_bytes n s) = take_bytes (n + k) s.
Proof.
  revert s. induction n as [|n IH]; intros [|c s]; cbn; rewrite ?IH; auto; by destruct k.
Qed.

(** RocksDB's default comparator: unsigned lexicographic order of the bytes. *)
Fixpoint str_ltb (s t : string) : bool :=
  match s, t with
  | _, EmptyString => false
  | EmptyString, String _ _ => true
  | String c s', String d t' =>
      (Z_of_byte c <? Z_of_byte d) || ((Z_of_byte c =? Z_of_byte d) && str_ltb s' t')
  end.

Definition str_lt (s t : string) : Prop := str_ltb s t = true.

Definition str_le (s t : string) : Prop := str_ltb t s = false.

#[export] Instance str_lt_dec s t : Decision (str_lt s t).
Proof. unfold str_lt. apply _. Defined.

#[export] Instance str_le_dec s t : Decision (str_le s t).
Proof. unfold str_le. apply _. Defined.

Lemma str_ltb_cons c s d t :
  str_ltb (String c s) (String d t) = true <->
  Z_of_byte c < Z_of_byte d \/ (c = d /\ str_ltb s t = true).
Proof.
  simpl. rewrite orb_true_iff, andb_true_iff, Z.ltb_lt, Z.eqb_eq.
  split.
  - intros [H|[H1%Z_of_byte_inj H2]]; auto.
  - intros [H|[-> H2]]; auto.
Qed.

#[export] Instance str_lt_irrefl : Irreflexive str_lt.
Proof.
  intros s. unfold complement, str_lt. induction s as [|c s IH]; [done|].
  rewrite str_ltb_cons. intros [H|[_ H]]; [lia|auto].
Qed.

#[export] Instance str_lt_trans : Transitive str_lt.
Proof.
  unfold str_lt. intros s. induction s as [|c s IH]; intros [|d t] [|e u]; try done.
  rewrite !str_ltb_cons. intros [H1|[-> H1]] [H2|[-> H2]]; auto; [left; lia|].
  right. split; [done|]. by eapply IH.
Qed.

Lemma str_lt_total s t : str_lt s t \/ s = t \/ str_lt t s.
Proof.
  unfold str_lt. revert t. induction s as [|c s IH]; intros [|d t]; auto.
  rewrite !str_ltb_cons.
  destruct (Z.lt_trichotomy (Z_of_byte c) (Z_of_byte d)) as [?|[->%Z_of_byte_inj|?]]; auto.
  destruct (IH t) as [?|[->|?]]; auto.
Qed.

Lemma str_le_lteq s t : str_le s t <-> str_lt s t \/ s = t.
Proof.
  unfold str_le. split.
  - intros H. destruct (str_lt_total s t) as [?|[?|H']]; auto.
    unfold str_lt in H'. congruence.
  - intros [H| ->]; destruct (str_ltb t _) eqn:E; try done.
    + destruct (irreflexivity str_lt s). by transitivity t.
    + by destruct (irreflexivity str_lt t).
Qed.

Lemma str_lt_app_l p s t : str_lt (p +:+ s) (p +:+ t) <-> str_lt s t.
Proof.
  induction p as [|c p IH]; [done|]. unfold str_lt. simpl (String c p +:+ _).
  rewrite str_ltb_cons, <- IH. unfold str_lt. split; [intros [H|[_ H]]; [lia|done]|auto].
Qed.

(** [std::to_string] of a [uint64_t]; twenty digits hold every value below 2^64. *)
Definition dec_digit (d : Z) : string := String (byte_of_Z (48 + d)) "".

Fixpoint dec_digits (fuel : nat) (n : Z) : string :=
  match fuel with
  | O => ""
  | S f => if n <? 10 then dec_digit n else dec_digits f (n / 10) +:+ dec_digit (n mod 10)
  end.

Definition to_string (n : Z) : string := dec_digits 20 n.

(** ** State-passing computations *)

(** A computation over a state [S]: it always returns, with an answer and the next state. *)
Definition M (S A : Type) : Type := S -> A * S.

Definition ret {S A} (a : A) : M S A := fun s => (a, s).

Definition bind {S A B} (m : M S A) (k : A -> M S B) : M S B :=
  fun s => let '(a, s') := m s in k a s'.

Definition get {S} : M S S := fun s => (s, s).

Definition gets {S A} (f : S -> A) : M S A := fun s => (f s, s).

Definition modify {S} (f : S -> S) : M S unit := fun s => (tt, f s).

Declare Scope oe_scope.
Delimit Scope oe_scope with oe.

Notation "'let!' x ':=' m 'in' k" := (bind m (fun x => k))
  (at level 10, x name, k at level 200) : oe_scope.
Notation "'do!' m 'in' k" := (bind m (fun _ => k))
  (at level 10, k at level 200) : oe_scope.

#[global] Open Scope oe_scope.

(** Weakest preconditions of a computation. *)
Definition wp {S A} (m : M S A) (Q : A -> S -> Prop) (s : S) : Prop :=
  let '(a, s') := m s in Q a s'.

Lemma wp_ret {S A} (a : A) (Q : A -> S -> Prop) s : Q a s -> wp (ret a) Q s.
Proof. done. Qed.

Lemma wp_bind {S A B} (m : M S A) (k : A -> M S B) Q s :
  wp m (fun a => wp (k a) Q) s -> wp (bind m k) Q s.
Proof. unfold wp, bind. by destruct (m s). Qed.

Lemma wp_mono {S A} (m : M S A) (P Q : A -> S -> Prop) s :
  (forall a s', P a s' -> Q a s') -> wp m P s -> wp m Q s.
Proof. unfold wp. destruct (m s). auto. Qed.

Lemma wp_run {S A} (m : M S A) Q s a s' : wp m Q s -> m s = (a, s') -> Q a s'.
Proof. unfold wp. intros H E. by rewrite E in H. Qed.
