(* ===== verification/Status.v ===== *)
(** * Status values (src/common/status.h, src/common/*_limits.h)

    The error type every operation of the server returns: a gRPC code with a
    message, a flag that asks for a server exit, and a diagnostic that is the
    only part ever logged.  [Result] is the C++ [Result<T>]; an operation that
    returns a plain [Status] is a [Result unit]. *)

From S2P Require Import Prelude.

(** [grpc::StatusCode]. *)
Inductive StatusCode :=
  | OK | CANCELLED | UNKNOWN | INVALID_ARGUMENT | DEADLINE_EXCEEDED | NOT_FOUND
  | ALREADY_EXISTS | PERMISSION_DENIED | RESOURCE_EXHAUSTED | FAILED_PRECONDITION
  | ABORTED | OUT_OF_RANGE | UNIMPLEMENTED | INTERNAL | UNAVAILABLE | DATA_LOSS
  | UNAUTHENTICATED.

#[export] Instance StatusCode_eq_dec : EqDecision StatusCode.
Proof. solve_decision. Defined.

Definition code_number (c : StatusCode) : Z :=
  match c with
  | OK => 0 | CANCELLED => 1 | UNKNOWN => 2 | INVALID_ARGUMENT => 3
  | DEADLINE_EXCEEDED => 4 | NOT_FOUND => 5 | ALREADY_EXISTS => 6
  | PERMISSION_DENIED => 7 | RESOURCE_EXHAUSTED => 8 | FAILED_PRECONDITION => 9
  | ABORTED => 10 | OUT_OF_RANGE => 11 | UNIMPLEMENTED => 12 | INTERNAL => 13
  | UNAVAILABLE => 14 | DATA_LOSS => 15 | UNAUTHENTICATED => 16
  end.

Record Status := MkStatus {
  code : StatusCode;
  message : string;
  requires_server_exit : bool;
  storage_diagnostic : string
}.

(** [Status(code, message)]. *)
Definition mkStatus (c : StatusCode) (m : string) : Status := MkStatus c m false "".

Definition StatusOk : Status := mkStatus OK "".

Definition Fatal (c : StatusCode) (m : string) : Status := MkStatus c m true "".

Definition status_ok (s : Status) : bool := bool_decide (code s = OK).

Definition WithStorageDiagnostic (s : Status) (operation error : string) : Status :=
  MkStatus (code s) (message s) (requires_server_exit s)
    ("operation=" +:+ operation +:+ "; error=" +:+ error).

Definition StorageCorruption (operation error : string) : Status :=
  WithStorageDiagnostic (mkStatus DATA_LOSS error) operation error.

Definition FatalLogMessage (s : Status) : string :=
  "fatal storage error: " +:+
  (if str_empty (storage_diagnostic s) then "operation=storage; error=unclassified failure"
   else storage_diagnostic s) +:+
  "; grpc_code=" +:+ to_string (code_number (code s)).

(** What a client sees: [grpc::Status(code, message)], or [grpc::Status::OK]. *)
Definition ToGrpc (s : Status) : StatusCode * string :=
  if status_ok s then (OK, "") else (code s, message s).

(** [Result<T>]: a value, or the status that replaced it. *)
Inductive Result (A : Type) :=
  | Ok (a : A)
  | Err (s : Status).
Arguments Ok {A} a.
Arguments Err {A} s.

(** A returned [Status] seen as a [Result]: the caller's [if (!s.ok()) return s;]. *)
Definition check_status (s : Status) : Result unit :=
  if status_ok s then Ok tt else Err s.

Definition result_status {A} (r : Result A) : Status :=
  match r with Ok _ => StatusOk | Err s => s end.

Definition result_ok {A} (r : Result A) : bool :=
  match r with Ok _ => true | Err _ => false end.

(** Pure sequencing of results, with the C++ early return. *)
Definition rbind {A B} (r : Result A) (k : A -> Result B) : Result B :=
  match r with Ok a => k a | Err s => Err s end.

(** Computations that may return early with a status. *)
Definition RM (S A : Type) : Type := M S (Result A).

Definition bind_ok {S A B} (m : RM S A) (k : A -> RM S B) : RM S B :=
  bind m (fun r => match r with Ok a => k a | Err s => ret (Err s) end).

Definition ok {S A} (a : A) : RM S A := ret (Ok a).

Definition fail {S A} (c : StatusCode) (m : string) : RM S A := ret (Err (mkStatus c m)).

Notation "'let?' x ':=' m 'in' k" := (bind_ok m (fun x => k))
  (at level 10, x name, k at level 200) : oe_scope.
Notation "'do?' m 'in' k" := (bind_ok m (fun _ => k))
  (at level 10, k at level 200) : oe_scope.
Notation "'rlet' x ':=' r 'in' k" := (rbind r (fun x => k))
  (at level 10, x name, k at level 200) : oe_scope.
Notation "'rdo' r 'in' k" := (rbind r (fun _ => k))
  (at level 10, k at level 200) : oe_scope.

(** ** Limits *)

Definition kGrpcMessageBytes : Z := 64 * 1024 * 1024.
Definition kMessagePageSoftBytes : Z := 17 * 1024 * 1024.
Definition kObjectTokenRandomBytes : Z := 32.
Definition kObjectTokenEncodedBytes : Z := 43.
Definition kMaxObjectNameBytes : Z := 255.
Definition kMaxObjectTypeBytes : Z := 255.
Definition kMaxObjectDescriptionBytes : Z := 4096.
Definition kMaxObjectBytes : Z := 4 * 1024 * 1024.
Definition kMaxObjectKeys : Z := 1024.

(** ** Facts *)

(** A status from which every operation has to give up: the storage failed. *)
Definition fatal_status (s : Status) : Prop := requires_server_exit s = true.

Lemma check_status_ok s : check_status s = Ok tt <-> code s = OK.
Proof. unfold check_status, status_ok. case_bool_decide; split; congruence. Qed.

Lemma check_status_err s s' : check_status s = Err s' <-> s = s' /\ code s <> OK.
Proof. unfold check_status, status_ok. case_bool_decide; intuition congruence. Qed.

Lemma rbind_assoc {A B C} (r : Result A) (f : A -> Result B) (g : B -> Result C) :
  rbind (rbind r f) g = rbind r (fun x => rbind (f x) g).
Proof. by destruct r. Qed.

(** Neither the message nor the diagnostic's content decides what is logged beyond the
    diagnostic itself: the log line is a function of the diagnostic and the code. *)
Lemma FatalLogMessage_ignores_message s m :
  FatalLogMessage (MkStatus (code s) m (requires_server_exit s) (storage_diagnostic s)) =
  FatalLogMessage s.
Proof. reflexivity. Qed.
