(* ===== verification/Encoding.v ===== *)
(** * Fixed-width integers in keys and values (src/storage/encoding.h)

    Big-endian encoding of a [uint64_t], its inverse, and the fact the whole
    storage layout rests on: the byte order of encoded keys is the numeric
    order of the integers. *)

From S2P Require Import Prelude.

Fixpoint string_of_bytes (l : list Z) : string :=
  match l with
  | [] => ""
  | b :: l => String (byte_of_Z b) (string_of_bytes l)
  end.

Fixpoint bytes_of_string (s : string) : list Z :=
  match s with
  | EmptyString => []
  | String c s => Z_of_byte c :: bytes_of_string s
  end.

Definition EncodeUint64 (value : Z) : string :=
  string_of_bytes ((fun i => Z.land (Z.shiftr value (i * 8)) 255) <$> [7; 6; 5; 4; 3; 2; 1; 0]).

Definition DecodeUint64 (value : string) : Z :=
  if negb (String.length value =? 8)%nat then 0
  else fold_left (fun out ch => Z.lor (Z.shiftl out 8 mod two64) ch) (bytes_of_string value) 0.

(** ** The reference encoding: [n] base-256 digits, most significant first *)

Fixpoint be (n : nat) (v : Z) : string :=
  match n with
  | O => ""
  | S n => String (byte_of_Z (v / 256 ^ Z.of_nat n mod 256)) (be n v)
  end.

Lemma be_length n v : String.length (be n v) = n.
Proof. induction n; simpl; congruence. Qed.

Lemma Encode_be v : EncodeUint64 v = be 8 v.
Proof.
  unfold EncodeUint64. simpl.
  assert (H : forall i, 0 <= i -> Z.land (Z.shiftr v (i * 8)) 255 = v / 256 ^ i mod 256).
  { intros i Hi. change 255 with (Z.ones 8). rewrite Z.land_ones, Z.shiftr_div_pow2 by lia.
    change 256 with (2 ^ 8). by rewrite <- Z.pow_mul_r, (Z.mul_comm 8) by lia. }
  by rewrite <- !H by lia.
Qed.

Lemma be_mod n v : be n (v mod 256 ^ Z.of_nat n) = be n v.
Proof.
  assert (H : forall m, (n <= m)%nat -> be n (v mod 256 ^ Z.of_nat m) = be n v).
  { induction n as [|n IH]; intros m Hm; [done|]. simpl. f_equal; [|apply IH; lia].
    f_equal. replace (Z.of_nat m) with (Z.of_nat n + Z.of_nat (m - n)) by lia.
    rewrite Z.pow_add_r by lia.
    rewrite Z.rem_mul_r by (try apply Z.pow_nonzero; lia).
    rewrite Z.mul_comm, Z.div_add by (apply Z.pow_nonzero; lia).
    rewrite Z.div_small by (apply Z.mod_pos_bound; lia). simpl.
    replace (256 ^ Z.of_nat (m - n)) with (256 * 256 ^ Z.of_nat (m - n - 1)).
    - rewrite Z.rem_mul_r by lia. rewrite Z.add_0_l, (Z.mul_comm 256 (_ mod _)), Z_mod_plus_full. by rewrite Z.mod_mod.
    - rewrite <- Z.pow_succ_r by lia. f_equal. lia. }
  by apply H.
Qed.

(** Comparing two encodings compares the numbers. *)
Lemma be_lt n a b :
  0 <= a < 256 ^ Z.of_nat n -> 0 <= b < 256 ^ Z.of_nat n ->
  str_lt (be n a) (be n b) <-> a < b.
Proof.
  revert a b. induction n as [|n IH]; intros a b Ha Hb.
  { simpl in *. unfold str_lt. simpl. split; [done|lia]. }
  set (p := 256 ^ Z.of_nat n). assert (0 < p) by (unfold p; lia).
  assert (Hp : 256 ^ Z.of_nat (S n) = p * 256).
  { unfold p. rewrite Nat2Z.inj_succ, Z.pow_succ_r by lia. lia. }
  rewrite Hp in *. unfold str_lt. simpl be. fold p. rewrite str_ltb_cons.
  rewrite <- (be_mod n a), <- (be_mod n b). fold p. fold (str_lt (be n (a mod p)) (be n (b mod p))).
  rewrite IH by (apply Z.mod_pos_bound; done).
  assert (0 <= a / p < 256) by (split; [apply Z.div_pos; lia|apply Z.div_lt_upper_bound; lia]).
  assert (0 <= b / p < 256) by (split; [apply Z.div_pos; lia|apply Z.div_lt_upper_bound; lia]).
  rewrite !(Z.mod_small (_ / _)), !Z_of_byte_of_Z by lia.
  pose proof (Z.div_mod a p ltac:(lia)). pose proof (Z.div_mod b p ltac:(lia)).
  pose proof (Z.mod_pos_bound a p ltac:(lia)). pose proof (Z.mod_pos_bound b p ltac:(lia)).
  split.
  - intros [?|[E ?]]; [nia|]. apply (f_equal Z_of_byte) in E.
    rewrite !Z_of_byte_of_Z in E by lia. nia.
  - intros Hab. destruct (Z.lt_trichotomy (a / p) (b / p)) as [?|[E|?]]; [by left| |nia].
    right. rewrite E. split; [done|nia].
Qed.

Lemma two64_256 : two64 = 256 ^ Z.of_nat 8.
Proof. reflexivity. Qed.

(** ** Properties of the code's functions *)

Lemma Encode_length v : String.length (EncodeUint64 v) = 8%nat.
Proof. rewrite Encode_be. apply be_length. Qed.

Lemma Encode_lt a b :
  is_u64 a -> is_u64 b -> str_lt (EncodeUint64 a) (EncodeUint64 b) <-> a < b.
Proof. unfold is_u64. rewrite two64_256, !Encode_be. apply be_lt. Qed.

Lemma Encode_inj a b : is_u64 a -> is_u64 b -> EncodeUint64 a = EncodeUint64 b -> a = b.
Proof.
  intros Ha Hb E.
  destruct (Z.lt_trichotomy a b) as [H|[H|H]]; [|done|];
    apply Encode_lt in H; try done; rewrite E in H; by destruct (irreflexivity str_lt _ H).
Qed.

(** One iteration of the decoding loop appends a digit, when no bit is shifted out. *)
Lemma decode_step out c :
  0 <= out -> out * 256 < two64 ->
  Z.lor (Z.shiftl out 8 mod two64) (Z_of_byte c) = out * 256 + Z_of_byte c.
Proof.
  intros H0 H1. pose proof (Z_of_byte_bound c).
  rewrite Z.shiftl_mul_pow2 by lia. change (2 ^ 8) with 256. rewrite Z.mod_small by lia.
  rewrite Z.add_nocarry_lxor, Z.lxor_lor; [done| |].
  all: apply Z.bits_inj'; intros i Hi; rewrite Z.land_spec, Z.bits_0.
  all: change 256 with (2 ^ 8); rewrite <- Z.shiftl_mul_pow2 by lia.
  all: rewrite Z.shiftl_spec by lia; destruct (decide (i < 8)).
  all: try (rewrite (Z.testbit_neg_r out) by lia; done).
  all: rewrite andb_false_iff; right.
  all: rewrite <- (Z.mod_small (Z_of_byte c) (2 ^ 8)) by lia.
  all: apply Z.mod_pow2_bits_high; lia.
Qed.

Lemma decode_fold s out :
  0 <= out -> (out + 1) * 256 ^ Z.of_nat (String.length s) <= two64 ->
  fold_left (fun out ch => Z.lor (Z.shiftl out 8 mod two64) ch) (bytes_of_string s) out =
  fold_left (fun out ch => out * 256 + ch) (bytes_of_string s) out.
Proof.
  revert out. induction s as [|c s IH]; intros out H0 H1; simpl; [done|].
  simpl String.length in H1. rewrite Nat2Z.inj_succ, Z.pow_succ_r in H1 by lia.
  pose proof (Z_of_byte_bound c).
  assert (0 < 256 ^ Z.of_nat (String.length s)) by lia.
  rewrite decode_step by nia. apply IH; nia.
Qed.

Lemma be_fold n v out :
  fold_left (fun out ch => out * 256 + ch) (bytes_of_string (be n v)) out =
  out * 256 ^ Z.of_nat n + v mod 256 ^ Z.of_nat n.
Proof.
  revert out. induction n as [|n IH]; intros out.
  { simpl. rewrite Z.mod_1_r. lia. }
  simpl be. simpl bytes_of_string. simpl fold_left. rewrite IH.
  rewrite Z_of_byte_of_Z by (apply Z.mod_pos_bound; lia).
  rewrite Nat2Z.inj_succ, Z.pow_succ_r, (Z.mul_comm 256) by lia.
  rewrite Z.rem_mul_r by lia. lia.
Qed.

Lemma Decode_Encode v : is_u64 v -> DecodeUint64 (EncodeUint64 v) = v.
Proof.
  intros Hv. unfold DecodeUint64. rewrite Encode_length. simpl negb. cbv iota.
  rewrite decode_fold by (rewrite ?Encode_length; unfold two64; lia).
  rewrite Encode_be, be_fold, <- two64_256. rewrite Z.mod_small; [lia|done].
Qed.

Lemma fold_bytes_bound s out :
  0 <= out -> 0 <= fold_left (fun out ch => out * 256 + ch) (bytes_of_string s) out
               < (out + 1) * 256 ^ Z.of_nat (String.length s).
Proof.
  revert out. induction s as [|c s IH]; intros out H0; simpl; [lia|].
  pose proof (Z_of_byte_bound c). specialize (IH (out * 256 + Z_of_byte c) ltac:(lia)).
  simpl String.length. rewrite Nat2Z.inj_succ, Z.pow_succ_r by lia.
  assert (0 < 256 ^ Z.of_nat (String.length s)) by lia. nia.
Qed.

Lemma Decode_is_u64 s : is_u64 (DecodeUint64 s).
Proof.
  unfold DecodeUint64. destruct (Nat.eqb_spec (String.length s) 8) as [E|E]; simpl negb; cbv iota.
  - rewrite decode_fold by (rewrite ?E; unfold two64; lia).
    pose proof (fold_bytes_bound s 0 ltac:(lia)) as H. rewrite E in H.
    unfold is_u64, two64. lia.
  - unfold is_u64, two64. lia.
Qed.

#[export] Hint Rewrite Encode_length be_length : oe.
#[export] Hint Rewrite Decode_Encode using done : oe.
