(* ===== verification/Tokens.v ===== *)
(** * Credentials (src/service/open_event_core.cpp, src/storage/unified_storage.cpp)

    The text forms of random credentials: principal tokens (hexadecimal, in the
    shape of a UUID) and object tokens (unpadded base64url), and the check the
    storage layer makes on an object token it reads back. *)

From S2P Require Import Prelude Status Encoding.

(** [kHex]. *)
Definition kHex : string := "0123456789abcdef".

Definition char_at (s : string) (i : Z) : ascii := default "000"%char (String.get (Z.to_nat i) s).

(** The [ostringstream] loop of [GenerateToken]: two hex digits per byte, a dash after
    bytes 3, 5, 7 and 9. *)
Fixpoint format_token_from (i : Z) (bytes : list Z) : string :=
  match bytes with
  | [] => ""
  | b :: bytes =>
      String (char_at kHex (Z.shiftr b 4)) (String (char_at kHex (Z.land b 15))
        ((if (i =? 3) || (i =? 5) || (i =? 7) || (i =? 9) then "-" else "") +:+
         format_token_from (i + 1) bytes))
  end.

Definition format_token (bytes : list Z) : string := format_token_from 0 bytes.

(** [kBase64Url]. *)
Definition kBase64Url : string :=
  "ABCDEFGHIJKLMNOPQRSTUVWXYZabcdefghijklmnopqrstuvwxyz0123456789-_".

Definition b64_char (value shift : Z) : ascii :=
  char_at kBase64Url (Z.land (Z.shiftr value shift) 63).

#[global] Arguments b64_char : simpl never.
#[global] Arguments char_at : simpl never.

(** The encoding loop of [GenerateObjectToken] with its one- and two-byte tails. *)
Fixpoint base64url (bytes : list Z) : string :=
  match bytes with
  | a :: b :: c :: rest =>
      let value := Z.lor (Z.lor (Z.shiftl a 16) (Z.shiftl b 8)) c in
      String (b64_char value 18) (String (b64_char value 12)
        (String (b64_char value 6) (String (b64_char value 0) (base64url rest))))
  | [a; b] =>
      let value := Z.lor (Z.shiftl a 16) (Z.shiftl b 8) in
      String (b64_char value 18) (String (b64_char value 12) (String (b64_char value 6) ""))
  | [a] =>
      let value := Z.shiftl a 16 in
      String (b64_char value 18) (String (b64_char value 12) "")
  | [] => ""
  end.

Fixpoint string_forallb (p : ascii -> bool) (s : string) : bool :=
  match s with EmptyString => true | String c s => p c && string_forallb p s end.

Definition is_base64url_char (c : ascii) : bool :=
  let ch := Z_of_byte c in
  ((65 <=? ch) && (ch <=? 90)) || ((97 <=? ch) && (ch <=? 122)) ||
  ((48 <=? ch) && (ch <=? 57)) || (ch =? 45) || (ch =? 95).

Definition IsBase64UrlToken (token : string) : bool :=
  (str_size token =? kObjectTokenEncodedBytes) && string_forallb is_base64url_char token.

(** ** The alphabets *)

Fixpoint index_of (c : ascii) (s : string) : Z :=
  match s with
  | EmptyString => 0
  | String d s => if Ascii.eqb c d then 0 else 1 + index_of c s
  end.

Lemma range_ind (P : Z -> bool) n :
  forallb P (seqZ 0 n) = true -> forall i, 0 <= i < n -> P i = true.
Proof.
  rewrite forallb_forall. intros H i Hi. apply H. apply list_elem_of_In, elem_of_seqZ. lia.
Qed.

Lemma base64_index i : 0 <= i < 64 -> index_of (char_at kBase64Url i) kBase64Url = i.
Proof.
  intros Hi. apply Z.eqb_eq.
  apply (range_ind (fun i => index_of (char_at kBase64Url i) kBase64Url =? i) 64);
    [vm_compute; reflexivity|done].
Qed.

Lemma base64_char_ok i : 0 <= i < 64 -> is_base64url_char (char_at kBase64Url i) = true.
Proof.
  intros Hi.
  apply (range_ind (fun i => is_base64url_char (char_at kBase64Url i)) 64);
    [vm_compute; reflexivity|done].
Qed.

Lemma hex_index i : 0 <= i < 16 -> index_of (char_at kHex i) kHex = i.
Proof.
  intros Hi. apply Z.eqb_eq.
  apply (range_ind (fun i => index_of (char_at kHex i) kHex =? i) 16);
    [vm_compute; reflexivity|done].
Qed.

Definition is_byte (b : Z) : Prop := 0 <= b < 256.

#[export] Instance is_byte_dec b : Decision (is_byte b).
Proof. unfold is_byte. apply _. Defined.

(** ** Bit fields as quotients *)

Lemma land_63 v s : 0 <= s -> Z.land (Z.shiftr v s) 63 = v / 2 ^ s mod 64.
Proof. intros. change 63 with (Z.ones 6). by rewrite Z.land_ones, Z.shiftr_div_pow2 by lia. Qed.

Lemma lor_disjoint a b k : 0 <= k -> 0 <= b < 2 ^ k -> Z.lor (Z.shiftl a k) b = a * 2 ^ k + b.
Proof.
  intros Hk Hb. rewrite Z.shiftl_mul_pow2 by lia.
  assert (Hland : Z.land (a * 2 ^ k) b = 0).
  { apply Z.bits_inj'. intros i Hi. rewrite Z.land_spec, Z.bits_0.
    destruct (decide (i < k)).
    - rewrite Z.mul_pow2_bits_low by lia. done.
    - rewrite <- (Z.mod_small b (2 ^ k)) by lia.
      rewrite Z.mod_pow2_bits_high by lia. apply andb_false_r. }
  by rewrite Z.add_nocarry_lxor, Z.lxor_lor.
Qed.

Lemma group3 a b c :
  is_byte a -> is_byte b -> is_byte c ->
  Z.lor (Z.lor (Z.shiftl a 16) (Z.shiftl b 8)) c = a * 65536 + b * 256 + c.
Proof.
  unfold is_byte. intros. rewrite <- Z.lor_assoc, (lor_disjoint b c 8) by lia.
  rewrite lor_disjoint by lia. lia.
Qed.

Lemma group2 a b :
  is_byte a -> is_byte b -> Z.lor (Z.shiftl a 16) (Z.shiftl b 8) = a * 65536 + b * 256.
Proof.
  unfold is_byte. intros. rewrite (Z.shiftl_mul_pow2 b) by lia.
  rewrite lor_disjoint by lia. lia.
Qed.

Lemma b64_char_index v s :
  0 <= s -> index_of (b64_char v s) kBase64Url = v / 2 ^ s mod 64.
Proof.
  intros. unfold b64_char. rewrite land_63 by done.
  apply base64_index, Z.mod_pos_bound. lia.
Qed.

Lemma b64_char_is_char v s : 0 <= s -> is_base64url_char (b64_char v s) = true.
Proof.
  intros. unfold b64_char. rewrite land_63 by done.
  apply base64_char_ok, Z.mod_pos_bound. lia.
Qed.

(** ** Properties of the encoders *)

(** Induction over the three-byte groups of the encoding loop. *)
Lemma groups_ind (P : list Z -> Prop) :
  P [] -> (forall a, P [a]) -> (forall a b, P [a; b]) ->
  (forall a b c l, P l -> P (a :: b :: c :: l)) -> forall l, P l.
Proof.
  intros H0 H1 H2 H3. fix IH 1. intros [|a [|b [|c l]]]; [done|apply H1|apply H2|apply H3, IH].
Qed.

Lemma base64url_chars bytes : string_forallb is_base64url_char (base64url bytes) = true.
Proof.
  induction bytes using groups_ind; cbn [base64url string_forallb];
    rewrite ?b64_char_is_char by lia; done.
Qed.

Lemma base64url_length bytes :
  Z.of_nat (String.length (base64url bytes)) = (Z.of_nat (length bytes) * 4 + 2) / 3.
Proof.
  induction bytes as [| | |a b c l IH] using groups_ind; try reflexivity.
  cbn [base64url String.length length].
  rewrite !Nat2Z.inj_succ, IH. Z.div_mod_to_equations. lia.
Qed.

(** Every token the server generates passes the check made when it is read back. *)
Lemma base64url_is_token bytes :
  length bytes = 32%nat -> IsBase64UrlToken (base64url bytes) = true.
Proof.
  intros H. unfold IsBase64UrlToken, str_size. by rewrite base64url_length, base64url_chars, H.
Qed.

Lemma base64url_inj x y :
  Forall is_byte x -> Forall is_byte y -> base64url x = base64url y -> x = y.
Proof.
  revert y. induction x as [|a|a b|a b c l IH] using groups_ind;
    intros [|a' [|b' [|c' l']]] Hx Hy; cbn [base64url]; try (intros; discriminate);
    intros E; try (injection E; clear E; intros); decompose_Forall_hyps;
    repeat match goal with
      | H : b64_char _ _ = b64_char _ _ |- _ =>
          apply (f_equal (fun c => index_of c kBase64Url)) in H; rewrite !b64_char_index in H by lia
      end;
    rewrite ?group3, ?group2 in * by done; unfold is_byte in *;
    rewrite ?Z.shiftl_mul_pow2 in * by lia.
  - done.
  - f_equal. Z.div_mod_to_equations. lia.
  - repeat f_equal; Z.div_mod_to_equations; lia.
  - f_equal; [|f_equal; [|f_equal]]; [Z.div_mod_to_equations; lia..|]. by apply IH.
Qed.

(** The hexadecimal form keeps every bit of the random bytes as well. *)
Lemma format_token_from_inj i x y :
  Forall is_byte x -> Forall is_byte y ->
  format_token_from i x = format_token_from i y -> x = y.
Proof.
  revert i y. induction x as [|a x IH]; intros i [|b y] Hx Hy; simpl; try done.
  intros E. injection E. clear E. intros E3 E2 E1. decompose_Forall_hyps.
  f_equal; [|by eapply IH].
  apply (f_equal (fun c => index_of c kHex)) in E1, E2.
  unfold is_byte in *. change 15 with (Z.ones 4) in E2.
  rewrite !Z.land_ones, ?Z.shiftr_div_pow2 in * by lia.
  rewrite !hex_index in E1, E2; Z.div_mod_to_equations; lia.
Qed.

Lemma format_token_inj x y :
  Forall is_byte x -> Forall is_byte y -> format_token x = format_token y -> x = y.
Proof. apply format_token_from_inj. Qed.

Lemma format_token_nonempty bytes : bytes <> [] -> str_empty (format_token bytes) = false.
Proof. by destruct bytes. Qed.

Lemma IsBase64UrlToken_nonempty t : IsBase64UrlToken t = true -> str_empty t = false.
Proof. by destruct t. Qed.

#[export] Hint Resolve base64url_is_token : oe.
