(* ===== verification/Proto.v ===== *)
(** * Data the components exchange

    The protobuf messages and enums the sources use, with the fields they access
    (the schema is a git submodule, so only what src/ reads and writes is named
    here), and the storage structs of src/storage/unified_storage.h. *)

From Stdlib Require Import QArith Qround.
From S2P Require Import Prelude Status.

(** A proto3 enum is open: a message can carry a number that names no constant. *)
Inductive Visibility :=
  | VISIBILITY_PUBLIC | VISIBILITY_PROTECTED | VISIBILITY_PRIVATE
  | Visibility_other (n : Z).

Inductive ChannelFilter :=
  | CHANNEL_FILTER_ALL | CHANNEL_FILTER_JOINED | CHANNEL_FILTER_OWNED
  | ChannelFilter_other (n : Z).

Record ObjectKey := MkObjectKey {
  ok_object_id : Z;
  ok_object_token : string
}.

Record EventMessage := MkEventMessage {
  em_seq : Z;
  em_channel_id : Z;
  em_principal : Z;
  em_recipients : list Z;
  em_payload : string;
  em_ts_ms : Z;
  em_uuid : Z;
  em_object_keys : list ObjectKey
}.

(** [creator] has presence ([has_creator]); reading an absent one gives 0. *)
Record ChannelInfo := MkChannelInfo {
  ci_channel_id : Z;
  ci_name : string;
  ci_visibility : Visibility;
  ci_protocol : string;
  ci_description : string;
  ci_creator : option Z;
  ci_members : list Z
}.

Definition has_creator (c : ChannelInfo) : bool := bool_decide (is_Some (ci_creator c)).

Definition creator (c : ChannelInfo) : Z := default 0 (ci_creator c).

Record StoredObject := MkStoredObject {
  so_object_id : Z;
  so_object_token : string;
  so_creator_principal : Z;
  so_name : string;
  so_type : string;
  so_description : string;
  so_nbytes : Z
}.

(** The protobuf message of src/storage/object_record.proto. *)
Record ObjectRecord := MkObjectRecord {
  or_object_id : Z;
  or_object_token : string;
  or_creator_principal : Z;
  or_name : string;
  or_type : string;
  or_description : string;
  or_nbytes : Z
}.

(** [google::protobuf::Value]; a [Struct]'s fields are a map with unique keys. A JSON
    number is held as a finite double, that is, as a rational. *)
Inductive PbValue :=
  | PbNull
  | PbNumber (q : Q)
  | PbString (s : string)
  | PbBool (b : bool)
  | PbStruct (fields : list (string * PbValue))
  | PbList (values : list PbValue)
  | PbKindNotSet.

Definition pb_find (fields : list (string * PbValue)) (k : string) : option PbValue :=
  (fun p => p.2.2) <$> list_find (fun kv => kv.1 = k) fields.

#[export] Instance Visibility_eq_dec : EqDecision Visibility.
Proof. solve_decision. Defined.
#[export] Instance ChannelFilter_eq_dec : EqDecision ChannelFilter.
Proof. solve_decision. Defined.
#[export] Instance ObjectKey_eq_dec : EqDecision ObjectKey.
Proof. solve_decision. Defined.
#[export] Instance EventMessage_eq_dec : EqDecision EventMessage.
Proof. solve_decision. Defined.
#[export] Instance ChannelInfo_eq_dec : EqDecision ChannelInfo.
Proof. solve_decision. Defined.
#[export] Instance StoredObject_eq_dec : EqDecision StoredObject.
Proof. solve_decision. Defined.
#[export] Instance ObjectRecord_eq_dec : EqDecision ObjectRecord.
Proof. solve_decision. Defined.

(** The requests and responses of the RPCs. *)
Record PublishRequest := {
  pr_principal : Z; pr_token : string; pr_channel_id : Z; pr_seq : Z; pr_uuid : Z;
  pr_recipients : list Z; pr_payload : string; pr_object_keys : list ObjectKey
}.

Record PublishAutoSeqRequest := {
  pa_principal : Z; pa_token : string; pa_channel_id : Z; pa_uuid : Z;
  pa_recipients : list Z; pa_payload : string; pa_object_keys : list ObjectKey
}.

Record FetchRequest := {
  fr_principal : Z; fr_token : string; fr_from_seq : Z; fr_limit : Z;
  fr_only_my_recipient : bool; fr_channels : list Z
}.

Record FetchResponse := {
  fs_messages : list EventMessage; fs_last_seq : Z; fs_next_seq : Z
}.

Record CreateChannelRequest := {
  cr_principal : Z; cr_token : string; cr_name : string; cr_visibility : Visibility;
  cr_protocol : string; cr_description : string; cr_members : list Z
}.

Record MemberRequest := {
  mr_principal : Z; mr_token : string; mr_channel_id : Z; mr_target_principal : Z
}.

Record WriteObjectRequest := {
  wr_principal : Z; wr_token : string; wr_name : string; wr_type : string;
  wr_description : string; wr_data : string
}.

Record ObjectMetadata := {
  om_name : string; om_type : string; om_description : string; om_nbytes : Z
}.
