(* ===== verification/Json.v ===== *)
(** * System-message payloads (src/service/open_event_core.cpp)

    The JSON text the server writes for channel events, and a reference reader
    for a subset of RFC 8259 against which the writers are proved: what is read
    back from a payload is exactly what was put in, whatever bytes the names
    contain.  The reader also states what the server relies on from protobuf's
    JSON parser (see [Platform]). *)

From Stdlib Require Import QArith Qround.
From S2P Require Import Prelude Status Tokens Proto.

(** The double quote; [raw] writes a C++ raw string literal with ['] for the quote. *)
Definition dquote : ascii := "034"%char.
Definition backslash : ascii := "092"%char.

Fixpoint raw (s : string) : string :=
  match s with
  | EmptyString => ""
  | String c s => String (if Ascii.eqb c "'"%char then dquote else c) (raw s)
  end.

(** ** The writers *)

Fixpoint JsonString_body (value : string) : string :=
  match value with
  | EmptyString => ""
  | String c value =>
      let ch := Z_of_byte c in
      (if (ch =? 34) || (ch =? 92) then String backslash (String c "")
       else if ch <? 32 then
         "\u00" +:+ String (char_at kHex (Z.shiftr ch 4)) (String (char_at kHex (Z.land ch 15)) "")
       else String c "") +:+ JsonString_body value
  end.

Definition JsonString (value : string) : string :=
  String dquote (JsonString_body value +:+ String dquote "").

Definition visibility_text (v : Visibility) : string :=
  match v with
  | VISIBILITY_PRIVATE => "private"
  | VISIBILITY_PROTECTED => "protected"
  | _ => "public"
  end.

Fixpoint members_text (members : list Z) : string :=
  match members with
  | [] => ""
  | [m] => to_string m
  | m :: members => to_string m +:+ String "," (members_text members)
  end.

Definition ChannelInitializedPayload (channel : ChannelInfo) : string :=
  raw "{'kind':'system.channel_initialized','data':{'schema_version':1,'name':" +:+
  JsonString (ci_name channel) +:+ raw ",'protocol':" +:+ JsonString (ci_protocol channel) +:+
  raw ",'description':" +:+ JsonString (ci_description channel) +:+ raw ",'visibility':'" +:+
  visibility_text (ci_visibility channel) +:+ raw "','creator':" +:+
  to_string (creator channel) +:+ raw ",'members':[" +:+
  members_text (ci_members channel) +:+ "]}}".

Definition MemberChangedPayload (kind : string) (member : Z) : string :=
  raw "{'kind':'" +:+ kind +:+ raw "','data':{'schema_version':1,'member':" +:+
  to_string member +:+ "}}".

(** ** A reference JSON reader *)

Definition utf8_cont (c : ascii) (lo hi : Z) : bool :=
  (lo <=? Z_of_byte c) && (Z_of_byte c <=? hi).

Fixpoint utf8_valid (s : string) : bool :=
  match s with
  | EmptyString => true
  | String c r =>
      let b := Z_of_byte c in
      if b <? 128 then utf8_valid r
      else if (194 <=? b) && (b <=? 223) then
        match r with String c1 r => utf8_cont c1 128 191 && utf8_valid r | _ => false end
      else if (224 <=? b) && (b <=? 239) then
        match r with
        | String c1 (String c2 r) =>
            utf8_cont c1 (if b =? 224 then 160 else 128) (if b =? 237 then 159 else 191) &&
            utf8_cont c2 128 191 && utf8_valid r
        | _ => false
        end
      else if (240 <=? b) && (b <=? 244) then
        match r with
        | String c1 (String c2 (String c3 r)) =>
            utf8_cont c1 (if b =? 240 then 144 else 128) (if b =? 244 then 143 else 191) &&
            utf8_cont c2 128 191 && utf8_cont c3 128 191 && utf8_valid r
        | _ => false
        end
      else false
  end.

(** Round to nearest, ties to even, on 53 bits: the double nearest to an integer. *)
Definition round_double (n : Z) : Z :=
  if n <? 2 ^ 53 then n
  else
    let e := Z.log2 n - 52 in
    let m := n / 2 ^ e in
    let r := n mod 2 ^ e in
    let h := 2 ^ (e - 1) in
    (if (h <? r) || ((r =? h) && Z.odd m) then m + 1 else m) * 2 ^ e.

Definition hex_val (c : ascii) : option Z :=
  let v := index_of c kHex in if v <? 16 then Some v else None.

Definition cons_char (c : ascii) (r : option (string * string)) : option (string * string) :=
  match r with Some (s, rest) => Some (String c s, rest) | None => None end.

(** The characters of a string literal up to the closing quote, escapes resolved.
    [\u] escapes are read only below U+0080. *)
Fixpoint read_chars (s : string) : option (string * string) :=
  match s with
  | EmptyString => None
  | String c r =>
      if Ascii.eqb c dquote then Some ("", r)
      else if Ascii.eqb c backslash then
        match r with
        | String e r' =>
            if Ascii.eqb e dquote || Ascii.eqb e backslash || Ascii.eqb e "/"%char
            then cons_char e (read_chars r')
            else if Ascii.eqb e "u"%char then
              match r' with
              | String h1 (String h2 (String h3 (String h4 r''))) =>
                  match hex_val h1, hex_val h2, hex_val h3, hex_val h4 with
                  | Some 0, Some 0, Some v3, Some v4 =>
                      if v3 <? 8 then cons_char (byte_of_Z (v3 * 16 + v4)) (read_chars r'')
                      else None
                  | _, _, _, _ => None
                  end
              | _ => None
              end
            else None
        | EmptyString => None
        end
      else if Z_of_byte c <? 32 then None
      else cons_char c (read_chars r)
  end.

Definition read_string (s : string) : option (string * string) :=
  match read_chars s with
  | Some (v, rest) => if utf8_valid v then Some (v, rest) else None
  | None => None
  end.

Definition is_digit (c : ascii) : bool := (48 <=? Z_of_byte c) && (Z_of_byte c <=? 57).

Fixpoint read_digits (acc : Z) (s : string) : Z * string :=
  match s with
  | String c r => if is_digit c then read_digits (acc * 10 + (Z_of_byte c - 48)) r else (acc, s)
  | EmptyString => (acc, s)
  end.

(** A natural number without leading zeros, fraction or exponent. *)
Definition read_nat (s : string) : option (Z * string) :=
  match s with
  | String c r =>
      if is_digit c then
        let '(n, rest) := read_digits (Z_of_byte c - 48) r in
        match rest with
        | String d _ =>
            if Ascii.eqb d "."%char || Ascii.eqb d "e"%char || Ascii.eqb d "E"%char then None
            else if Ascii.eqb c "0"%char && negb (String.length rest =? String.length r)%nat then None
            else Some (n, rest)
        | EmptyString => None
        end
      else None
  | EmptyString => None
  end.

Definition read_char (c : ascii) (s : string) : option string :=
  match s with
  | String d r => if Ascii.eqb c d then Some r else None
  | EmptyString => None
  end.

Fixpoint read_value (fuel : nat) (s : string) {struct fuel} : option (PbValue * string) :=
  match fuel with
  | O => None
  | S fuel =>
      match s with
      | EmptyString => None
      | String c r =>
          if Ascii.eqb c dquote then
            '(v, rest) ← read_string r; Some (PbString v, rest)
          else if Ascii.eqb c "{"%char then
            '(fs, rest) ← read_members fuel r;
            if decide (NoDup fs.*1) then Some (PbStruct fs, rest) else None
          else if Ascii.eqb c "["%char then
            '(vs, rest) ← read_elements fuel r; Some (PbList vs, rest)
          else
            '(n, rest) ← read_nat s; Some (PbNumber (inject_Z (round_double n)), rest)
      end
  end
with read_members (fuel : nat) (s : string) {struct fuel} :
    option (list (string * PbValue) * string) :=
  match fuel with
  | O => None
  | S fuel =>
      r ← read_char dquote s;
      '(k, r) ← read_string r;
      r ← read_char ":"%char r;
      '(v, r) ← read_value fuel r;
      match r with
      | String d r' =>
          if Ascii.eqb d "}"%char then Some ([(k, v)], r')
          else if Ascii.eqb d ","%char then
            '(fs, rest) ← read_members fuel r'; Some ((k, v) :: fs, rest)
          else None
      | EmptyString => None
      end
  end
with read_elements (fuel : nat) (s : string) {struct fuel} : option (list PbValue * string) :=
  match fuel with
  | O => None
  | S fuel =>
      '(v, r) ← read_value fuel s;
      match r with
      | String d r' =>
          if Ascii.eqb d "]"%char then Some ([v], r')
          else if Ascii.eqb d ","%char then
            '(vs, rest) ← read_elements fuel r'; Some (v :: vs, rest)
          else None
      | EmptyString => None
      end
  end.

(** A JSON text whose value is an object: the fields of the [Struct]. *)
Definition read_struct (text : string) : option (list (string * PbValue)) :=
  match read_value (String.length text) text with
  | Some (PbStruct fs, EmptyString) => Some fs
  | _ => None
  end.

(** ** Reading back what was written *)

Lemma cons_char_some c v rest : cons_char c (Some (v, rest)) = Some (String c v, rest).
Proof. done. Qed.

(** Escaping one character: the reader undoes it. *)
Lemma read_chars_body s rest :
  read_chars (JsonString_body s +:+ String dquote rest) = Some (s, rest).
Proof.
  induction s as [|c s IH]; [done|].
  assert (H : forall e, (forall t, read_chars (e +:+ t) = cons_char c (read_chars t)) ->
    read_chars ((e +:+ JsonString_body s) +:+ String dquote rest) = Some (String c s, rest)).
  { intros e He. rewrite str_app_assoc, He, IH. done. }
  cbn [JsonString_body]. apply H. clear H IH.
  by destruct c as [[] [] [] [] [] [] [] []]; intros t.
Qed.

Lemma read_string_body s rest :
  utf8_valid s = true ->
  read_string (JsonString_body s +:+ String dquote rest) = Some (s, rest).
Proof. intros H. unfold read_string. by rewrite read_chars_body, H. Qed.

(** Decimal digits. *)
Lemma dec_digit_char d : 0 <= d < 10 -> is_digit (byte_of_Z (48 + d)) = true /\
  Z_of_byte (byte_of_Z (48 + d)) - 48 = d.
Proof.
  intros Hd. unfold is_digit. rewrite Z_of_byte_of_Z by lia. split; [|lia].
  apply andb_true_intro. split; apply Z.leb_le; lia.
Qed.

Lemma read_digits_dec f n acc rest :
  0 <= n < 10 ^ Z.of_nat f ->
  exists k, read_digits acc (dec_digits f n +:+ rest) = read_digits (acc * 10 ^ k + n) rest
            /\ 0 <= k.
Proof.
  revert n acc rest. induction f as [|f IH]; intros n acc rest Hn.
  { exists 0. simpl in *. replace n with 0 by lia. split; [|lia]. f_equal; lia. }
  cbn [dec_digits]. destruct (Z.ltb_spec n 10).
  - exists 1. split; [|lia]. unfold dec_digit. cbn [String.append read_digits].
    destruct (dec_digit_char n ltac:(lia)) as [-> ->]. f_equal; lia.
  - rewrite Nat2Z.inj_succ, Z.pow_succ_r in Hn by lia.
    rewrite str_app_assoc.
    destruct (IH (n / 10) acc (dec_digit (n mod 10) +:+ rest)) as (k & -> & Hk).
    { split; [apply Z.div_pos; lia|apply Z.div_lt_upper_bound; lia]. }
    exists (k + 1). split; [|lia]. unfold dec_digit. cbn [String.append read_digits].
    destruct (dec_digit_char (n mod 10) ltac:(apply Z.mod_pos_bound; lia)) as [-> ->].
    f_equal. rewrite Z.pow_add_r by lia. pose proof (Z.div_mod n 10 ltac:(lia)). lia.
Qed.

Lemma dec_digits_head f n :
  0 < n < 10 ^ Z.of_nat f ->
  exists c r, dec_digits f n = String c r /\ is_digit c = true /\ Ascii.eqb c "0"%char = false.
Proof.
  revert n. induction f as [|f IH]; intros n Hn; [simpl in Hn; lia|].
  cbn [dec_digits]. destruct (Z.ltb_spec n 10).
  - exists (byte_of_Z (48 + n)), "". destruct (dec_digit_char n ltac:(lia)) as [-> Hc].
    split; [done|]. split; [done|]. apply Ascii.eqb_neq. intros E. rewrite E in Hc.
    change (Z_of_byte "0"%char) with 48 in Hc. lia.
  - rewrite Nat2Z.inj_succ, Z.pow_succ_r in Hn by lia.
    destruct (IH (n / 10)) as (c & r & -> & H1 & H2).
    { split; [apply Z.div_str_pos; lia|apply Z.div_lt_upper_bound; lia]. }
    by eexists c, _.
Qed.

(** A number in a payload ends at a comma, a bracket or a brace. *)
Definition json_sep (c : ascii) : Prop := c = ","%char \/ c = "]"%char \/ c = "}"%char.

Lemma read_nat_to_string n c rest :
  0 < n < two64 -> json_sep c ->
  read_nat (to_string n +:+ String c rest) = Some (n, String c rest).
Proof.
  intros Hn Hc. unfold to_string.
  assert (Hb : 0 <= n < 10 ^ Z.of_nat 20) by (unfold two64 in *; simpl; lia).
  destruct (dec_digits_head 20 n ltac:(lia)) as (d & r & E & Hd & H0).
  destruct (read_digits_dec 20 n 0 (String c rest) Hb) as (k & Hr & _).
  rewrite E in *. cbn [String.append read_nat read_digits] in *. rewrite Hd, H0 in *.
  replace (0 * 10 + (Z_of_byte d - 48)) with (Z_of_byte d - 48) in Hr by lia. rewrite Hr.
  replace (0 * 10 ^ k + n) with n by lia.
  by destruct Hc as [-> | [-> | ->]].
Qed.

(** The bodies of the reader, with the recursive calls abstracted. *)
Definition value_body (members : string -> option (list (string * PbValue) * string))
    (elements : string -> option (list PbValue * string)) (s : string) :=
  match s with
  | EmptyString => None
  | String c r =>
      if Ascii.eqb c dquote then '(v, rest) ← read_string r; Some (PbString v, rest)
      else if Ascii.eqb c "{"%char then
        '(fs, rest) ← members r;
        if decide (NoDup fs.*1) then Some (PbStruct fs, rest) else None
      else if Ascii.eqb c "["%char then
        '(vs, rest) ← elements r; Some (PbList vs, rest)
      else '(n, rest) ← read_nat s; Some (PbNumber (inject_Z (round_double n)), rest)
  end.

Definition items_body {A} (close : ascii) (item : string -> option (A * string))
    (items : string -> option (list A * string)) (s : string) : option (list A * string) :=
  '(v, r) ← item s;
  match r with
  | String d r' =>
      if Ascii.eqb d close then Some ([v], r')
      else if Ascii.eqb d ","%char then '(vs, rest) ← items r'; Some (v :: vs, rest)
      else None
  | EmptyString => None
  end.

Definition member_body (value : string -> option (PbValue * string)) (s : string) :
    option ((string * PbValue) * string) :=
  r ← read_char dquote s;
  '(k, r) ← read_string r;
  r ← read_char ":"%char r;
  '(v, r) ← value r; Some ((k, v), r).

Lemma read_value_S f s :
  read_value (S f) s = value_body (read_members f) (read_elements f) s.
Proof. done. Qed.

Lemma read_members_S f s :
  read_members (S f) s = items_body "}"%char (member_body (read_value f)) (read_members f) s.
Proof.
  cbn [read_members]. unfold items_body, member_body.
  destruct (read_char dquote s) as [r1|]; [simpl|done].
  destruct (read_string r1) as [[k r2]|]; [simpl|done].
  destruct (read_char ":" r2) as [r3|]; [simpl|done].
  by destruct (read_value f r3) as [[v r4]|].
Qed.

Lemma read_elements_S f s :
  read_elements (S f) s = items_body "]"%char (read_value f) (read_elements f) s.
Proof. done. Qed.

(** More fuel never changes an answer. *)
Definition extends {A} (f g : string -> option A) : Prop :=
  forall s r, f s = Some r -> g s = Some r.

Lemma value_body_mono m m' e e' :
  extends m m' -> extends e e' -> extends (value_body m e) (value_body m' e').
Proof.
  intros Hm He [|c t] r; [done|]. unfold value_body. repeat case_match; try done.
  - destruct (m t) as [p|] eqn:E; [|done]. by rewrite (Hm _ _ E).
  - destruct (e t) as [p|] eqn:E; [|done]. by rewrite (He _ _ E).
Qed.

Lemma items_body_mono {A} c (i i' : string -> option (A * string)) l l' :
  extends i i' -> extends l l' -> extends (items_body c i l) (items_body c i' l').
Proof.
  intros Hi Hl s r. unfold items_body. destruct (i s) as [[v r1]|] eqn:E; [|done].
  rewrite (Hi _ _ E). simpl. destruct r1 as [|d r1]; [done|]. repeat case_match; try done.
  destruct (l r1) as [p|] eqn:E'; [|done]. by rewrite (Hl _ _ E').
Qed.

Lemma member_body_mono v v' : extends v v' -> extends (member_body v) (member_body v').
Proof.
  intros Hv s r. unfold member_body.
  destruct (read_char dquote s) as [r1|]; [simpl|done].
  destruct (read_string r1) as [[k r2]|]; [simpl|done].
  destruct (read_char ":" r2) as [r3|]; [simpl|done].
  destruct (v r3) as [p|] eqn:E; [|done]. by rewrite (Hv _ _ E).
Qed.

Lemma read_mono f :
  extends (read_value f) (read_value (S f)) /\
  extends (read_members f) (read_members (S f)) /\
  extends (read_elements f) (read_elements (S f)).
Proof.
  induction f as [|f (IHv & IHm & IHe)]; [done|].
  split_and!; intros s r;
    rewrite ?read_value_S, ?read_members_S, ?read_elements_S;
    [apply value_body_mono|apply items_body_mono|apply items_body_mono];
    auto using member_body_mono.
Qed.

Lemma read_value_le f f' s r :
  read_value f s = Some r -> (f <= f')%nat -> read_value f' s = Some r.
Proof.
  intros H Hle. induction Hle as [|f' _ IH]; [done|]. by apply read_mono.
Qed.

(** ** Composition rules for payloads *)

Lemma read_value_string f s rest :
  utf8_valid s = true ->
  read_value (S f) (JsonString s +:+ rest) = Some (PbString s, rest).
Proof.
  intros H. unfold JsonString. cbn [String.append]. rewrite read_value_S. unfold value_body.
  simpl Ascii.eqb. cbv iota. rewrite str_app_assoc. cbn [String.append].
  by rewrite read_string_body.
Qed.

Lemma read_value_number f n c rest :
  0 < n < two64 -> json_sep c ->
  read_value (S f) (to_string n +:+ String c rest) =
  Some (PbNumber (inject_Z (round_double n)), String c rest).
Proof.
  intros Hn Hc. pose proof (read_nat_to_string n c rest Hn Hc) as H.
  destruct (dec_digits_head 20 n) as (d & r & E & Hd & _).
  { unfold two64 in Hn. simpl. lia. }
  rewrite read_value_S. fold (to_string n) in E. rewrite E in *. cbn [String.append] in *.
  unfold value_body. rewrite H.
  assert (Hne : forall x, is_digit x = false -> Ascii.eqb d x = false).
  { intros x Hx. apply Ascii.eqb_neq. congruence. }
  by rewrite !Hne by done.
Qed.

Lemma read_members_more f s r1 k r2 r3 v r4 fs rest :
  read_char dquote s = Some r1 -> read_string r1 = Some (k, r2) ->
  read_char ":"%char r2 = Some r3 -> read_value f r3 = Some (v, String ","%char r4) ->
  read_members f r4 = Some (fs, rest) -> read_members (S f) s = Some ((k, v) :: fs, rest).
Proof.
  intros H1 H2 H3 H4 H5. rewrite read_members_S. unfold items_body, member_body.
  rewrite H1. simpl. rewrite H2. simpl. rewrite H3. simpl. rewrite H4. simpl. by rewrite H5.
Qed.

Lemma read_members_last f s r1 k r2 r3 v rest :
  read_char dquote s = Some r1 -> read_string r1 = Some (k, r2) ->
  read_char ":"%char r2 = Some r3 -> read_value f r3 = Some (v, String "}"%char rest) ->
  read_members (S f) s = Some ([(k, v)], rest).
Proof.
  intros H1 H2 H3 H4. rewrite read_members_S. unfold items_body, member_body.
  rewrite H1. simpl. rewrite H2. simpl. rewrite H3. simpl. by rewrite H4.
Qed.

Lemma read_value_struct f s fs rest :
  read_members f s = Some (fs, rest) -> NoDup fs.*1 ->
  read_value (S f) (String "{"%char s) = Some (PbStruct fs, rest).
Proof.
  intros H1 H2. rewrite read_value_S. unfold value_body. simpl Ascii.eqb. cbv iota.
  rewrite H1. simpl. by rewrite decide_True.
Qed.

Definition number (n : Z) : PbValue := PbNumber (inject_Z (round_double n)).

Lemma read_elements_numbers l f rest :
  l <> [] -> Forall (fun n => 0 < n < two64) l -> (length l < f)%nat ->
  read_elements f (members_text l +:+ String "]"%char rest) = Some (number <$> l, rest).
Proof.
  intros Hne Hl. revert f. induction l as [|n l IH]; [done|]. intros f Hf.
  apply Forall_cons in Hl as [Hn Hl]. destruct f as [|[|f]]; simpl in Hf; [lia..|].
  rewrite read_elements_S. unfold items_body. destruct l as [|m l].
  - cbn [members_text]. rewrite read_value_number by (done || by right; left). done.
  - cbn [members_text]. rewrite str_app_assoc. cbn [String.append].
    rewrite read_value_number by (done || by left).
    unfold mbind, option_bind. simpl Ascii.eqb. cbv iota.
    rewrite IH by (done || simpl in *; lia). done.
Qed.

Lemma read_value_numbers l f rest :
  l <> [] -> Forall (fun n => 0 < n < two64) l -> (length l < f)%nat ->
  read_value (S f) (String "["%char (members_text l +:+ String "]"%char rest)) =
  Some (PbList (number <$> l), rest).
Proof.
  intros H1 H2 H3. rewrite read_value_S. unfold value_body. simpl Ascii.eqb. cbv iota.
  by rewrite read_elements_numbers.
Qed.

(** ** The payloads *)

Definition principals_ok (l : list Z) : Prop := Forall (fun n => 0 < n < two64) l.

Definition channel_initialized_struct (ch : ChannelInfo) : list (string * PbValue) :=
  [("kind", PbString "system.channel_initialized");
   ("data", PbStruct
     [("schema_version", number 1); ("name", PbString (ci_name ch));
      ("protocol", PbString (ci_protocol ch)); ("description", PbString (ci_description ch));
      ("visibility", PbString (visibility_text (ci_visibility ch)));
      ("creator", number (creator ch)); ("members", PbList (number <$> ci_members ch))])].

Definition member_changed_struct (kind : string) (member : Z) : list (string * PbValue) :=
  [("kind", PbString kind);
   ("data", PbStruct [("schema_version", number 1); ("member", number member)])].

(** One member of an object whose text up to the value is a literal. *)
Ltac json_member rule := eapply rule; [reflexivity|reflexivity|reflexivity|..].

Lemma members_text_length l : (length l <= String.length (members_text l) + 1)%nat.
Proof.
  induction l as [|n [|m l] IH]; simpl; [lia..|].
  cbn [members_text]. rewrite str_length_app. simpl in *. lia.
Qed.

Lemma read_struct_le f text fs :
  read_value f text = Some (PbStruct fs, "") -> (f <= String.length text)%nat ->
  read_struct text = Some fs.
Proof. intros H Hf. unfold read_struct. by rewrite (read_value_le _ _ _ _ H Hf). Qed.

Lemma read_ChannelInitializedPayload ch :
  utf8_valid (ci_name ch) = true -> utf8_valid (ci_protocol ch) = true ->
  utf8_valid (ci_description ch) = true -> 0 < creator ch < two64 ->
  ci_members ch <> [] -> principals_ok (ci_members ch) ->
  read_struct (ChannelInitializedPayload ch) = Some (channel_initialized_struct ch).
Proof.
  intros Hn Hp Hd Hc Hne Hm.
  apply (read_struct_le (16 + length (ci_members ch))).
  - unfold ChannelInitializedPayload. cbn [raw String.append Nat.add].
    apply read_value_struct; [|apply (bool_decide_unpack _); reflexivity].
    json_member read_members_more; [reflexivity|].
    json_member read_members_last.
    apply read_value_struct; [|apply (bool_decide_unpack _); reflexivity].
    json_member read_members_more; [reflexivity|].
    json_member read_members_more; [by apply read_value_string|].
    json_member read_members_more; [by apply read_value_string|].
    json_member read_members_more; [by apply read_value_string|].
    json_member read_members_more; [by destruct (ci_visibility ch)|].
    json_member read_members_more; [apply read_value_number; [done|by left]|].
    json_member read_members_last. apply read_value_numbers; auto; lia.
  - pose proof (members_text_length (ci_members ch)).
    unfold ChannelInitializedPayload. rewrite !str_length_app. simpl. lia.
Qed.

Lemma read_MemberChangedPayload kind member :
  kind = "system.member_added" \/ kind = "system.member_removed" -> 0 < member < two64 ->
  read_struct (MemberChangedPayload kind member) = Some (member_changed_struct kind member).
Proof.
  intros Hk Hm. apply (read_struct_le 8).
  - unfold MemberChangedPayload.
    destruct Hk as [-> | ->]; cbn [raw String.append];
    (apply read_value_struct; [|apply (bool_decide_unpack _); reflexivity];
     json_member read_members_more; [reflexivity|];
     json_member read_members_last;
     apply read_value_struct; [|apply (bool_decide_unpack _); reflexivity];
     json_member read_members_more; [reflexivity|];
     json_member read_members_last; apply read_value_number; [done|by right; right]).
  - unfold MemberChangedPayload. rewrite !str_length_app. simpl. lia.
Qed.

(** ** Principals as doubles *)

Lemma round_double_bound n : 0 < n < two64 -> 0 < round_double n <= two64.
Proof.
  intros Hn. unfold round_double. destruct (Z.ltb_spec n (2 ^ 53)); [lia|].
  set (e := Z.log2 n - 52). set (m := n / 2 ^ e).
  pose proof (Z.log2_spec n ltac:(lia)) as [Hl Hu].
  assert (Z.log2 n <= 63).
  { change 63 with (Z.log2 (two64 - 1)). apply Z.log2_le_mono. lia. }
  assert (53 <= Z.log2 n).
  { change 53 with (Z.log2 (2 ^ 53)) at 1. apply Z.log2_le_mono. lia. }
  assert (0 < 2 ^ e) by (apply Z.pow_pos_nonneg; lia).
  assert (Hu' : n < 2 ^ 53 * 2 ^ e).
  { rewrite <- Z.pow_add_r by lia. replace (53 + e) with (Z.succ (Z.log2 n)) by lia. done. }
  assert (0 < m < 2 ^ 53).
  { split; [apply Z.div_str_pos; split; [lia|]|apply Z.div_lt_upper_bound; lia].
    transitivity (2 ^ Z.log2 n); [apply Z.pow_le_mono_r; lia|done]. }
  assert (2 ^ e <= 2 ^ 11) by (apply Z.pow_le_mono_r; lia).
  change two64 with (2 ^ 53 * 2 ^ 11). case_match; nia.
Qed.
