(* ===== verification/Platform.v ===== *)
(** * What the server calls but does not contain

    RocksDB, protobuf, OpenSSL, the kernel and the gRPC context are parameters of
    the model: each is a class of operations over an abstract state, and a second
    class states the documented behaviour the theorems rely on.  Every operation
    can fail, and differently each time it is called. *)

From S2P Require Import Prelude Status Encoding Tokens Proto Json.

(** ** RocksDB *)

(** The default column family holds the metadata. *)
Inductive ColumnFamily := CF_meta | CF_messages | CF_objects.

#[export] Instance ColumnFamily_eq_dec : EqDecision ColumnFamily.
Proof. solve_decision. Defined.

#[export] Instance ColumnFamily_countable : Countable ColumnFamily.
Proof.
  refine (inj_countable'
    (fun c => match c with CF_meta => 0%nat | CF_messages => 1%nat | CF_objects => 2%nat end)
    (fun n => match n with 0%nat => CF_meta | 1%nat => CF_messages | _ => CF_objects end) _).
  by intros [].
Defined.

(** The contents of a database. *)
Abbreviation Db := (gmap (ColumnFamily * string) string).

Inductive RocksCode := kOk | kNotFound | kCorruption | kOtherCode (n : Z).

#[export] Instance RocksCode_eq_dec : EqDecision RocksCode.
Proof. solve_decision. Defined.

(** [rocksdb::Status]: enums, and a free-form state that can quote keys and values. *)
Record RocksStatus := MkRocksStatus {
  rs_code : RocksCode; rs_subcode : Z; rs_severity : Z; rs_state : string
}.

Definition rocks_ok (s : RocksStatus) : bool := bool_decide (rs_code s = kOk).
Definition IsNotFound (s : RocksStatus) : bool := bool_decide (rs_code s = kNotFound).
Definition IsCorruption (s : RocksStatus) : bool := bool_decide (rs_code s = kCorruption).

(** [rocksdb::WriteBatch]. *)
Inductive BatchOp :=
  | BPut (cf : ColumnFamily) (key value : string)
  | BDelete (cf : ColumnFamily) (key : string).

Abbreviation WriteBatch := (list BatchOp).

Definition apply_op (d : Db) (op : BatchOp) : Db :=
  match op with
  | BPut cf k v => <[(cf, k) := v]> d
  | BDelete cf k => delete (cf, k) d
  end.

Definition apply_batch (b : WriteBatch) (d : Db) : Db := fold_left apply_op b d.

(** [rocksdb::WriteOptions], the two options the storage sets. *)
Record WriteOptions := MkWriteOptions { wo_sync : bool; wo_disableWAL : bool }.

Class RocksDB := {
  rocks_ToString : RocksStatus -> string;
  db_t : Type;
  snap_t : Type;
  (** The contents a database holds and a snapshot shows. *)
  db_view : db_t -> Db;
  (** The contents it can have when it is opened again after a crash. *)
  db_disk : db_t -> Db -> Prop;
  snap_view : snap_t -> Db;
  db_GetSnapshot : db_t -> option snap_t * db_t;
  db_Get : snap_t -> ColumnFamily -> string -> db_t -> (RocksStatus * string) * db_t;
  db_MultiGet : snap_t -> ColumnFamily -> list string -> db_t ->
                list (RocksStatus * string) * db_t;
  (** An iterator after [Seek]: the entries it will visit and its final status. Without a
      snapshot it reads the current contents. *)
  db_Iterate : option snap_t -> ColumnFamily -> string -> db_t ->
               (list (string * string) * RocksStatus) * db_t;
  db_Write : WriteOptions -> WriteBatch -> db_t -> RocksStatus * db_t
}.

Definition get_agrees (d : Db) (cf : ColumnFamily) (k : string) (r : RocksStatus * string) : Prop :=
  (rocks_ok r.1 = true -> d !! (cf, k) = Some r.2) /\
  (IsNotFound r.1 = true -> d !! (cf, k) = None).

Definition key_lt (a b : string * string) : Prop := str_lt a.1 b.1.

(** The entries of a column family from a target key on, in key order. *)
Definition is_iteration (d : Db) (cf : ColumnFamily) (target : string)
    (l : list (string * string)) : Prop :=
  StronglySorted key_lt l /\
  forall k v, (k, v) ∈ l <-> d !! (cf, k) = Some v /\ str_le target k.

(** Everything a database holds: the contents now, and those a crash can leave. *)
Abbreviation db_data d := (db_view d, db_disk d).

Class RocksDBSpec `{RocksDB} : Prop := {
  (** A snapshot shows the contents at the time it is taken; reading changes nothing. *)
  GetSnapshot_spec d : let '(s, d') := db_GetSnapshot d in
    db_data d' = db_data d /\ (forall s', s = Some s' -> snap_view s' = db_view d);
  Get_spec s cf k d : let '(r, d') := db_Get s cf k d in
    db_data d' = db_data d /\ get_agrees (snap_view s) cf k r;
  MultiGet_spec s cf ks d : let '(rs, d') := db_MultiGet s cf ks d in
    db_data d' = db_data d /\ Forall2 (get_agrees (snap_view s) cf) ks rs;
  (** Iteration is in key order; an iterator that stops early says so in its status. *)
  Iterate_spec o cf target d : let '((l, st), d') := db_Iterate o cf target d in
    db_data d' = db_data d /\
    exists full, is_iteration (from_option snap_view (db_view d) o) cf target full /\
      l `prefix_of` full /\ (rocks_ok st = true -> l = full);
  (** A batch is applied atomically: all of it, or, when an error is reported, all or
      nothing. Once a synchronous write through the log has succeeded a crash leaves nothing
      else; after an error a crash can leave the batch or not, whatever the contents show. *)
  Write_spec o b d : let '(st, d') := db_Write o b d in
    if rocks_ok st
    then db_view d' = apply_batch b (db_view d) /\
         (wo_sync o = true -> wo_disableWAL o = false -> forall x, db_disk d' x -> x = db_view d')
    else (db_view d' = db_view d \/ db_view d' = apply_batch b (db_view d)) /\
         (forall x, db_disk d' x -> db_disk d x \/ x = db_view d \/ x = apply_batch b (db_view d))
}.

(** ** Protobuf *)

Class Protobuf := {
  SerializeMessage : EventMessage -> option string;
  ParseMessage : string -> option EventMessage;
  MessageByteSize : EventMessage -> Z;
  SerializeChannel : ChannelInfo -> option string;
  ParseChannel : string -> option ChannelInfo;
  SerializeRecord : ObjectRecord -> option string;
  ParseRecord : string -> option ObjectRecord;
  (** The contents a payload field can have: any bytes, or UTF-8 text, by the schema. *)
  payload_text_ok : string -> bool;
  Visibility_IsValid : Visibility -> bool;
  JsonStringToMessage : string -> option (list (string * PbValue))
}.

(** Text fields hold UTF-8; the parser rejects anything else. *)
Definition message_text_ok `{Protobuf} (m : EventMessage) : Prop :=
  payload_text_ok (em_payload m) = true /\
  Forall (fun k => utf8_valid (ok_object_token k) = true) (em_object_keys m).

Definition channel_text_ok (c : ChannelInfo) : Prop :=
  utf8_valid (ci_name c) = true /\ utf8_valid (ci_protocol c) = true /\
  utf8_valid (ci_description c) = true.

Definition record_text_ok (r : ObjectRecord) : Prop :=
  utf8_valid (or_object_token r) = true /\ utf8_valid (or_name r) = true /\
  utf8_valid (or_type r) = true /\ utf8_valid (or_description r) = true.

Class ProtobufSpec `{Protobuf} : Prop := {
  ParseMessage_Serialize m s :
    message_text_ok m -> SerializeMessage m = Some s -> ParseMessage s = Some m;
  ParseChannel_Serialize c s :
    channel_text_ok c -> SerializeChannel c = Some s -> ParseChannel s = Some c;
  ParseRecord_Serialize r s :
    record_text_ok r -> SerializeRecord r = Some s -> ParseRecord s = Some r;
  (** No message is larger than 2 GiB. *)
  MessageByteSize_bound m : 0 <= MessageByteSize m < 2 ^ 31;
  payload_text_utf8 p : utf8_valid p = true -> payload_text_ok p = true;
  Visibility_IsValid_named v : (forall n, v <> Visibility_other n) -> Visibility_IsValid v = true;
  (** JSON objects with distinct keys are read as RFC 8259 says. *)
  JsonStringToMessage_spec t fs : read_struct t = Some fs -> JsonStringToMessage t = Some fs
}.

(** ** The host: clock, random numbers, RPC contexts, fault injection *)

Inductive StorageFaultPoint :=
  | kBeforeInitializationCommit | kAfterInitializationCommit | kBeforeCommit | kAfterCommit
  | kAfterTemporaryFileCreate | kBeforeTemporaryFileWrite | kAfterTemporaryFileWrite
  | kBeforeFileFsync | kAfterFileFsync | kBeforeRename | kAfterRename
  | kBeforeDirectoryFsync | kAfterDirectoryFsync.

Definition ENOENT : Z := 2.
Definition EINTR : Z := 4.
Definition EEXIST : Z := 17.
Definition EISDIR : Z := 21.
Definition EPERM : Z := 1.
Definition ENOSPC : Z := 28.
Definition ELOOP : Z := 40.
Definition EDQUOT : Z := 122.

(** [grpc::ServerContext]: [None] is a deadline of [time_point::max()]. *)
Record ServerContext := MkServerContext { ctx_id : Z; ctx_deadline : option Z }.

Class Host := {
  os_t : Type;
  (** Nanoseconds since the epoch on the system clock. *)
  os_system_clock : os_t -> Z * os_t;
  os_IsCancelled : ServerContext -> os_t -> bool * os_t;
  (** [getrandom]: an errno, or the bytes delivered. *)
  os_getrandom : nat -> os_t -> (Z + list Z) * os_t;
  (** How often the kernel makes the caller of [getrandom] try again. *)
  os_getrandom_tries : os_t -> nat;
  (** A [StorageFaultInjector] (none in production). *)
  os_injector : option (StorageFaultPoint -> os_t -> Status * os_t);
  strerror : Z -> string;
  CRYPTO_memcmp : string -> string -> Z
}.

Class HostSpec `{Host} : Prop := {
  CRYPTO_memcmp_spec a b :
    String.length a = String.length b -> CRYPTO_memcmp a b = 0 <-> a = b;
  (** Random bytes arrive, or the call fails; a signal interrupts it a bounded number of
      times. *)
  getrandom_spec n o : (0 < n)%nat -> let '(r, o') := os_getrandom n o in
    match r with
    | inl error => error = EINTR -> (os_getrandom_tries o' < os_getrandom_tries o)%nat
    | inr bytes => (1 <= length bytes <= n)%nat /\ Forall is_byte bytes /\
                   (os_getrandom_tries o' <= os_getrandom_tries o)%nat
    end
}.

Definition InjectStorageFault `{Host} (point : StorageFaultPoint) : M os_t Status :=
  match os_injector with
  | Some inject => inject point
  | None => ret StatusOk
  end.

(** ** Statuses of failed calls *)

Definition RocksToStatus `{RocksDB} (status : RocksStatus) (operation : string) : Status :=
  if rocks_ok status then StatusOk
  else
    let c := if IsCorruption status then DATA_LOSS else UNAVAILABLE in
    let diagnostic := MkRocksStatus (rs_code status) (rs_subcode status) (rs_severity status) "" in
    WithStorageDiagnostic (Fatal c (operation +:+ ": " +:+ rocks_ToString status))
      operation (rocks_ToString diagnostic).

Definition ErrnoMessage `{Host} (operation : string) (error : Z) : string :=
  operation +:+ ": " +:+ strerror error.

Definition ObjectIoStatus `{Host} (operation : string) (error : Z) : Status :=
  if (error =? ENOSPC) || (error =? EDQUOT)
  then mkStatus RESOURCE_EXHAUSTED (ErrnoMessage operation error)
  else mkStatus UNAVAILABLE (ErrnoMessage operation error).

(** ** Faults *)

(** Some call of the database can fail, or a fault injector is installed. *)
Inductive fallible `{RocksDB, Host} : Prop :=
  | Fallible_snapshot d : (db_GetSnapshot d).1 = None -> fallible
  | Fallible_get s cf k d :
      rocks_ok (db_Get s cf k d).1.1 = false -> IsNotFound (db_Get s cf k d).1.1 = false -> fallible
  | Fallible_multi_get s cf ks d r :
      r ∈ (db_MultiGet s cf ks d).1 -> rocks_ok r.1 = false -> IsNotFound r.1 = false -> fallible
  | Fallible_iterate o cf target d : rocks_ok (db_Iterate o cf target d).1.2 = false -> fallible
  | Fallible_write o b d : rocks_ok (db_Write o b d).1 = false -> fallible
  | Fallible_injected : is_Some os_injector -> fallible.

(** An error that a failed call accounts for. *)
Definition reported `{RocksDB, Host} (s : Status) : Prop := code s <> OK /\ fallible.

Definition faulted `{RocksDB, Host} {A} (r : Result A) : Prop :=
  exists s, r = Err s /\ fatal_status s /\ reported s.

(** ** Facts *)

Lemma faulted_err `{RocksDB, Host} {A B} s : @faulted _ _ A (Err s) -> @faulted _ _ B (Err s).
Proof. intros (s' & [= ->] & Hs). by exists s'. Qed.

Lemma faulted_ok `{RocksDB, Host} {A} (a : A) : ~ faulted (Ok a).
Proof. by intros (s & Hs & _). Qed.

#[export] Hint Resolve faulted_err faulted_ok : oe.

Lemma injection_fallible `{RocksDB, Host} point o s o' :
  InjectStorageFault point o = (s, o') -> code s <> OK -> fallible.
Proof.
  unfold InjectStorageFault, ret. intros E Hc. apply Fallible_injected.
  destruct os_injector; [by eexists|]. injection E as <- _. by destruct Hc.
Qed.

Lemma apply_batch_app b1 b2 d : apply_batch (b1 ++ b2) d = apply_batch b2 (apply_batch b1 d).
Proof. apply fold_left_app. Qed.

Lemma RocksToStatus_fatal `{RocksDB} st op :
  rocks_ok st = false -> fatal_status (RocksToStatus st op) /\ code (RocksToStatus st op) <> OK.
Proof. intros Hst. unfold RocksToStatus. rewrite Hst. by destruct (IsCorruption st). Qed.

Lemma RocksToStatus_ok `{RocksDB} st op : rocks_ok st = true -> RocksToStatus st op = StatusOk.
Proof. intros Hst. unfold RocksToStatus. by rewrite Hst. Qed.

Lemma rocks_ok_not_found st : rocks_ok st = true -> IsNotFound st = false.
Proof. unfold rocks_ok, IsNotFound. rewrite bool_decide_eq_true. by intros ->. Qed.

(** A sorted, complete listing is unique. *)
Lemma key_lt_sorted_unique (l1 l2 : list (string * string)) :
  StronglySorted key_lt l1 -> StronglySorted key_lt l2 ->
  (forall x, x ∈ l1 <-> x ∈ l2) -> l1 = l2.
Proof.
  intros H1 H2 Hx.
  assert (Hnd : forall l, StronglySorted key_lt l -> NoDup l).
  { induction 1 as [|x l _ IH Hf]; constructor; [|done]. intros Hin.
    rewrite Forall_forall in Hf. by destruct (irreflexivity str_lt _ (Hf _ Hin)). }
  apply (StronglySorted_unique_strong key_lt); try done.
  - intros x y _ _ Hxy Hyx. destruct (irreflexivity str_lt x.1). by transitivity y.1.
  - apply NoDup_Permutation; auto.
Qed.

Lemma is_iteration_unique d cf t l1 l2 : is_iteration d cf t l1 -> is_iteration d cf t l2 -> l1 = l2.
Proof.
  intros [H1 E1] [H2 E2]. apply key_lt_sorted_unique; [done..|].
  intros [k v]. by rewrite E1, E2.
Qed.
