(* ===== verification/Keys.v ===== *)
(** * The storage layout (src/storage/unified_storage.cpp)

    Keys are a prefix followed by a big-endian integer, tokens follow their
    principal.  [Key] names every record of the database; [key_bytes] is its
    place in RocksDB, and no two records share one. *)

From S2P Require Import Prelude Status Encoding Platform.

Definition kSchemaVersion : Z := 6.
Definition kSchemaVersionKey : string := "meta:schema_version".
Definition kMaxSeqKey : string := "meta:max_seq".
Definition kNextUuidKey : string := "meta:next_uuid".
Definition kNextChannelIdKey : string := "meta:next_channel_id".
Definition kNextObjectIdKey : string := "meta:next_object_id".
Definition kChannelPrefix : string := "ch/".
Definition kTokenPrefix : string := "token/".
Definition kMessagePrefix : string := "msg/".
Definition kUuidPrefix : string := "uuid/".
Definition kPreparingObjectPrefix : string := "preparing/".
Definition kCommittedObjectPrefix : string := "object/".

Definition SynchronousWriteOptions : WriteOptions := MkWriteOptions true false.

(** What a write of the storage leaves for a crash. *)
Lemma Write_sync `{RS : RocksDBSpec} b d : let '(st, d') := db_Write SynchronousWriteOptions b d in
  if rocks_ok st
  then db_view d' = apply_batch b (db_view d) /\ (forall x, db_disk d' x -> x = db_view d')
  else (db_view d' = db_view d \/ db_view d' = apply_batch b (db_view d)) /\
       (forall x, db_disk d' x -> db_disk d x \/ x = db_view d \/ x = apply_batch b (db_view d)).
Proof.
  pose proof (Write_spec SynchronousWriteOptions b d) as Hw. destruct (db_Write _ b d) as [st d'].
  destruct (rocks_ok st); [|done]. destruct Hw as [Hw Hx]. split; [done|by apply Hx].
Qed.

Definition NumericKey (prefix : string) (value : Z) : string := prefix +:+ EncodeUint64 value.

Definition TokenKey (principal : Z) (token : string) : string :=
  NumericKey kTokenPrefix principal +:+ token.

Definition DecodeRequiredUint64 (value description : string) : Result Z :=
  if negb (String.length value =? 8)%nat
  then Err (StorageCorruption ("decode " +:+ description) ("invalid " +:+ description +:+ " encoding"))
  else Ok (DecodeUint64 value).

Definition DecodeNumericKey (key prefix description : string) : Result Z :=
  let prefix_size := String.length prefix in
  if negb (String.length key =? prefix_size + 8)%nat || negb (String.prefix prefix key)
  then Err (StorageCorruption ("decode " +:+ description) ("invalid " +:+ description +:+ " key"))
  else Ok (DecodeUint64 (drop_bytes prefix_size key)).

(** ** The records of the database *)

Inductive Key :=
  | KSchema | KMaxSeq | KNextUuid | KNextChannel | KNextObject
  | KUuid (uuid : Z) | KChannel (id : Z) | KToken (principal : Z) (token : string)
  | KMessage (seq : Z) | KPreparing (id : Z) | KCommitted (id : Z).

#[export] Instance Key_eq_dec : EqDecision Key.
Proof. solve_decision. Defined.

Definition key_bytes (k : Key) : ColumnFamily * string :=
  match k with
  | KSchema => (CF_meta, kSchemaVersionKey)
  | KMaxSeq => (CF_meta, kMaxSeqKey)
  | KNextUuid => (CF_meta, kNextUuidKey)
  | KNextChannel => (CF_meta, kNextChannelIdKey)
  | KNextObject => (CF_meta, kNextObjectIdKey)
  | KUuid u => (CF_meta, NumericKey kUuidPrefix u)
  | KChannel c => (CF_meta, NumericKey kChannelPrefix c)
  | KToken p t => (CF_meta, TokenKey p t)
  | KMessage s => (CF_messages, NumericKey kMessagePrefix s)
  | KPreparing o => (CF_objects, NumericKey kPreparingObjectPrefix o)
  | KCommitted o => (CF_objects, NumericKey kCommittedObjectPrefix o)
  end.

Definition key_ok (k : Key) : Prop :=
  match k with
  | KUuid n | KChannel n | KToken n _ | KMessage n | KPreparing n | KCommitted n => is_u64 n
  | _ => True
  end.

(** ** Facts *)

Lemma NumericKey_length p v : String.length (NumericKey p v) = (String.length p + 8)%nat.
Proof. unfold NumericKey. by rewrite str_length_app, Encode_length. Qed.

Lemma NumericKey_prefix p v : String.prefix p (NumericKey p v) = true.
Proof. apply str_prefix_app. Qed.

Lemma NumericKey_inj p a b : is_u64 a -> is_u64 b -> NumericKey p a = NumericKey p b -> a = b.
Proof. unfold NumericKey. intros Ha Hb E. apply str_app_inv_l in E. by apply Encode_inj. Qed.

Lemma NumericKey_lt p a b :
  is_u64 a -> is_u64 b -> str_lt (NumericKey p a) (NumericKey p b) <-> a < b.
Proof. unfold NumericKey. intros. rewrite str_lt_app_l. by apply Encode_lt. Qed.

Lemma NumericKey_le p a b :
  is_u64 a -> is_u64 b -> str_le (NumericKey p a) (NumericKey p b) <-> a <= b.
Proof.
  intros Ha Hb. rewrite str_le_lteq, NumericKey_lt by done. split.
  - intros [?|E%NumericKey_inj]; [lia|by subst|done|done].
  - intros H. destruct (decide (a = b)) as [->|]; [by right|left; lia].
Qed.

Lemma TokenKey_inj p t p' t' :
  is_u64 p -> is_u64 p' -> TokenKey p t = TokenKey p' t' -> p = p' /\ t = t'.
Proof.
  unfold TokenKey. intros Hp Hp' E. apply str_app_inv_len in E as [E ->].
  - split; [by eapply NumericKey_inj|done].
  - by rewrite !NumericKey_length.
Qed.

Lemma drop_bytes_app p s : drop_bytes (String.length p) (p +:+ s) = s.
Proof. induction p; simpl; auto. Qed.

Lemma DecodeNumericKey_NumericKey p v d :
  is_u64 v -> DecodeNumericKey (NumericKey p v) p d = Ok v.
Proof.
  intros Hv. unfold DecodeNumericKey. rewrite NumericKey_length, Nat.eqb_refl.
  unfold NumericKey at 1. rewrite str_prefix_app. simpl. unfold NumericKey.
  by rewrite drop_bytes_app, Decode_Encode.
Qed.

Lemma DecodeRequiredUint64_Encode v d :
  is_u64 v -> DecodeRequiredUint64 (EncodeUint64 v) d = Ok v.
Proof.
  intros Hv. unfold DecodeRequiredUint64. rewrite Encode_length. simpl.
  by rewrite Decode_Encode.
Qed.

(** No two records share a key. *)
Lemma key_bytes_inj k1 k2 : key_ok k1 -> key_ok k2 -> key_bytes k1 = key_bytes k2 -> k1 = k2.
Proof.
  intros H1 H2. destruct k1, k2; cbn [key_bytes key_ok] in *; intros E;
    first [done|discriminate E|apply (f_equal snd) in E; cbn [snd] in E].
  all: try (apply NumericKey_inj in E; [by subst|done|done]).
  by apply TokenKey_inj in E as [-> ->].
Qed.

(** Iterating over a prefix of a column family meets one kind of record only. *)
Lemma key_bytes_channel k b :
  key_bytes k = (CF_meta, b) -> String.prefix kChannelPrefix b = true ->
  exists c, k = KChannel c.
Proof. destruct k; simpl; try done; intros [= <-]; try done. eauto. Qed.

Lemma key_bytes_message k b : key_bytes k = (CF_messages, b) -> exists s, k = KMessage s.
Proof. destruct k; simpl; try done. eauto. Qed.

Lemma key_bytes_preparing k b :
  key_bytes k = (CF_objects, b) -> String.prefix kPreparingObjectPrefix b = true ->
  exists o, k = KPreparing o.
Proof. destruct k; simpl; try done; intros [= <-]; try done. eauto. Qed.

#[export] Hint Resolve DecodeNumericKey_NumericKey DecodeRequiredUint64_Encode : oe.
