(* ===== verification/World.v ===== *)
(** * The state the storage layer works on

    The object directory's system calls, and [StorageW]: an open database, the
    object directory and the host.  Operations are computations over [StorageW];
    [on_db], [on_fs] and [on_os] run a call on one part and leave the others. *)

From S2P Require Import Prelude Status Proto Platform.

(** A directory entry: a regular file with its contents, or something else. *)
Inductive Node := NFile (data : string) | NOther.

#[export] Instance Node_eq_dec : EqDecision Node.
Proof. solve_decision. Defined.

(** The system calls on the object directory. A call returns an errno or its result. *)
Class PosixDir := {
  fs_t : Type;
  (** The directory as other calls see it. *)
  fs_view : fs_t -> gmap string Node;
  (** How many more calls can be interrupted by a signal. *)
  fs_interrupts : fs_t -> nat;
  (** The name of the entry a descriptor was opened on. *)
  fs_fd : fs_t -> Z -> option string;
  (** After a crash the entry of this name, present or absent, is what it is now. *)
  fs_durable : fs_t -> string -> Prop;
  (** The data of the file of this name is on disk. *)
  fs_synced : fs_t -> string -> Prop;
  (** [O_WRONLY | O_CREAT | O_EXCL]. *)
  sys_create : string -> fs_t -> (Z + Z) * fs_t;
  sys_write : Z -> string -> fs_t -> (Z + Z) * fs_t;
  sys_fsync : Z -> fs_t -> option Z * fs_t;
  sys_close : Z -> fs_t -> option Z * fs_t;
  (** [renameat2] with [RENAME_NOREPLACE]. *)
  sys_rename_noreplace : string -> string -> fs_t -> option Z * fs_t;
  sys_fsync_dir : fs_t -> option Z * fs_t;
  sys_unlink : string -> fs_t -> option Z * fs_t;
  (** [O_RDONLY | O_NOFOLLOW | O_NONBLOCK]. *)
  sys_open : string -> fs_t -> (Z + Z) * fs_t;
  (** Whether the file is regular, and its size. *)
  sys_fstat : Z -> fs_t -> (Z + (bool * Z)) * fs_t;
  sys_pread : Z -> Z -> Z -> fs_t -> (Z + string) * fs_t
}.

(** What is on disk stays there, but for these names. *)
Definition fs_keeps `{PosixDir} (names : list string) (f f' : fs_t) : Prop :=
  forall n, n ∉ names ->
    (fs_durable f n -> fs_durable f' n) /\ (fs_synced f n -> fs_synced f' n).

(** What the server relies on, after open(2), write(2), rename(2), unlink(2), pread(2). The
    directory is the server's alone. *)
Class PosixDirSpec `{PosixDir} : Prop := {
  (** No call creates interruptions, and one that reports [EINTR] uses one up. *)
  create_spec name f : let '(r, f') := sys_create name f in
    (fs_interrupts f' <= fs_interrupts f)%nat /\
    match r with
    | inl e => fs_view f' = fs_view f /\ (e = EEXIST -> is_Some (fs_view f !! name))
    | inr fd => fs_view f !! name = None /\ fs_view f' = <[name := NFile ""]> (fs_view f) /\
                fs_fd f' fd = Some name
    end;
  write_spec fd data name old f :
    fs_fd f fd = Some name -> fs_view f !! name = Some (NFile old) ->
    let '(r, f') := sys_write fd data f in
    fs_fd f' fd = Some name /\
    match r with
    | inl e => fs_view f' = fs_view f /\ (fs_interrupts f' <= fs_interrupts f)%nat /\
               (e = EINTR -> (fs_interrupts f' < fs_interrupts f)%nat)
    | inr n => 0 <= n <= str_size data /\ (fs_interrupts f' <= fs_interrupts f)%nat /\
               fs_view f' = <[name := NFile (old +:+ take_bytes (Z.to_nat n) data)]> (fs_view f)
    end;
  fsync_spec fd f : let '(r, f') := sys_fsync fd f in
    fs_view f' = fs_view f /\ (forall name, fs_fd f fd = Some name -> fs_fd f' fd = Some name);
  close_spec fd f : let '(r, f') := sys_close fd f in fs_view f' = fs_view f;
  rename_spec a b f : let '(r, f') := sys_rename_noreplace a b f in
    match r with
    | Some e => fs_view f' = fs_view f /\ (e = EEXIST -> is_Some (fs_view f !! b))
    | None => exists node, fs_view f !! a = Some node /\ fs_view f !! b = None /\
                fs_view f' = <[b := node]> (delete a (fs_view f))
    end;
  fsync_dir_spec f : let '(r, f') := sys_fsync_dir f in fs_view f' = fs_view f;
  (** Only something that is not a file is refused with [EISDIR] or [EPERM]. *)
  unlink_spec name f : let '(r, f') := sys_unlink name f in
    match r with
    | None => is_Some (fs_view f !! name) /\ fs_view f' = delete name (fs_view f)
    | Some e => fs_view f' = fs_view f /\ (e = ENOENT -> fs_view f !! name = None) /\
                (e = EISDIR \/ e = EPERM -> forall data, fs_view f !! name <> Some (NFile data))
    end;
  open_spec name f : let '(r, f') := sys_open name f in
    fs_view f' = fs_view f /\ (fs_interrupts f' <= fs_interrupts f)%nat /\
    match r with
    | inl e => (e = EINTR -> (fs_interrupts f' < fs_interrupts f)%nat) /\
               (e = ENOENT \/ e = ELOOP -> forall data, fs_view f !! name <> Some (NFile data))
    | inr fd => is_Some (fs_view f !! name) /\ fs_fd f' fd = Some name
    end;
  fstat_spec fd name node f :
    fs_fd f fd = Some name -> fs_view f !! name = Some node ->
    let '(r, f') := sys_fstat fd f in
    fs_view f' = fs_view f /\ fs_fd f' fd = Some name /\ (fs_interrupts f' <= fs_interrupts f)%nat /\
    forall regular size, r = inr (regular, size) ->
      match node with NFile data => regular = true /\ size = str_size data | NOther => regular = false end;
  (** A read returns bytes of the file, and nothing only at its end. *)
  pread_spec fd count offset name data f :
    fs_fd f fd = Some name -> fs_view f !! name = Some (NFile data) -> 0 < count -> 0 <= offset ->
    let '(r, f') := sys_pread fd count offset f in
    fs_view f' = fs_view f /\ fs_fd f' fd = Some name /\ (fs_interrupts f' <= fs_interrupts f)%nat /\
    match r with
    | inl e => e = EINTR -> (fs_interrupts f' < fs_interrupts f)%nat
    | inr chunk => str_size chunk <= count /\
        chunk = take_bytes (String.length chunk) (drop_bytes (Z.to_nat offset) data) /\
        (chunk = "" -> str_size data <= offset)
    end;
  (** [fsync] of a file puts its data on disk, which a new name does not change; [fsync] of the
      directory puts every entry on disk whose data is. Nothing else reaches the disk for sure,
      and a call does not take other entries from it. *)
  create_keeps name f : fs_keeps [name] f (sys_create name f).2;
  write_keeps fd data name f :
    fs_fd f fd = Some name ->
    fs_keeps [name] f (sys_write fd data f).2 /\ fs_fd (sys_write fd data f).2 fd = Some name;
  fsync_keeps fd f : let '(r, f') := sys_fsync fd f in
    fs_keeps [] f f' /\ (r = None -> forall name, fs_fd f fd = Some name -> fs_synced f' name);
  close_keeps fd f : fs_keeps [] f (sys_close fd f).2;
  rename_keeps a b f : let '(r, f') := sys_rename_noreplace a b f in
    fs_keeps [a; b] f f' /\ (r = None -> fs_synced f a -> fs_synced f' b);
  fsync_dir_keeps f : let '(r, f') := sys_fsync_dir f in
    fs_keeps [] f f' /\
    (r = None -> forall n, fs_view f !! n = None \/ fs_synced f n -> fs_durable f' n);
  unlink_keeps name f : fs_keeps [name] f (sys_unlink name f).2;
  open_keeps name f : fs_keeps [] f (sys_open name f).2;
  fstat_keeps fd f : fs_keeps [] f (sys_fstat fd f).2;
  pread_keeps fd count offset f : fs_keeps [] f (sys_pread fd count offset f).2
}.

Section World.
Context {R : RocksDB} {F : PosixDir} {H : Host}.

Record StorageW := MkStorageW { st_db : db_t; st_fs : fs_t; st_os : os_t }.

Definition on_db {A} (m : M db_t A) : M StorageW A :=
  fun w => let '(a, d) := m (st_db w) in (a, MkStorageW d (st_fs w) (st_os w)).

Definition on_fs {A} (m : M fs_t A) : M StorageW A :=
  fun w => let '(a, f) := m (st_fs w) in (a, MkStorageW (st_db w) f (st_os w)).

Definition on_os {A} (m : M os_t A) : M StorageW A :=
  fun w => let '(a, o) := m (st_os w) in (a, MkStorageW (st_db w) (st_fs w) o).

(** The contents of the database, what a crash can leave of them, and the object directory. *)
Definition view (w : StorageW) : Db := db_view (st_db w).
Definition disk (w : StorageW) : Db -> Prop := db_disk (st_db w).
Definition dir (w : StorageW) : gmap string Node := fs_view (st_fs w).

Lemma wp_on_os {A} (m : M os_t A) Q w :
  (forall a o, Q a (MkStorageW (st_db w) (st_fs w) o)) -> wp (on_os m) Q w.
Proof. intros HQ. unfold wp, on_os. destruct (m (st_os w)). apply HQ. Qed.

Lemma wp_on_db {A} (m : M db_t A) Q w :
  wp m (fun a d => Q a (MkStorageW d (st_fs w) (st_os w))) (st_db w) -> wp (on_db m) Q w.
Proof. unfold wp, on_db. by destruct (m (st_db w)). Qed.

Lemma wp_on_fs {A} (m : M fs_t A) Q w :
  wp m (fun a f => Q a (MkStorageW (st_db w) f (st_os w))) (st_fs w) -> wp (on_fs m) Q w.
Proof. unfold wp, on_fs. by destruct (m (st_fs w)). Qed.

End World.

(** Everything the database of a storage holds. *)
Abbreviation st_contents w := (view w, disk w).
