(* ===== verification/FileStore.v ===== *)
(** * Object files (src/storage/object_file_store.cpp)

    An object's bytes are written to a temporary file, synced, and renamed to
    their final name without replacing anything; reading checks the file's type
    and size against the committed metadata.  Each loop over a system call that
    can be interrupted or transfer less than asked carries fuel: the number of
    bytes left plus the number of interruptions the directory can still report,
    which is enough for it to end (Files.v). *)

From S2P Require Import Prelude Status Tokens Proto Platform World.

(** Returned only by a loop that runs out of fuel. *)
Definition out_of_fuel : Status := mkStatus UNKNOWN "out of fuel".

Section FileStore.
Context {R : RocksDB} {F : PosixDir} {H : Host}.

Definition FinalName (object_id : Z) : string := to_string object_id.

Definition TemporaryName (object_id : Z) : string := ".tmp." +:+ to_string object_id.

Definition CloseFile (fd : Z) (description : string) : RM StorageW unit :=
  let! r := on_fs (sys_close fd) in
  match r with
  | None => ok tt
  | Some error => ret (Err (ObjectIoStatus ("close " +:+ description) error))
  end.

Definition UnlinkKnownPath (name : string) : RM StorageW unit :=
  let! r := on_fs (sys_unlink name) in
  match r with
  | None => ok tt
  | Some error =>
      if error =? ENOENT then ok tt
      else if (error =? EISDIR) || (error =? EPERM)
      then ret (Err (StorageCorruption "remove object path"
                       ("object path is not a removable file: " +:+ name)))
      else ret (Err (ObjectIoStatus ("remove object path " +:+ name) error))
  end.

Definition ConstantTimeEquals (left right : string) : bool :=
  if negb (String.length left =? String.length right)%nat then false
  else CRYPTO_memcmp left right =? 0.

Definition inject (point : StorageFaultPoint) : RM StorageW unit :=
  let! s := on_os (InjectStorageFault point) in ret (check_status s).

(** An injected failure while the temporary file is open closes it first. *)
Definition inject_open (fd : Z) (point : StorageFaultPoint) : RM StorageW unit :=
  let! s := on_os (InjectStorageFault point) in
  if status_ok s then ok tt
  else do! on_fs (sys_close fd) in ret (Err s).

(** The loop that writes [data] (what is left of it) to the temporary file. *)
Fixpoint write_loop (fuel : nat) (fd : Z) (data : string) : RM StorageW unit :=
  match fuel with
  | O => ret (if str_empty data then Ok tt else Err out_of_fuel)
  | S fuel =>
      if str_empty data then ok tt
      else
        let! r := on_fs (sys_write fd data) in
        match r with
        | inl error =>
            if error =? EINTR then write_loop fuel fd data
            else do! on_fs (sys_close fd) in
                 ret (Err (ObjectIoStatus "write temporary object file" error))
        | inr count =>
            if count =? 0
            then do! on_fs (sys_close fd) in
                 fail UNAVAILABLE "write temporary object file returned zero"
            else write_loop fuel fd (drop_bytes (Z.to_nat count) data)
        end
  end.

(** [Write] up to the close of the temporary file. *)
Definition write_temporary (fd : Z) (data : string) : RM StorageW unit :=
  do? inject_open fd kAfterTemporaryFileCreate in
  do? inject_open fd kBeforeTemporaryFileWrite in
  let! w := get in
  do? write_loop (String.length data + fs_interrupts (st_fs w)) fd data in
  do? inject_open fd kAfterTemporaryFileWrite in
  do? inject_open fd kBeforeFileFsync in
  let! synced := on_fs (sys_fsync fd) in
  match synced with
  | Some error =>
      do! on_fs (sys_close fd) in
      ret (Err (ObjectIoStatus "fsync temporary object file" error))
  | None =>
      do? inject_open fd kAfterFileFsync in
      CloseFile fd "temporary object file"
  end.

(** [Write] from there on: the file gets its final name, durably. *)
Definition publish_file (temporary final : string) : RM StorageW unit :=
  do? inject kBeforeRename in
  let! renamed := on_fs (sys_rename_noreplace temporary final) in
  match renamed with
  | Some error =>
      if error =? EEXIST
      then ret (Err (StorageCorruption "rename temporary object file"
                       ("unexpected existing final object file: " +:+ final)))
      else ret (Err (ObjectIoStatus "rename temporary object file" error))
  | None =>
      do? inject kAfterRename in
      do? inject kBeforeDirectoryFsync in
      let! dir_synced := on_fs sys_fsync_dir in
      match dir_synced with
      | Some error => ret (Err (ObjectIoStatus "fsync object directory" error))
      | None => inject kAfterDirectoryFsync
      end
  end.

Definition Write (object_id : Z) (data : string) : RM StorageW unit :=
  let temporary := TemporaryName object_id in
  let final := FinalName object_id in
  let! created := on_fs (sys_create temporary) in
  match created with
  | inl error =>
      if error =? EEXIST
      then ret (Err (StorageCorruption "create temporary object file"
                       ("unexpected existing temporary object file: " +:+ temporary)))
      else ret (Err (ObjectIoStatus "create temporary object file" error))
  | inr fd =>
      do? write_temporary fd data in
      publish_file temporary final
  end.

Fixpoint unlink_all (object_ids : list Z) : RM StorageW unit :=
  match object_ids with
  | [] => ok tt
  | object_id :: object_ids =>
      do? UnlinkKnownPath (TemporaryName object_id) in
      do? UnlinkKnownPath (FinalName object_id) in
      unlink_all object_ids
  end.

Definition Cleanup (object_ids : list Z) : RM StorageW unit :=
  do? unlink_all object_ids in
  match object_ids with
  | [] => ok tt
  | _ =>
      let! r := on_fs sys_fsync_dir in
      match r with
      | Some error => ret (Err (ObjectIoStatus "fsync object directory after cleanup" error))
      | None => ok tt
      end
  end.

Fixpoint open_loop (fuel : nat) (final : string) : M StorageW (Z + Z) :=
  let! r := on_fs (sys_open final) in
  match r, fuel with
  | inl error, S fuel => if error =? EINTR then open_loop fuel final else ret r
  | _, _ => ret r
  end.

(** The loop that reads [count] more bytes at [offset]; [data] holds what was read. *)
Fixpoint read_loop (fuel : nat) (fd : Z) (final : string) (offset count : Z) (data : string)
    : RM StorageW string :=
  if count <=? 0 then ok data
  else
    match fuel with
    | O => ret (Err out_of_fuel)
    | S fuel =>
        let! r := on_fs (sys_pread fd count offset) in
        match r with
        | inl error =>
            if error =? EINTR then read_loop fuel fd final offset count data
            else do! on_fs (sys_close fd) in
                 ret (Err (ObjectIoStatus ("read committed object file range " +:+ final) error))
        | inr chunk =>
            if str_size chunk =? 0
            then do! on_fs (sys_close fd) in
                 ret (Err (StorageCorruption "read committed object file"
                             ("committed object file is truncated: " +:+ final)))
            else read_loop fuel fd final (offset + str_size chunk) (count - str_size chunk)
                   (data +:+ chunk)
        end
    end.

Definition ReadRange (object_id expected_size offset nbytes : Z) : RM StorageW string :=
  if (object_id =? 0) || (expected_size =? 0) || (kMaxObjectBytes <? expected_size)
  then ret (Err (StorageCorruption "read committed object file" "invalid committed object metadata"))
  else if nbytes =? 0 then fail INVALID_ARGUMENT "nbytes must be greater than 0"
  else if expected_size <? offset then fail OUT_OF_RANGE "offset exceeds object size"
  else
    let final := FinalName object_id in
    let! w := get in
    let! opened := open_loop (fs_interrupts (st_fs w)) final in
    match opened with
    | inl error =>
        if (error =? ENOENT) || (error =? ELOOP)
        then ret (Err (StorageCorruption ("open committed object file " +:+ final)
                         (ErrnoMessage ("open committed object file " +:+ final) error)))
        else ret (Err (ObjectIoStatus ("open committed object file " +:+ final) error))
    | inr fd =>
        let! st := on_fs (sys_fstat fd) in
        match st with
        | inl error =>
            do! on_fs (sys_close fd) in
            ret (Err (ObjectIoStatus ("stat committed object file " +:+ final) error))
        | inr (regular, size) =>
            if negb regular || (size <? 0) || negb (size =? expected_size)
            then do! on_fs (sys_close fd) in
                 ret (Err (StorageCorruption "stat committed object file"
                             ("committed object file type or size mismatch: " +:+ final)))
            else
              let count := Z.min nbytes (expected_size - offset) in
              let! w := get in
              let? data := read_loop (Z.to_nat count + fs_interrupts (st_fs w))
                             fd final offset count "" in
              do? CloseFile fd "committed object file" in
              ok data
        end
    end.

End FileStore.
