(* ===== verification/Files.v ===== *)
(** * What the object file store does to the directory

    Under the laws of the system calls, a successful [Write] makes the final file
    appear with exactly the data, [Cleanup] removes both names, [ReadRange] returns
    the range that was asked for; failures touch nothing but the two names of the
    object.  The fuel of every loop is enough: no operation returns
    [out_of_fuel]. *)

From S2P Require Import Prelude Status Encoding Tokens Proto Json Platform Keys World FileStore.

(** ** File names *)

Lemma to_string_inj n m : 0 < n < two64 -> 0 < m < two64 -> to_string n = to_string m -> n = m.
Proof.
  intros Hn Hm E. pose proof (read_nat_to_string n ","%char "" Hn (or_introl eq_refl)) as H1.
  pose proof (read_nat_to_string m ","%char "" Hm (or_introl eq_refl)) as H2. congruence.
Qed.

Lemma FinalName_inj n m : 0 < n < two64 -> 0 < m < two64 -> FinalName n = FinalName m -> n = m.
Proof. apply to_string_inj. Qed.

Lemma TemporaryName_inj n m :
  0 < n < two64 -> 0 < m < two64 -> TemporaryName n = TemporaryName m -> n = m.
Proof. unfold TemporaryName. intros Hn Hm E%str_app_inv_l. by apply to_string_inj. Qed.

Lemma Temporary_Final n m : 0 < m < two64 -> TemporaryName n <> FinalName m.
Proof.
  intros Hm E. unfold FinalName, to_string in E.
  destruct (dec_digits_head 20 m) as (c & r & E' & Hd & _); [unfold two64 in Hm; lia|].
  rewrite E' in E. by injection E as <- _.
Qed.

Definition object_names (id : Z) : list string := [TemporaryName id; FinalName id].

Lemma not_named (name x : string) : x ∉ [name] -> name <> x.
Proof. set_solver. Qed.

Section Files.
Context {R : RocksDB} {F : PosixDir} {H : Host} {FS : PosixDirSpec}.

(** Only entries named in [names] can differ. *)
Definition touched (names : list string) (d d' : gmap string Node) : Prop :=
  forall n, n ∉ names -> d' !! n = d !! n.

(** The database is not involved. *)
Definition files_only (w w' : StorageW) : Prop := st_db w' = st_db w.

(** ** Single calls *)

Lemma wp_close fd Q w :
  (forall r f, fs_view f = dir w -> Q r (MkStorageW (st_db w) f (st_os w))) ->
  wp (on_fs (sys_close fd)) Q w.
Proof using FS.
  intros HQ. apply wp_on_fs. unfold wp. pose proof (close_spec fd (st_fs w)) as Hs.
  destruct (sys_close fd (st_fs w)) as [r f]. by apply HQ.
Qed.

(** A failure that closes the descriptor and returns. *)
Lemma wp_close_err {A} fd (e : Status) (Q : Result A -> StorageW -> Prop) w :
  (forall f, fs_view f = dir w -> Q (Err e) (MkStorageW (st_db w) f (st_os w))) ->
  wp (do! on_fs (sys_close fd) in ret (Err e)) Q w.
Proof using FS. intros HQ. apply wp_bind, wp_close. intros r f Hf. by apply wp_ret, HQ. Qed.

(** Faults are injected only where an injector is installed. *)
Definition injected (s : Status) : Prop := code s <> OK /\ is_Some os_injector.

Lemma wp_InjectStorageFault point Q w :
  (forall o, Q StatusOk (MkStorageW (st_db w) (st_fs w) o)) ->
  (forall s o, (code s <> OK -> injected s) -> Q s (MkStorageW (st_db w) (st_fs w) o)) ->
  wp (on_os (InjectStorageFault point)) Q w.
Proof.
  intros Hok Hany. unfold InjectStorageFault, injected in *.
  destruct os_injector as [inj|]; [|by apply Hok].
  apply wp_on_os. intros s o. by apply Hany.
Qed.

(** An injection point while a file is open: the descriptor stays usable, or is closed. *)
Lemma wp_inject_open {B} fd point (k : unit -> RM StorageW B) Q w :
  (forall o, wp (k tt) Q (MkStorageW (st_db w) (st_fs w) o)) ->
  (forall s f o, injected s -> fs_view f = dir w -> Q (Err s) (MkStorageW (st_db w) f o)) ->
  wp (bind_ok (inject_open fd point) k) Q w.
Proof using FS.
  intros Hk Hbad. unfold bind_ok, inject_open. apply wp_bind, wp_bind, wp_InjectStorageFault.
  { intros o. apply wp_ret, Hk. }
  intros s o Hs. unfold status_ok. case_bool_decide as Hc; [by apply wp_ret, Hk|].
  apply wp_bind, wp_close. intros r f Hf. apply wp_ret, wp_ret. apply Hbad; [by apply Hs|done].
Qed.

Lemma wp_inject point Q w :
  (forall o, Q (Ok tt) (MkStorageW (st_db w) (st_fs w) o)) ->
  (forall s o, injected s -> Q (Err s) (MkStorageW (st_db w) (st_fs w) o)) ->
  wp (inject point) Q w.
Proof.
  intros Hk Hbad. unfold inject. apply wp_bind, wp_InjectStorageFault.
  { intros o. apply wp_ret, Hk. }
  intros s o Hs. apply wp_ret. unfold check_status, status_ok. case_bool_decide as Hc; [apply Hk|].
  by apply Hbad, Hs.
Qed.

(** ** Writing *)

(** What a file operation may report on its own: an I/O failure, never a lack of fuel. *)
Definition io_status (s : Status) : Prop :=
  requires_server_exit s = false /\ (code s = UNAVAILABLE \/ code s = RESOURCE_EXHAUSTED).

Lemma ObjectIoStatus_io op e : io_status (ObjectIoStatus op e).
Proof. unfold ObjectIoStatus, io_status. destruct (_ || _); auto. Qed.

Lemma wp_write_loop fuel fd name old data w Q :
  (String.length data + fs_interrupts (st_fs w) <= fuel)%nat ->
  fs_fd (st_fs w) fd = Some name -> dir w !! name = Some (NFile old) ->
  (forall f, fs_fd f fd = Some name -> fs_view f = <[name := NFile (old +:+ data)]> (dir w) ->
     Q (Ok tt) (MkStorageW (st_db w) f (st_os w))) ->
  (forall s f, io_status s -> touched [name] (dir w) (fs_view f) ->
     Q (Err s) (MkStorageW (st_db w) f (st_os w))) ->
  wp (write_loop fuel fd data) Q w.
Proof using FS.
  revert old data w. induction fuel as [|fuel IH]; intros old data w Hfuel Hfd Hv Hok Hbad; cbn [write_loop].
  { destruct data; [|cbn in Hfuel; lia]. apply wp_ret. destruct w. apply Hok; [done|].
    rewrite str_app_nil_r. cbn in *. by rewrite insert_id. }
  destruct (str_empty data) eqn:Ee.
  { apply str_empty_spec in Ee as ->. apply wp_ret. destruct w. apply Hok; [done|].
    rewrite str_app_nil_r. cbn in *. by rewrite insert_id. }
  apply wp_bind, wp_on_fs. unfold wp at 1. pose proof (write_spec fd data name old (st_fs w) Hfd Hv) as Hs.
  destruct (sys_write fd data (st_fs w)) as [[e|n] f]; destruct Hs as [Hfd' Hs].
  - destruct Hs as (Hv' & Hint & Hintr). destruct (Z.eqb_spec e EINTR) as [->|].
    + specialize (Hintr eq_refl). apply (IH old); cbn [st_fs st_db st_os] in *.
      * lia.
      * done.
      * unfold dir. cbn. by rewrite Hv'.
      * intros f2 H1 H2. apply Hok; [done|]. by rewrite H2; unfold dir; cbn; rewrite Hv'.
      * intros s f2 H1 H2. apply Hbad; [done|]. intros x Hx. rewrite H2 by done. unfold dir. cbn. by rewrite Hv'.
    + apply wp_close_err. intros f2 Hf2. apply Hbad; [apply ObjectIoStatus_io|]. cbn in Hf2.
      intros x Hx. by rewrite Hf2; unfold dir; cbn; rewrite Hv'.
  - destruct Hs as (Hn & Hint & Hv'). destruct (Z.eqb_spec n 0) as [->|Hn0].
    + apply wp_close_err. intros f2 Hf2. apply Hbad; [by split; auto|]. cbn in Hf2.
      intros x Hx. rewrite Hf2. unfold dir at 1. cbn. rewrite Hv'. by apply lookup_insert_ne, not_named.
    + unfold str_size in Hn.
      apply (IH (old +:+ take_bytes (Z.to_nat n) data)); cbn [st_fs st_db st_os] in *.
      * rewrite drop_bytes_length. lia.
      * done.
      * unfold dir. cbn. rewrite Hv'. apply lookup_insert_eq.
      * intros f2 H1 H2. apply Hok; [done|]. rewrite H2. unfold dir at 1. cbn.
        by rewrite Hv', insert_insert_eq, str_app_assoc, take_drop_bytes.
      * intros s f2 H1 H2. apply Hbad; [done|]. intros x Hx. rewrite H2 by done. unfold dir. cbn.
        rewrite Hv'. by apply lookup_insert_ne, not_named.
Qed.

(** Why a write can fail: an I/O error, an injected fault, or names that are already taken. *)
Definition write_error (id : Z) (d : gmap string Node) (s : Status) : Prop :=
  io_status s \/ injected s \/
  (code s = DATA_LOSS /\ (is_Some (d !! TemporaryName id) \/ is_Some (d !! FinalName id))).

Lemma touched_same names d d' : d' = d -> touched names d d'.
Proof. by intros -> ? ?. Qed.

Lemma touched_trans names d1 d2 d3 : touched names d1 d2 -> touched names d2 d3 -> touched names d1 d3.
Proof. intros H1 H2 n Hn. by rewrite H2, H1. Qed.

Lemma touched_insert names d n x : n ∈ names -> touched names d (<[n := x]> d).
Proof. intros Hn m Hm. apply lookup_insert_ne. by intros ->. Qed.

Lemma touched_delete names d n : n ∈ names -> touched names d (delete n d).
Proof. intros Hn m Hm. apply lookup_delete_ne. by intros ->. Qed.

Lemma touched_mono names names' d d' : names ⊆ names' -> touched names d d' -> touched names' d d'.
Proof. intros Hs Ht n Hn. apply Ht. by intros ?%Hs. Qed.

(** The outcomes of a phase that leaves nothing but the file [name] changed. *)
Lemma wp_write_temporary fd name data w Q :
  fs_fd (st_fs w) fd = Some name -> dir w !! name = Some (NFile "") ->
  (forall f o, fs_view f = <[name := NFile data]> (dir w) -> Q (Ok tt) (MkStorageW (st_db w) f o)) ->
  (forall s f o, io_status s \/ injected s -> touched [name] (dir w) (fs_view f) ->
     Q (Err s) (MkStorageW (st_db w) f o)) ->
  wp (write_temporary fd data) Q w.
Proof using FS.
  intros Hfd Hv Hok Hbad. unfold write_temporary.
  apply wp_inject_open; [|intros; apply Hbad; [by right|by apply touched_same]]. intros o1.
  apply wp_inject_open; [|intros; apply Hbad; [by right|by apply touched_same]]. intros o2.
  apply wp_bind. unfold get, wp at 1. unfold bind_ok at 1. apply wp_bind.
  eapply (wp_write_loop _ _ name ""); [done|done|done| |].
  2:{ intros s f1 Hi H1. apply wp_ret, Hbad; [by left|done]. }
  cbn [String.append st_fs st_db st_os]. intros f1 Hfd1 Hv1. unfold dir at 1 in Hv1. cbn in Hv1.
  assert (Ht : forall f, fs_view f = fs_view f1 -> touched [name] (dir w) (fs_view f)).
  { intros f ->. rewrite Hv1. apply touched_insert. by left. }
  apply wp_inject_open; [|intros; apply Hbad; [by right|by apply Ht]]. intros o3.
  apply wp_inject_open; [|intros; apply Hbad; [by right|by apply Ht]]. intros o4.
  apply wp_bind, wp_on_fs. unfold wp at 1. cbn [st_fs st_db st_os].
  pose proof (fsync_spec fd f1) as Hs. destruct (sys_fsync fd f1) as [[e|] f2]; destruct Hs as [Hv2 _].
  { apply wp_close_err. intros f3 Hf3. apply Hbad; [left; apply ObjectIoStatus_io|].
    apply Ht. by rewrite Hf3. }
  apply wp_inject_open; [|intros s f3 o5 Hi H1; apply Hbad; [by right|]; apply Ht; by rewrite H1].
  intros o5. unfold CloseFile. apply wp_bind, wp_close. intros [e|] f3 Hv3; apply wp_ret.
  - apply Hbad; [left; apply ObjectIoStatus_io|]. apply Ht. by rewrite Hv3.
  - apply Hok. rewrite Hv3. unfold dir at 1. cbn. by rewrite Hv2, Hv1.
Qed.

Lemma wp_publish_file tmp fin data w Q :
  tmp <> fin -> dir w !! tmp = Some (NFile data) ->
  (forall f o, dir w !! fin = None -> fs_view f = <[fin := NFile data]> (delete tmp (dir w)) ->
     Q (Ok tt) (MkStorageW (st_db w) f o)) ->
  (forall s f o, io_status s \/ injected s \/ (code s = DATA_LOSS /\ is_Some (dir w !! fin)) ->
     touched [tmp; fin] (dir w) (fs_view f) -> Q (Err s) (MkStorageW (st_db w) f o)) ->
  wp (publish_file tmp fin) Q w.
Proof using FS.
  intros Hne Hv Hok Hbad. unfold publish_file.
  unfold bind_ok at 1. apply wp_bind, wp_inject.
  2:{ intros s o Hi. apply wp_ret, Hbad; [by right; left|by apply touched_same]. }
  intros o1. apply wp_bind, wp_on_fs. unfold wp at 1. cbn [st_fs st_db st_os].
  pose proof (rename_spec tmp fin (st_fs w)) as Hs.
  destruct (sys_rename_noreplace tmp fin (st_fs w)) as [[e|] f1].
  { destruct Hs as [Hv1 He]. destruct (Z.eqb_spec e EEXIST) as [->|]; apply wp_ret; apply Hbad;
      auto using touched_same, ObjectIoStatus_io. }
  destruct Hs as (node & Hn1 & Hn2 & Hv1). change (fs_view (st_fs w)) with (dir w) in *.
  rewrite Hv in Hn1. injection Hn1 as <-.
  assert (Ht : forall f, fs_view f = fs_view f1 -> touched [tmp; fin] (dir w) (fs_view f)).
  { intros f ->. rewrite Hv1. eapply touched_trans; [apply (touched_delete _ _ tmp); by left|].
    apply touched_insert. by right; left. }
  unfold bind_ok at 1. apply wp_bind, wp_inject.
  2:{ intros s o Hi. apply wp_ret, Hbad; [by right; left|by apply Ht]. }
  intros o2. unfold bind_ok at 1. apply wp_bind, wp_inject.
  2:{ intros s o Hi. apply wp_ret, Hbad; [by right; left|by apply Ht]. }
  intros o3. apply wp_bind, wp_on_fs. unfold wp at 1. cbn [st_fs st_db st_os].
  pose proof (fsync_dir_spec f1) as Hs. destruct (sys_fsync_dir f1) as [[e|] f2].
  { apply wp_ret, Hbad; [left; apply ObjectIoStatus_io|by apply Ht]. }
  apply wp_inject; cbn [st_fs st_db st_os].
  - intros o. apply Hok; [done|congruence].
  - intros s o Hi. apply Hbad; [by right; left|by apply Ht].
Qed.

Lemma wp_Write id data w Q :
  0 < id < two64 ->
  (forall f o, dir w !! TemporaryName id = None -> dir w !! FinalName id = None ->
     fs_view f = <[FinalName id := NFile data]> (dir w) -> Q (Ok tt) (MkStorageW (st_db w) f o)) ->
  (forall s f o, write_error id (dir w) s -> touched (object_names id) (dir w) (fs_view f) ->
     Q (Err s) (MkStorageW (st_db w) f o)) ->
  wp (Write id data) Q w.
Proof using FS.
  intros Hid Hok Hbad. unfold Write. set (tmp := TemporaryName id) in *. set (fin := FinalName id) in *.
  assert (Hne : tmp <> fin) by by apply Temporary_Final.
  cbv zeta. apply wp_bind, wp_on_fs. unfold wp at 1. pose proof (create_spec tmp (st_fs w)) as Hs.
  destruct (sys_create tmp (st_fs w)) as [[e|fd] f]; destruct Hs as [_ Hs].
  { destruct Hs as [Hv He]. destruct (Z.eqb_spec e EEXIST) as [->|]; apply wp_ret; apply Hbad;
      try (by apply touched_same); unfold write_error; fold tmp; auto 6 using ObjectIoStatus_io. }
  destruct Hs as (Hnone & Hv & Hfd). change (fs_view (st_fs w)) with (dir w) in *.
  assert (Ht : touched (object_names id) (dir w) (fs_view f)).
  { rewrite Hv. apply touched_insert. by left. }
  unfold bind_ok. apply wp_bind. apply (wp_write_temporary _ tmp).
  - done.
  - unfold dir. cbn. rewrite Hv. apply lookup_insert_eq.
  - intros f1 o1 Hv1. unfold dir in Hv1. cbn in Hv1. rewrite Hv, insert_insert_eq in Hv1.
    cbn iota. apply (wp_publish_file _ _ data); unfold dir; cbn [st_fs st_db st_os]; [done| | |].
    + rewrite Hv1. apply lookup_insert_eq.
    + intros f2 o2 Hfin Hv2. rewrite Hv1, lookup_insert_ne in Hfin by done.
      apply Hok; [done|done|]. by rewrite Hv2, Hv1, delete_insert_id.
    + intros s f2 o2 Hs Ht2. apply Hbad.
      * rewrite Hv1, lookup_insert_ne in Hs by done. unfold write_error. fold tmp fin. tauto.
      * eapply touched_trans; [|exact Ht2]. rewrite Hv1. apply touched_insert. by left.
  - intros s f1 o1 Hs Ht1. apply wp_ret, Hbad; [unfold write_error; tauto|].
    eapply touched_trans; [exact Ht|]. eapply touched_mono; [|exact Ht1].
    intros x ->%list_elem_of_singleton. by left.
Qed.

(** ** Cleaning up *)

Lemma wp_UnlinkKnownPath name Q w :
  (forall f, fs_view f = delete name (dir w) -> Q (Ok tt) (MkStorageW (st_db w) f (st_os w))) ->
  (forall s f, fs_view f = dir w ->
     (io_status s \/ code s = DATA_LOSS /\ forall data, dir w !! name <> Some (NFile data)) ->
     Q (Err s) (MkStorageW (st_db w) f (st_os w))) ->
  wp (UnlinkKnownPath name) Q w.
Proof using FS.
  intros Hok Hbad. unfold UnlinkKnownPath. apply wp_bind, wp_on_fs. unfold wp at 1.
  pose proof (unlink_spec name (st_fs w)) as Hs. destruct (sys_unlink name (st_fs w)) as [[e|] f].
  - destruct Hs as (Hv & He & Hd). change (fs_view (st_fs w)) with (dir w) in *.
    destruct (Z.eqb_spec e ENOENT) as [->|].
    { apply wp_ret, Hok. rewrite delete_id; [done|by apply He]. }
    destruct (Z.eqb_spec e EISDIR) as [->|].
    { apply wp_ret, Hbad; [done|]. right. split; [done|]. apply Hd. by left. }
    destruct (Z.eqb_spec e EPERM) as [->|].
    { apply wp_ret, Hbad; [done|]. right. split; [done|]. apply Hd. by right. }
    apply wp_ret, Hbad; [done|]. left. apply ObjectIoStatus_io.
  - apply wp_ret, Hok. apply Hs.
Qed.

(** The directory without the files of some objects. *)
Definition without (ids : list Z) (d : gmap string Node) : gmap string Node :=
  foldl (fun d id => delete (FinalName id) (delete (TemporaryName id) d)) d ids.

Lemma without_lookup ids d n :
  without ids d !! n = if decide (n ∈ ids ≫= object_names) then None else d !! n.
Proof.
  revert d. induction ids as [|id ids IH]; intros d; cbn [without foldl].
  { rewrite decide_False; [done|]. cbn. by intros ?%elem_of_nil. }
  fold (without ids (delete (FinalName id) (delete (TemporaryName id) d))). rewrite IH.
  cbn [mbind list_bind]. destruct (decide (n ∈ ids ≫= object_names)) as [Hin|Hin].
  - rewrite decide_True; [done|]. cbn. by do 2 right.
  - cbn. destruct (decide (n = FinalName id)) as [->|H1].
    { rewrite lookup_delete_eq, decide_True; [done|]. by right; left. }
    rewrite lookup_delete_ne by done. destruct (decide (n = TemporaryName id)) as [->|H2].
    { rewrite lookup_delete_eq, decide_True; [done|]. by left. }
    rewrite lookup_delete_ne, decide_False; [done| |done].
    intros [?|[?|?]%elem_of_cons]%elem_of_cons; done.
Qed.

(** Nothing but files under the names of these objects. *)
Definition only_files (ids : list Z) (d : gmap string Node) : Prop :=
  forall n, n ∈ ids ≫= object_names -> d !! n <> Some NOther.

Lemma wp_unlink_all ids w Q :
  (forall f, fs_view f = without ids (dir w) -> Q (Ok tt) (MkStorageW (st_db w) f (st_os w))) ->
  (forall s f, touched (ids ≫= object_names) (dir w) (fs_view f) ->
     (io_status s \/ code s = DATA_LOSS) -> Q (Err s) (MkStorageW (st_db w) f (st_os w))) ->
  wp (unlink_all ids) Q w.
Proof using FS.
  revert w. induction ids as [|id ids IH]; intros w Hok Hbad; cbn [unlink_all].
  { apply wp_ret. destruct w. by apply Hok. }
  assert (Hn1 : TemporaryName id ∈ (id :: ids) ≫= object_names) by (cbn; by left).
  assert (Hn2 : FinalName id ∈ (id :: ids) ≫= object_names) by (cbn; by right; left).
  unfold bind_ok at 1. apply wp_bind, wp_UnlinkKnownPath.
  2:{ intros s f Hf Hs. apply wp_ret, Hbad; [by apply touched_same|tauto]. }
  intros f1 Hf1. unfold bind_ok. apply wp_bind, wp_UnlinkKnownPath; unfold dir; cbn [st_fs st_db st_os].
  2:{ intros s f Hf Hs. apply wp_ret, Hbad; [|tauto]. rewrite Hf, Hf1. by apply touched_delete. }
  intros f2 Hf2. rewrite Hf1 in Hf2. apply IH; unfold dir; cbn [st_fs st_db st_os]; rewrite Hf2.
  - intros f3 Hf3. by apply Hok.
  - intros s f3 Ht Hs. apply Hbad; [|done]. eapply touched_trans; [by apply (touched_delete _ _ _ Hn1)|].
    eapply touched_trans; [by apply (touched_delete _ _ _ Hn2)|]. eapply touched_mono; [|exact Ht].
    intros x Hx. cbn. by do 2 right.
Qed.

Lemma wp_Cleanup ids w Q :
  (forall f, fs_view f = without ids (dir w) -> Q (Ok tt) (MkStorageW (st_db w) f (st_os w))) ->
  (forall s f, touched (ids ≫= object_names) (dir w) (fs_view f) ->
     (io_status s \/ code s = DATA_LOSS) -> Q (Err s) (MkStorageW (st_db w) f (st_os w))) ->
  wp (Cleanup ids) Q w.
Proof using FS.
  intros Hok Hbad. unfold Cleanup, bind_ok. apply wp_bind, wp_unlink_all.
  2:{ intros s f Ht Hs. by apply wp_ret, Hbad. }
  intros f Hf. destruct ids as [|id ids]; [by apply wp_ret, Hok|].
  apply wp_bind, wp_on_fs. unfold wp at 1. cbn [st_fs st_db st_os].
  pose proof (fsync_dir_spec f) as Hs. destruct (sys_fsync_dir f) as [[e|] f2]; apply wp_ret.
  - apply Hbad; [|left; apply ObjectIoStatus_io]. rewrite Hs, Hf. intros n Hn.
    by rewrite without_lookup, decide_False.
  - apply Hok. congruence.
Qed.

(** ** Reading *)

(** The directory is as it was. *)
Definition reads_dir (w w' : StorageW) : Prop :=
  dir w' = dir w /\ st_db w' = st_db w /\ st_os w' = st_os w.

Lemma reads_dir_step w f w' :
  fs_view f = dir w -> reads_dir (MkStorageW (st_db w) f (st_os w)) w' -> reads_dir w w'.
Proof. intros Hf (H1 & H2 & H3). unfold reads_dir, dir in *. cbn in *. split_and!; congruence. Qed.

#[local] Instance reads_dir_trans : Transitive reads_dir.
Proof. intros x y z (? & ? & ?) (? & ? & ?). unfold reads_dir. split_and!; congruence. Qed.

Lemma wp_open_loop fuel name data w Q :
  (fs_interrupts (st_fs w) <= fuel)%nat -> dir w !! name = Some (NFile data) ->
  (forall fd w', reads_dir w w' -> fs_fd (st_fs w') fd = Some name -> Q (inr fd) w') ->
  (forall e w', reads_dir w w' -> e <> ENOENT -> e <> ELOOP -> Q (inl e) w') ->
  wp (open_loop fuel name) Q w.
Proof using FS.
  revert w. induction fuel as [|fuel IH]; intros w Hfuel Hv Hok Hbad; cbn [open_loop];
    apply wp_bind, wp_on_fs; unfold wp at 1; pose proof (open_spec name (st_fs w)) as Hs;
    destruct (sys_open name (st_fs w)) as [[e|fd] f]; destruct Hs as (Hv' & Hint & Hs).
  1,3: destruct Hs as [Hintr Hno];
       assert (e <> ENOENT /\ e <> ELOOP) as [? ?]
         by (split; intros ->; [by destruct (Hno (or_introl eq_refl) data)|
                                by destruct (Hno (or_intror eq_refl) data)]).
  - apply wp_ret, Hbad; [by repeat split|done|done].
  - destruct (Z.eqb_spec e EINTR) as [->|]; [|apply wp_ret, Hbad; [by repeat split|done|done]].
    specialize (Hintr eq_refl). apply IH; cbn [st_fs st_db st_os]; [lia|unfold dir; cbn; by rewrite Hv'| |].
    + intros fd w' G. apply Hok. by eapply reads_dir_step.
    + intros e' w' G. apply Hbad. by eapply reads_dir_step.
  - apply wp_ret, Hok; [by repeat split|apply Hs].
  - apply wp_ret, Hok; [by repeat split|apply Hs].
Qed.

Lemma wp_read_loop fuel fd name final data offset count acc w Q :
  (Z.to_nat count + fs_interrupts (st_fs w) <= fuel)%nat ->
  fs_fd (st_fs w) fd = Some name -> dir w !! name = Some (NFile data) ->
  0 <= offset -> offset + count <= str_size data -> 0 <= count ->
  (forall w', reads_dir w w' ->
     Q (Ok (acc +:+ take_bytes (Z.to_nat count) (drop_bytes (Z.to_nat offset) data))) w') ->
  (forall s w', reads_dir w w' -> io_status s -> Q (Err s) w') ->
  wp (read_loop fuel fd final offset count acc) Q w.
Proof using FS.
  revert offset count acc w. induction fuel as [|fuel IH];
    intros offset count acc w Hfuel Hfd Hv Ho Hoc Hc Hok Hbad; cbn [read_loop];
    destruct (Z.leb_spec count 0).
  1,3: replace count with 0 in * by lia; apply wp_ret;
       specialize (Hok w); cbn in Hok; rewrite str_app_nil_r in Hok; by apply Hok.
  { lia. }
  apply wp_bind, wp_on_fs. unfold wp at 1.
  pose proof (pread_spec fd count offset name data (st_fs w) Hfd Hv ltac:(lia) Ho) as Hs.
  destruct (sys_pread fd count offset (st_fs w)) as [[e|chunk] f]; destruct Hs as (Hv' & Hfd' & Hint & Hs).
  - destruct (Z.eqb_spec e EINTR) as [->|].
    + specialize (Hs eq_refl). apply IH; cbn [st_fs st_db st_os]; try done; [lia|unfold dir; cbn; by rewrite Hv'| |].
      * intros w' G. apply Hok. by eapply reads_dir_step.
      * intros s w' G. apply Hbad. by eapply reads_dir_step.
    + apply wp_close_err. intros f2 Hf2. apply Hbad; [|apply ObjectIoStatus_io].
      by apply (reads_dir_step w f); [|apply (reads_dir_step (MkStorageW (st_db w) f (st_os w)) f2)].
  - destruct Hs as (Hlen & Hchunk & Hnil). destruct (Z.eqb_spec (str_size chunk) 0) as [E|E].
    { unfold str_size in E. destruct chunk; [|cbn in E; lia]. specialize (Hnil eq_refl). lia. }
    pose proof (str_size_nonneg chunk). unfold str_size in *.
    apply IH; cbn [st_fs st_db st_os]; try lia; [done|unfold dir; cbn; by rewrite Hv'| |].
    + intros w' G.
      rewrite str_app_assoc. rewrite Hchunk at 1.
      replace (Z.to_nat (offset + Z.of_nat (String.length chunk)))
        with (Z.to_nat offset + String.length chunk)%nat by lia.
      rewrite <- drop_drop_bytes, take_add_bytes.
      replace (String.length chunk + Z.to_nat (count - Z.of_nat (String.length chunk)))%nat
        with (Z.to_nat count) by lia.
      apply Hok. by eapply reads_dir_step.
    + intros s w' G. apply Hbad. by eapply reads_dir_step.
Qed.

Lemma wp_ReadRange id data offset nbytes w Q :
  id <> 0 -> dir w !! FinalName id = Some (NFile data) -> 0 < str_size data <= kMaxObjectBytes ->
  0 < nbytes -> 0 <= offset <= str_size data ->
  (forall w', reads_dir w w' ->
     Q (Ok (take_bytes (Z.to_nat (Z.min nbytes (str_size data - offset)))
              (drop_bytes (Z.to_nat offset) data))) w') ->
  (forall s w', reads_dir w w' -> io_status s -> Q (Err s) w') ->
  wp (ReadRange id (str_size data) offset nbytes) Q w.
Proof using FS.
  intros Hid Hv Hsize Hn Ho Hok Hbad. unfold ReadRange.
  rewrite (proj2 (Z.eqb_neq id 0) Hid), (proj2 (Z.eqb_neq (str_size data) 0)) by lia.
  rewrite (proj2 (Z.ltb_ge kMaxObjectBytes _)) by lia. cbn [orb].
  rewrite (proj2 (Z.eqb_neq nbytes 0)), (proj2 (Z.ltb_ge (str_size data) offset)) by lia.
  apply wp_bind. unfold get, wp at 1. apply wp_bind. eapply wp_open_loop; [done|done| |].
  2:{ intros e w1 H1 Hne1 Hne2. rewrite (proj2 (Z.eqb_neq _ _) Hne1), (proj2 (Z.eqb_neq _ _) Hne2).
      apply wp_ret, Hbad; [done|apply ObjectIoStatus_io]. }
  intros fd w1 (H1 & H2 & H3) Hfd. rewrite <- H1 in Hv. apply wp_bind, wp_on_fs. unfold wp at 1.
  pose proof (fstat_spec fd (FinalName id) (NFile data) (st_fs w1) Hfd Hv) as Hs.
  destruct (sys_fstat fd (st_fs w1)) as [[e|[regular size]] f]; destruct Hs as (Hv' & Hfd' & _ & Hs).
  { apply wp_close_err. intros f2 Hf2. apply Hbad; [|apply ObjectIoStatus_io].
    unfold reads_dir, dir in *. cbn in *. by repeat split; congruence. }
  destruct (Hs regular size eq_refl) as [-> ->]. pose proof (str_size_nonneg data).
  rewrite (proj2 (Z.ltb_ge (str_size data) 0)), Z.eqb_refl by lia. cbn [negb orb].
  apply wp_bind. unfold get, wp at 1. unfold bind_ok. apply wp_bind.
  apply (wp_read_loop _ _ (FinalName id) _ data); cbn [st_fs st_db st_os];
    [lia|done|unfold dir; cbn; by rewrite Hv'|lia..| |].
  - intros w2 (G1 & G2 & G3). cbn iota. unfold CloseFile. apply wp_bind, wp_bind, wp_close.
    intros [e|] f2 Hf2; apply wp_ret; cbn iota; apply wp_ret.
    + apply Hbad; [|apply ObjectIoStatus_io]. unfold reads_dir, dir in *. cbn in *. by repeat split; congruence.
    + apply Hok. unfold reads_dir, dir in *. cbn in *. by repeat split; congruence.
  - intros s w2 (G1 & G2 & G3) Hs2. apply wp_ret, Hbad; [|done].
    unfold reads_dir, dir in *. cbn in *. by repeat split; congruence.
Qed.

End Files.
