(* ===== verification/Durability.v ===== *)
(** * What of the object directory a crash leaves

    Entries that are on disk stay on disk while other entries change; when [Write]
    has succeeded the final name is on disk with its data, and when [Cleanup] has
    succeeded both names are gone for good.  The proofs follow the code call by
    call: which entries exist is the concern of Files.v. *)

From S2P Require Import Prelude Status Encoding Tokens Proto Json Platform Keys World FileStore Files.

Section Durability.
Context {R : RocksDB} {F : PosixDir} {H : Host} {FS : PosixDirSpec}.

Lemma fs_keeps_refl names f : fs_keeps names f f.
Proof. by intros n _. Qed.

Lemma fs_keeps_trans names f1 f2 f3 : fs_keeps names f1 f2 -> fs_keeps names f2 f3 -> fs_keeps names f1 f3.
Proof. intros H1 H2 n Hn. destruct (H1 n Hn), (H2 n Hn). auto. Qed.

Lemma fs_keeps_mono names names' f f' : names ⊆ names' -> fs_keeps names f f' -> fs_keeps names' f f'.
Proof. intros Hs Hk n Hn. apply Hk. by intros ?%Hs. Qed.

(** ** Operations that leave everything but some names *)

Definition keeping (names : list string) (w w' : StorageW) : Prop :=
  fs_keeps names (st_fs w) (st_fs w').

#[export] Instance keeping_refl names : Reflexive (keeping names).
Proof. intros w. apply fs_keeps_refl. Qed.

#[export] Instance keeping_trans names : Transitive (keeping names).
Proof. intros x y z. apply fs_keeps_trans. Qed.

Definition kept {A} (names : list string) (m : M StorageW A) : Prop :=
  forall w, wp m (fun _ w' => keeping names w w') w.

Lemma kept_ret {A} names (x : A) : kept names (ret x).
Proof. intros w. by apply wp_ret. Qed.

Lemma kept_bind {A B} names (m : M StorageW A) (k : A -> M StorageW B) :
  kept names m -> (forall x, kept names (k x)) -> kept names (bind m k).
Proof.
  intros Hm Hk w. apply wp_bind. eapply wp_mono; [|apply Hm]. intros x w1 H1.
  eapply wp_mono; [|apply Hk]. intros y w2 H2. by transitivity w1.
Qed.

Lemma kept_on_os {A} names (m : M os_t A) : kept names (on_os m).
Proof. intros w. apply wp_on_os. intros x o. apply fs_keeps_refl. Qed.

Lemma kept_get names : kept names get.
Proof. by intros w. Qed.

Lemma kept_on_fs {A} names (m : M fs_t A) : (forall f, fs_keeps names f (m f).2) -> kept names (on_fs m).
Proof. intros Hm w. apply wp_on_fs. unfold wp. specialize (Hm (st_fs w)). by destruct (m (st_fs w)). Qed.

Lemma kept_mono {A} names names' (m : M StorageW A) : names ⊆ names' -> kept names m -> kept names' m.
Proof. intros Hs Hm w. eapply wp_mono; [|apply Hm]. intros x w'. by apply fs_keeps_mono. Qed.

(** The calls that change no entry. *)
Lemma kept_calls names :
  (forall fd, kept names (on_fs (sys_close fd))) /\ (forall fd, kept names (on_fs (sys_fsync fd))) /\
  kept names (on_fs sys_fsync_dir) /\ (forall n, kept names (on_fs (sys_open n))) /\
  (forall fd, kept names (on_fs (sys_fstat fd))) /\
  (forall fd c o, kept names (on_fs (sys_pread fd c o))).
Proof using FS.
  assert (Hnil : forall A (m : M StorageW A), kept [] m -> kept names m).
  { intros A m. apply kept_mono. set_solver. }
  split_and!; intros; apply Hnil, kept_on_fs; intros f.
  - apply close_keeps.
  - pose proof (fsync_keeps fd f) as Hs. destruct (sys_fsync fd f). apply Hs.
  - pose proof (fsync_dir_keeps f) as Hs. destruct (sys_fsync_dir f). apply Hs.
  - apply open_keeps.
  - apply fstat_keeps.
  - apply pread_keeps.
Qed.

Ltac kept_step :=
  first [apply kept_ret | apply kept_on_os | apply kept_get | apply kept_calls
        | progress (unfold bind_ok, ok, fail, check_status, inject, inject_open, CloseFile; cbv zeta)
        | apply kept_bind; [|intros ?] | case_match].

(** Reading takes nothing from the disk. *)
Lemma kept_ReadRange id size offset n : kept [] (ReadRange id size offset n).
Proof using FS.
  assert (Ho : forall fuel n, kept [] (open_loop fuel n)).
  { intros fuel name. induction fuel as [|fuel IH]; cbn [open_loop]; repeat first [apply IH | kept_step]. }
  assert (Hr : forall fuel fd n o c d, kept [] (read_loop fuel fd n o c d)).
  { intros fuel fd name. induction fuel as [|fuel IH]; intros o c d; cbn [read_loop];
      repeat first [apply IH | kept_step]. }
  unfold ReadRange. repeat first [apply Ho | apply Hr | kept_step].
Qed.

(** ** Cleaning up *)

Lemma kept_unlink name : kept [name] (UnlinkKnownPath name).
Proof using FS.
  unfold UnlinkKnownPath. apply kept_bind; [apply kept_on_fs; intros f; apply unlink_keeps|].
  intros r. repeat kept_step.
Qed.

Lemma kept_unlink_all ids : kept (ids ≫= object_names) (unlink_all ids).
Proof using FS.
  induction ids as [|id ids IH]; cbn [unlink_all]; [apply kept_ret|].
  repeat first [eapply kept_mono; [|apply kept_unlink]; set_solver
               |eapply kept_mono; [|apply IH]; set_solver | kept_step].
Qed.

Lemma kept_Cleanup ids : kept (ids ≫= object_names) (Cleanup ids).
Proof using FS. unfold Cleanup. repeat first [apply kept_unlink_all | kept_step]. Qed.

(** ** Writing *)

(** An injection point while the temporary file is open. *)
Lemma wp_inject_open_kept {B} names fd point (k : unit -> RM StorageW B) (Q : Result B -> StorageW -> Prop) w :
  (forall o, wp (k tt) Q (MkStorageW (st_db w) (st_fs w) o)) ->
  (forall s w', keeping names w w' -> Q (Err s) w') ->
  wp (bind_ok (inject_open fd point) k) Q w.
Proof using FS.
  intros Hk Hbad. unfold bind_ok, inject_open. apply wp_bind, wp_bind, wp_on_os. intros s o.
  destruct (status_ok s); [apply wp_ret, Hk|]. apply wp_bind.
  eapply wp_mono; [|apply (kept_calls names)]. intros r w' Hw'. by apply wp_ret, wp_ret, Hbad.
Qed.

Lemma write_loop_kept fuel fd name data w :
  fs_fd (st_fs w) fd = Some name ->
  wp (write_loop fuel fd data) (fun r w' => keeping [name] w w' /\
    (r = Ok tt -> fs_fd (st_fs w') fd = Some name)) w.
Proof using FS.
  revert data w. induction fuel as [|fuel IH]; intros data w Hfd; cbn [write_loop];
    [by apply wp_ret; destruct (str_empty data)|]. destruct (str_empty data); [by apply wp_ret|].
  apply wp_bind, wp_on_fs. unfold wp at 1. destruct (write_keeps fd data name (st_fs w) Hfd) as [Hk Hfd'].
  destruct (sys_write fd data (st_fs w)) as [r f]. set (w1 := MkStorageW (st_db w) f (st_os w)).
  assert (Hrec : forall data', wp (write_loop fuel fd data') (fun r w' => keeping [name] w w' /\
    (r = Ok tt -> fs_fd (st_fs w') fd = Some name)) w1).
  { intros data'. eapply wp_mono; [|by apply IH]. intros r' w' [H1 H2]. split; [|done].
    by transitivity w1. }
  assert (Hend : forall s, wp (do! on_fs (sys_close fd) in ret (Err s)) (fun (r : Result unit) w' =>
    keeping [name] w w' /\ (r = Ok tt -> fs_fd (st_fs w') fd = Some name)) w1).
  { intros s. apply wp_bind. eapply wp_mono; [|apply (kept_calls [name])]. intros r' w' Hw'.
    apply wp_ret. split; [by transitivity w1|done]. }
  destruct r as [e|n]; [destruct (e =? EINTR)|destruct (n =? 0)]; first [apply Hrec | apply Hend].
Qed.

(** The temporary file is closed with its data on disk. *)
Lemma write_temporary_kept fd name data w :
  fs_fd (st_fs w) fd = Some name ->
  wp (write_temporary fd data) (fun r w' => keeping [name] w w' /\
    (r = Ok tt -> fs_synced (st_fs w') name)) w.
Proof using FS.
  intros Hfd. unfold write_temporary. set (Q := fun (r : Result unit) w' => _).
  assert (Hbad : forall w1 s w', keeping [name] w w1 -> keeping [name] w1 w' -> Q (Err s) w').
  { intros w1 s w' H1 H2. split; [by transitivity w1|done]. }
  apply (wp_inject_open_kept [name]); [|intros; by eapply Hbad]. intros o1.
  apply (wp_inject_open_kept [name]); [|intros; by eapply Hbad]. intros o2.
  apply wp_bind. unfold get, wp at 1. unfold bind_ok at 1. apply wp_bind.
  eapply wp_mono; [|by apply (write_loop_kept _ _ name)]. intros [[]|s] w1 [H1 Hfd1]; [|by apply wp_ret].
  specialize (Hfd1 eq_refl).
  apply (wp_inject_open_kept [name]); [|intros; by eapply Hbad]. intros o3.
  apply (wp_inject_open_kept [name]); [|intros; by eapply Hbad]. intros o4.
  apply wp_bind, wp_on_fs. unfold wp at 1. cbn [st_fs st_db st_os].
  pose proof (fsync_keeps fd (st_fs w1)) as Hs. destruct (sys_fsync fd (st_fs w1)) as [r f2].
  destruct Hs as [Hk2 Hsync]. set (w2 := MkStorageW (st_db w1) f2 o4).
  assert (H2 : keeping [name] w w2) by (transitivity w1; [done|]; eapply fs_keeps_mono; [|exact Hk2]; set_solver).
  destruct r as [e|].
  { apply wp_bind. eapply wp_mono; [|apply (kept_calls [name])]. intros r w3 H3. apply wp_ret. by eapply Hbad. }
  apply (wp_inject_open_kept [name]); [|intros; by eapply Hbad]. intros o5. unfold CloseFile.
  apply wp_bind. eapply wp_mono; [|apply (kept_calls [])]. intros [e|] w3 H3; apply wp_ret.
  - eapply Hbad; [exact H2|]. eapply fs_keeps_mono; [|exact H3]. set_solver.
  - split; [transitivity w2; [done|]; eapply fs_keeps_mono; [|exact H3]; set_solver|]. intros _.
    apply H3; [set_solver|]. by apply Hsync.
Qed.

(** A file with its data on disk gets its final name there. *)
Lemma publish_file_kept tmp fin w :
  fs_synced (st_fs w) tmp ->
  wp (publish_file tmp fin) (fun r w' => keeping [tmp; fin] w w' /\
    (r = Ok tt -> fs_durable (st_fs w') fin)) w.
Proof using FS.
  intros Hsync. unfold publish_file. unfold bind_ok at 1, inject at 1. apply wp_bind, wp_bind, wp_on_os.
  intros s o1. apply wp_ret. destruct (check_status s); [|apply wp_ret; split; [apply fs_keeps_refl|done]].
  apply wp_bind, wp_on_fs. unfold wp at 1. cbn [st_fs st_db st_os].
  pose proof (rename_keeps tmp fin (st_fs w)) as Hs. destruct (sys_rename_noreplace tmp fin (st_fs w)) as [r f1].
  destruct Hs as [Hk1 Hs1]. destruct r as [e|].
  { destruct (e =? EEXIST); apply wp_ret; by split. }
  specialize (Hs1 eq_refl Hsync).
  unfold bind_ok at 1, inject at 1. apply wp_bind, wp_bind, wp_on_os. intros s2 o2. apply wp_ret.
  destruct (check_status s2); [|by apply wp_ret].
  unfold bind_ok at 1, inject at 1. apply wp_bind, wp_bind, wp_on_os. intros s3 o3. apply wp_ret.
  destruct (check_status s3); [|by apply wp_ret].
  apply wp_bind, wp_on_fs. unfold wp at 1. cbn [st_fs st_db st_os].
  pose proof (fsync_dir_keeps f1) as Hs. destruct (sys_fsync_dir f1) as [r f2]. destruct Hs as [Hk2 Hd2].
  assert (Hk : fs_keeps [tmp; fin] (st_fs w) f2).
  { eapply fs_keeps_trans; [exact Hk1|]. eapply fs_keeps_mono; [|exact Hk2]. set_solver. }
  destruct r as [e|]; [by apply wp_ret|]. unfold inject. apply wp_bind, wp_on_os. intros s4 o4. apply wp_ret.
  split; [exact Hk|]. intros _. apply Hd2; [done|by right].
Qed.

(** Writing an object. *)
Lemma Write_kept id data w :
  wp (Write id data) (fun r w' => keeping (object_names id) w w' /\
    (r = Ok tt -> fs_durable (st_fs w') (FinalName id))) w.
Proof using FS.
  unfold Write. cbv zeta. apply wp_bind, wp_on_fs. unfold wp at 1.
  pose proof (create_spec (TemporaryName id) (st_fs w)) as Hs.
  pose proof (create_keeps (TemporaryName id) (st_fs w)) as Hk.
  destruct (sys_create (TemporaryName id) (st_fs w)) as [r f]. destruct Hs as [_ Hs].
  set (w1 := MkStorageW (st_db w) f (st_os w)).
  assert (H1 : keeping (object_names id) w w1) by (eapply fs_keeps_mono; [|exact Hk]; unfold object_names; set_solver).
  destruct r as [e|fd]; [destruct (e =? EEXIST); by apply wp_ret|].
  destruct Hs as (_ & _ & Hfd). unfold bind_ok. apply wp_bind.
  eapply wp_mono; [|by apply (write_temporary_kept _ (TemporaryName id))]. intros r w2 [H2 Hs2].
  assert (H2' : keeping (object_names id) w w2).
  { transitivity w1; [done|]. eapply fs_keeps_mono; [|exact H2]. unfold object_names. set_solver. }
  destruct r as [[]|s]; [|by apply wp_ret].
  eapply wp_mono; [|by apply publish_file_kept, Hs2]. intros r w3 [H3 Hd3]. split; [by transitivity w2|done].
Qed.

(** The names an object had are gone for good. *)
Lemma Cleanup_durable ids w :
  ids <> [] -> wp (Cleanup ids) (fun r w' => r = Ok tt ->
    forall n, n ∈ ids ≫= object_names -> fs_view (st_fs w') !! n = None /\ fs_durable (st_fs w') n) w.
Proof using FS.
  intros Hne. unfold Cleanup, bind_ok. apply wp_bind, wp_unlink_all.
  2:{ intros s f Ht Hs. by apply wp_ret. }
  intros f Hf. destruct ids as [|id ids]; [done|].
  apply wp_bind, wp_on_fs. unfold wp at 1. cbn [st_fs st_db st_os].
  pose proof (fsync_dir_spec f) as Hs. pose proof (fsync_dir_keeps f) as Hd.
  destruct (sys_fsync_dir f) as [[e|] f2]; apply wp_ret; [done|]. intros _ n Hn. destruct Hd as [_ Hd].
  assert (Hnone : fs_view f !! n = None) by (by rewrite Hf, without_lookup, decide_True).
  cbn. rewrite Hs. split; [done|]. apply Hd; [done|by left].
Qed.

(** Two facts about one run. *)
Lemma wp_both {S A} (m : M S A) (P Q : A -> S -> Prop) w :
  wp m P w -> wp m Q w -> wp m (fun x w' => P x w' /\ Q x w') w.
Proof. unfold wp. by destruct (m w). Qed.

End Durability.
