(* ===== verification/Storage.v ===== *)
(** * Unified storage (src/storage/unified_storage.cpp)

    Reads through a snapshot, write batches, validation of what is read back, the
    ordered scan of messages, initialization, and the recovery that runs at
    startup. *)

From Stdlib Require Import QArith Qround.
From S2P Require Import Prelude Status Encoding Tokens Proto Json Platform Keys World FileStore.

#[local] Open Scope Z_scope.

Inductive MessageScanAction := kContinue | kStopBefore | kStopAfter.

Section Storage.
Context {R : RocksDB} {P : Protobuf} {F : PosixDir} {H : Host}.

(** ** System messages *)

Definition system_initialization_payload : string :=
  raw "{'kind':'system.initialization','data':{'schema_version':1}}".

(** [event_ms] is the clock's reading, before 1970 on a host with a broken clock. *)
Definition InitializationMessage (event_ms : Z) : EventMessage :=
  MkEventMessage 0 0 0 [] system_initialization_payload (Z.max 0 event_ms) 0 [].

Definition pb_contains (fields : list (string * PbValue)) (k : string) : bool :=
  bool_decide (is_Some (pb_find fields k)).

Definition number_is (v : option PbValue) (n : Z) : bool :=
  match v with Some (PbNumber q) => Qeq_bool q (inject_Z n) | _ => false end.

Definition ValidInitializationMessage (m : EventMessage) : bool :=
  if negb (em_seq m =? 0) || negb (em_uuid m =? 0) || negb (em_principal m =? 0) ||
     negb (em_channel_id m =? 0) || negb (bool_decide (em_recipients m = [])) ||
     negb (bool_decide (em_object_keys m = []))
  then false
  else
    match JsonStringToMessage (em_payload m) with
    | None => false
    | Some fields =>
        match pb_find fields "kind", pb_find fields "data" with
        | Some (PbString kind), Some (PbStruct data_fields) =>
            bool_decide (kind = "system.initialization") &&
            number_is (pb_find data_fields "schema_version") 1 &&
            negb (pb_contains fields "seq") && negb (pb_contains fields "channel_id") &&
            negb (pb_contains fields "principal") && negb (pb_contains fields "uuid")
        | _, _ => false
        end
    end.

(** A positive whole number not above [(double)UINT64_MAX], which is 2^64. *)
Definition is_principal (v : PbValue) : bool :=
  match v with
  | PbNumber q =>
      negb (Qle_bool q (inject_Z 0)) && Qeq_bool (inject_Z (Qfloor q)) q &&
      Qle_bool q (inject_Z two64)
  | _ => false
  end.

Definition is_string_field (fields : list (string * PbValue)) (k : string) : bool :=
  match pb_find fields k with Some (PbString _) => true | _ => false end.

Definition ValidChannelSystemMessage (m : EventMessage) : bool :=
  if negb (bool_decide (em_recipients m = [])) || negb (bool_decide (em_object_keys m = []))
  then false
  else
    match JsonStringToMessage (em_payload m) with
    | None => false
    | Some fields =>
        match pb_find fields "kind", pb_find fields "data" with
        | Some (PbString kind), Some (PbStruct data_fields) =>
            if pb_contains fields "seq" || pb_contains fields "channel_id" ||
               pb_contains fields "principal" || pb_contains fields "uuid" ||
               pb_contains fields "ts_ms"
            then false
            else if negb (number_is (pb_find data_fields "schema_version") 1) then false
            else if bool_decide (kind = "system.member_added") ||
                    bool_decide (kind = "system.member_removed")
            then match pb_find data_fields "member" with
                 | Some v => is_principal v
                 | None => false
                 end
            else if negb (bool_decide (kind = "system.channel_initialized")) then false
            else if negb (forallb (is_string_field data_fields)
                            ["name"; "protocol"; "description"; "visibility"]) then false
            else
              match pb_find data_fields "visibility" with
              | Some (PbString visibility) =>
                  if negb (bool_decide (visibility = "public")) &&
                     negb (bool_decide (visibility = "protected")) &&
                     negb (bool_decide (visibility = "private"))
                  then false
                  else
                    match pb_find data_fields "creator", pb_find data_fields "members" with
                    | Some c, Some (PbList values) =>
                        is_principal c && negb (bool_decide (values = [])) &&
                        forallb is_principal values
                    | _, _ => false
                    end
              | _ => false
              end
        | _, _ => false
        end
    end.

(** ** Stored objects and channels *)

Definition SerializeObject (o : StoredObject) : Result string :=
  match SerializeRecord
          (MkObjectRecord (so_object_id o) (so_object_token o) (so_creator_principal o)
             (so_name o) (so_type o) (so_description o) (so_nbytes o)) with
  | None => Err (mkStatus INTERNAL "serialize object metadata failed")
  | Some payload => Ok payload
  end.

Definition ParseObject (payload : string) (expected_id : Z) : Result StoredObject :=
  let corrupt := StorageCorruption "decode object metadata" "invalid stored object metadata" in
  match ParseRecord payload with
  | None => Err corrupt
  | Some r =>
      if negb (or_object_id r =? expected_id) || (expected_id =? 0) ||
         negb (IsBase64UrlToken (or_object_token r)) || (or_creator_principal r =? 0) ||
         str_empty (or_name r) || (kMaxObjectNameBytes <? str_size (or_name r)) ||
         str_empty (or_type r) || (kMaxObjectTypeBytes <? str_size (or_type r)) ||
         (kMaxObjectDescriptionBytes <? str_size (or_description r)) ||
         (or_nbytes r =? 0) || (kMaxObjectBytes <? or_nbytes r)
      then Err corrupt
      else Ok (MkStoredObject (or_object_id r) (or_object_token r) (or_creator_principal r)
                 (or_name r) (or_type r) (or_description r) (or_nbytes r))
  end.

Definition ValidStoredChannel (c : ChannelInfo) : bool :=
  negb (ci_channel_id c =? 0) && has_creator c && negb (creator c =? 0) &&
  negb (str_empty (ci_name c)) && (str_size (ci_name c) <=? 255) &&
  (str_size (ci_protocol c) <=? 255) && (str_size (ci_description c) <=? 4096) &&
  Visibility_IsValid (ci_visibility c) &&
  bool_decide (creator c ∈ ci_members c) && negb (bool_decide (0 ∈ ci_members c)).

(** ** Snapshots and commits *)

Definition CreateSnapshot : RM StorageW snap_t :=
  let! s := on_db db_GetSnapshot in
  match s with
  | None =>
      ret (Err (WithStorageDiagnostic (Fatal UNAVAILABLE "create storage snapshot failed")
                  "create storage snapshot" "RocksDB returned no snapshot"))
  | Some s => ok s
  end.

Definition Commit (batch : WriteBatch) : RM StorageW unit :=
  let! injected := on_os (InjectStorageFault kBeforeCommit) in
  if negb (status_ok injected)
  then ret (Err (WithStorageDiagnostic (Fatal (code injected) (message injected))
                   "commit storage batch" "injected failure before write"))
  else
    let! written := on_db (db_Write SynchronousWriteOptions batch) in
    let status := RocksToStatus written "commit storage batch" in
    if negb (status_ok status) then ret (Err status)
    else
      let! injected := on_os (InjectStorageFault kAfterCommit) in
      if status_ok injected then ok tt
      else ret (Err (WithStorageDiagnostic (Fatal (code injected) (message injected))
                       "commit storage batch" "injected failure after write")).

(** ** Reads *)

Definition GetRequiredUint64 (snapshot : snap_t) (key : string) : RM StorageW Z :=
  let! r := on_db (db_Get snapshot CF_meta key) in
  if IsNotFound r.1
  then ret (Err (StorageCorruption ("read " +:+ key) ("missing required storage key: " +:+ key)))
  else if negb (rocks_ok r.1) then ret (Err (RocksToStatus r.1 ("read " +:+ key)))
  else ret (DecodeRequiredUint64 r.2 key).

Definition GetMaxSeq (snapshot : snap_t) : RM StorageW Z := GetRequiredUint64 snapshot kMaxSeqKey.

Definition GetNextUuid (snapshot : snap_t) : RM StorageW Z :=
  GetRequiredUint64 snapshot kNextUuidKey.

Definition GetUsedUuidSeq (snapshot : snap_t) (uuid : Z) : RM StorageW (option Z) :=
  let! r := on_db (db_Get snapshot CF_meta (NumericKey kUuidPrefix uuid)) in
  if IsNotFound r.1 then ok None
  else if negb (rocks_ok r.1) then ret (Err (RocksToStatus r.1 "read used uuid"))
  else
    let? seq := ret (DecodeRequiredUint64 r.2 "used uuid") in
    if negb (Bool.eqb (uuid =? 0) (seq =? 0))
    then ret (Err (StorageCorruption "read used uuid" "invalid stored UUID mapping"))
    else ok (Some seq).

Definition GetNextChannelId (snapshot : snap_t) : RM StorageW Z :=
  GetRequiredUint64 snapshot kNextChannelIdKey.

Definition GetNextObjectId (snapshot : snap_t) : RM StorageW Z :=
  GetRequiredUint64 snapshot kNextObjectIdKey.

Definition HasToken (snapshot : snap_t) (principal : Z) (token : string) : RM StorageW bool :=
  let! r := on_db (db_Get snapshot CF_meta (TokenKey principal token)) in
  if IsNotFound r.1 then ok false
  else if negb (rocks_ok r.1) then ret (Err (RocksToStatus r.1 "read credential"))
  else if negb (str_empty r.2)
  then ret (Err (StorageCorruption "read credential" "invalid stored credential"))
  else ok true.

(** The checks made on a stored channel, by id and when listing. *)
Definition checked_channel (value : string) (channel_id : Z) : option ChannelInfo :=
  match ParseChannel value with
  | Some c => if (ci_channel_id c =? channel_id) && ValidStoredChannel c then Some c else None
  | None => None
  end.

Definition GetChannel (snapshot : snap_t) (channel_id : Z) : RM StorageW (option ChannelInfo) :=
  let! r := on_db (db_Get snapshot CF_meta (NumericKey kChannelPrefix channel_id)) in
  if IsNotFound r.1 then ok None
  else if negb (rocks_ok r.1) then ret (Err (RocksToStatus r.1 "read channel"))
  else
    match checked_channel r.2 channel_id with
    | None => ret (Err (StorageCorruption "read channel" "invalid stored channel"))
    | Some channel => ok (Some channel)
    end.

(** The iterator's status once the loop over its remaining entries has stopped: an iterator
    that is still valid is healthy. *)
Definition iterator_status (rest : list (string * string)) (st : RocksStatus) (operation : string)
    : Result unit :=
  match rest with
  | [] => check_status (RocksToStatus st operation)
  | _ => Ok tt
  end.

Fixpoint list_channels_loop (entries : list (string * string)) (st : RocksStatus)
    (channels : list ChannelInfo) : Result (list ChannelInfo) :=
  match entries with
  | (key, value) :: rest =>
      if negb (String.prefix kChannelPrefix key) then Ok channels
      else
        rlet channel_id := DecodeNumericKey key kChannelPrefix "channel" in
        match checked_channel value channel_id with
        | None => Err (StorageCorruption "list channels" "invalid stored channel")
        | Some channel => list_channels_loop rest st (channels ++ [channel])
        end
  | [] => rdo iterator_status [] st "list channels" in Ok channels
  end.

Definition ListChannels (snapshot : snap_t) : RM StorageW (list ChannelInfo) :=
  let! it := on_db (db_Iterate (Some snapshot) CF_meta kChannelPrefix) in
  ret (list_channels_loop it.1 it.2 []).

(** ** The ordered scan of messages *)

Definition invalid_reserved_fields (seq : Z) (m : EventMessage) : bool :=
  if seq =? 0 then negb (ValidInitializationMessage m)
  else (em_uuid m =? 0) || (em_channel_id m =? 0) ||
       ((em_principal m =? 0) && negb (ValidChannelSystemMessage m)) ||
       bool_decide (0 ∈ em_recipients m).

Definition invalid_object_references (m : EventMessage) : bool :=
  (kMaxObjectKeys <? Z.of_nat (length (em_object_keys m))) ||
  existsb (fun k => (ok_object_id k =? 0) || negb (IsBase64UrlToken (ok_object_token k)))
    (em_object_keys m).

Definition scan_missing (next_seq : Z) : Status :=
  StorageCorruption "scan messages" ("missing stored message at seq " +:+ to_string next_seq).

(** What follows the loop, with the entries the iterator has not passed. *)
Definition scan_finish (rest : list (string * string)) (st : RocksStatus)
    (last_seq max_records scanned next_seq : Z) : Result Z :=
  rdo iterator_status rest st "scan messages" in
  let past_the_end :=
    match rest with
    | [] => true
    | (key, _) :: _ =>
        negb (String.prefix kMessagePrefix key) ||
        (last_seq <? DecodeUint64 (drop_bytes (String.length kMessagePrefix) key))
    end in
  if (scanned <? max_records) && (next_seq <=? last_seq) && past_the_end
  then Err (scan_missing next_seq)
  else Ok next_seq.

(** The scan loop. [visitor] is the caller's closure over its own state [V]. *)
Fixpoint scan_loop {V} (visitor : V -> EventMessage -> RM StorageW (MessageScanAction * V))
    (entries : list (string * string)) (st : RocksStatus) (last_seq max_records : Z)
    (scanned next_seq : Z) (v : V) : RM StorageW (Z * V) :=
  let finish :=
    ret (rlet n := scan_finish entries st last_seq max_records scanned next_seq in Ok (n, v)) in
  match entries with
  | [] => finish
  | (key, value) :: rest =>
      if negb (String.prefix kMessagePrefix key) then finish
      else
        let? seq := ret (DecodeNumericKey key kMessagePrefix "message") in
        if last_seq <? seq then finish
        else if negb (seq =? next_seq) then ret (Err (scan_missing next_seq))
        else if max_records <=? scanned then finish
        else
          match ParseMessage value with
          | None => ret (Err (StorageCorruption "scan messages" "invalid stored message"))
          | Some m =>
              if negb (em_seq m =? seq)
              then ret (Err (StorageCorruption "scan messages" "invalid stored message"))
              else if invalid_reserved_fields seq m
              then ret (Err (StorageCorruption "scan messages"
                               "invalid stored message reserved fields"))
              else if invalid_object_references m
              then ret (Err (StorageCorruption "scan messages"
                               "invalid stored message object reference"))
              else
                let? av := visitor v m in
                match av.1 with
                | kStopBefore => ok (seq, av.2)
                | kStopAfter => ok (u64_add seq 1, av.2)
                | kContinue =>
                    scan_loop visitor rest st last_seq max_records (scanned + 1)
                      (u64_add seq 1) av.2
                end
          end
  end.

Definition ScanMessages {V} (snapshot : snap_t) (from_seq last_seq max_records : Z)
    (visitor : V -> EventMessage -> RM StorageW (MessageScanAction * V)) (v : V)
    : RM StorageW (Z * V) :=
  let! it := on_db (db_Iterate (Some snapshot) CF_messages (NumericKey kMessagePrefix from_seq)) in
  scan_loop visitor it.1 it.2 last_seq max_records 0 from_seq v.

(** ** Objects *)

Definition GetObject (snapshot : snap_t) (prefix : string) (object_id : Z)
    : RM StorageW (option StoredObject) :=
  let! r := on_db (db_Get snapshot CF_objects (NumericKey prefix object_id)) in
  if IsNotFound r.1 then ok None
  else if negb (rocks_ok r.1) then ret (Err (RocksToStatus r.1 "read object metadata"))
  else let? object := ret (ParseObject r.2 object_id) in ok (Some object).

Definition GetPreparingObject (snapshot : snap_t) (object_id : Z) :=
  GetObject snapshot kPreparingObjectPrefix object_id.

Definition GetCommittedObject (snapshot : snap_t) (object_id : Z) :=
  GetObject snapshot kCommittedObjectPrefix object_id.

Fixpoint committed_objects_loop (object_ids : list Z) (results : list (RocksStatus * string))
    : Result (list (option StoredObject)) :=
  match object_ids, results with
  | id :: object_ids, (st, value) :: results =>
      if IsNotFound st
      then rlet rest := committed_objects_loop object_ids results in Ok (None :: rest)
      else if negb (rocks_ok st) then Err (RocksToStatus st "read object metadata")
      else
        rlet object := ParseObject value id in
        rlet rest := committed_objects_loop object_ids results in
        Ok (Some object :: rest)
  | _, _ => Ok []
  end.

Definition GetCommittedObjects (snapshot : snap_t) (object_ids : list Z)
    : RM StorageW (list (option StoredObject)) :=
  match object_ids with
  | [] => ok []
  | _ =>
      let! results := on_db (db_MultiGet snapshot CF_objects
                               (NumericKey kCommittedObjectPrefix <$> object_ids)) in
      ret (committed_objects_loop object_ids results)
  end.

(** ** Batch builders: each appends to a batch, or refuses *)

Definition SetMaxSeq (batch : WriteBatch) (seq : Z) : Result WriteBatch :=
  Ok (batch ++ [BPut CF_meta kMaxSeqKey (EncodeUint64 seq)]).

Definition SetNextUuid (batch : WriteBatch) (uuid : Z) : Result WriteBatch :=
  if uuid =? 0 then Err (mkStatus INVALID_ARGUMENT "next uuid must be nonzero")
  else Ok (batch ++ [BPut CF_meta kNextUuidKey (EncodeUint64 uuid)]).

Definition PutUsedUuid (batch : WriteBatch) (uuid seq : Z) : Result WriteBatch :=
  if (uuid =? 0) || (seq =? 0)
  then Err (mkStatus INVALID_ARGUMENT "used uuid and seq must be nonzero")
  else Ok (batch ++ [BPut CF_meta (NumericKey kUuidPrefix uuid) (EncodeUint64 seq)]).

Definition SetNextChannelId (batch : WriteBatch) (channel_id : Z) : Result WriteBatch :=
  Ok (batch ++ [BPut CF_meta kNextChannelIdKey (EncodeUint64 channel_id)]).

Definition SetNextObjectId (batch : WriteBatch) (object_id : Z) : Result WriteBatch :=
  Ok (batch ++ [BPut CF_meta kNextObjectIdKey (EncodeUint64 object_id)]).

Definition PutMessage (batch : WriteBatch) (m : EventMessage) : Result WriteBatch :=
  match SerializeMessage m with
  | None => Err (mkStatus INTERNAL "serialize message failed")
  | Some payload => Ok (batch ++ [BPut CF_messages (NumericKey kMessagePrefix (em_seq m)) payload])
  end.

Definition PutChannel (batch : WriteBatch) (c : ChannelInfo) : Result WriteBatch :=
  match SerializeChannel c with
  | None => Err (mkStatus INTERNAL "serialize channel failed")
  | Some payload =>
      Ok (batch ++ [BPut CF_meta (NumericKey kChannelPrefix (ci_channel_id c)) payload])
  end.

Definition PutToken (batch : WriteBatch) (principal : Z) (token : string) : Result WriteBatch :=
  Ok (batch ++ [BPut CF_meta (TokenKey principal token) ""]).

Definition DeleteToken (batch : WriteBatch) (principal : Z) (token : string) : WriteBatch :=
  batch ++ [BDelete CF_meta (TokenKey principal token)].

Definition PutPreparingObject (batch : WriteBatch) (o : StoredObject) : Result WriteBatch :=
  rlet payload := SerializeObject o in
  Ok (batch ++ [BPut CF_objects (NumericKey kPreparingObjectPrefix (so_object_id o)) payload]).

Definition PutCommittedObject (batch : WriteBatch) (o : StoredObject) : Result WriteBatch :=
  rlet payload := SerializeObject o in
  Ok (batch ++ [BDelete CF_objects (NumericKey kPreparingObjectPrefix (so_object_id o));
                BPut CF_objects (NumericKey kCommittedObjectPrefix (so_object_id o)) payload]).

Definition DeletePreparingObject (batch : WriteBatch) (object_id : Z) : WriteBatch :=
  batch ++ [BDelete CF_objects (NumericKey kPreparingObjectPrefix object_id)].

Definition WriteObjectFile (object_id : Z) (data : string) : RM StorageW unit :=
  Write object_id data.

Definition CleanupObjectFiles (object_id : Z) : RM StorageW unit := Cleanup [object_id].

Definition ReadObjectFile (o : StoredObject) (offset nbytes : Z) : RM StorageW string :=
  ReadRange (so_object_id o) (so_nbytes o) offset nbytes.

(** ** Recovery at startup *)

Fixpoint list_preparing_loop (entries : list (string * string)) (st : RocksStatus)
    (objects : list StoredObject) : Result (list StoredObject) :=
  match entries with
  | (key, value) :: rest =>
      if negb (String.prefix kPreparingObjectPrefix key) then Ok objects
      else
        rlet object_id := DecodeNumericKey key kPreparingObjectPrefix "preparing object" in
        rlet object := ParseObject value object_id in
        list_preparing_loop rest st (objects ++ [object])
  | [] => rdo iterator_status [] st "list preparing objects" in Ok objects
  end.

Definition ListPreparingObjects : RM StorageW (list StoredObject) :=
  let! it := on_db (db_Iterate None CF_objects kPreparingObjectPrefix) in
  ret (list_preparing_loop it.1 it.2 []).

Fixpoint check_not_committed (snapshot : snap_t) (objects : list StoredObject)
    : RM StorageW unit :=
  match objects with
  | [] => ok tt
  | o :: objects =>
      let? committed := GetCommittedObject snapshot (so_object_id o) in
      match committed with
      | Some _ =>
          ret (Err (StorageCorruption "recover preparing objects"
                      "object ID has both PREPARING and COMMITTED metadata"))
      | None => check_not_committed snapshot objects
      end
  end.

Definition RecoverPreparingObjects : RM StorageW unit :=
  let? objects := ListPreparingObjects in
  match objects with
  | [] => ok tt
  | _ =>
      let? snapshot := CreateSnapshot in
      do? check_not_committed snapshot objects in
      do? Cleanup (so_object_id <$> objects) in
      Commit (fold_left (fun b o => DeletePreparingObject b (so_object_id o)) objects [])
  end.

Definition corrupt_validate {A} (error : string) : RM StorageW A :=
  ret (Err (StorageCorruption "validate storage" error)).

Definition Validate : RM StorageW unit :=
  let? snapshot := CreateSnapshot in
  let? schema := GetRequiredUint64 snapshot kSchemaVersionKey in
  if negb (schema =? kSchemaVersion) then corrupt_validate "unsupported storage schema version"
  else
    let? max_seq := GetMaxSeq snapshot in
    let? next_uuid := GetNextUuid snapshot in
    if next_uuid =? 0 then corrupt_validate "invalid next uuid"
    else
      let? next_channel_id := GetNextChannelId snapshot in
      if next_channel_id =? 0 then corrupt_validate "invalid next channel ID"
      else
        let? next_object_id := GetNextObjectId snapshot in
        if next_object_id =? 0 then corrupt_validate "invalid next object ID"
        else
          let! r := on_db (db_Get snapshot CF_messages (NumericKey kMessagePrefix 0)) in
          if IsNotFound r.1 then corrupt_validate "missing system initialization message"
          else if negb (rocks_ok r.1)
          then ret (Err (RocksToStatus r.1 "read system initialization message"))
          else
            match ParseMessage r.2 with
            | None => corrupt_validate "invalid system initialization message"
            | Some m =>
                if negb (ValidInitializationMessage m)
                then corrupt_validate "invalid system initialization message"
                else
                  let? system_seq := GetUsedUuidSeq snapshot 0 in
                  match system_seq with
                  | Some 0 => ok tt
                  | _ => corrupt_validate "missing or conflicting system UUID mapping"
                  end
            end.

(** What [OpenExisting] does once the database and the object directory are open. *)
Definition OpenExisting_checks : RM StorageW unit :=
  do? Validate in RecoverPreparingObjects.

(** ** Initialization of a new storage root *)

(** [SerializeAsString] gives an empty string when serialization fails. *)
Definition InitializationBatch (event_ms : Z) : WriteBatch :=
  [BPut CF_meta kSchemaVersionKey (EncodeUint64 kSchemaVersion);
   BPut CF_meta kMaxSeqKey (EncodeUint64 0);
   BPut CF_meta kNextUuidKey (EncodeUint64 1);
   BPut CF_meta kNextChannelIdKey (EncodeUint64 1);
   BPut CF_meta kNextObjectIdKey (EncodeUint64 1);
   BPut CF_meta (NumericKey kUuidPrefix 0) (EncodeUint64 0);
   BPut CF_messages (NumericKey kMessagePrefix 0)
     (default "" (SerializeMessage (InitializationMessage event_ms)))].

(** [InitializeNew], once the database and its column families exist. *)
Definition InitializeNew_commit : RM StorageW unit :=
  let! now := on_os os_system_clock in
  let batch := InitializationBatch (Z.quot now 1000000) in
  let! injected := on_os (InjectStorageFault kBeforeInitializationCommit) in
  if negb (status_ok injected) then ret (Err injected)
  else
    let! written := on_db (db_Write SynchronousWriteOptions batch) in
    do? ret (check_status (RocksToStatus written "finish storage initialization")) in
    inject kAfterInitializationCommit.

End Storage.
