(* ===== verification/Core.v ===== *)
(** * The core service: state, guards and reads (src/service/open_event_core.cpp)

    The coordinator's state, authentication, channel permissions, and the
    handlers that only read.  A handler runs on one snapshot taken under the
    coordinator's mutex, so it is one computation over [CoreW]. *)

From S2P Require Import Prelude Status Encoding Tokens Proto Json Platform Keys World FileStore.
From S2P Require Import Storage.

Definition kMaxUuidBatch : Z := 1024.
Definition kMaxChannelMembers : Z := 1024.

Section Core.
Context {R : RocksDB} {P : Protobuf} {F : PosixDir} {H : Host}.

(** The members fixed by the constructor. *)
Record CoreConfig := MkCoreConfig {
  max_payload_bytes : Z;
  max_scan_records : Z;
  response_soft_limit_bytes : Z;
  has_fatal_error_handler : bool
}.

(** The members [subscription_snapshot_*_], guarded by their own mutex. *)
Record SubState := MkSubState {
  subscription_snapshot : option snap_t;
  subscription_snapshot_version : Z;
  subscription_snapshot_generation : Z;
  subscription_snapshot_attempt_generation : Z;
  subscription_snapshot_status : Status;
  stop_subscription_snapshot_thread : bool
}.

(** [fatal_calls] records the calls of the fatal-error handler. *)
Record CoreW := MkCoreW {
  c_storage : StorageW;
  commit_generation : Z;
  fatal_error_triggered : bool;
  fatal_calls : list Status;
  c_sub : SubState
}.

(** Run an operation of [storage_]. *)
Definition storage {A} (m : M StorageW A) : M CoreW A :=
  fun w => let '(a, s) := m (c_storage w) in
    (a, MkCoreW s (commit_generation w) (fatal_error_triggered w) (fatal_calls w) (c_sub w)).

Definition set_fatal (w : CoreW) (calls : list Status) : CoreW :=
  MkCoreW (c_storage w) (commit_generation w) true calls (c_sub w).

Definition bump_generation (w : CoreW) : CoreW :=
  MkCoreW (c_storage w) (u64_add (commit_generation w) 1) (fatal_error_triggered w)
    (fatal_calls w) (c_sub w).

Section WithConfig.
Context (cfg : CoreConfig).

Definition EnsureAvailable : RM CoreW unit :=
  let! w := get in
  if fatal_error_triggered w
  then fail UNAVAILABLE "server is shutting down due to a fatal storage error"
  else ok tt.

Definition FatalStorageError (status : Status) : M CoreW Status :=
  let! w := get in
  if fatal_error_triggered w then ret status
  else
    do! modify (fun w => set_fatal w (if has_fatal_error_handler cfg
                                      then fatal_calls w ++ [status] else fatal_calls w)) in
    ret status.

Definition must_exit (status : Status) : bool :=
  requires_server_exit status || bool_decide (code status = DATA_LOSS).

Definition HandleRpcStatus (status : Status) : M CoreW Status :=
  if must_exit status then do! FatalStorageError status in ret status else ret status.

(** [status.requires_server_exit() || DATA_LOSS ? FatalStorageError(status) : status]. *)
Definition escalate {A} (status : Status) : RM CoreW A :=
  if must_exit status then let! s := FatalStorageError status in ret (Err s)
  else ret (Err status).

Definition NowMs : M CoreW Z :=
  let! now := storage (on_os os_system_clock) in ret (Z.quot now 1000000 mod two64).

Definition CheckRpcActive (context : option ServerContext) : RM CoreW unit :=
  match context with
  | None => ok tt
  | Some ctx =>
      let! expired :=
        match ctx_deadline ctx with
        | None => ret false
        | Some deadline =>
            let! now := storage (on_os os_system_clock) in ret (deadline <=? now)
        end in
      if expired then fail DEADLINE_EXCEEDED "RPC deadline exceeded"
      else
        let! cancelled := storage (on_os (os_IsCancelled ctx)) in
        if cancelled then fail CANCELLED "RPC cancelled" else ok tt
  end.

Definition CreateLinearizedSnapshot : RM CoreW snap_t := storage CreateSnapshot.

Definition Authenticate (snapshot : snap_t) (principal : Z) (token : string) : RM CoreW unit :=
  if principal =? 0 then fail INVALID_ARGUMENT "principal must be greater than 0"
  else if str_empty token then fail UNAUTHENTICATED "token is required"
  else
    let? found := storage (HasToken snapshot principal token) in
    if negb found then fail UNAUTHENTICATED "invalid token" else ok tt.

Definition CommitBatch (batch : WriteBatch) : RM CoreW unit :=
  let! r := storage (Commit batch) in
  match r with
  | Err status =>
      if requires_server_exit status
      then let! s := FatalStorageError status in ret (Err s)
      else ret (Err status)
  | Ok _ => do! modify bump_generation in ok tt
  end.

(** ** Channels and permissions *)

Definition SystemChannel : ChannelInfo :=
  MkChannelInfo 0 "system" VISIBILITY_PROTECTED "system.v1" "" None [].

Definition LoadChannel (snapshot : snap_t) (channel_id : Z) : RM StorageW (option ChannelInfo) :=
  if channel_id =? 0 then ok (Some SystemChannel) else GetChannel snapshot channel_id.

Definition Contains (values : list Z) (value : Z) : bool := bool_decide (value ∈ values).

Definition IsMember (channel : ChannelInfo) (principal : Z) : bool :=
  Contains (ci_members channel) principal.

Definition CanRead (channel : ChannelInfo) (principal : Z) : bool :=
  if ci_channel_id channel =? 0 then true
  else if bool_decide (ci_visibility channel = VISIBILITY_PUBLIC) ||
          bool_decide (ci_visibility channel = VISIBILITY_PROTECTED) then true
  else IsMember channel principal.

Definition CanWrite (channel : ChannelInfo) (principal : Z) : bool :=
  if ci_channel_id channel =? 0 then false
  else if bool_decide (ci_visibility channel = VISIBILITY_PUBLIC) then true
  else IsMember channel principal.

Definition ValidateRecipients (channel : ChannelInfo) (recipients : list Z) : Result unit :=
  match recipients with
  | [] => Ok tt
  | _ =>
      if forallb (fun r => bool_decide (r ∈ (list_to_set (ci_members channel) : gset Z))) recipients
      then Ok tt
      else Err (mkStatus INVALID_ARGUMENT "recipient must be channel member")
  end.

Definition HasRecipient (m : EventMessage) (principal : Z) : bool :=
  Contains (em_recipients m) principal.

Definition ValidateVisibility (v : Visibility) : Result unit :=
  match v with
  | VISIBILITY_PUBLIC | VISIBILITY_PROTECTED | VISIBILITY_PRIVATE => Ok tt
  | Visibility_other _ => Err (mkStatus INVALID_ARGUMENT "invalid visibility")
  end.

Definition ValidateFilter (f : ChannelFilter) : Result unit :=
  match f with
  | CHANNEL_FILTER_ALL | CHANNEL_FILTER_JOINED | CHANNEL_FILTER_OWNED => Ok tt
  | ChannelFilter_other _ => Err (mkStatus INVALID_ARGUMENT "invalid channel filter")
  end.

(** The loop over the requested channels; [validated] is the set of those already seen. *)
Fixpoint validate_channels (snapshot : snap_t) (principal : Z) (validated : gset Z)
    (channels : list Z) : RM StorageW unit :=
  match channels with
  | [] => ok tt
  | channel_id :: channels =>
      if bool_decide (channel_id ∈ validated)
      then validate_channels snapshot principal validated channels
      else
        let? channel := LoadChannel snapshot channel_id in
        match channel with
        | None => fail NOT_FOUND "channel not found"
        | Some c =>
            if negb (CanRead c principal) then fail PERMISSION_DENIED "channel not visible"
            else validate_channels snapshot principal ({[channel_id]} ∪ validated) channels
        end
  end.

Definition ValidateReadableChannels (snapshot : snap_t) (principal : Z) (channels : list Z)
    : RM CoreW unit := storage (validate_channels snapshot principal ∅ channels).

(** ** Request checks *)

Definition ValidatePayloadSize (payload : string) : Result unit :=
  if str_size payload <=? max_payload_bytes cfg then Ok tt
  else Err (mkStatus RESOURCE_EXHAUSTED
              ("payload exceeds limits.max_payload_bytes (" +:+ to_string (str_size payload) +:+
               " > " +:+ to_string (max_payload_bytes cfg) +:+ ")")).

Definition ValidateObjectKeysShape (object_keys : list ObjectKey) : Result unit :=
  if kMaxObjectKeys <? Z.of_nat (length object_keys)
  then Err (mkStatus INVALID_ARGUMENT "object_keys must contain at most 1024 items")
  else if existsb (fun k => (ok_object_id k =? 0) || str_empty (ok_object_token k)) object_keys
  then Err (mkStatus INVALID_ARGUMENT
              "each ObjectKey requires nonzero object_id and nonempty object_token")
  else Ok tt.

Definition ValidateAvailableUuid (snapshot : snap_t) (uuid : Z) : RM CoreW unit :=
  if uuid =? 0 then fail INVALID_ARGUMENT "uuid must be allocated by the server"
  else
    let? next_uuid := storage (GetNextUuid snapshot) in
    if next_uuid <=? uuid then fail INVALID_ARGUMENT "uuid was not allocated by the server"
    else
      let? uuid_seq := storage (GetUsedUuidSeq snapshot uuid) in
      match uuid_seq with
      | Some _ => fail ALREADY_EXISTS "uuid has already been used"
      | None => ok tt
      end.

Definition LoadAuthorizedObject (snapshot : snap_t) (object_id : Z) (object_token : string)
    : RM CoreW StoredObject :=
  if (object_id =? 0) || str_empty object_token
  then fail INVALID_ARGUMENT "object_id must be nonzero and object_token must be nonempty"
  else
    let! object := storage (GetCommittedObject snapshot object_id) in
    match object with
    | Err status => escalate status
    | Ok None => fail NOT_FOUND "object capability not found"
    | Ok (Some o) =>
        if negb (ConstantTimeEquals (so_object_token o) object_token)
        then fail NOT_FOUND "object capability not found"
        else ok o
    end.

(** ** Reading handlers *)

Definition GetStatus (principal : Z) (token : string) : RM CoreW Z :=
  do? EnsureAvailable in
  let? snapshot := CreateLinearizedSnapshot in
  do? Authenticate snapshot principal token in
  storage (GetMaxSeq snapshot).

Definition GetSeqByUuid (uuid : Z) : RM CoreW Z :=
  do? EnsureAvailable in
  let? snapshot := CreateLinearizedSnapshot in
  let? seq := storage (GetUsedUuidSeq snapshot uuid) in
  match seq with
  | None => fail NOT_FOUND "uuid has not been consumed by a committed message"
  | Some seq => ok seq
  end.

Definition CoreGetChannel (principal : Z) (token : string) (channel_id : Z)
    : RM CoreW ChannelInfo :=
  do? EnsureAvailable in
  let? snapshot := CreateLinearizedSnapshot in
  do? Authenticate snapshot principal token in
  let? channel := storage (LoadChannel snapshot channel_id) in
  match channel with
  | None => fail NOT_FOUND "channel not found"
  | Some c =>
      if negb (CanRead c principal) then fail PERMISSION_DENIED "channel not visible" else ok c
  end.

Definition listed (filter : ChannelFilter) (principal : Z) (c : ChannelInfo) : bool :=
  CanRead c principal &&
  negb (bool_decide (filter = CHANNEL_FILTER_JOINED) && negb (IsMember c principal)) &&
  negb (bool_decide (filter = CHANNEL_FILTER_OWNED) &&
        (negb (has_creator c) || negb (creator c =? principal))).

Definition CoreListChannels (principal : Z) (token : string) (filter : ChannelFilter)
    : RM CoreW (list ChannelInfo) :=
  do? EnsureAvailable in
  do? ret (ValidateFilter filter) in
  let? snapshot := CreateLinearizedSnapshot in
  do? Authenticate snapshot principal token in
  let? channels := storage (ListChannels snapshot) in
  ok ((if bool_decide (filter = CHANNEL_FILTER_ALL) then [SystemChannel] else []) ++
      List.filter (listed filter principal) channels).

Definition metadata_of (o : StoredObject) : ObjectMetadata :=
  {| om_name := so_name o; om_type := so_type o; om_description := so_description o;
     om_nbytes := so_nbytes o |}.

Definition GetObjectMetadata (object_id : Z) (object_token : string) : RM CoreW ObjectMetadata :=
  do? EnsureAvailable in
  let? snapshot := CreateLinearizedSnapshot in
  let? o := LoadAuthorizedObject snapshot object_id object_token in
  ok (metadata_of o).

Fixpoint batch_metadata (snapshot : snap_t) (keys : list ObjectKey) (staged : list ObjectMetadata)
    : RM CoreW (list ObjectMetadata) :=
  match keys with
  | [] => ok staged
  | k :: keys =>
      let? o := LoadAuthorizedObject snapshot (ok_object_id k) (ok_object_token k) in
      batch_metadata snapshot keys (staged ++ [metadata_of o])
  end.

Definition BatchGetObjectMetadata (object_keys : list ObjectKey) : RM CoreW (list ObjectMetadata) :=
  do? EnsureAvailable in
  match object_keys with
  | [] => fail INVALID_ARGUMENT "object_keys must not be empty"
  | _ =>
      do? ret (ValidateObjectKeysShape object_keys) in
      let? snapshot := CreateLinearizedSnapshot in
      batch_metadata snapshot object_keys []
  end.

Definition ReadObject (object_id : Z) (object_token : string) (offset nbytes : Z)
    : RM CoreW string :=
  do? EnsureAvailable in
  if nbytes =? 0 then fail INVALID_ARGUMENT "nbytes must be greater than 0"
  else
    let? snapshot := CreateLinearizedSnapshot in
    let? o := LoadAuthorizedObject snapshot object_id object_token in
    if so_nbytes o <? offset then fail OUT_OF_RANGE "offset exceeds object size"
    else
      let! data := storage (ReadObjectFile o offset nbytes) in
      match data with
      | Err status => escalate status
      | Ok d => ok d
      end.

(** ** Pages of messages *)

(** The captured state of a scan's visitor: the response, its size so far, and the channels
    whose readability is known. *)
Record PageState := MkPageState {
  pg_messages : list EventMessage;
  pg_bytes : Z;
  pg_readable : gmap Z bool
}.

(** The tail both visitors share: stop before a message over the soft budget, unless it is
    the first; stop after the one that fills the page. *)
Definition page_append (limit : Z) (pg : PageState) (m : EventMessage)
    : MessageScanAction * PageState :=
  let message_bytes := MessageByteSize m in
  if negb (bool_decide (pg_messages pg = [])) &&
     (response_soft_limit_bytes cfg - Z.min (pg_bytes pg) (response_soft_limit_bytes cfg)
        <? message_bytes)
  then (kStopBefore, pg)
  else
    let pg' := MkPageState (pg_messages pg ++ [m]) (u64_add (pg_bytes pg) message_bytes)
                 (pg_readable pg) in
    if limit <=? Z.of_nat (length (pg_messages pg')) then (kStopAfter, pg') else (kContinue, pg').

Definition fetch_visitor (snapshot : snap_t) (principal limit : Z) (only_my_recipient : bool)
    (requested_channels : gset Z) (pg : PageState) (m : EventMessage)
    : RM StorageW (MessageScanAction * PageState) :=
  if negb (bool_decide (requested_channels = ∅)) &&
     negb (bool_decide (em_channel_id m ∈ requested_channels))
  then ok (kContinue, pg)
  else
    let? known :=
      match pg_readable pg !! em_channel_id m with
      | Some b => ok (b, pg)
      | None =>
          let? channel := LoadChannel snapshot (em_channel_id m) in
          match channel with
          | None => ret (Err (StorageCorruption "scan visible messages"
                                "message references a missing channel"))
          | Some c =>
              let can_read := CanRead c principal in
              ok (can_read, MkPageState (pg_messages pg) (pg_bytes pg)
                              (<[em_channel_id m := can_read]> (pg_readable pg)))
          end
      end in
    if negb known.1 || (only_my_recipient && negb (HasRecipient m principal))
    then ok (kContinue, known.2)
    else ok (page_append limit known.2 m).

Definition FetchVisible (snapshot : snap_t) (principal from_seq limit : Z)
    (only_my_recipient : bool) (channels : list Z) : RM StorageW FetchResponse :=
  let? max_seq := GetMaxSeq snapshot in
  if max_seq <? from_seq
  then ok {| fs_messages := []; fs_last_seq := max_seq; fs_next_seq := u64_add max_seq 1 |}
  else
    let requested_channels : gset Z := list_to_set channels in
    let? r := ScanMessages snapshot from_seq max_seq (max_scan_records cfg)
                (fetch_visitor snapshot principal limit only_my_recipient requested_channels)
                (MkPageState [] 0 (gset_to_gmap true requested_channels)) in
    ok {| fs_messages := pg_messages r.2; fs_last_seq := max_seq; fs_next_seq := r.1 |}.

Definition Fetch (req : FetchRequest) : RM CoreW FetchResponse :=
  do? EnsureAvailable in
  if (fr_limit req =? 0) || (1000 <? fr_limit req)
  then fail INVALID_ARGUMENT "limit must be in 1..1000"
  else
    let? snapshot := CreateLinearizedSnapshot in
    do? Authenticate snapshot (fr_principal req) (fr_token req) in
    do? ValidateReadableChannels snapshot (fr_principal req) (fr_channels req) in
    storage (FetchVisible snapshot (fr_principal req) (fr_from_seq req) (fr_limit req)
               (fr_only_my_recipient req) (fr_channels req)).

(** [known_channels] is the domain of [pg_readable]. *)
Definition list_visitor (snapshot : snap_t) (limit : Z) (pg : PageState) (m : EventMessage)
    : RM StorageW (MessageScanAction * PageState) :=
  let? pg := match pg_readable pg !! em_channel_id m with
             | Some _ => ok pg
             | None =>
                 let? channel := LoadChannel snapshot (em_channel_id m) in
                 match channel with
                 | None => ret (Err (StorageCorruption "scan subscription messages"
                                       "message references a missing channel"))
                 | Some _ => ok (MkPageState (pg_messages pg) (pg_bytes pg)
                                   (<[em_channel_id m := true]> (pg_readable pg)))
                 end
             end in
  ok (page_append limit pg m).

Definition ListAllMessages (snapshot : snap_t) (from_seq limit : Z) : RM StorageW FetchResponse :=
  let? max_seq := GetMaxSeq snapshot in
  if max_seq <? from_seq
  then ok {| fs_messages := []; fs_last_seq := max_seq; fs_next_seq := u64_add max_seq 1 |}
  else
    let? r := ScanMessages snapshot from_seq max_seq (max_scan_records cfg)
                (list_visitor snapshot limit) (MkPageState [] 0 ∅) in
    ok {| fs_messages := pg_messages r.2; fs_last_seq := max_seq; fs_next_seq := r.1 |}.

Definition ListMessages (from_seq limit : Z) : RM CoreW FetchResponse :=
  do? EnsureAvailable in
  if (limit =? 0) || (1000 <? limit) then fail INVALID_ARGUMENT "limit must be in 1..1000"
  else
    let? snapshot := CreateLinearizedSnapshot in
    storage (ListAllMessages snapshot from_seq limit).

Definition MaxSeq : RM CoreW Z :=
  do? EnsureAvailable in
  let? snapshot := storage CreateSnapshot in
  storage (GetMaxSeq snapshot).

End WithConfig.
End Core.
