(* ===== verification/Commands.v ===== *)
(** * The core service: handlers that write (src/service/open_event_core.cpp)

    Each handler validates against a snapshot, builds one write batch and commits
    it, all under the coordinator's mutex.  [WriteObject] releases the mutex while
    it writes the object's file, so it is split at those points. *)

From S2P Require Import Prelude Status Encoding Tokens Proto Json Platform Keys World FileStore.
From S2P Require Import Storage Core.

Section Commands.
Context {R : RocksDB} {P : Protobuf} {F : PosixDir} {H : Host}.
Context (cfg : CoreConfig).

(** ** Random credentials *)

(** The loop around [getrandom]; [filled] holds the bytes already there. *)
Fixpoint fill_random (fuel want : nat) (filled : list Z) : RM os_t (list Z) :=
  if (want <=? length filled)%nat then ok filled
  else
    match fuel with
    | O => ret (Err out_of_fuel)
    | S fuel =>
        let! r := os_getrandom (want - length filled) in
        match r with
        | inl error =>
            if error =? EINTR then fill_random fuel want filled
            else fail INTERNAL ("getrandom failed: " +:+ strerror error)
        | inr bytes => fill_random fuel want (filled ++ bytes)
        end
    end.

Definition random_bytes (want : nat) : RM os_t (list Z) :=
  let! o := get in fill_random (want + os_getrandom_tries o) want [].

Definition GenerateToken : RM CoreW string :=
  let? bytes := storage (on_os (random_bytes 16)) in ok (format_token bytes).

Definition GenerateObjectToken : RM CoreW string :=
  let? bytes := storage (on_os (random_bytes 32)) in ok (base64url bytes).

(** ** UUIDs *)

Definition AllocateUuids (count : Z) : RM CoreW (list Z) :=
  do? EnsureAvailable in
  if (count =? 0) || (kMaxUuidBatch <? count)
  then fail INVALID_ARGUMENT "uuid allocation count must be in the range 1..1024"
  else
    let? snapshot := storage CreateSnapshot in
    let? first_uuid := storage (GetNextUuid snapshot) in
    let next_value := u64_add first_uuid count in
    let? batch := ret (SetNextUuid [] next_value) in
    do? CommitBatch cfg batch in
    ok ((fun offset => u64_add first_uuid offset) <$> seqZ 0 count).

(** ** Publishing *)

(** The first loop over the object keys: the distinct ids in order of first occurrence, and
    the position of each. *)
Fixpoint index_object_keys (keys : list ObjectKey) (ids : list Z) (indexes : gmap Z nat)
    : list Z * gmap Z nat :=
  match keys with
  | [] => (ids, indexes)
  | k :: keys =>
      match indexes !! ok_object_id k with
      | Some _ => index_object_keys keys ids indexes
      | None => index_object_keys keys (ids ++ [ok_object_id k])
                  (<[ok_object_id k := length ids]> indexes)
      end
  end.

(** Whether the second loop accepts a key: [objects[object_indexes.at(id)]] is committed and
    has the key's token. *)
Definition key_matches (objects : list (option StoredObject)) (indexes : gmap Z nat)
    (k : ObjectKey) : bool :=
  match indexes !! ok_object_id k ≫= fun i => objects !! i with
  | Some (Some o) => ConstantTimeEquals (so_object_token o) (ok_object_token k)
  | _ => false
  end.

Definition BuildPublishBatch (snapshot : snap_t) (principal channel_id seq uuid : Z)
    (recipients : list Z) (payload : string) (object_keys : list ObjectKey) (ts_ms : Z)
    : RM CoreW WriteBatch :=
  if channel_id =? 0 then fail PERMISSION_DENIED "system channel is read-only"
  else
    let? channel := storage (LoadChannel snapshot channel_id) in
    match channel with
    | None => fail NOT_FOUND "channel not found"
    | Some channel =>
        if negb (CanWrite channel principal)
        then fail PERMISSION_DENIED "write permission denied"
        else
          do? ret (ValidateRecipients channel recipients) in
          let '(object_ids, object_indexes) := index_object_keys object_keys [] ∅ in
          let! objects := storage (GetCommittedObjects snapshot object_ids) in
          match objects with
          | Err status => escalate cfg status
          | Ok objects =>
              if negb (forallb (key_matches objects object_indexes) object_keys)
              then fail NOT_FOUND "object capability not found"
              else
                let m := MkEventMessage seq channel_id principal recipients payload ts_ms uuid
                           object_keys in
                ret (rlet batch := PutMessage [] m in
                     rlet batch := PutUsedUuid batch uuid seq in
                     SetMaxSeq batch seq)
          end
    end.

Definition Publish (req : PublishRequest) (context : option ServerContext) : RM CoreW unit :=
  do? EnsureAvailable in
  if (pr_principal req =? 0) || Contains (pr_recipients req) 0
  then fail INVALID_ARGUMENT "principal and recipients must be greater than 0"
  else
    let! ts_ms := NowMs in
    do? CheckRpcActive context in
    let? snapshot := storage CreateSnapshot in
    do? Authenticate snapshot (pr_principal req) (pr_token req) in
    do? ValidateAvailableUuid snapshot (pr_uuid req) in
    do? ret (ValidatePayloadSize cfg (pr_payload req)) in
    do? ret (ValidateObjectKeysShape (pr_object_keys req)) in
    let? max_seq := storage (GetMaxSeq snapshot) in
    if negb (pr_seq req =? u64_add max_seq 1) then fail ABORTED "seq must equal max_seq + 1"
    else
      let? batch := BuildPublishBatch snapshot (pr_principal req) (pr_channel_id req) (pr_seq req)
                      (pr_uuid req) (pr_recipients req) (pr_payload req) (pr_object_keys req)
                      ts_ms in
      do? CheckRpcActive context in
      CommitBatch cfg batch.

Definition PublishAutoSeq (req : PublishAutoSeqRequest) (context : option ServerContext)
    : RM CoreW Z :=
  do? EnsureAvailable in
  if (pa_principal req =? 0) || Contains (pa_recipients req) 0
  then fail INVALID_ARGUMENT "principal and recipients must be greater than 0"
  else
    let! ts_ms := NowMs in
    do? CheckRpcActive context in
    let? snapshot := storage CreateSnapshot in
    do? Authenticate snapshot (pa_principal req) (pa_token req) in
    do? ValidateAvailableUuid snapshot (pa_uuid req) in
    do? ret (ValidatePayloadSize cfg (pa_payload req)) in
    do? ret (ValidateObjectKeysShape (pa_object_keys req)) in
    let? max_seq := storage (GetMaxSeq snapshot) in
    let seq := u64_add max_seq 1 in
    let? batch := BuildPublishBatch snapshot (pa_principal req) (pa_channel_id req) seq
                    (pa_uuid req) (pa_recipients req) (pa_payload req) (pa_object_keys req)
                    ts_ms in
    do? CheckRpcActive context in
    do? CommitBatch cfg batch in
    ok seq.

(** ** Channels *)

Definition BuildChannelMutationBatch (snapshot : snap_t) (channel : ChannelInfo) (payload : string)
    : RM CoreW WriteBatch :=
  let? max_seq := storage (GetMaxSeq snapshot) in
  let? next_uuid := storage (GetNextUuid snapshot) in
  let! ts_ms := NowMs in
  let m := MkEventMessage (u64_add max_seq 1) (ci_channel_id channel) 0 [] payload ts_ms
             next_uuid [] in
  ret (rlet batch := PutChannel [] channel in
       rlet batch := PutMessage batch m in
       rlet batch := PutUsedUuid batch (em_uuid m) (em_seq m) in
       rlet batch := SetMaxSeq batch (em_seq m) in
       SetNextUuid batch (u64_add (em_uuid m) 1)).

(** The members loop of [CreateChannel], with the set of those seen. *)
Fixpoint add_new_members (seen : gset Z) (members requested : list Z) : list Z :=
  match requested with
  | [] => members
  | m :: requested =>
      if bool_decide (m ∈ seen) then add_new_members seen members requested
      else add_new_members ({[m]} ∪ seen) (members ++ [m]) requested
  end.

Definition invalid_channel_parameters (req : CreateChannelRequest) : bool :=
  (cr_principal req =? 0) || Contains (cr_members req) 0 || str_empty (cr_name req) ||
  (255 <? str_size (cr_name req)) || (255 <? str_size (cr_protocol req)) ||
  (4096 <? str_size (cr_description req)) ||
  (kMaxChannelMembers <? Z.of_nat (length (cr_members req))).

Definition CreateChannel (req : CreateChannelRequest) : RM CoreW ChannelInfo :=
  do? EnsureAvailable in
  if invalid_channel_parameters req then fail INVALID_ARGUMENT "invalid Channel parameters"
  else
    do? ret (ValidateVisibility (cr_visibility req)) in
    let? snapshot := storage CreateSnapshot in
    do? Authenticate snapshot (cr_principal req) (cr_token req) in
    let members := add_new_members {[cr_principal req]} [cr_principal req] (cr_members req) in
    if kMaxChannelMembers <? Z.of_nat (length members)
    then fail RESOURCE_EXHAUSTED "Channel can contain at most 1024 members including its creator"
    else
      let? next_channel_id := storage (GetNextChannelId snapshot) in
      let channel := MkChannelInfo next_channel_id (cr_name req) (cr_visibility req)
                       (cr_protocol req) (cr_description req) (Some (cr_principal req)) members in
      let? batch := BuildChannelMutationBatch snapshot channel
                      (ChannelInitializedPayload channel) in
      let? batch := ret (SetNextChannelId batch (u64_add next_channel_id 1)) in
      do? CommitBatch cfg batch in
      ok channel.

Definition with_members (c : ChannelInfo) (members : list Z) : ChannelInfo :=
  MkChannelInfo (ci_channel_id c) (ci_name c) (ci_visibility c) (ci_protocol c)
    (ci_description c) (ci_creator c) members.

Definition AddMember (req : MemberRequest) : RM CoreW unit :=
  do? EnsureAvailable in
  if (mr_principal req =? 0) || (mr_target_principal req =? 0)
  then fail INVALID_ARGUMENT "principals must be greater than 0"
  else
    let? snapshot := storage CreateSnapshot in
    do? Authenticate snapshot (mr_principal req) (mr_token req) in
    if mr_channel_id req =? 0
    then fail PERMISSION_DENIED "system channel cannot be modified"
    else
      let? channel := storage (LoadChannel snapshot (mr_channel_id req)) in
      match channel with
      | None => fail NOT_FOUND "channel not found"
      | Some channel =>
          if negb (has_creator channel) || negb (creator channel =? mr_principal req)
          then fail PERMISSION_DENIED "only creator can add members"
          else if IsMember channel (mr_target_principal req)
          then fail ALREADY_EXISTS "member already exists"
          else if kMaxChannelMembers <=? Z.of_nat (length (ci_members channel))
          then fail RESOURCE_EXHAUSTED
                 "Channel can contain at most 1024 members including its creator"
          else
            let channel := with_members channel (ci_members channel ++ [mr_target_principal req]) in
            let? batch := BuildChannelMutationBatch snapshot channel
                 (MemberChangedPayload "system.member_added" (mr_target_principal req)) in
            CommitBatch cfg batch
      end.

(** [members->erase(std::find(...))]. *)
Fixpoint remove_first (members : list Z) (target : Z) : list Z :=
  match members with
  | [] => []
  | m :: members => if m =? target then members else m :: remove_first members target
  end.

Definition RemoveMember (req : MemberRequest) : RM CoreW unit :=
  do? EnsureAvailable in
  if (mr_principal req =? 0) || (mr_target_principal req =? 0)
  then fail INVALID_ARGUMENT "principals must be greater than 0"
  else
    let? snapshot := storage CreateSnapshot in
    do? Authenticate snapshot (mr_principal req) (mr_token req) in
    if mr_channel_id req =? 0
    then fail PERMISSION_DENIED "system channel cannot be modified"
    else
      let? channel := storage (LoadChannel snapshot (mr_channel_id req)) in
      match channel with
      | None => fail NOT_FOUND "channel not found"
      | Some channel =>
          if negb (has_creator channel) || negb (creator channel =? mr_principal req)
          then fail PERMISSION_DENIED "only creator can remove members"
          else if mr_target_principal req =? creator channel
          then fail PERMISSION_DENIED "creator cannot be removed"
          else if negb (Contains (ci_members channel) (mr_target_principal req)) then ok tt
          else
            let channel := with_members channel
                             (remove_first (ci_members channel) (mr_target_principal req)) in
            let? batch := BuildChannelMutationBatch snapshot channel
                 (MemberChangedPayload "system.member_removed" (mr_target_principal req)) in
            CommitBatch cfg batch
      end.

(** ** Tokens *)

Definition AddToken (principal : Z) : RM CoreW string :=
  do? EnsureAvailable in
  if principal =? 0 then fail INVALID_ARGUMENT "principal must be greater than 0"
  else
    let? token := GenerateToken in
    let? batch := ret (PutToken [] principal token) in
    do? CommitBatch cfg batch in
    ok token.

Definition CoreDeleteToken (principal : Z) (token : string) : RM CoreW unit :=
  do? EnsureAvailable in
  if (principal =? 0) || str_empty token
  then fail INVALID_ARGUMENT "principal must be greater than 0 and token must not be empty"
  else CommitBatch cfg (DeleteToken [] principal token).

(** ** Objects *)

Definition CleanupPreparingObject (object_id : Z) (result : Status) : M CoreW Status :=
  let! file_status := storage (CleanupObjectFiles object_id) in
  match file_status with
  | Err status => if must_exit status then FatalStorageError cfg status else ret status
  | Ok _ =>
      let! cleanup := CommitBatch cfg (DeletePreparingObject [] object_id) in
      match cleanup with
      | Err status => ret status
      | Ok _ => ret result
      end
  end.

Definition SameObject (left right : StoredObject) : bool :=
  (so_object_id left =? so_object_id right) &&
  bool_decide (so_object_token left = so_object_token right) &&
  (so_creator_principal left =? so_creator_principal right) &&
  bool_decide (so_name left = so_name right) && bool_decide (so_type left = so_type right) &&
  bool_decide (so_description left = so_description right) &&
  (so_nbytes left =? so_nbytes right).

Definition invalid_object_request (req : WriteObjectRequest) : bool :=
  str_empty (wr_name req) || (kMaxObjectNameBytes <? str_size (wr_name req)) ||
  str_empty (wr_type req) || (kMaxObjectTypeBytes <? str_size (wr_type req)) ||
  (kMaxObjectDescriptionBytes <? str_size (wr_description req)) || str_empty (wr_data req) ||
  (kMaxObjectBytes <? str_size (wr_data req)).

(** Up to the end of the first critical section: the object as registered. *)
Definition WriteObject_prepare (req : WriteObjectRequest) : RM CoreW StoredObject :=
  do? EnsureAvailable in
  if wr_principal req =? 0 then fail INVALID_ARGUMENT "principal must be greater than 0"
  else if invalid_object_request req
  then fail INVALID_ARGUMENT "invalid object metadata or data size"
  else
    let? object_token := GenerateObjectToken in
    let? snapshot := storage CreateSnapshot in
    do? Authenticate snapshot (wr_principal req) (wr_token req) in
    let? object_id := storage (GetNextObjectId snapshot) in
    let object := MkStoredObject object_id object_token (wr_principal req) (wr_name req)
                    (wr_type req) (wr_description req) (str_size (wr_data req)) in
    let? batch := ret (PutPreparingObject [] object) in
    let? batch := ret (SetNextObjectId batch (u64_add object_id 1)) in
    do? CommitBatch cfg batch in
    ok object.

(** The second critical section ends in one of these ways. *)
Inductive CommitOutcome :=
  | Committed
  | Aborted (status : Status)           (** returned at once *)
  | Attempted (status : Status)         (** the commit was attempted and failed *)
  | NotAttempted (status : Status).     (** it was not attempted *)

Definition WriteObject_commit (req : WriteObjectRequest) (object : StoredObject)
    : M CoreW CommitOutcome :=
  let! snapshot := storage CreateSnapshot in
  match snapshot with
  | Err status => ret (NotAttempted status)
  | Ok snapshot =>
      let! auth := Authenticate snapshot (wr_principal req) (wr_token req) in
      match auth with
      | Err status => ret (NotAttempted status)
      | Ok _ =>
          let! preparing := storage (GetPreparingObject snapshot (so_object_id object)) in
          let corrupt := StorageCorruption "commit object metadata"
                           "preparing object metadata changed unexpectedly" in
          match preparing with
          | Err status =>
              if must_exit status
              then let! s := FatalStorageError cfg status in ret (Aborted s)
              else ret (NotAttempted status)
          | Ok None => let! s := FatalStorageError cfg corrupt in ret (Aborted s)
          | Ok (Some stored) =>
              if negb (SameObject stored object)
              then let! s := FatalStorageError cfg corrupt in ret (Aborted s)
              else
                match PutCommittedObject [] object with
                | Err status => ret (NotAttempted status)
                | Ok batch =>
                    let! r := CommitBatch cfg batch in
                    match r with
                    | Ok _ => ret Committed
                    | Err status => ret (Attempted status)
                    end
                end
          end
      end
  end.

(** What follows the second critical section. *)
Definition WriteObject_finish (object : StoredObject) (outcome : CommitOutcome)
    : RM CoreW (Z * string) :=
  match outcome with
  | Committed => ok (so_object_id object, so_object_token object)
  | Aborted status => ret (Err status)
  | Attempted status => let! s := FatalStorageError cfg status in ret (Err s)
  | NotAttempted status =>
      if must_exit status then let! s := FatalStorageError cfg status in ret (Err s)
      else let! s := CleanupPreparingObject (so_object_id object) status in ret (Err s)
  end.

Definition WriteObject (req : WriteObjectRequest) : RM CoreW (Z * string) :=
  let? object := WriteObject_prepare req in
  let! file_status := storage (WriteObjectFile (so_object_id object) (wr_data req)) in
  match file_status with
  | Err status =>
      if must_exit status then let! s := FatalStorageError cfg status in ret (Err s)
      else let! s := CleanupPreparingObject (so_object_id object) status in ret (Err s)
  | Ok _ =>
      let! outcome := WriteObject_commit req object in
      WriteObject_finish object outcome
  end.

End Commands.
