(* ===== verification/Model.v ===== *)
(** * The abstract state of an event store

    What the database means: a log of messages indexed by sequence number, the
    uuids consumed, the channels, the credentials and the objects.  [repr] ties
    the bytes of a database to an abstract state record by record, and [WF] is
    the invariant every reachable state has. *)

From S2P Require Import Prelude Status Encoding Tokens Proto Json Platform Keys World Storage.

Record AState := MkAState {
  a_log : list EventMessage;
  a_uuids : gmap Z Z;
  a_next_uuid : Z;
  a_channels : gmap Z ChannelInfo;
  a_next_channel : Z;
  a_tokens : gset (Z * string);
  a_preparing : gmap Z StoredObject;
  a_committed : gmap Z StoredObject;
  a_next_object : Z
}.

Definition a_max_seq (a : AState) : Z := Z.of_nat (length (a_log a)) - 1.

Definition a_message (a : AState) (seq : Z) : option EventMessage :=
  if seq <? 0 then None else a_log a !! Z.to_nat seq.

(** ** The records of a state *)

Inductive Val :=
  | VU64 (z : Z) | VUnit | VChannel (c : ChannelInfo) | VMessage (m : EventMessage)
  | VObject (o : StoredObject).

Definition a_get (a : AState) (k : Key) : option Val :=
  match k with
  | KSchema => Some (VU64 kSchemaVersion)
  | KMaxSeq => Some (VU64 (a_max_seq a))
  | KNextUuid => Some (VU64 (a_next_uuid a))
  | KNextChannel => Some (VU64 (a_next_channel a))
  | KNextObject => Some (VU64 (a_next_object a))
  | KUuid u => VU64 <$> a_uuids a !! u
  | KChannel c => VChannel <$> a_channels a !! c
  | KToken p t => if decide ((p, t) ∈ a_tokens a) then Some VUnit else None
  | KMessage s => VMessage <$> a_message a s
  | KPreparing o => VObject <$> a_preparing a !! o
  | KCommitted o => VObject <$> a_committed a !! o
  end.

Definition record_of (o : StoredObject) : ObjectRecord :=
  MkObjectRecord (so_object_id o) (so_object_token o) (so_creator_principal o)
    (so_name o) (so_type o) (so_description o) (so_nbytes o).

(** Each write of a batch stores the value it should. *)
Ltac solve_ops :=
  repeat (apply Forall2_cons_2;
    [split; [done|]; cbn [snd fst]; first [done | split; [done|first [done | split; done]]]|]);
  apply Forall2_nil_2.

Section Model.
Context {R : RocksDB} {P : Protobuf} {F : PosixDir} {H : Host}.

(** Bytes that hold a value. *)
Definition val_rep (v : Val) (s : string) : Prop :=
  match v with
  | VU64 z => s = EncodeUint64 z /\ is_u64 z
  | VUnit => s = ""
  | VChannel c => ParseChannel s = Some c
  | VMessage m => ParseMessage s = Some m
  | VObject o => ParseRecord s = Some (record_of o)
  end.

(** A database holds exactly the records of a typed store. *)
Definition repr_store (d : Db) (f : Key -> option Val) : Prop :=
  (forall k, key_ok k ->
     match f k with
     | Some v => exists s, d !! key_bytes k = Some s /\ val_rep v s
     | None => d !! key_bytes k = None
     end) /\
  (forall b s, d !! b = Some s -> exists k, key_ok k /\ b = key_bytes k).

Definition repr (d : Db) (a : AState) : Prop := repr_store d (a_get a).

(** ** The invariant *)

Definition object_wf (id : Z) (o : StoredObject) : Prop :=
  so_object_id o = id /\ IsBase64UrlToken (so_object_token o) = true /\
  0 < so_creator_principal o /\ str_empty (so_name o) = false /\
  str_size (so_name o) <= kMaxObjectNameBytes /\ str_empty (so_type o) = false /\
  str_size (so_type o) <= kMaxObjectTypeBytes /\
  str_size (so_description o) <= kMaxObjectDescriptionBytes /\
  0 < so_nbytes o <= kMaxObjectBytes.

Definition channel_wf (id : Z) (c : ChannelInfo) : Prop :=
  ci_channel_id c = id /\ ValidStoredChannel c = true /\ channel_text_ok c /\
  NoDup (ci_members c) /\ Z.of_nat (length (ci_members c)) <= 1024 /\
  Forall is_u64 (ci_members c).

(** A logged message is one the scan accepts, and its channel exists. *)
Definition message_wf (a : AState) (seq : Z) (m : EventMessage) : Prop :=
  em_seq m = seq /\ invalid_reserved_fields seq m = false /\
  invalid_object_references m = false /\
  (em_channel_id m = 0 \/ is_Some (a_channels a !! em_channel_id m)) /\
  0 <= em_uuid m < a_next_uuid a.

Record WF (a : AState) : Prop := {
  wf_log_nonempty : a_log a <> [];
  wf_log : forall i m, a_log a !! i = Some m -> message_wf a (Z.of_nat i) m;
  (** A uuid maps to the sequence number of the one message that consumed it. *)
  wf_uuids : forall u s, a_uuids a !! u = Some s <->
               exists m, a_message a s = Some m /\ em_uuid m = u;
  wf_channels : forall id c, a_channels a !! id = Some c ->
                  channel_wf id c /\ 0 < id < a_next_channel a;
  wf_tokens : forall p t, (p, t) ∈ a_tokens a -> 0 < p < two64 /\ t <> "";
  wf_preparing : forall id o, a_preparing a !! id = Some o ->
                   object_wf id o /\ 0 < id < a_next_object a;
  wf_committed : forall id o, a_committed a !! id = Some o ->
                   object_wf id o /\ 0 < id < a_next_object a;
  wf_disjoint : a_preparing a ##ₘ a_committed a;
  wf_max_seq : is_u64 (a_max_seq a);
  wf_next_uuid : 0 < a_next_uuid a < two64;
  wf_next_channel : 0 < a_next_channel a < two64;
  wf_next_object : 0 < a_next_object a < two64
}.

(** The state of a new storage root. *)
Definition initial_state (event_ms : Z) : AState :=
  MkAState [InitializationMessage event_ms] {[0 := 0]} 1 ∅ 1 ∅ ∅ ∅ 1.

(** ** Typed batches *)

Definition tstore := Key -> option Val.

Definition tset (f : tstore) (k : Key) (o : option Val) : tstore :=
  fun k' => if decide (k' = k) then o else f k'.

Definition tapply (ops : list (Key * option Val)) (f : tstore) : tstore :=
  fold_left (fun f op => tset f op.1 op.2) ops f.

(** A write of the batch stores a value of the typed batch, or deletes its record. *)
Definition op_rep (b : BatchOp) (op : Key * option Val) : Prop :=
  key_ok op.1 /\
  match b, op.2 with
  | BPut cf k s, Some v => key_bytes op.1 = (cf, k) /\ val_rep v s
  | BDelete cf k, None => key_bytes op.1 = (cf, k)
  | _, _ => False
  end.

Lemma repr_store_ext d (f g : tstore) :
  (forall k, key_ok k -> f k = g k) -> repr_store d f -> repr_store d g.
Proof. intros Hfg [H1 H2]. split; [|done]. intros k Hk. rewrite <- Hfg by done. by apply H1. Qed.

Lemma repr_store_op d f b op :
  repr_store d f -> op_rep b op -> repr_store (apply_op d b) (tset f op.1 op.2).
Proof.
  intros [H1 H2] [Hk Hb]. destruct op as [k o]. cbn [fst snd] in *.
  assert (Hne : forall k', key_ok k' -> k' <> k -> key_bytes k <> key_bytes k').
  { intros k' Hk' Hne E. by apply key_bytes_inj in E. }
  split.
  - intros k' Hk'. unfold tset. destruct b as [cf kb s|cf kb], o as [v|]; try done; simpl.
    + destruct Hb as [Hb Hv]. rewrite <- Hb. destruct (decide (k' = k)) as [->|E].
      * exists s. by rewrite lookup_insert_eq.
      * rewrite lookup_insert_ne by auto. by apply H1.
    + rewrite <- Hb. destruct (decide (k' = k)) as [->|E].
      * apply lookup_delete_eq.
      * rewrite lookup_delete_ne by auto. by apply H1.
  - intros b' s'. destruct b as [cf kb s|cf kb]; simpl.
    + rewrite lookup_insert_Some. intros [[<- _]|[_ Hs]]; [|by eapply H2].
      exists k. split; [done|]. destruct o; [by destruct Hb|done].
    + rewrite lookup_delete_Some. intros [_ Hs]. by eapply H2.
Qed.

Lemma repr_store_batch d f bs ops :
  repr_store d f -> Forall2 op_rep bs ops -> repr_store (apply_batch bs d) (tapply ops f).
Proof.
  intros Hr Hops. revert d f Hr. induction Hops as [|b op bs ops Hop _ IH]; intros d f Hr; [done|].
  simpl. apply IH. by apply repr_store_op.
Qed.

(** A batch takes a represented state to a represented state. *)
Lemma repr_batch d a a' bs ops :
  repr d a -> Forall2 op_rep bs ops ->
  (forall k, key_ok k -> tapply ops (a_get a) k = a_get a' k) -> repr (apply_batch bs d) a'.
Proof.
  intros Hr Hops Ha. eapply repr_store_ext; [exact Ha|]. by apply repr_store_batch.
Qed.

(** ** Looking up records *)

Lemma repr_some d a k v :
  repr d a -> key_ok k -> a_get a k = Some v ->
  exists s, d !! key_bytes k = Some s /\ val_rep v s.
Proof. intros [Hr _] Hk E. specialize (Hr k Hk). by rewrite E in Hr. Qed.

Lemma repr_none d a k : repr d a -> key_ok k -> a_get a k = None -> d !! key_bytes k = None.
Proof. intros [Hr _] Hk E. specialize (Hr k Hk). by rewrite E in Hr. Qed.

Lemma repr_lookup d a k s :
  repr d a -> key_ok k -> d !! key_bytes k = Some s ->
  exists v, a_get a k = Some v /\ val_rep v s.
Proof.
  intros [Hr _] Hk E. specialize (Hr k Hk). destruct (a_get a k) as [v|]; [|congruence].
  destruct Hr as (s' & E' & Hv). exists v. split; [done|]. congruence.
Qed.

Lemma a_message_Some a s m : a_message a s = Some m <-> 0 <= s /\ a_log a !! Z.to_nat s = Some m.
Proof. unfold a_message. destruct (Z.ltb_spec s 0); split; try done; [by intros [? _]; lia|by intros [_ ?]]. Qed.

Lemma a_message_range a s : is_Some (a_message a s) <-> 0 <= s <= a_max_seq a.
Proof.
  unfold a_message, a_max_seq. destruct (Z.ltb_spec s 0).
  - split; [by intros [? ?]|lia].
  - rewrite lookup_lt_is_Some. lia.
Qed.

Lemma wf_message a s m : WF a -> a_message a s = Some m -> message_wf a s m.
Proof.
  intros Hwf [Hs Hm]%a_message_Some. apply (wf_log _ Hwf) in Hm. by rewrite Z2Nat.id in Hm.
Qed.

(** No two messages carry the same uuid. *)
Lemma wf_uuid_unique a s1 s2 m1 m2 :
  WF a -> a_message a s1 = Some m1 -> a_message a s2 = Some m2 -> em_uuid m1 = em_uuid m2 ->
  s1 = s2.
Proof.
  intros Hwf H1 H2 E.
  assert (E1 : a_uuids a !! em_uuid m1 = Some s1) by (apply (wf_uuids _ Hwf); eauto).
  assert (E2 : a_uuids a !! em_uuid m1 = Some s2) by (apply (wf_uuids _ Hwf); eauto).
  congruence.
Qed.

Lemma wf_max_seq_nonneg a : WF a -> 0 <= a_max_seq a.
Proof. intros Hwf. apply (wf_max_seq _ Hwf). Qed.

End Model.
