(* ===== verification/Unique.v ===== *)
(** * The database determines the state

    A database represents at most one well-formed abstract state: two states with
    the same records are equal, because every key a well-formed state uses has its
    own record. *)

From S2P Require Import Prelude Status Encoding Tokens Proto Json Platform Keys World Storage Model.

Section Unique.
Context {P : Protobuf}.

(** ** Records *)

Lemma record_of_inj o o' : record_of o = record_of o' -> o = o'.
Proof. destruct o, o'. unfold record_of. cbn. congruence. Qed.

Definition same_kind (v v' : Val) : Prop :=
  match v, v' with
  | VU64 _, VU64 _ | VUnit, VUnit | VChannel _, VChannel _ | VMessage _, VMessage _
  | VObject _, VObject _ => True
  | _, _ => False
  end.

Lemma val_rep_inj v v' s : same_kind v v' -> val_rep v s -> val_rep v' s -> v = v'.
Proof.
  destruct v, v'; cbn; try done; intros _.
  - intros [E Hz] [E' Hz']. f_equal. rewrite E in E'. by apply Encode_inj.
  - congruence.
  - congruence.
  - intros E E'. f_equal. apply record_of_inj. congruence.
Qed.

Lemma a_get_kind a c k v v' : a_get a k = Some v -> a_get c k = Some v' -> same_kind v v'.
Proof.
  destruct k; cbn; repeat case_decide; try (intros [= <-] [= <-]; done); try done;
    intros (x & _ & ->)%fmap_Some (y & _ & ->)%fmap_Some; done.
Qed.

Lemma a_get_det d a c k : repr d a -> repr d c -> key_ok k -> a_get a k = a_get c k.
Proof.
  intros Ha Hc Hk. destruct (a_get a k) as [v|] eqn:E.
  - destruct (repr_some d a k v Ha Hk E) as (s & Es & Hv).
    destruct (repr_lookup d c k s Hc Hk Es) as (v' & E' & Hv'). rewrite E'. f_equal.
    eapply val_rep_inj; [by eapply a_get_kind|done|done].
  - destruct (a_get c k) as [v|] eqn:E'; [|done].
    destruct (repr_some d c k v Hc Hk E') as (s & Es & _). by rewrite (repr_none d a k) in Es.
Qed.

(** ** The parts of a state *)

Lemma map_det {A} (f g : gmap Z A) (V : A -> Val) :
  (forall x y, V x = V y -> x = y) ->
  (forall i x, f !! i = Some x -> is_u64 i) -> (forall i x, g !! i = Some x -> is_u64 i) ->
  (forall i, is_u64 i -> V <$> f !! i = V <$> g !! i) -> f = g.
Proof.
  intros HV Hf Hg E. apply map_eq. intros i.
  assert (Hu : is_u64 i -> f !! i = g !! i).
  { intros Hi%E. destruct (f !! i), (g !! i); cbn in Hi; try done. injection Hi as Hi%HV. congruence. }
  destruct (f !! i) eqn:E1; [rewrite <- E1 in *; rewrite Hu; [done|by eapply Hf]|].
  destruct (g !! i) eqn:E2; [|done]. rewrite <- Hu; [done|by eapply Hg].
Qed.

Lemma wf_keys a : WF a ->
  (forall u s, a_uuids a !! u = Some s -> is_u64 u) /\
  (forall i x, a_channels a !! i = Some x -> is_u64 i) /\
  (forall i x, a_preparing a !! i = Some x -> is_u64 i) /\
  (forall i x, a_committed a !! i = Some x -> is_u64 i).
Proof.
  intros Hwf. pose proof (wf_next_uuid _ Hwf). pose proof (wf_next_channel _ Hwf). pose proof (wf_next_object _ Hwf).
  unfold is_u64. split_and!.
  - intros u s (m & Hm & <-)%(wf_uuids _ Hwf). apply (wf_message _ _ _ Hwf) in Hm as (_ & _ & _ & _ & Hu). lia.
  - intros i x [_ ?]%(wf_channels _ Hwf). lia.
  - intros i x [_ ?]%(wf_preparing _ Hwf). lia.
  - intros i x [_ ?]%(wf_committed _ Hwf). lia.
Qed.

Lemma log_det a c :
  is_u64 (a_max_seq a) -> (forall k, key_ok k -> a_get a k = a_get c k) -> a_log a = a_log c.
Proof.
  unfold is_u64. intros Hm E. apply list_eq. intros i. pose proof (E KMaxSeq I) as [= Emax].
  destruct (decide (Z.of_nat i <= a_max_seq a)) as [Hi|Hi].
  - specialize (E (KMessage (Z.of_nat i))). cbn in E. unfold a_message in E.
    rewrite (proj2 (Z.ltb_ge _ _)), Nat2Z.id in E by lia.
    assert (Hu : is_u64 (Z.of_nat i)) by (unfold is_u64; lia). apply E in Hu.
    destruct (a_log a !! i), (a_log c !! i); cbn in Hu; congruence.
  - rewrite !(proj2 (lookup_ge_None _ _)); unfold a_max_seq in *; [done|lia..].
Qed.

Lemma tokens_det a c :
  WF a -> WF c -> (forall k, key_ok k -> a_get a k = a_get c k) -> a_tokens a = a_tokens c.
Proof.
  intros Ha Hc E. apply set_eq. intros [p t].
  assert (Hb : forall b, WF b -> (p, t) ∈ a_tokens b -> is_u64 p).
  { intros b Hb [? _]%(wf_tokens _ Hb). unfold is_u64. lia. }
  split; intros Hin; pose proof Hin as Hp; apply Hb in Hp; try done;
    specialize (E (KToken p t) Hp); cbn in E; by repeat case_decide.
Qed.

(** A database represents at most one well-formed state. *)
Lemma repr_inj d a c : repr d a -> repr d c -> WF a -> WF c -> a = c.
Proof.
  intros Ha Hc Hwa Hwc.
  assert (E : forall k, key_ok k -> a_get a k = a_get c k) by (intros k; by apply (a_get_det d)).
  destruct (wf_keys a Hwa) as (A1 & A2 & A3 & A4), (wf_keys c Hwc) as (C1 & C2 & C3 & C4).
  pose proof (log_det a c (wf_max_seq _ Hwa) E) as El. pose proof (tokens_det a c Hwa Hwc E) as Et.
  pose proof (E KNextUuid I) as [= E1]. pose proof (E KNextChannel I) as [= E2].
  pose proof (E KNextObject I) as [= E3].
  pose proof (map_det _ _ VU64 ltac:(congruence) A1 C1 (fun i Hi => E (KUuid i) Hi)) as E4.
  pose proof (map_det _ _ VChannel ltac:(congruence) A2 C2 (fun i Hi => E (KChannel i) Hi)) as E5.
  pose proof (map_det _ _ VObject ltac:(congruence) A3 C3 (fun i Hi => E (KPreparing i) Hi)) as E6.
  pose proof (map_det _ _ VObject ltac:(congruence) A4 C4 (fun i Hi => E (KCommitted i) Hi)) as E7.
  destruct a, c; cbn in *; congruence.
Qed.

End Unique.
