(* ===== verification/Reads.v ===== *)
(** * Reading a represented state

    Under a snapshot that represents an abstract state, every read of the storage
    layer returns what the abstract state says, or reports a storage fault; it
    never finds corruption.  [Reads m r] packages this, and composes along the
    early-return sequencing of the code. *)

From S2P Require Import Prelude Status Encoding Tokens Proto Json Platform Keys World FileStore.
From S2P Require Import Storage Model.

Section Reads.
Context {R : RocksDB} {P : Protobuf} {F : PosixDir} {H : Host}.
Context {RS : RocksDBSpec}.

(** Nothing that was stored has changed, and the host was not consulted. *)
Definition same_store (w w' : StorageW) : Prop :=
  st_contents w' = st_contents w /\ st_fs w' = st_fs w /\ st_os w' = st_os w.

#[export] Instance same_store_refl : Reflexive same_store.
Proof. by split. Qed.

#[export] Instance same_store_trans : Transitive same_store.
Proof. unfold same_store. intros x y z (? & ? & ?) (? & ? & ?). split_and!; congruence. Qed.

Definition Reads {A} (m : RM StorageW A) (r : Result A) : Prop :=
  forall w, wp m (fun x w' => same_store w w' /\ (x = r \/ faulted x)) w.

Lemma Reads_ret {A} (r : Result A) : Reads (ret r) r.
Proof. intros w. apply wp_ret. by split; [|left]. Qed.

Lemma Reads_ok {A} (x : A) : Reads (ok x) (Ok x).
Proof. apply Reads_ret. Qed.

Lemma Reads_bind {A B} (m : RM StorageW A) (k : A -> RM StorageW B) (v : A) r :
  Reads m (Ok v) -> Reads (k v) r -> Reads (bind_ok m k) r.
Proof.
  intros Hm Hk w. unfold bind_ok. apply wp_bind. eapply wp_mono; [|apply Hm].
  intros x w1 [Hs [-> | (s & -> & Hf)]].
  - eapply wp_mono; [|apply Hk]. intros y w2 [Hs2 Hy]. split; [by transitivity w1|done].
  - apply wp_ret. split; [done|]. right. by exists s.
Qed.

Lemma Reads_bind_err {A B} (m : RM StorageW A) (k : A -> RM StorageW B) e :
  Reads m (Err e) -> Reads (bind_ok m k) (Err e).
Proof.
  intros Hm w. unfold bind_ok. apply wp_bind. eapply wp_mono; [|apply Hm].
  intros x w1 [Hs [-> | (s & -> & Hf)]]; apply wp_ret; (split; [done|]); [by left|].
  right. by exists s.
Qed.

(** ** Single records *)

Lemma wp_Get {A} s cf k (body : RocksStatus * string -> RM StorageW A) r :
  (forall g, get_agrees (snap_view s) cf k g -> rocks_ok g.1 = false -> IsNotFound g.1 = false ->
     exists op, body g = ret (Err (RocksToStatus g.1 op))) ->
  (forall g, get_agrees (snap_view s) cf k g -> rocks_ok g.1 || IsNotFound g.1 = true ->
     Reads (body g) r) ->
  Reads (bind (on_db (db_Get s cf k)) body) r.
Proof.
  intros Hbad Hgood w. apply wp_bind, wp_on_db. unfold wp at 1.
  pose proof (Get_spec s cf k (st_db w)) as Hget.
  destruct (db_Get s cf k (st_db w)) as [g d'] eqn:Eg. destruct Hget as [Hv Hg].
  assert (Hsame : same_store w (MkStorageW d' (st_fs w) (st_os w))) by done.
  destruct (rocks_ok g.1) eqn:E1.
  { eapply wp_mono; [|apply Hgood; [done|by rewrite E1]].
    intros x w2 [Hs2 Hx]. split; [by etransitivity|done]. }
  destruct (IsNotFound g.1) eqn:E2.
  { eapply wp_mono; [|apply Hgood; [done|by rewrite E2, orb_true_r]].
    intros x w2 [Hs2 Hx]. split; [by etransitivity|done]. }
  destruct (Hbad g Hg E1 E2) as [op ->]. apply wp_ret. split; [done|]. right.
  destruct (RocksToStatus_fatal g.1 op E1). eexists. split_and!; [done..|]. split; [done|].
  by apply (Fallible_get s cf k (st_db w)); rewrite Eg.
Qed.

(** Case analysis on a healthy [Get]. *)
Ltac get_cases :=
  apply wp_Get;
  [intros g Hg E1 E2; rewrite ?E1, ?E2; simpl; by eexists
  |intros g [Hok Hnf] Hst; destruct (IsNotFound g.1) eqn:Enf;
   [specialize (Hnf eq_refl); clear Hok Hst
   |rewrite orb_false_r in Hst; rewrite Hst; specialize (Hok Hst); clear Hnf;
    simpl negb; cbv iota]].

Section Snapshot.
Context (s : snap_t) (a : AState) (Hr : repr (snap_view s) a) (Hwf : WF a).

Lemma Reads_u64 k key z :
  key_ok k -> key_bytes k = (CF_meta, key) -> a_get a k = Some (VU64 z) ->
  Reads (GetRequiredUint64 s key) (Ok z).
Proof using Hr RS.
  intros Hk Hkey Ha. destruct (repr_some _ _ _ _ Hr Hk Ha) as (b & Hb & -> & Hz).
  rewrite Hkey in Hb. unfold GetRequiredUint64. get_cases; [congruence|].
  replace g.2 with (EncodeUint64 z) by congruence.
  rewrite DecodeRequiredUint64_Encode by done. apply Reads_ret.
Qed.

Lemma Reads_MaxSeq : Reads (GetMaxSeq s) (Ok (a_max_seq a)).
Proof using Hr RS. by apply (Reads_u64 KMaxSeq). Qed.

Lemma Reads_NextUuid : Reads (GetNextUuid s) (Ok (a_next_uuid a)).
Proof using Hr RS. by apply (Reads_u64 KNextUuid). Qed.

Lemma Reads_NextChannelId : Reads (GetNextChannelId s) (Ok (a_next_channel a)).
Proof using Hr RS. by apply (Reads_u64 KNextChannel). Qed.

Lemma Reads_NextObjectId : Reads (GetNextObjectId s) (Ok (a_next_object a)).
Proof using Hr RS. by apply (Reads_u64 KNextObject). Qed.

(** The system's uuid 0 belongs to message 0, and only to it. *)
Lemma uuid_zero_iff u q : a_uuids a !! u = Some q -> (u =? 0) = (q =? 0).
Proof using Hwf.
  intros Hu. apply (wf_uuids _ Hwf) in Hu as (m & Hm & <-).
  destruct (wf_message _ _ _ Hwf Hm) as (_ & Hres & _).
  unfold invalid_reserved_fields in Hres. destruct (q =? 0) eqn:Eq.
  - apply negb_false_iff in Hres. unfold ValidInitializationMessage in Hres.
    destruct (em_uuid m =? 0); [done|]. by rewrite !orb_true_r in Hres.
  - destruct (em_uuid m =? 0); [done|done].
Qed.

Lemma Reads_UsedUuidSeq u : is_u64 u -> Reads (GetUsedUuidSeq s u) (Ok (a_uuids a !! u)).
Proof using Hr Hwf RS.
  intros Hu. unfold GetUsedUuidSeq. get_cases.
  - destruct (a_uuids a !! u) as [q|] eqn:E; [|apply Reads_ok].
    destruct (repr_some _ _ (KUuid u) (VU64 q) Hr Hu) as (b & Hb & _); [by simpl; rewrite E|].
    simpl in Hb. congruence.
  - destruct (repr_lookup _ _ (KUuid u) _ Hr Hu Hok) as (v & Hv & Hrep). simpl in Hv.
    destruct (a_uuids a !! u) as [q|] eqn:E; [|done]. simplify_eq/=.
    destruct Hrep as [-> Hq]. rewrite DecodeRequiredUint64_Encode by done.
    eapply Reads_bind; [apply Reads_ret|]. rewrite (uuid_zero_iff _ _ E), eqb_reflx. apply Reads_ok.
Qed.

Lemma Reads_HasToken p t :
  is_u64 p -> Reads (HasToken s p t) (Ok (bool_decide ((p, t) ∈ a_tokens a))).
Proof using Hr RS.
  intros Hp. unfold HasToken. get_cases.
  - destruct (decide ((p, t) ∈ a_tokens a)) as [Hin|Hin].
    + destruct (repr_some _ _ (KToken p t) VUnit Hr Hp) as (b & Hb & _);
        [by simpl; rewrite decide_True|]. simpl in Hb. congruence.
    + rewrite bool_decide_eq_false_2 by done. apply Reads_ok.
  - destruct (repr_lookup _ _ (KToken p t) _ Hr Hp Hok) as (v & Hv & Hrep). simpl in Hv.
    destruct (decide ((p, t) ∈ a_tokens a)) as [Hin|Hin]; [|done]. simplify_eq/=.
    rewrite Hrep, bool_decide_eq_true_2 by done. apply Reads_ok.
Qed.

(** What a stored channel's bytes decode to. *)
Lemma checked_channel_ok id c b :
  a_channels a !! id = Some c -> ParseChannel b = Some c -> checked_channel b id = Some c.
Proof using Hwf.
  intros Hc Hb. apply (wf_channels _ Hwf) in Hc as [(Hid & Hval & _) _].
  unfold checked_channel. rewrite Hb, Hid, Hval, Z.eqb_refl. done.
Qed.

Lemma Reads_GetChannel id : is_u64 id -> Reads (GetChannel s id) (Ok (a_channels a !! id)).
Proof using Hr Hwf RS.
  intros Hid. unfold GetChannel. get_cases.
  - destruct (a_channels a !! id) as [c|] eqn:E; [|apply Reads_ok].
    destruct (repr_some _ _ (KChannel id) (VChannel c) Hr Hid) as (b & Hb & _);
      [by simpl; rewrite E|]. simpl in Hb. congruence.
  - destruct (repr_lookup _ _ (KChannel id) _ Hr Hid Hok) as (v & Hv & Hrep). simpl in Hv.
    destruct (a_channels a !! id) as [c|] eqn:E; [|done]. simplify_eq/=.
    rewrite (checked_channel_ok _ _ _ E Hrep). apply Reads_ok.
Qed.

(** What a stored object's bytes decode to. *)
Lemma ParseObject_ok id o b :
  object_wf id o -> 0 < id -> ParseRecord b = Some (record_of o) -> ParseObject b id = Ok o.
Proof.
  intros (Hid & Htok & Hcr & Hn1 & Hn2 & Ht1 & Ht2 & Hd & Hb) H0 E. unfold ParseObject.
  rewrite E. simpl. rewrite Hid, Z.eqb_refl, Htok, Hn1, Ht1.
  repeat match goal with
    | |- context [(?x =? 0)] => rewrite (proj2 (Z.eqb_neq x 0)) by lia
    | |- context [(?x <? ?y)] => rewrite (proj2 (Z.ltb_ge x y)) by lia
    end.
  simpl. destruct o; simpl in *. congruence.
Qed.

Lemma Reads_object prefix (K : Z -> Key) (objects : gmap Z StoredObject) id :
  (forall i, is_u64 i -> key_ok (K i) /\ key_bytes (K i) = (CF_objects, NumericKey prefix i)) ->
  (forall i, a_get a (K i) = VObject <$> objects !! i) ->
  (forall i o, objects !! i = Some o -> object_wf i o /\ 0 < i) ->
  is_u64 id -> Reads (GetObject s prefix id) (Ok (objects !! id)).
Proof using Hr RS.
  intros HK Hget Hobj Hid. destruct (HK id Hid) as [Hk Hkb]. unfold GetObject. get_cases.
  - destruct (objects !! id) as [o|] eqn:E; [|apply Reads_ok].
    destruct (repr_some _ _ (K id) (VObject o) Hr Hk) as (b & Hb & _);
      [by rewrite Hget, E|]. rewrite Hkb in Hb. congruence.
  - rewrite <- Hkb in Hok. destruct (repr_lookup _ _ (K id) _ Hr Hk Hok) as (v & Hv & Hrep).
    rewrite Hget in Hv. destruct (objects !! id) as [o|] eqn:E; [|done]. simplify_eq/=.
    destruct (Hobj _ _ E) as [Hwfo Hpos]. rewrite (ParseObject_ok _ _ _ Hwfo Hpos Hrep).
    eapply Reads_bind; [apply Reads_ret|apply Reads_ok].
Qed.

Lemma committed_wf i o : a_committed a !! i = Some o -> object_wf i o /\ 0 < i.
Proof using Hwf. intros E. destruct (wf_committed _ Hwf _ _ E). split; [done|lia]. Qed.

Lemma preparing_wf i o : a_preparing a !! i = Some o -> object_wf i o /\ 0 < i.
Proof using Hwf. intros E. destruct (wf_preparing _ Hwf _ _ E). split; [done|lia]. Qed.

Lemma Reads_GetCommittedObject id :
  is_u64 id -> Reads (GetCommittedObject s id) (Ok (a_committed a !! id)).
Proof using Hr Hwf RS. apply (Reads_object _ KCommitted); auto using committed_wf. Qed.

Lemma Reads_GetPreparingObject id :
  is_u64 id -> Reads (GetPreparingObject s id) (Ok (a_preparing a !! id)).
Proof using Hr Hwf RS. apply (Reads_object _ KPreparing); auto using preparing_wf. Qed.

(** ** Batched reads *)

Lemma committed_objects_loop_ok ids results :
  Forall is_u64 ids ->
  Forall2 (get_agrees (snap_view s) CF_objects) (NumericKey kCommittedObjectPrefix <$> ids) results ->
  (forall r, r ∈ results -> rocks_ok r.1 = false -> IsNotFound r.1 = false -> fallible) ->
  committed_objects_loop ids results = Ok ((fun i => a_committed a !! i) <$> ids) \/
  faulted (committed_objects_loop ids results).
Proof using Hr Hwf.
  revert results. induction ids as [|id ids IH]; intros results Hu Hres.
  { left. by inversion Hres. }
  inversion_clear Hres as [|k0 [st bytes] ks0 results' [Hok Hnf] Hres']. cbn [fst snd] in *.
  intros Hfall.
  apply Forall_cons in Hu as [Hid Hu].
  assert (Hfall' : forall r, r ∈ results' -> rocks_ok r.1 = false -> IsNotFound r.1 = false -> fallible)
    by (intros r Hin; apply Hfall; by right).
  cbn [committed_objects_loop]. destruct (IsNotFound st) eqn:Enf.
  - assert (Hnone : a_committed a !! id = None).
    { destruct (a_committed a !! id) as [o|] eqn:E; [|done].
      destruct (repr_some _ _ (KCommitted id) (VObject o) Hr Hid) as (b & Hb & _);
        [by simpl; rewrite E|]. simpl in Hb. rewrite Hnf in Hb; done. }
    simpl. rewrite Hnone. destruct (IH results' Hu Hres' Hfall') as [->|Hf]; [by left|].
    right. destruct Hf as (e & -> & Hf). by exists e.
  - destruct (rocks_ok st) eqn:Est; simpl.
    2:{ right. destruct (RocksToStatus_fatal st "read object metadata" Est).
        eexists. split_and!; [done..|]. split; [done|]. by apply (Hfall (st, bytes)); [left|..]. }
    specialize (Hok eq_refl).
    destruct (repr_lookup _ _ (KCommitted id) _ Hr Hid Hok) as (x & Hx & Hrep). simpl in Hx.
    destruct (a_committed a !! id) as [o|] eqn:E; [|done]. simplify_eq/=.
    destruct (committed_wf _ _ E) as [Hwfo Hpos]. rewrite (ParseObject_ok _ _ _ Hwfo Hpos Hrep).
    simpl. destruct (IH results' Hu Hres' Hfall') as [->|Hf]; [by left|].
    right. destruct Hf as (e & -> & Hf). by exists e.
Qed.

Lemma Reads_GetCommittedObjects ids :
  Forall is_u64 ids ->
  Reads (GetCommittedObjects s ids) (Ok ((fun i => a_committed a !! i) <$> ids)).
Proof using Hr Hwf RS.
  intros Hu. destruct ids as [|id ids]; [apply Reads_ok|].
  intros w. unfold GetCommittedObjects. apply wp_bind, wp_on_db. unfold wp at 1.
  pose proof (MultiGet_spec s CF_objects (NumericKey kCommittedObjectPrefix <$> id :: ids) (st_db w))
    as Hspec.
  destruct (db_MultiGet _ _ _ _) as [rs d'] eqn:Em. destruct Hspec as [Hv Hrs].
  apply wp_ret. split; [done|]. apply committed_objects_loop_ok; [done..|].
  intros r Hin. eapply (Fallible_multi_get s CF_objects); by rewrite Em.
Qed.

(** ** Iterations *)

Lemma wp_Iterate {A} o cf target (body : list (string * string) * RocksStatus -> RM StorageW A) Q w :
  (forall l st full d', db_data d' = st_contents w ->
     is_iteration (from_option snap_view (view w) o) cf target full ->
     l `prefix_of` full -> (rocks_ok st = true -> l = full) -> (rocks_ok st = false -> fallible) ->
     wp (body (l, st)) Q (MkStorageW d' (st_fs w) (st_os w))) ->
  wp (bind (on_db (db_Iterate o cf target)) body) Q w.
Proof using RS.
  intros Hb. apply wp_bind, wp_on_db. unfold wp at 1.
  pose proof (Iterate_spec o cf target (st_db w)) as Hspec.
  destruct (db_Iterate o cf target (st_db w)) as [[l st] d'] eqn:Ei.
  destruct Hspec as [Hv (full & H1 & H2 & H3)]. eapply Hb; [done..|].
  intros Hst. apply (Fallible_iterate o cf target (st_db w)). by rewrite Ei.
Qed.

End Snapshot.
End Reads.
