(* ===== verification/Scan.v ===== *)
(** * Iterating over a represented state

    The iterations of the storage layer visit the records of a kind in numeric
    order: the message scan visits the log from a position on, the channel and
    object listings visit them by id.  [spec_scan] is the scan on the log itself. *)

From S2P Require Import Prelude Status Encoding Tokens Proto Json Platform Keys World FileStore.
From S2P Require Import Storage Model Reads.

(** The entries of a map in the order of their integer keys. *)
Definition fst_le {V} (x y : Z * V) : Prop := x.1 <= y.1.

#[export] Instance fst_le_dec {V} (x y : Z * V) : Decision (fst_le x y).
Proof. unfold fst_le. apply _. Defined.

#[export] Instance fst_le_total {V} : Total (@fst_le V).
Proof. intros x y. unfold fst_le. lia. Qed.

#[export] Instance fst_le_trans {V} : Transitive (@fst_le V).
Proof. intros x y z. unfold fst_le. lia. Qed.

Definition sorted_entries {V} (m : gmap Z V) : list (Z * V) := merge_sort fst_le (map_to_list m).

Lemma sorted_entries_elem {V} (m : gmap Z V) i v : (i, v) ∈ sorted_entries m <-> m !! i = Some v.
Proof. unfold sorted_entries. by rewrite merge_sort_Permutation, elem_of_map_to_list. Qed.

Lemma StronglySorted_strict {V} (l : list (Z * V)) :
  StronglySorted fst_le l -> NoDup l.*1 -> StronglySorted (fun x y => x.1 < y.1) l.
Proof.
  induction 1 as [|x l _ IH Hf]; intros Hnd; constructor.
  - apply IH. by inversion Hnd.
  - rewrite Forall_forall in Hf |- *. intros y Hy. specialize (Hf y Hy). unfold fst_le in Hf.
    simpl in Hnd. apply NoDup_cons in Hnd as [Hx _].
    assert (x.1 <> y.1) by (intros E; apply Hx; rewrite E; by apply list_elem_of_fmap_2). lia.
Qed.

Lemma sorted_entries_strict {V} (m : gmap Z V) :
  StronglySorted (fun x y => x.1 < y.1) (sorted_entries m).
Proof.
  apply StronglySorted_strict; [apply (StronglySorted_merge_sort _)|].
  unfold sorted_entries. rewrite merge_sort_Permutation. apply NoDup_fst_map_to_list.
Qed.

Lemma StronglySorted_fmap' {A B} (f : A -> B) (R : A -> A -> Prop) (S : B -> B -> Prop) l :
  (forall x y, x ∈ l -> y ∈ l -> R x y -> S (f x) (f y)) ->
  StronglySorted R l -> StronglySorted S (f <$> l).
Proof.
  induction l as [|x l IH]; intros Hf Hs; [constructor|].
  inversion_clear Hs as [|? ? Hl Hx]. simpl. constructor.
  - apply IH; [|done]. intros; apply Hf; [by right|by right|done].
  - rewrite Forall_fmap. rewrite Forall_forall in Hx |- *. intros y Hy. simpl.
    apply Hf; [by left|by right|by apply Hx].
Qed.

Lemma StronglySorted_lookup' {A} (R : A -> A -> Prop) l :
  (forall i j x y, (i < j)%nat -> l !! i = Some x -> l !! j = Some y -> R x y) ->
  StronglySorted R l.
Proof.
  induction l as [|x l IH]; intros Hl; constructor.
  - apply IH. intros i j y z Hij. apply (Hl (S i) (S j)). lia.
  - apply Forall_forall. intros y [j Hj]%list_elem_of_lookup. apply (Hl 0%nat (S j)); [lia|done..].
Qed.

Lemma StronglySorted_app' {A} (R : A -> A -> Prop) l1 l2 :
  StronglySorted R l1 -> StronglySorted R l2 -> (forall x y, x ∈ l1 -> y ∈ l2 -> R x y) ->
  StronglySorted R (l1 ++ l2).
Proof.
  induction 1 as [|x l _ IH Hx]; intros H2 Hc; [done|]. simpl. constructor.
  - apply IH; [done|]. intros; apply Hc; [by right|done].
  - apply Forall_app. split; [done|]. apply Forall_forall. intros y Hy. apply Hc; [by left|done].
Qed.

Lemma StronglySorted_filter' {A} (R : A -> A -> Prop) (Q : A -> Prop) `{!forall x, Decision (Q x)} l :
  StronglySorted R l -> StronglySorted R (filter Q l).
Proof.
  induction 1 as [|x l _ IH Hx]; [constructor|]. rewrite filter_cons. case_decide; [|done].
  constructor; [done|]. apply Forall_forall. intros y Hy%list_elem_of_filter.
  rewrite Forall_forall in Hx. apply Hx. tauto.
Qed.

(** Keys without a prefix that are not below it are above everything that has it. *)
Lemma str_prefix_interval p k t :
  str_le p k -> String.prefix p k = false -> str_lt (p +:+ t) k.
Proof.
  revert k. induction p as [|c p IH]; intros k Hle Hp; [by destruct k|].
  destruct k as [|d k].
  { apply str_le_lteq in Hle as [?|?]; done. }
  simpl in Hp. unfold str_lt. cbn [String.append]. rewrite str_ltb_cons.
  apply str_le_lteq in Hle as [Hle|[= -> ->]].
  - unfold str_lt in Hle. rewrite str_ltb_cons in Hle. destruct Hle as [?|[-> Hlt]]; [by left|].
    right. split; [done|]. apply IH.
    + apply str_le_lteq. by left.
    + by destruct (ascii_dec d d).
  - right. split; [done|]. apply IH; [by apply str_le_lteq; right|]. by destruct (ascii_dec d d).
Qed.

Section Scan.
Context {R : RocksDB} {P : Protobuf} {F : PosixDir} {H : Host}.
Context {RS : RocksDBSpec}.
Context (d : Db) (a : AState) (Hr : repr d a) (Hwf : WF a).

(** An iteration that starts at a prefix visits the records under it first, by number. *)
Lemma prefix_iteration {V} cf p (K : Z -> Key) (recs : gmap Z V) (Vc : V -> Val) full :
  (forall i, key_ok (K i) <-> is_u64 i) ->
  (forall i, key_bytes (K i) = (cf, NumericKey p i)) ->
  (forall k b, key_bytes k = (cf, b) -> String.prefix p b = true -> exists i, k = K i) ->
  (forall i, a_get a (K i) = Vc <$> recs !! i) ->
  (forall i v, recs !! i = Some v -> is_u64 i) ->
  is_iteration d cf p full ->
  exists es rest, full = es ++ rest /\
    match rest with [] => True | e :: _ => String.prefix p e.1 = false end /\
    Forall2 (fun e x => e.1 = NumericKey p x.1 /\ val_rep (Vc x.2) e.2) es (sorted_entries recs).
Proof using Hr.
  intros Hko Hkb Hk Hget Hu Hiter. pose proof Hiter as [Hsort Hel].
  set (entry := fun x : Z * V => (NumericKey p x.1, default "" (d !! (cf, NumericKey p x.1)))).
  exists (entry <$> sorted_entries recs),
         (filter (fun e => String.prefix p e.1 = false) full).
  assert (Hrec : forall i v, recs !! i = Some v ->
    exists b, d !! (cf, NumericKey p i) = Some b /\ val_rep (Vc v) b).
  { intros i v E. rewrite <- Hkb. apply (repr_some d a); [done|by apply Hko; eauto|].
    by rewrite Hget, E. }
  assert (Hes : forall x, x ∈ sorted_entries recs ->
    (entry x).1 = NumericKey p x.1 /\ val_rep (Vc x.2) (entry x).2).
  { intros [i v] E%sorted_entries_elem. split; [done|]. simpl.
    destruct (Hrec i v E) as (b & -> & Hb). done. }
  split_and!.
  - apply key_lt_sorted_unique; [done| |].
    + apply StronglySorted_app'.
      * apply (StronglySorted_fmap' entry (fun x y => x.1 < y.1)); [|apply sorted_entries_strict].
        intros [i v] [j v'] Hi%sorted_entries_elem Hj%sorted_entries_elem Hij.
        unfold key_lt. simpl. apply NumericKey_lt; eauto.
      * by apply StronglySorted_filter'.
      * intros e1 [k b] (x & -> & _)%list_elem_of_fmap [Hp Hin]%list_elem_of_filter.
        apply Hel in Hin as [_ Hle]. unfold key_lt. simpl. by apply str_prefix_interval.
    + intros [k b]. rewrite elem_of_app, list_elem_of_fmap, list_elem_of_filter. simpl. split.
      * intros Hin. destruct (String.prefix p k) eqn:Ep; [left|by right].
        apply Hel in Hin as [Hd _]. destruct Hr as [_ Hdom].
        destruct (Hdom _ _ Hd) as (key & Hok & Ekey).
        destruct (Hk key k) as [i ->]; [done|done|]. rewrite Hkb in Ekey.
        assert (k = NumericKey p i) as -> by congruence. apply Hko in Hok.
        destruct (repr_lookup d a (K i) b) as (v & Hv & _);
          [done|by apply Hko|by rewrite Hkb|].
        rewrite Hget in Hv. destruct (recs !! i) as [v'|] eqn:E; [|done].
        exists (i, v'). split; [|by apply sorted_entries_elem]. unfold entry. simpl. by rewrite Hd.
      * intros [([i v] & [= -> ->] & E%sorted_entries_elem)|[_ Hin]]; [|done].
        destruct (Hrec i v E) as (b & Hb & _). apply Hel. simpl. rewrite Hb. split; [done|].
        apply str_le_lteq. left. unfold NumericKey. rewrite <- (str_app_nil_r p) at 1.
        apply str_lt_app_l. by destruct (EncodeUint64 i) eqn:E'; [pose proof (Encode_length i) as Hl; rewrite E' in Hl|].
  - destruct (filter _ full) as [|e rest] eqn:Ef; [done|].
    assert (Hin : e ∈ filter (fun e => String.prefix p e.1 = false) full) by (rewrite Ef; left).
    by apply list_elem_of_filter in Hin as [? _].
  - apply Forall2_fmap_l. apply Forall2_same_length_lookup_2; [done|].
    intros i x y Hx Hy. simplify_eq. apply Hes. by eapply list_elem_of_lookup_2.
Qed.

(** An iteration of the messages from [from] on visits the log in sequence order. *)
Lemma message_iteration from full :
  is_u64 from -> is_iteration d CF_messages (NumericKey kMessagePrefix from) full ->
  Forall2 (fun e m => e.1 = NumericKey kMessagePrefix (em_seq m) /\ ParseMessage e.2 = Some m)
    full (drop (Z.to_nat from) (a_log a)).
Proof using Hr Hwf.
  intros Hfrom [Hsort Hel].
  set (bytes := fun m => default "" (d !! (CF_messages, NumericKey kMessagePrefix (em_seq m)))).
  set (entry := fun m => (NumericKey kMessagePrefix (em_seq m), bytes m)).
  assert (Hlog : forall i m, a_log a !! i = Some m -> em_seq m = Z.of_nat i /\ is_u64 (em_seq m) /\
    exists b, d !! (CF_messages, NumericKey kMessagePrefix (em_seq m)) = Some b /\
              ParseMessage b = Some m).
  { intros i m Hm. destruct (wf_log _ Hwf _ _ Hm) as (Hseq & _).
    assert (Hu : is_u64 (em_seq m)).
    { apply lookup_lt_Some in Hm. pose proof (wf_max_seq _ Hwf) as Hmax.
      unfold is_u64, a_max_seq in *. lia. }
    split; [done|]. split; [done|].
    apply (repr_some d a (KMessage (em_seq m)) (VMessage m)); [done|done|].
    simpl. replace (a_message a (em_seq m)) with (Some m); [done|].
    symmetry. apply a_message_Some. rewrite Hseq, Nat2Z.id. split; [lia|done]. }
  assert (Hdrop : forall i m, drop (Z.to_nat from) (a_log a) !! i = Some m ->
    a_log a !! (Z.to_nat from + i)%nat = Some m) by (intros i m; by rewrite lookup_drop).
  replace full with (entry <$> drop (Z.to_nat from) (a_log a)).
  { apply Forall2_fmap_l. apply Forall2_same_length_lookup_2; [done|].
    intros i m m' Hm Hm'. simplify_eq. apply Hdrop, Hlog in Hm as (_ & _ & b & Hb & Hp).
    split; [done|]. simpl. unfold bytes. by rewrite Hb. }
  apply key_lt_sorted_unique; [|done|].
  - apply (StronglySorted_fmap' entry (fun x y => em_seq x < em_seq y)).
    + intros x y [i Hx]%list_elem_of_lookup [j Hy]%list_elem_of_lookup Hlt.
      apply Hdrop, Hlog in Hx as (_ & ? & _). apply Hdrop, Hlog in Hy as (_ & ? & _).
      by apply NumericKey_lt.
    + apply StronglySorted_lookup'. intros i j x y Hij Hx Hy.
      apply Hdrop, Hlog in Hx as (-> & _). apply Hdrop, Hlog in Hy as (-> & _). lia.
  - intros [k b]. rewrite list_elem_of_fmap, Hel. split.
    + intros (m & [= -> ->] & [i Hm]%list_elem_of_lookup). apply Hdrop, Hlog in Hm as (Hs & Hu & b & Hb & _).
      unfold bytes. rewrite Hb. split; [done|]. apply NumericKey_le; [done|done|].
      unfold is_u64 in Hfrom. lia.
    + intros [Hd Hle]. destruct Hr as [_ Hdom]. destruct (Hdom _ _ Hd) as (key & Hok & Ekey).
      destruct (key_bytes_message key k) as [q ->]; [done|]. cbn [key_bytes key_ok] in *.
      assert (k = NumericKey kMessagePrefix q) as -> by congruence.
      apply NumericKey_le in Hle; [|done|done].
      destruct (repr_lookup d a (KMessage q) b) as (v & Hv & _); [done|done|done|].
      simpl in Hv. destruct (a_message a q) as [m|] eqn:Em; [|done].
      apply a_message_Some in Em as [Hq Hm]. destruct (Hlog _ _ Hm) as (Hs & _).
      rewrite Z2Nat.id in Hs by done. exists m. split.
      * unfold entry, bytes. rewrite Hs, Hd. done.
      * apply list_elem_of_lookup. exists (Z.to_nat q - Z.to_nat from)%nat.
        rewrite lookup_drop. unfold is_u64 in Hfrom.
        by replace (Z.to_nat from + (Z.to_nat q - Z.to_nat from))%nat with (Z.to_nat q) by lia.
Qed.

End Scan.

(** ** The message scan on the log *)

Fixpoint spec_scan {V} (visit : V -> EventMessage -> MessageScanAction * V)
    (msgs : list EventMessage) (max_records scanned next_seq : Z) (v : V) : Z * V :=
  match msgs with
  | [] => (next_seq, v)
  | m :: msgs =>
      if max_records <=? scanned then (next_seq, v)
      else
        let '(act, v') := visit v m in
        match act with
        | kStopBefore => (em_seq m, v')
        | kStopAfter => (em_seq m + 1, v')
        | kContinue => spec_scan visit msgs max_records (scanned + 1) (em_seq m + 1) v'
        end
  end.

Section ScanMessages.
Context {R : RocksDB} {P : Protobuf} {F : PosixDir} {H : Host}.
Context {RS : RocksDBSpec}.
Context (s : snap_t) (a : AState) (Hr : repr (snap_view s) a) (Hwf : WF a).
Context {V : Type} (visitor : V -> EventMessage -> RM StorageW (MessageScanAction * V)).
Context (visit : V -> EventMessage -> MessageScanAction * V) (Inv : V -> Prop).
Context (Hvisit : forall v m, Inv v -> m ∈ a_log a ->
  Reads (visitor v m) (Ok (visit v m)) /\ Inv (visit v m).2).
Context (Hmax : a_max_seq a < two64 - 1).

(** The loop on the entries of a suffix [msgs] of the log. *)
Lemma scan_loop_ok l full msgs st pre max_records scanned v :
  a_log a = pre ++ msgs -> Inv v ->
  Forall2 (fun e m => e.1 = NumericKey kMessagePrefix (em_seq m) /\ ParseMessage e.2 = Some m)
    full msgs ->
  l `prefix_of` full -> (rocks_ok st = true -> l = full) -> (rocks_ok st = false -> fallible) ->
  Reads (scan_loop visitor l st (a_max_seq a) max_records scanned (Z.of_nat (length pre)) v)
    (Ok (spec_scan visit msgs max_records scanned (Z.of_nat (length pre)) v)).
Proof using Hr Hwf Hvisit Hmax.
  intros Elog Hinv HF. revert l pre scanned v Elog Hinv.
  induction HF as [|[key bytes] m full msgs [Hkey Hparse] HF IH];
    intros l pre scanned v Elog Hinv [suf Hl] Hst Hfall.
  - destruct l; [|done]. cbn [scan_loop spec_scan]. unfold scan_finish, iterator_status.
    rewrite app_nil_r in Elog. unfold a_max_seq. rewrite Elog.
    rewrite (proj2 (Z.leb_gt _ _)) by lia. rewrite andb_false_r.
    destruct (rocks_ok st) eqn:Est.
    + rewrite RocksToStatus_ok by done. apply Reads_ok.
    + destruct (RocksToStatus_fatal st "scan messages" Est) as [Hf Hc].
      intros w. apply wp_ret. split; [done|]. right.
      unfold check_status, status_ok. rewrite bool_decide_eq_false_2 by done. eexists. by repeat split; auto.
  - assert (Hm : a_log a !! length pre = Some m).
    { rewrite Elog, lookup_app_r, Nat.sub_diag by lia. done. }
    destruct (wf_log _ Hwf _ _ Hm) as (Hseq & Hres & Hobj & _).
    assert (Hlast : Z.of_nat (length pre) <= a_max_seq a).
    { unfold a_max_seq. rewrite Elog, length_app. simpl. lia. }
    destruct l as [|e l].
    + (* the iterator stopped early *)
      assert (Est : rocks_ok st = false).
      { destruct (rocks_ok st); [|done]. by discriminate Hst. }
      destruct (RocksToStatus_fatal st "scan messages" Est) as [Hf Hc].
      intros w. cbn [scan_loop]. apply wp_ret. split; [done|]. right.
      unfold scan_finish, iterator_status, check_status, status_ok.
      rewrite bool_decide_eq_false_2 by done. eexists. by repeat split; auto.
    + injection Hl as <- Hl. cbn [fst snd] in *. subst key.
      assert (Hu : is_u64 (em_seq m)) by (rewrite Hseq; unfold is_u64; lia).
      cbn [scan_loop spec_scan].
      rewrite NumericKey_prefix. cbn [negb].
      eapply Reads_bind.
      { rewrite DecodeNumericKey_NumericKey by done. apply Reads_ret. }
      rewrite (proj2 (Z.ltb_ge _ _)) by lia. rewrite Hseq, Z.eqb_refl. cbn [negb].
      destruct (Z.leb_spec max_records scanned).
      { unfold scan_finish. cbn [iterator_status rbind].
        rewrite (proj2 (Z.ltb_ge scanned max_records)) by done. apply Reads_ok. }
      rewrite Hparse, Hseq, Z.eqb_refl, Hres, Hobj. cbn [negb].
      destruct (Hvisit v m Hinv) as [Hv Hinv']; [by eapply list_elem_of_lookup_2|].
      eapply Reads_bind; [exact Hv|].
      destruct (visit v m) as [act v'] eqn:Ev. cbn [fst snd] in *.
      rewrite u64_add_small by (unfold is_u64 in Hu; lia).
      destruct act; [|apply Reads_ok..].
      replace (Z.of_nat (length pre) + 1) with (Z.of_nat (length (pre ++ [m])))
        by (rewrite length_app; simpl; lia).
      apply IH; [by rewrite <- app_assoc|done|by exists suf| |done].
      intros Est. specialize (Hst Est). congruence.
Qed.

Lemma Reads_ScanMessages from max_records v :
  0 <= from <= a_max_seq a -> Inv v ->
  Reads (ScanMessages s from (a_max_seq a) max_records visitor v)
    (Ok (spec_scan visit (drop (Z.to_nat from) (a_log a)) max_records 0 from v)).
Proof using Hr Hwf Hvisit Hmax RS.
  intros Hfrom Hinv w. unfold ScanMessages. apply wp_Iterate.
  intros l st full d' Hv Hiter Hl Hst Hfall. cbn [from_option] in Hiter.
  apply message_iteration with (a := a) in Hiter; [|done|done|unfold is_u64; lia].
  assert (Hlen : Z.of_nat (length (take (Z.to_nat from) (a_log a))) = from).
  { rewrite length_take. unfold a_max_seq in Hfrom. lia. }
  assert (Hscan := fun H1 => scan_loop_ok l full _ st (take (Z.to_nat from) (a_log a))
                     max_records 0 v H1 Hinv Hiter Hl Hst Hfall).
  rewrite Hlen in Hscan. cbn [fst snd].
  eapply wp_mono; [|apply Hscan; symmetry; apply take_drop].
  intros x w' [Hs Hx]. split; [|done]. by transitivity (MkStorageW d' (st_fs w) (st_os w)).
Qed.

End ScanMessages.

(** ** Listings by id *)

Section Listings.
Context {R : RocksDB} {P : Protobuf} {F : PosixDir} {H : Host}.
Context {RS : RocksDBSpec}.

(** The loops over the records under a prefix: each entry decodes, and the loop stops at the
    first key without the prefix, or reports the iterator's failure. *)
Lemma listing_loop_ok {V} (loop : list (string * string) -> RocksStatus -> list V -> Result (list V))
    prefix op (Vc : V -> Val) l es rest st (cs : list (Z * V)) acc :
  (forall st acc, loop [] st acc = (rdo iterator_status [] st op in Ok acc)) ->
  (forall k b l st acc, String.prefix prefix k = false -> loop ((k, b) :: l) st acc = Ok acc) ->
  (forall x b l st acc, x ∈ cs -> val_rep (Vc x.2) b ->
     loop ((NumericKey prefix x.1, b) :: l) st acc = loop l st (acc ++ [x.2])) ->
  Forall2 (fun e x => e.1 = NumericKey prefix x.1 /\ val_rep (Vc x.2) e.2) es cs ->
  match rest with [] => True | e :: _ => String.prefix prefix e.1 = false end ->
  l `prefix_of` (es ++ rest) -> (rocks_ok st = true -> l = es ++ rest) ->
  (rocks_ok st = false -> fallible) ->
  loop l st acc = Ok (acc ++ cs.*2) \/ faulted (loop l st acc).
Proof.
  intros Hnil Hskip Hcons HF Hrest0 Hpre Hst0 Hfall. revert l acc Hrest0 Hpre Hst0.
  assert (Hfail : forall acc, rocks_ok st = false -> faulted (loop [] st acc)).
  { intros acc Est. rewrite Hnil. cbn. destruct (RocksToStatus_fatal st op Est) as [Hf Hc].
    unfold check_status, status_ok. rewrite bool_decide_eq_false_2 by done. eexists. by repeat split; auto. }
  induction HF as [|[k b] [i c] es cs [Hk Hb] HF IH]; intros l acc Hrest [suf Hl] Hst; simpl in *.
  - rewrite app_nil_r. destruct l as [|[k b] l].
    + destruct (rocks_ok st) eqn:Est; [left|by right; apply Hfail].
      rewrite Hnil. cbn. by rewrite RocksToStatus_ok.
    + subst rest. simpl in Hrest. left. by apply Hskip.
  - destruct l as [|e l].
    + right. apply Hfail. destruct (rocks_ok st); [|done]. by discriminate Hst.
    + injection Hl as <- Hl. subst k. rewrite (Hcons (i, c)) by (done || by left). cbn [snd].
      destruct (IH ltac:(intros; apply Hcons; [by right|done]) l (acc ++ [c]) Hrest) as [E|E].
      * by exists suf.
      * intros Est. specialize (Hst Est). congruence.
      * left. rewrite E. by rewrite <- app_assoc.
      * by right.
Qed.

Lemma Reads_ListChannels s a :
  repr (snap_view s) a -> WF a ->
  Reads (ListChannels s) (Ok (sorted_entries (a_channels a)).*2).
Proof using RS.
  intros Hr Hwf w. unfold ListChannels. apply wp_Iterate.
  intros l st full d' Hv Hiter Hl Hst Hfall. cbn [from_option] in Hiter.
  assert (Hu : forall i c, a_channels a !! i = Some c -> is_u64 i).
  { intros i c E. destruct (wf_channels _ Hwf _ _ E) as [_ ?].
    pose proof (wf_next_channel _ Hwf). unfold is_u64. lia. }
  destruct (prefix_iteration _ a Hr CF_meta kChannelPrefix KChannel (a_channels a) VChannel full)
    as (es & rest & -> & Hrest & HF); try done.
  { intros k b. apply key_bytes_channel. }
  apply wp_ret. split; [done|].
  eapply (listing_loop_ok list_channels_loop kChannelPrefix "list channels" VChannel l es rest st
    _ []); try done.
  - intros k b l' st' acc Hp. cbn. by rewrite Hp.
  - intros [i c] b l' st' acc E%sorted_entries_elem Hb. cbn [list_channels_loop fst snd].
    rewrite NumericKey_prefix. cbn [negb]. rewrite DecodeNumericKey_NumericKey by (by eapply Hu).
    cbn [rbind]. by rewrite (checked_channel_ok _ Hwf _ _ _ E Hb).
Qed.

End Listings.
