(* ===== verification/Spec.v ===== *)
(** * What the handlers promise

    Each writing handler as a function on the abstract state: the checks in the
    order the code makes them, and the new state.  An [Err] leaves the state as it
    is by construction.  The elementary updates preserve [WF]; the handlers'
    specifications are compositions of them. *)

From S2P Require Import Prelude Status Encoding Tokens Proto Json Platform Keys World FileStore.
From S2P Require Import Storage Core Commands Model.

(** ** Elementary updates *)

Definition a_append (a : AState) (m : EventMessage) : AState :=
  MkAState (a_log a ++ [m]) (<[em_uuid m := em_seq m]> (a_uuids a)) (a_next_uuid a)
    (a_channels a) (a_next_channel a) (a_tokens a) (a_preparing a) (a_committed a)
    (a_next_object a).

Definition a_set_next_uuid (a : AState) (n : Z) : AState :=
  MkAState (a_log a) (a_uuids a) n (a_channels a) (a_next_channel a) (a_tokens a)
    (a_preparing a) (a_committed a) (a_next_object a).

Definition a_set_next_channel (a : AState) (n : Z) : AState :=
  MkAState (a_log a) (a_uuids a) (a_next_uuid a) (a_channels a) n (a_tokens a)
    (a_preparing a) (a_committed a) (a_next_object a).

Definition a_put_channel (a : AState) (c : ChannelInfo) : AState :=
  MkAState (a_log a) (a_uuids a) (a_next_uuid a) (<[ci_channel_id c := c]> (a_channels a))
    (a_next_channel a) (a_tokens a) (a_preparing a) (a_committed a) (a_next_object a).

Definition a_set_tokens (a : AState) (t : gset (Z * string)) : AState :=
  MkAState (a_log a) (a_uuids a) (a_next_uuid a) (a_channels a) (a_next_channel a) t
    (a_preparing a) (a_committed a) (a_next_object a).

Definition a_set_objects (a : AState) (p c : gmap Z StoredObject) (n : Z) : AState :=
  MkAState (a_log a) (a_uuids a) (a_next_uuid a) (a_channels a) (a_next_channel a) (a_tokens a)
    p c n.

Section Spec.
Context {R : RocksDB} {P : Protobuf} {F : PosixDir} {H : Host}.
Context (cfg : CoreConfig).

(** ** Shared checks *)

Definition spec_authenticate (a : AState) (principal : Z) (token : string) : Result unit :=
  if principal =? 0 then Err (mkStatus INVALID_ARGUMENT "principal must be greater than 0")
  else if str_empty token then Err (mkStatus UNAUTHENTICATED "token is required")
  else if bool_decide ((principal, token) ∈ a_tokens a) then Ok tt
  else Err (mkStatus UNAUTHENTICATED "invalid token").

Definition spec_available_uuid (a : AState) (uuid : Z) : Result unit :=
  if uuid =? 0 then Err (mkStatus INVALID_ARGUMENT "uuid must be allocated by the server")
  else if a_next_uuid a <=? uuid
  then Err (mkStatus INVALID_ARGUMENT "uuid was not allocated by the server")
  else match a_uuids a !! uuid with
       | Some _ => Err (mkStatus ALREADY_EXISTS "uuid has already been used")
       | None => Ok tt
       end.

Definition spec_channel (a : AState) (id : Z) : option ChannelInfo :=
  if id =? 0 then Some SystemChannel else a_channels a !! id.

(** An object key is a capability: it names a committed object and carries its token. *)
Definition holds_capability (a : AState) (k : ObjectKey) : bool :=
  match a_committed a !! ok_object_id k with
  | Some o => bool_decide (so_object_token o = ok_object_token k)
  | None => false
  end.

(** ** UUIDs *)

Definition spec_allocate (count : Z) (a : AState) : Result (list Z * AState) :=
  if (count =? 0) || (kMaxUuidBatch <? count)
  then Err (mkStatus INVALID_ARGUMENT "uuid allocation count must be in the range 1..1024")
  else
    let n := u64_add (a_next_uuid a) count in
    if n =? 0 then Err (mkStatus INVALID_ARGUMENT "next uuid must be nonzero")
    else Ok ((fun i => u64_add (a_next_uuid a) i) <$> seqZ 0 count, a_set_next_uuid a n).

(** ** Publishing *)

(** The permission checks of a post and its effect. *)
Definition spec_post (a : AState) (m : EventMessage) : Result AState :=
  if em_channel_id m =? 0 then Err (mkStatus PERMISSION_DENIED "system channel is read-only")
  else
    match a_channels a !! em_channel_id m with
    | None => Err (mkStatus NOT_FOUND "channel not found")
    | Some c =>
        if negb (CanWrite c (em_principal m))
        then Err (mkStatus PERMISSION_DENIED "write permission denied")
        else
          rdo ValidateRecipients c (em_recipients m) in
          if negb (forallb (holds_capability a) (em_object_keys m))
          then Err (mkStatus NOT_FOUND "object capability not found")
          else if (em_uuid m =? 0) || (em_seq m =? 0)
          then Err (mkStatus INVALID_ARGUMENT "used uuid and seq must be nonzero")
          else Ok (a_append a m)
    end.

(** Both forms of publishing; [expected] is the sequence number the client asks for. *)
Definition spec_publish (principal : Z) (token : string) (channel_id uuid : Z)
    (recipients : list Z) (payload : string) (keys : list ObjectKey) (expected : option Z)
    (ts_ms : Z) (a : AState) : Result (Z * AState) :=
  if (principal =? 0) || Contains recipients 0
  then Err (mkStatus INVALID_ARGUMENT "principal and recipients must be greater than 0")
  else
    rdo spec_authenticate a principal token in
    rdo spec_available_uuid a uuid in
    rdo ValidatePayloadSize cfg payload in
    rdo ValidateObjectKeysShape keys in
    let seq := u64_add (a_max_seq a) 1 in
    if match expected with Some n => negb (n =? seq) | None => false end
    then Err (mkStatus ABORTED "seq must equal max_seq + 1")
    else
      rlet a' := spec_post a (MkEventMessage seq channel_id principal recipients payload ts_ms
                                uuid keys) in
      Ok (seq, a').

(** ** Channels *)

Definition system_message (a : AState) (c : ChannelInfo) (payload : string) (ts_ms : Z)
    : EventMessage :=
  MkEventMessage (u64_add (a_max_seq a) 1) (ci_channel_id c) 0 [] payload ts_ms (a_next_uuid a) [].

(** A change of a channel together with the message that announces it. *)
Definition spec_mutation (a : AState) (c : ChannelInfo) (payload : string) (ts_ms : Z)
    : Result AState :=
  let m := system_message a c payload ts_ms in
  if (em_uuid m =? 0) || (em_seq m =? 0)
  then Err (mkStatus INVALID_ARGUMENT "used uuid and seq must be nonzero")
  else if u64_add (em_uuid m) 1 =? 0
  then Err (mkStatus INVALID_ARGUMENT "next uuid must be nonzero")
  else Ok (a_append (a_set_next_uuid (a_put_channel a c) (u64_add (em_uuid m) 1)) m).

Definition created_channel (req : CreateChannelRequest) (id : Z) : ChannelInfo :=
  MkChannelInfo id (cr_name req) (cr_visibility req) (cr_protocol req) (cr_description req)
    (Some (cr_principal req))
    (add_new_members {[cr_principal req]} [cr_principal req] (cr_members req)).

Definition spec_create_channel (req : CreateChannelRequest) (ts_ms : Z) (a : AState)
    : Result (ChannelInfo * AState) :=
  if invalid_channel_parameters req
  then Err (mkStatus INVALID_ARGUMENT "invalid Channel parameters")
  else
    rdo ValidateVisibility (cr_visibility req) in
    rdo spec_authenticate a (cr_principal req) (cr_token req) in
    let c := created_channel req (a_next_channel a) in
    if kMaxChannelMembers <? Z.of_nat (length (ci_members c))
    then Err (mkStatus RESOURCE_EXHAUSTED
                "Channel can contain at most 1024 members including its creator")
    else
      rlet a' := spec_mutation a c (ChannelInitializedPayload c) ts_ms in
      Ok (c, a_set_next_channel a' (u64_add (a_next_channel a) 1)).

(** The channel a member request names, if the requester may manage it. *)
Definition spec_owned_channel (req : MemberRequest) (denied : string) (a : AState)
    : Result ChannelInfo :=
  if (mr_principal req =? 0) || (mr_target_principal req =? 0)
  then Err (mkStatus INVALID_ARGUMENT "principals must be greater than 0")
  else
    rdo spec_authenticate a (mr_principal req) (mr_token req) in
    if mr_channel_id req =? 0
    then Err (mkStatus PERMISSION_DENIED "system channel cannot be modified")
    else
      match a_channels a !! mr_channel_id req with
      | None => Err (mkStatus NOT_FOUND "channel not found")
      | Some c =>
          if negb (has_creator c) || negb (creator c =? mr_principal req)
          then Err (mkStatus PERMISSION_DENIED denied)
          else Ok c
      end.

Definition spec_add_member (req : MemberRequest) (ts_ms : Z) (a : AState)
    : Result (unit * AState) :=
  rlet c := spec_owned_channel req "only creator can add members" a in
  if IsMember c (mr_target_principal req)
  then Err (mkStatus ALREADY_EXISTS "member already exists")
  else if kMaxChannelMembers <=? Z.of_nat (length (ci_members c))
  then Err (mkStatus RESOURCE_EXHAUSTED
              "Channel can contain at most 1024 members including its creator")
  else
    rlet a' := spec_mutation a (with_members c (ci_members c ++ [mr_target_principal req]))
                 (MemberChangedPayload "system.member_added" (mr_target_principal req)) ts_ms in
    Ok (tt, a').

Definition spec_remove_member (req : MemberRequest) (ts_ms : Z) (a : AState)
    : Result (unit * AState) :=
  rlet c := spec_owned_channel req "only creator can remove members" a in
  if mr_target_principal req =? creator c
  then Err (mkStatus PERMISSION_DENIED "creator cannot be removed")
  else if negb (Contains (ci_members c) (mr_target_principal req)) then Ok (tt, a)
  else
    rlet a' := spec_mutation a (with_members c (remove_first (ci_members c) (mr_target_principal req)))
                 (MemberChangedPayload "system.member_removed" (mr_target_principal req)) ts_ms in
    Ok (tt, a').

(** ** Tokens *)

Definition spec_add_token (principal : Z) (token : string) (a : AState) : Result (string * AState) :=
  if principal =? 0 then Err (mkStatus INVALID_ARGUMENT "principal must be greater than 0")
  else Ok (token, a_set_tokens a ({[(principal, token)]} ∪ a_tokens a)).

Definition spec_delete_token (principal : Z) (token : string) (a : AState)
    : Result (unit * AState) :=
  if (principal =? 0) || str_empty token
  then Err (mkStatus INVALID_ARGUMENT
              "principal must be greater than 0 and token must not be empty")
  else Ok (tt, a_set_tokens a (a_tokens a ∖ {[(principal, token)]})).

(** ** Objects *)

Definition a_prepare (a : AState) (o : StoredObject) : AState :=
  a_set_objects a (<[so_object_id o := o]> (a_preparing a)) (a_committed a)
    (u64_add (so_object_id o) 1).

Definition a_commit_object (a : AState) (o : StoredObject) : AState :=
  a_set_objects a (delete (so_object_id o) (a_preparing a))
    (<[so_object_id o := o]> (a_committed a)) (a_next_object a).

Definition a_discard (a : AState) (id : Z) : AState :=
  a_set_objects a (delete id (a_preparing a)) (a_committed a) (a_next_object a).

(** ** The elementary updates preserve the invariant *)

Lemma a_message_append a m s :
  a_message (a_append a m) s = if decide (s = a_max_seq a + 1) then Some m else a_message a s.
Proof.
  unfold a_message, a_max_seq. simpl. destruct (Z.ltb_spec s 0).
  { rewrite decide_False by lia. done. }
  case_decide as E.
  - rewrite lookup_app_r by lia. by replace (Z.to_nat s - length (a_log a))%nat with 0%nat by lia.
  - destruct (decide (Z.to_nat s < length (a_log a))%nat).
    + by rewrite lookup_app_l by lia.
    + rewrite !(proj2 (lookup_ge_None _ _)); [done|lia|rewrite length_app; simpl; lia].
Qed.

Lemma a_max_seq_append a m : a_max_seq (a_append a m) = a_max_seq a + 1.
Proof. unfold a_max_seq. simpl. rewrite length_app. simpl. lia. Qed.

(** Appending a message with a fresh uuid. *)
Lemma WF_append a m :
  WF a -> a_max_seq a + 1 < two64 -> a_uuids a !! em_uuid m = None ->
  message_wf a (a_max_seq a + 1) m -> WF (a_append a m).
Proof.
  intros Hwf Hmax Hfresh Hm. pose proof (wf_max_seq_nonneg _ Hwf).
  destruct Hwf. constructor; try done; simpl.
  - by destruct (a_log a).
  - intros i m' [E|[Hi E]]%lookup_app_Some; [by apply wf_log|].
    apply list_lookup_singleton_Some in E as [Hi' <-].
    replace (Z.of_nat i) with (a_max_seq a + 1) by (unfold a_max_seq in *; lia). done.
  - intros u s. rewrite lookup_insert_Some, wf_uuids. setoid_rewrite a_message_append.
    assert (Hseq : em_seq m = a_max_seq a + 1) by apply Hm. split.
    + intros [[<- <-]|[Hne (m' & Hm' & <-)]].
      * exists m. by rewrite decide_True.
      * exists m'. rewrite decide_False; [done|]. intros ->.
        assert (Hr : 0 <= a_max_seq a + 1 <= a_max_seq a) by (apply a_message_range; eauto). lia.
    + intros (m' & E & <-). case_decide as Es.
      * simplify_eq. by left.
      * right. split; [|by exists m']. intros Eu.
        assert (a_uuids a !! em_uuid m = Some s) by (apply wf_uuids; rewrite Eu; eauto). congruence.
  - rewrite a_max_seq_append. unfold is_u64. lia.
Qed.

Lemma WF_set_next_uuid a n : WF a -> a_next_uuid a <= n < two64 -> WF (a_set_next_uuid a n).
Proof.
  intros Hwf Hn. destruct Hwf. constructor; try done; simpl; [|lia].
  intros i m Hm. destruct (wf_log i m Hm) as (? & ? & ? & ? & ?). split_and!; simpl; try done; lia.
Qed.

Lemma WF_set_next_channel a n :
  WF a -> a_next_channel a <= n < two64 -> WF (a_set_next_channel a n).
Proof.
  intros Hwf Hn. destruct Hwf. constructor; try done; simpl; [|lia].
  intros id c Hc. destruct (wf_channels id c Hc). split; [done|lia].
Qed.

Lemma WF_put_channel a c :
  WF a -> channel_wf (ci_channel_id c) c -> 0 < ci_channel_id c < a_next_channel a ->
  WF (a_put_channel a c).
Proof.
  intros Hwf Hc Hid. destruct Hwf. constructor; try done; simpl.
  - intros i m Hm. destruct (wf_log i m Hm) as (? & ? & ? & Hch & ?).
    split_and!; simpl; try done; [|lia..].
    destruct Hch as [?|?]; [by left|right]. rewrite lookup_insert_is_Some'. by right.
  - intros id c' [[<- <-]|[_ E]]%lookup_insert_Some; [done|by apply wf_channels].
Qed.

Lemma WF_set_tokens a t :
  WF a -> (forall p k, (p, k) ∈ t -> 0 < p < two64 /\ k <> "") -> WF (a_set_tokens a t).
Proof. intros Hwf Ht. destruct Hwf. by constructor. Qed.

Lemma WF_set_objects a p c n :
  WF a -> a_next_object a <= n < two64 ->
  (forall id o, p !! id = Some o -> object_wf id o /\ 0 < id < n) ->
  (forall id o, c !! id = Some o -> object_wf id o /\ 0 < id < n) ->
  p ##ₘ c -> WF (a_set_objects a p c n).
Proof. intros Hwf Hn Hp Hc Hd. destruct Hwf. constructor; try done; simpl; lia. Qed.

Lemma WF_prepare a o :
  WF a -> a_next_object a + 1 < two64 -> so_object_id o = a_next_object a ->
  object_wf (so_object_id o) o -> WF (a_prepare a o).
Proof.
  intros Hwf Hn Hid Ho. pose proof (wf_next_object _ Hwf).
  unfold a_prepare. rewrite u64_add_small by lia. apply WF_set_objects; [done|lia| | |].
  - intros id o' [[<- <-]|[_ E]]%lookup_insert_Some; [split; [done|lia]|].
    destruct (wf_preparing _ Hwf _ _ E). split; [done|lia].
  - intros id o' E. destruct (wf_committed _ Hwf _ _ E). split; [done|lia].
  - apply map_disjoint_insert_l. split; [|apply (wf_disjoint _ Hwf)].
    destruct (a_committed a !! so_object_id o) eqn:E; [|done].
    destruct (wf_committed _ Hwf _ _ E). lia.
Qed.

Lemma WF_commit_object a o :
  WF a -> a_preparing a !! so_object_id o = Some o -> WF (a_commit_object a o).
Proof.
  intros Hwf Ho. pose proof (wf_next_object _ Hwf). destruct (wf_preparing _ Hwf _ _ Ho).
  apply WF_set_objects; [done|lia| | |].
  - intros id o' [_ E]%lookup_delete_Some. by apply (wf_preparing _ Hwf).
  - intros id o' [[<- <-]|[_ E]]%lookup_insert_Some; [done|by apply (wf_committed _ Hwf)].
  - apply map_disjoint_insert_r. split; [apply lookup_delete_eq|].
    apply map_disjoint_delete_l, (wf_disjoint _ Hwf).
Qed.

Lemma WF_discard a id : WF a -> WF (a_discard a id).
Proof.
  intros Hwf. pose proof (wf_next_object _ Hwf). apply WF_set_objects; [done|lia| | |].
  - intros i o [_ E]%lookup_delete_Some. by apply (wf_preparing _ Hwf).
  - intros i o E. by apply (wf_committed _ Hwf).
  - apply map_disjoint_delete_l, (wf_disjoint _ Hwf).
Qed.

End Spec.

#[export] Hint Resolve WF_append WF_set_next_uuid WF_set_next_channel WF_put_channel WF_set_tokens
  WF_prepare WF_commit_object WF_discard : oe.
