(* ===== verification/SystemMessages.v ===== *)
(** * System messages are accepted when they are read back

    A channel event is stored with a JSON payload that the message scan checks
    when it reads it.  The payloads the server writes always pass, for any names
    and any member ids, and are valid text. *)

From Stdlib Require Import QArith Qround.
From S2P Require Import Prelude Status Encoding Tokens Proto Json Platform Keys World FileStore.
From S2P Require Import Storage.

#[local] Open Scope Z_scope.

(** ** UTF-8 *)

Definition is_ascii (c : ascii) : bool := Z_of_byte c <? 128.

Lemma utf8_ascii_cons c s : is_ascii c = true -> utf8_valid (String c s) = utf8_valid s.
Proof. unfold is_ascii. intros Hc. cbn [utf8_valid]. by rewrite Hc. Qed.

Lemma utf8_ascii_app e s : string_forallb is_ascii e = true -> utf8_valid (e +:+ s) = utf8_valid s.
Proof.
  induction e as [|c e IH]; [done|]. cbn [string_forallb]. intros [Hc He]%andb_true_iff.
  cbn [String.append]. by rewrite utf8_ascii_cons, IH.
Qed.

(** Bytes above 127 are copied by the writer. *)
Lemma JsonString_body_high c s :
  128 <= Z_of_byte c -> JsonString_body (String c s) = String c (JsonString_body s).
Proof.
  intros Hc. cbn [JsonString_body].
  rewrite !(proj2 (Z.eqb_neq (Z_of_byte c) _)), (proj2 (Z.ltb_ge _ _)) by lia. done.
Qed.

Lemma JsonString_body_low c s :
  is_ascii c = true ->
  exists e, string_forallb is_ascii e = true /\ JsonString_body (String c s) = e +:+ JsonString_body s.
Proof.
  intros Hc. cbn [JsonString_body]. eexists. split; [|reflexivity].
  by destruct c as [[] [] [] [] [] [] [] []].
Qed.

Lemma utf8_cont_high c lo hi : 128 <= lo -> utf8_cont c lo hi = true -> 128 <= Z_of_byte c.
Proof. unfold utf8_cont. intros ? [?%Z.leb_le _]%andb_true_iff. lia. Qed.

Lemma utf8_JsonString_body s t :
  utf8_valid s = true -> utf8_valid (JsonString_body s +:+ t) = utf8_valid t.
Proof.
  revert s. fix IH 1. intros [|c r] Hs; [done|].
  destruct (is_ascii c) eqn:Ec.
  { destruct (JsonString_body_low c r Ec) as (e & He & ->).
    rewrite str_app_assoc, utf8_ascii_app by done. apply IH. by rewrite utf8_ascii_cons in Hs. }
  unfold is_ascii in Ec. pose proof (proj1 (Z.ltb_ge _ _) Ec) as Hc.
  rewrite JsonString_body_high by done. cbn [utf8_valid] in Hs |- *. rewrite Ec in Hs.
  cbn [String.append utf8_valid]. rewrite Ec.
  destruct ((194 <=? Z_of_byte c) && (Z_of_byte c <=? 223)).
  { destruct r as [|c1 r]; [done|]. apply andb_true_iff in Hs as [H1 Hs].
    rewrite JsonString_body_high by (by eapply utf8_cont_high; [|done]; lia).
    cbn [String.append]. rewrite H1. by apply IH. }
  destruct ((224 <=? Z_of_byte c) && (Z_of_byte c <=? 239)).
  { destruct r as [|c1 [|c2 r]]; [done..|].
    apply andb_true_iff in Hs as [[H1 H2]%andb_true_iff Hs].
    rewrite JsonString_body_high by (eapply utf8_cont_high; [|done]; case_match; lia).
    rewrite JsonString_body_high by (by eapply utf8_cont_high; [|done]; lia).
    cbn [String.append]. rewrite H1, H2. by apply IH. }
  destruct ((240 <=? Z_of_byte c) && (Z_of_byte c <=? 244)); [|done].
  destruct r as [|c1 [|c2 [|c3 r]]]; [done..|].
  apply andb_true_iff in Hs as [[[H1 H2]%andb_true_iff H3]%andb_true_iff Hs].
  rewrite JsonString_body_high by (eapply utf8_cont_high; [|done]; case_match; lia).
  rewrite !JsonString_body_high by (by eapply utf8_cont_high; [|done]; lia).
  cbn [String.append]. rewrite H1, H2, H3. by apply IH.
Qed.

Lemma utf8_JsonString s t :
  utf8_valid s = true -> utf8_valid (JsonString s +:+ t) = utf8_valid t.
Proof.
  intros Hs. unfold JsonString. cbn [String.append]. rewrite utf8_ascii_cons by done.
  rewrite str_app_assoc, utf8_JsonString_body by done. by apply utf8_ascii_cons.
Qed.

Lemma dec_digits_ascii f n : 0 <= n -> string_forallb is_ascii (dec_digits f n) = true.
Proof.
  assert (Happ : forall s t, string_forallb is_ascii (s +:+ t) =
    string_forallb is_ascii s && string_forallb is_ascii t).
  { intros s t. induction s as [|c s IHs]; [done|]. simpl. by rewrite IHs, andb_assoc. }
  assert (Hd : forall d, 0 <= d < 10 -> string_forallb is_ascii (dec_digit d) = true).
  { intros d Hd. unfold dec_digit. cbn [string_forallb]. unfold is_ascii.
    rewrite Z_of_byte_of_Z by lia. rewrite andb_true_r. apply Z.ltb_lt. lia. }
  revert n. induction f as [|f IH]; intros n Hn; [done|]. cbn [dec_digits].
  destruct (Z.ltb_spec n 10); [apply Hd; lia|]. rewrite Happ, IH, Hd; [done| |].
  - apply Z.mod_pos_bound. lia.
  - apply Z.div_pos; lia.
Qed.

Lemma utf8_to_string n t : 0 <= n -> utf8_valid (to_string n +:+ t) = utf8_valid t.
Proof. intros Hn. apply utf8_ascii_app. by apply dec_digits_ascii. Qed.

Lemma utf8_members l t :
  Forall (fun n => 0 < n < two64) l -> utf8_valid (members_text l +:+ t) = utf8_valid t.
Proof.
  induction l as [|n [|m l] IH]; [done| |]; intros [Hn Hl]%Forall_cons.
  - cbn [members_text]. apply utf8_to_string. lia.
  - cbn [members_text] in *. rewrite str_app_assoc, utf8_to_string by lia.
    cbn [String.append]. rewrite utf8_ascii_cons by done. by apply IH.
Qed.

(** ** The payloads *)

(** The text and the ids of a channel, as a request can carry them. *)
Definition channel_values_ok (c : ChannelInfo) : Prop :=
  channel_text_ok c /\ 0 < creator c < two64 /\ ci_members c <> [] /\
  principals_ok (ci_members c).

Lemma utf8_ChannelInitializedPayload c :
  channel_values_ok c -> utf8_valid (ChannelInitializedPayload c) = true.
Proof.
  intros ((Hn & Hp & Hd) & Hc & _ & Hm). unfold ChannelInitializedPayload.
  rewrite !utf8_ascii_app by done. rewrite utf8_JsonString, utf8_ascii_app by done.
  rewrite utf8_JsonString, utf8_ascii_app by done.
  rewrite utf8_JsonString, utf8_ascii_app by done.
  rewrite utf8_ascii_app by (by destruct (ci_visibility c)).
  rewrite utf8_ascii_app, utf8_to_string, utf8_ascii_app by (done || lia).
  rewrite utf8_members by done. done.
Qed.

Lemma utf8_MemberChangedPayload kind n :
  kind = "system.member_added" \/ kind = "system.member_removed" -> 0 < n ->
  utf8_valid (MemberChangedPayload kind n) = true.
Proof.
  intros Hk Hn. unfold MemberChangedPayload.
  destruct Hk as [-> | ->]; rewrite !utf8_ascii_app, utf8_to_string by (done || lia); done.
Qed.

Lemma utf8_token t : IsBase64UrlToken t = true -> utf8_valid t = true.
Proof.
  unfold IsBase64UrlToken. intros [_ Ht]%andb_true_iff. rewrite <- (str_app_nil_r t).
  rewrite utf8_ascii_app; [done|]. induction t as [|c t IH]; [done|].
  cbn [string_forallb] in *. apply andb_true_iff in Ht as [Hc Ht]. rewrite (IH Ht), andb_true_r.
  by destruct c as [[] [] [] [] [] [] [] []].
Qed.

(** A field lookup that computes. *)
Fixpoint pb_get (fields : list (string * PbValue)) (k : string) : option PbValue :=
  match fields with
  | [] => None
  | (k', v) :: fields => if String.eqb k' k then Some v else pb_get fields k
  end.

Lemma pb_find_get fields k : pb_find fields k = pb_get fields k.
Proof.
  unfold pb_find. induction fields as [|[k' v] fields IH]; [done|]. cbn [list_find pb_get].
  cbn [fst]. case_decide as E.
  - rewrite E, String.eqb_refl. done.
  - rewrite (proj2 (String.eqb_neq _ _) E), <- IH. by destruct (list_find _ fields) as [[? []]|].
Qed.

Ltac pb_eval :=
  repeat first [rewrite !pb_find_get | progress cbn [pb_get String.eqb Ascii.eqb Bool.eqb negb orb andb
    forallb] | rewrite bool_decide_eq_true_2 by done | rewrite bool_decide_eq_false_2 by done
    | rewrite bool_decide_eq_false_2 by (by intros [? [=]])].

#[local] Arguments is_principal : simpl never.
#[local] Arguments number : simpl never.

Section SystemMessages.
Context {R : RocksDB} {P : Protobuf} {F : PosixDir} {H : Host} {PS : ProtobufSpec}.

Lemma is_principal_number n : 0 < n < two64 -> is_principal (number n) = true.
Proof.
  intros Hn%round_double_bound. unfold is_principal, number.
  rewrite Qfloor_Z, Qeq_bool_refl, andb_true_r. apply andb_true_iff. split.
  - apply negb_true_iff. apply not_true_is_false. rewrite Qle_bool_iff, <- Zle_Qle. lia.
  - rewrite Qle_bool_iff, <- Zle_Qle. lia.
Qed.

(** A message with a payload that reads as a channel event is a valid system message. *)
Lemma valid_channel_initialized m c :
  em_recipients m = [] -> em_object_keys m = [] ->
  em_payload m = ChannelInitializedPayload c -> channel_values_ok c ->
  ValidChannelSystemMessage m = true.
Proof using PS.
  intros Hr Hk Hp ((Hn & Hpr & Hd) & Hc & Hne & Hm). unfold ValidChannelSystemMessage.
  rewrite Hr, Hk, Hp. rewrite !bool_decide_eq_true_2 by done. cbn [negb orb].
  rewrite (JsonStringToMessage_spec _ _ (read_ChannelInitializedPayload c Hn Hpr Hd Hc Hne Hm)).
  assert (Hall : forallb is_principal (number <$> ci_members c) = true).
  { apply forallb_forall. intros v Hv%list_elem_of_In.
    apply list_elem_of_fmap in Hv as (n & -> & Hn'). apply is_principal_number.
    by eapply Forall_forall in Hm. }
  assert (Hvs : number <$> ci_members c <> []) by (by destruct (ci_members c)).
  apply is_principal_number in Hc. unfold channel_initialized_struct, visibility_text.
  revert Hc Hall Hvs. generalize (number (creator c)) (number <$> ci_members c).
  intros v vs Hc Hall Hvs. rewrite !pb_find_get. unfold pb_contains, is_string_field.
  destruct (ci_visibility c); pb_eval; by rewrite Hc, Hall.
Qed.

Lemma valid_member_changed m kind n :
  em_recipients m = [] -> em_object_keys m = [] ->
  em_payload m = MemberChangedPayload kind n ->
  kind = "system.member_added" \/ kind = "system.member_removed" -> 0 < n < two64 ->
  ValidChannelSystemMessage m = true.
Proof using PS.
  intros Hr Hk Hp Hkind Hn. unfold ValidChannelSystemMessage.
  rewrite Hr, Hk, Hp. rewrite !bool_decide_eq_true_2 by done. cbn [negb orb].
  rewrite (JsonStringToMessage_spec _ _ (read_MemberChangedPayload kind n Hkind Hn)).
  apply is_principal_number in Hn. revert Hn. unfold member_changed_struct.
  generalize (number n). intros v Hv. unfold pb_contains.
  destruct Hkind as [-> | ->]; pb_eval; done.
Qed.

Lemma valid_initialization ms : ValidInitializationMessage (InitializationMessage ms) = true.
Proof using PS.
  unfold ValidInitializationMessage. cbn [InitializationMessage em_seq em_uuid em_principal
    em_channel_id em_recipients em_object_keys em_payload].
  assert (E : read_struct system_initialization_payload = Some
    [("kind", PbString "system.initialization"); ("data", PbStruct [("schema_version", number 1)])])
    by (vm_compute; reflexivity).
  rewrite (JsonStringToMessage_spec _ _ E). clear E. unfold pb_contains. pb_eval. done.
Qed.

End SystemMessages.
