(* ===== verification/Refine.v ===== *)
(** * Handlers against their specifications

    The ways a handler can end ([Outcome]), relative to the abstract state it
    starts from: it agrees with its specification, it is refused for a reason the
    host gives (a deadline, a random source that fails), or the storage failed.
    [CReads] is [Reads] lifted to the coordinator; the [step_*] rules walk through
    a handler and its specification together. *)

From S2P Require Import Prelude Status Encoding Tokens Proto Json Platform Keys World FileStore.
From S2P Require Import Storage Core Commands Model Reads Spec.

Section View.
Context {R : RocksDB} {F : PosixDir} {H : Host}.

Definition cview (w : CoreW) : Db := view (c_storage w).
Definition cdisk (w : CoreW) : Db -> Prop := disk (c_storage w).

End View.

(** Everything the database of the coordinator holds. *)
Abbreviation c_contents w := (cview w, cdisk w).

Section Refine.
Context {R : RocksDB} {P : Protobuf} {F : PosixDir} {H : Host}.
Context {RS : RocksDBSpec}.
Context (cfg : CoreConfig).

Definition cos (w : CoreW) : os_t := st_os (c_storage w).

(** The clock's reading, in the coordinator's unit. *)
Definition now_ms (w : CoreW) : Z := Z.quot (os_system_clock (cos w)).1 1000000 mod two64.

(** What an operation that is not the object-file path and not a subscription leaves alone. *)
Definition quiet (w w' : CoreW) : Prop :=
  st_fs (c_storage w') = st_fs (c_storage w) /\ c_sub w' = c_sub w.

(** The availability latch. *)
Definition latch (w : CoreW) : bool * list Status := (fatal_error_triggered w, fatal_calls w).

(** The effect of [FatalStorageError]: the first fatal status closes the server and is
    reported, later ones change nothing. *)
Definition trip (s : Status) (w : CoreW) : CoreW :=
  if fatal_error_triggered w then w
  else set_fatal w (if has_fatal_error_handler cfg then fatal_calls w ++ [s] else fatal_calls w).

(** Everything but the host is as before. *)
Definition unchanged (w w' : CoreW) : Prop :=
  c_contents w' = c_contents w /\ quiet w w' /\ commit_generation w' = commit_generation w /\
  latch w' = latch w.

(** A storage fault was met: it is reported, and the latch is closed now or is left to the
    caller. *)
Definition fault (w : CoreW) (s : Status) (w' : CoreW) : Prop :=
  fatal_status s /\ reported s /\ quiet w w' /\
  commit_generation w' = commit_generation w /\
  (latch w' = latch w \/ latch w' = latch (trip s w)).

#[export] Instance unchanged_refl : Reflexive unchanged.
Proof. intros w. by repeat split. Qed.

#[export] Instance unchanged_trans : Transitive unchanged.
Proof.
  intros x y z (? & [? ?] & ? & ?) (? & [? ?] & ? & ?). repeat split; congruence.
Qed.

Lemma latch_trip s w w' : latch w' = latch w -> latch (trip s w') = latch (trip s w).
Proof.
  unfold latch, trip. destruct w as [? ? f c ?], w' as [? ? f' c' ?]. cbn. intros [= -> ->].
  by destruct f.
Qed.

Lemma latch_trip_trip s w w' : latch w' = latch (trip s w) -> latch (trip s w') = latch (trip s w).
Proof.
  unfold latch, trip. destruct w as [? ? f c ?], w' as [? ? f' c' ?].
  destruct f; cbn; by intros [= -> ->].
Qed.

Lemma unchanged_fault w w1 s w2 : unchanged w w1 -> fault w1 s w2 -> fault w s w2.
Proof.
  intros (_ & [? ?] & ? & Hl) (? & ? & [? ?] & ? & Hl').
  apply (latch_trip s) in Hl as Ht.
  split_and!; [done|done|split; congruence|congruence|]. rewrite <- Ht, <- Hl. done.
Qed.

Lemma run_FatalStorageError s w : FatalStorageError cfg s w = (s, trip s w).
Proof.
  unfold FatalStorageError, bind, get, trip. by destruct (fatal_error_triggered w).
Qed.

Lemma wp_FatalStorageError {A} s (k : Status -> M CoreW A) Q w :
  wp (k s) Q (trip s w) -> wp (bind (FatalStorageError cfg s) k) Q w.
Proof. unfold wp, bind. by rewrite run_FatalStorageError. Qed.

(** A crash now loses nothing. *)
Definition on_disk_now (w : CoreW) : Prop := forall x, cdisk w x -> x = cview w.

(** A crash after a failed commit leaves what it could have left before, the contents before,
    or those of the commit. *)
Definition disk_within (w w' : CoreW) (new : Db -> Prop) : Prop :=
  forall x, cdisk w' x -> cdisk w x \/ x = cview w \/ new x.

(** ** Reads at the coordinator *)

Definition CReads {A} (m : RM CoreW A) (r : Result A) : Prop :=
  forall w, wp m (fun x w' =>
    (x = r /\ unchanged w w' /\ cos w' = cos w) \/
    (exists s, x = Err s /\ fault w s w' /\ c_contents w' = c_contents w)) w.

Lemma CReads_ret {A} (r : Result A) : CReads (ret r) r.
Proof. intros w. apply wp_ret. by left. Qed.

Lemma CReads_storage {A} (m : RM StorageW A) r : Reads m r -> CReads (storage m) r.
Proof.
  intros Hm w. specialize (Hm (c_storage w)). unfold wp, storage in *.
  destruct (m (c_storage w)) as [x s']. destruct Hm as [(H1 & H2 & H3) [->|(e & -> & Hf & Hc & Hfall)]].
  - left. by repeat split.
  - right. exists e. repeat split; auto.
Qed.

Lemma CReads_bind {A B} (m : RM CoreW A) (k : A -> RM CoreW B) r (k' : A -> Result B) :
  CReads m r -> (forall v, r = Ok v -> CReads (k v) (k' v)) -> CReads (bind_ok m k) (rbind r k').
Proof.
  intros Hm Hk w. unfold bind_ok. apply wp_bind. eapply wp_mono; [|apply Hm].
  intros x w1 [(-> & Hu & Ho) | (s & -> & Hf & Hv)].
  - destruct r as [v|e]; simpl; [|apply wp_ret; by left].
    eapply wp_mono; [|by apply Hk]. intros y w2 [(-> & Hu2 & Ho2)|(s & -> & Hf & Hv)].
    + left. split_and!; [done|by etransitivity|congruence].
    + right. exists s. split_and!; [done|by eapply unchanged_fault|]. destruct Hu. congruence.
  - apply wp_ret. right. by exists s.
Qed.

(** [escalate] of a status that asks for an exit. *)
Lemma wp_escalate_fatal {A} s w (Q : Result A -> CoreW -> Prop) :
  fatal_status s -> Q (Err s) (trip s w) -> wp (escalate cfg s) Q w.
Proof.
  intros Hf HQ. unfold escalate, must_exit. rewrite Hf. by apply wp_FatalStorageError.
Qed.

Lemma trip_quiet s w :
  quiet w (trip s w) /\ commit_generation (trip s w) = commit_generation w /\
  c_contents (trip s w) = c_contents w.
Proof. unfold trip. by destruct (fatal_error_triggered w). Qed.

(** A read whose fault is escalated on the spot. *)
Lemma CReads_escalate {A B} (m : RM StorageW A) (v : A) (k : Result A -> RM CoreW B) r :
  Reads m (Ok v) -> (forall s, k (Err s) = escalate cfg s) -> CReads (k (Ok v)) r ->
  CReads (bind (storage m) k) r.
Proof.
  intros Hm Hesc Hk w. apply wp_bind. eapply wp_mono; [|by apply (CReads_storage m (Ok v))].
  intros x w1 [(-> & Hu & Ho)|(s & -> & (Hf & Hc & Hq & Hg & Hl) & Hv)].
  - eapply wp_mono; [|apply Hk]. intros y w2 [(-> & Hu2 & Ho2)|(s & -> & Hf & Hv)].
    + left. split_and!; [done|by etransitivity|congruence].
    + right. exists s. split_and!; [done|by eapply unchanged_fault|]. destruct Hu. congruence.
  - rewrite Hesc. apply wp_escalate_fatal; [done|]. right. exists s.
    destruct (trip_quiet s w1) as ([? ?] & ? & ?). destruct Hq as [? ?].
    split_and!; [done| |congruence]. split_and!; [done|done|split; congruence|congruence|].
    right. destruct Hl as [Hl|Hl]; [by apply latch_trip|].
    by apply latch_trip_trip.
Qed.

(** A snapshot shows the current contents. *)
Lemma wp_CreateSnapshot w (Q : Result snap_t -> CoreW -> Prop) :
  (forall s w', snap_view s = cview w -> unchanged w w' -> cos w' = cos w -> Q (Ok s) w') ->
  (forall e w', fault w e w' -> c_contents w' = c_contents w -> Q (Err e) w') ->
  wp (storage CreateSnapshot) Q w.
Proof using RS.
  intros Hok Hbad. unfold wp, storage, CreateSnapshot, bind, on_db.
  pose proof (GetSnapshot_spec (st_db (c_storage w))) as Hspec.
  destruct (db_GetSnapshot (st_db (c_storage w))) as [[s|] d'] eqn:E; destruct Hspec as [Hd Hs]; cbn.
  - apply Hok; [by apply Hs|by repeat split|done].
  - apply Hbad; [|exact Hd].
    assert fallible by (apply (Fallible_snapshot (st_db (c_storage w))); by rewrite E).
    by repeat split; auto.
Qed.

(** ** How a handler ends *)

(** [Rej] lists the statuses the host can give; [a] is the state at the start. *)
Inductive Outcome {B} (Rej : Status -> Prop) (w0 : CoreW) (a : AState)
    (spec : Result (B * AState)) : Result B -> CoreW -> Prop :=
  | Served v a' w :
      spec = Ok (v, a') -> repr (cview w) a' -> quiet w0 w -> latch w = latch w0 ->
      (commit_generation w = u64_add (commit_generation w0) 1 /\ on_disk_now w \/
       a' = a /\ commit_generation w = commit_generation w0 /\ cdisk w = cdisk w0) ->
      Outcome Rej w0 a spec (Ok v) w
  | Refused e w : spec = Err e -> unchanged w0 w -> Outcome Rej w0 a spec (Err e) w
  | Rejected s w : Rej s -> unchanged w0 w -> Outcome Rej w0 a spec (Err s) w
  | Failed s w :
      fault w0 s w ->
      (cview w = cview w0 \/
       exists v a', spec = Ok (v, a') /\ repr (cview w) a' /\ latch w = latch (trip s w0)) ->
      (cdisk w = cdisk w0 \/
       exists v a', spec = Ok (v, a') /\ latch w = latch (trip s w0) /\
         disk_within w0 w (fun x => repr x a')) ->
      Outcome Rej w0 a spec (Err s) w.

Definition serialize_rejection (s : Status) : Prop :=
  s = mkStatus INTERNAL "serialize message failed" \/
  s = mkStatus INTERNAL "serialize channel failed".

Definition context_rejection (s : Status) : Prop :=
  s = mkStatus DEADLINE_EXCEEDED "RPC deadline exceeded" \/ s = mkStatus CANCELLED "RPC cancelled".

(** The context of a request is why it is rejected: its deadline passed on the clock, or its
    client is gone. *)
Definition inactive (ctx : option ServerContext) (s : Status) : Prop :=
  match ctx with
  | None => False
  | Some c =>
      (s = mkStatus DEADLINE_EXCEEDED "RPC deadline exceeded" /\
       exists deadline o, ctx_deadline c = Some deadline /\ deadline <= (os_system_clock o).1) \/
      (s = mkStatus CANCELLED "RPC cancelled" /\ exists o, (os_IsCancelled c o).1 = true)
  end.

Lemma inactive_rejection ctx s : inactive ctx s -> context_rejection s.
Proof. destruct ctx as [c|]; [|done]. intros [[-> _]|[-> _]]; [by left|by right]. Qed.

Lemma Outcome_weaken {B} (Rej Rej' : Status -> Prop) w0 a (spec : Result (B * AState)) r w :
  (forall s, Rej s -> Rej' s) -> Outcome Rej w0 a spec r w -> Outcome Rej' w0 a spec r w.
Proof.
  intros HR Hout. destruct Hout;
    [by eapply Served|by apply Refused|apply Rejected; [by apply HR|done]|by apply Failed].
Qed.

Section Steps.
Context {B : Type} (Rej : Status -> Prop) (w0 : CoreW) (a : AState).

(** A read or a check with a known result. *)
Lemma step_result {A} (m : RM CoreW A) r (k : A -> RM CoreW B) spec w :
  CReads m r -> unchanged w0 w ->
  (forall e, r = Err e -> spec = Err e \/ Rej e) ->
  (forall v w', r = Ok v -> unchanged w0 w' -> cos w' = cos w ->
     wp (k v) (Outcome Rej w0 a spec) w') ->
  wp (bind_ok m k) (Outcome Rej w0 a spec) w.
Proof.
  intros Hm Hu He Hk. unfold bind_ok. apply wp_bind. eapply wp_mono; [|apply Hm].
  intros x w1 [(-> & Hu1 & Ho) | (s & -> & Hf & Hv)].
  - assert (unchanged w0 w1) by (by etransitivity). destruct r as [v|e]; simpl; [by apply Hk|].
    apply wp_ret. destruct (He e eq_refl); [by apply Refused|by apply Rejected].
  - apply wp_ret. apply Failed; [by eapply unchanged_fault|left; destruct Hu as [Hu ?]; congruence..].
Qed.

(** A read or a check that the specification makes too. *)
Lemma step_check {A} (m : RM CoreW A) r (k : A -> RM CoreW B) (k' : A -> Result (B * AState)) w :
  CReads m r -> unchanged w0 w ->
  (forall v w', r = Ok v -> unchanged w0 w' -> cos w' = cos w ->
     wp (k v) (Outcome Rej w0 a (k' v)) w') ->
  wp (bind_ok m k) (Outcome Rej w0 a (rbind r k')) w.
Proof.
  intros Hm Hu Hk. apply (step_result _ r); [done..| |].
  - intros e ->. by left.
  - intros v w' ->. by apply Hk.
Qed.

(** A read of a known value. *)
Lemma step_read {A} (m : RM CoreW A) v (k : A -> RM CoreW B) spec w :
  CReads m (Ok v) -> unchanged w0 w ->
  (forall w', unchanged w0 w' -> cos w' = cos w -> wp (k v) (Outcome Rej w0 a spec) w') ->
  wp (bind_ok m k) (Outcome Rej w0 a spec) w.
Proof.
  intros Hm Hu Hk. change spec with (rbind (Ok v) (fun _ => spec)). apply step_check; [done..|].
  intros v' w' [= <-]. apply Hk.
Qed.

(** A pure check that both sides make. *)
Lemma step_pure {A} (r : Result A) (k : A -> RM CoreW B) (k' : A -> Result (B * AState)) w :
  unchanged w0 w ->
  (forall v, r = Ok v -> wp (k v) (Outcome Rej w0 a (k' v)) w) ->
  wp (bind_ok (ret r) k) (Outcome Rej w0 a (rbind r k')) w.
Proof.
  intros Hu Hk. unfold bind_ok. apply wp_bind, wp_ret. destruct r as [v|e]; simpl; [by apply Hk|].
  apply wp_ret. by apply Refused.
Qed.

Lemma step_refuse (c : StatusCode) msg w :
  unchanged w0 w -> wp (fail c msg) (Outcome (B := B) Rej w0 a (Err (mkStatus c msg))) w.
Proof. intros Hu. apply wp_ret. by apply Refused. Qed.

Lemma step_available (k : unit -> RM CoreW B) Q w :
  fatal_error_triggered w = false -> wp (k tt) Q w -> wp (bind_ok EnsureAvailable k) Q w.
Proof.
  intros Hf Hk. unfold bind_ok, EnsureAvailable, wp, bind, get. rewrite Hf. simpl. exact Hk.
Qed.

(** A snapshot shows the state the handler starts from. *)
Lemma step_snapshot (k : snap_t -> RM CoreW B) spec w :
  unchanged w0 w ->
  (forall s w', snap_view s = cview w0 -> unchanged w0 w' -> cos w' = cos w ->
     wp (k s) (Outcome Rej w0 a spec) w') ->
  wp (bind_ok (storage CreateSnapshot) k) (Outcome Rej w0 a spec) w.
Proof using RS.
  intros Hu Hk. unfold bind_ok. apply wp_bind, wp_CreateSnapshot.
  - intros s w' Hs Hu' Ho. apply Hk; [|by etransitivity|done]. destruct Hu as [Hv _]. injection Hv as <- _. done.
  - intros e w' Hf Hv. apply wp_ret, Failed; [by eapply unchanged_fault|left; destruct Hu as [Hu _]; congruence..].
Qed.

(** A request stops when its deadline has passed on the clock or the host says that the
    client has gone away, and the status says which. *)
Lemma step_active_of ctx (k : unit -> RM CoreW B) spec w :
  (forall s, inactive ctx s -> Rej s) -> unchanged w0 w ->
  (forall w', unchanged w0 w' -> wp (k tt) (Outcome Rej w0 a spec) w') ->
  wp (bind_ok (CheckRpcActive ctx) k) (Outcome Rej w0 a spec) w.
Proof.
  intros HR Hu Hk. destruct ctx as [c|]; [|by apply Hk].
  assert (Hos : forall (A : Type) (m : M os_t A) Q,
    (forall o w', unchanged w0 w' -> Q (m o).1 w') ->
    forall w1, unchanged w0 w1 -> wp (storage (on_os m)) Q w1).
  { intros A m Q HQ w1 Hu1. unfold wp, storage, on_os.
    specialize (HQ (st_os (c_storage w1))). destruct (m _) as [x o]. apply HQ.
    destruct Hu1 as (? & [? ?] & ? & ?). by repeat split. }
  unfold bind_ok, CheckRpcActive. apply wp_bind, wp_bind.
  assert (Hrest : forall w1, unchanged w0 w1 ->
    wp (let! cancelled := storage (on_os (os_IsCancelled c)) in
        if cancelled then fail CANCELLED "RPC cancelled" else ok tt)
       (fun r : Result unit => wp (match r with Ok x => k x | Err s => ret (Err s) end)
          (Outcome Rej w0 a spec)) w1).
  { intros w1 Hu1. apply wp_bind, Hos; [|done]. intros o w2 Hu2.
    destruct (os_IsCancelled c o).1 eqn:Ec; apply wp_ret; [|by apply Hk].
    apply wp_ret, Rejected; [|done]. apply HR. right. split; [done|by exists o]. }
  destruct (ctx_deadline c) as [dl|] eqn:Ed; [|by apply wp_ret, Hrest].
  apply wp_bind, Hos; [|done]. intros o w1 Hu1. apply wp_ret.
  destruct (Z.leb_spec dl (os_system_clock o).1); [|by apply Hrest].
  apply wp_ret, wp_ret, Rejected; [|done]. apply HR. left. split; [done|by exists dl, o].
Qed.

Lemma step_active ctx (k : unit -> RM CoreW B) spec w :
  (forall s, context_rejection s -> Rej s) -> unchanged w0 w ->
  (forall w', unchanged w0 w' -> wp (k tt) (Outcome Rej w0 a spec) w') ->
  wp (bind_ok (CheckRpcActive ctx) k) (Outcome Rej w0 a spec) w.
Proof. intros HR. apply step_active_of. intros s Hs. by eapply HR, inactive_rejection. Qed.

Lemma step_now (k : Z -> RM CoreW B) spec w :
  unchanged w0 w ->
  (forall w', unchanged w0 w' -> wp (k (now_ms w)) (Outcome Rej w0 a spec) w') ->
  wp (bind NowMs k) (Outcome Rej w0 a spec) w.
Proof.
  intros Hu Hk. apply wp_bind. unfold wp at 1, NowMs, bind, storage, on_os, ret.
  unfold now_ms, cos in Hk. destruct (os_system_clock _) as [n o]. cbn in Hk |- *. apply Hk.
  destruct Hu as (? & [? ?] & ? & ?). by repeat split.
Qed.

End Steps.

(** ** Committing *)

Lemma run_CommitBatch batch w Q :
  (forall w', cview w' = apply_batch batch (cview w) -> quiet w w' -> latch w' = latch w ->
     commit_generation w' = u64_add (commit_generation w) 1 -> on_disk_now w' -> Q (Ok tt) w') ->
  (forall s w', fault w s w' -> latch w' = latch (trip s w) ->
     (cview w' = cview w \/ cview w' = apply_batch batch (cview w)) ->
     disk_within w w' (eq (apply_batch batch (cview w))) -> Q (Err s) w') ->
  wp (CommitBatch cfg batch) Q w.
Proof using RS.
  intros Hok Hbad.
  assert (Hfail : forall st s', fatal_status s' -> reported s' ->
    st_fs st = st_fs (c_storage w) ->
    (view st = cview w \/ view st = apply_batch batch (cview w)) ->
    (forall x, disk st x -> cdisk w x \/ x = cview w \/ apply_batch batch (cview w) = x) ->
    wp (let! s := FatalStorageError cfg s' in ret (Err s)) Q
      (MkCoreW st (commit_generation w) (fatal_error_triggered w) (fatal_calls w) (c_sub w))).
  { intros st s' Hf Hc Hfs Hv Hd. unfold wp, bind. rewrite run_FatalStorageError. cbn.
    set (w1 := MkCoreW st _ _ _ _). assert (Hl : latch w1 = latch w) by done.
    assert (st_fs (c_storage w1) = st_fs (c_storage w) /\ c_sub w1 = c_sub w /\
            commit_generation w1 = commit_generation w) as (? & ? & ?) by done.
    destruct (trip_quiet s' w1) as ([? ?] & ? & Hv1). injection Hv1 as Hv1 Hd1.
    apply Hbad; [|by apply latch_trip|by rewrite Hv1|unfold disk_within; by rewrite Hd1].
    split_and!; [done|done|split; congruence|congruence|]. right. by apply latch_trip. }
  unfold CommitBatch. apply wp_bind. unfold storage, wp at 1. unfold Commit, bind, on_os, on_db.
  destruct (InjectStorageFault kBeforeCommit _) as [i1 o1] eqn:E1. cbn [st_os st_db st_fs].
  destruct (status_ok i1) eqn:Ei1; cbn [negb].
  2:{ unfold ret. cbn [requires_server_exit WithStorageDiagnostic Fatal].
      unfold status_ok in Ei1. apply bool_decide_eq_false in Ei1.
      apply Hfail; [done|split; [done|by eapply injection_fallible]|done|by left|by left]. }
  pose proof (Write_sync batch (st_db (c_storage w))) as Hw.
  destruct (db_Write _ batch _) as [st d'] eqn:E2. destruct (rocks_ok st) eqn:Est.
  2:{ destruct (RocksToStatus_fatal st "commit storage batch" Est) as [Hf Hc].
      unfold status_ok. rewrite bool_decide_eq_false_2 by done. cbn [negb]. unfold ret.
      destruct Hw as [Hw Hx]. rewrite Hf. apply Hfail; [done| |done|done|].
      - split; [done|]. apply (Fallible_write SynchronousWriteOptions batch (st_db (c_storage w))). by rewrite E2.
      - intros x [?|[?|?]]%Hx; auto. }
  destruct Hw as [Hw Hx].
  rewrite RocksToStatus_ok by done. change (status_ok StatusOk) with true.
  cbn [negb st_os st_db st_fs].
  destruct (InjectStorageFault kAfterCommit _) as [i2 o2] eqn:E3. cbn [st_os st_db st_fs].
  destruct (status_ok i2) eqn:Ei2.
  - unfold ok, ret, modify, wp, bind. apply Hok; done.
  - unfold ret. cbn [requires_server_exit WithStorageDiagnostic Fatal].
    unfold status_ok in Ei2. apply bool_decide_eq_false in Ei2.
    apply Hfail; [done|split; [done|by eapply injection_fallible]|done|by right|].
    intros x ->%Hx. right; right. symmetry. exact Hw.
Qed.

(** The commit that ends a handler: the batch takes [a] to the specified state. *)
Lemma step_commit {B} Rej w0 a a' (v : B) batch ops w :
  unchanged w0 w -> repr (cview w0) a -> Forall2 op_rep batch ops ->
  (forall k, key_ok k -> tapply ops (a_get a) k = a_get a' k) ->
  wp (do? CommitBatch cfg batch in ok v) (Outcome Rej w0 a (Ok (v, a'))) w.
Proof using RS.
  intros Hu Hr Hops Ha. pose proof Hu as (Hv & [Hq1 Hq2] & Hg & Hl). injection Hv as Hv Hd.
  assert (Hr' : repr (apply_batch batch (cview w)) a').
  { rewrite Hv. by eapply repr_batch. }
  unfold bind_ok. apply wp_bind, run_CommitBatch.
  - intros w' Hv' [? ?] Hl' Hg' Hx. apply wp_ret. eapply Served; [done|by rewrite Hv'| | |].
    + split; congruence.
    + congruence.
    + left. split; [congruence|done].
  - intros s w' Hf Hl' Hv' Hx. apply (latch_trip s) in Hl. apply wp_ret.
    apply Failed; [by eapply unchanged_fault| |].
    + destruct Hv' as [->|Hv']; [by left|]. right. exists v, a'. split_and!; [done|by rewrite Hv'|congruence].
    + right. exists v, a'. split_and!; [done|congruence|]. intros x Hd'. rewrite <- Hd, <- Hv.
      destruct (Hx x Hd') as [?|[?|<-]]; auto.
Qed.

Lemma step_commit_unit Rej w0 a a' batch ops w :
  unchanged w0 w -> repr (cview w0) a -> Forall2 op_rep batch ops ->
  (forall k, key_ok k -> tapply ops (a_get a) k = a_get a' k) ->
  wp (CommitBatch cfg batch) (Outcome Rej w0 a (Ok (tt, a'))) w.
Proof using RS.
  intros Hu Hr Hops Ha. pose proof (step_commit Rej w0 a a' tt batch ops w Hu Hr Hops Ha) as Hc.
  unfold wp, bind_ok, bind, ok, ret in *. by destruct (CommitBatch cfg batch w) as [[[]|] ?].
Qed.

End Refine.
