(* ===== verification/Handlers.v ===== *)
(** * The publishing handlers implement their specification

    From a database that represents a well-formed state, both forms of publishing
    end in one of the ways of [Outcome]; with the checks they share with the other
    handlers (authentication, the availability of a uuid, object capabilities). *)

From S2P Require Import Prelude Status Encoding Tokens Proto Json Platform Keys World FileStore.
From S2P Require Import Storage Core Commands Model Reads Spec SystemMessages Refine.

(** ** The first loop over the object keys *)

Lemma index_object_keys_ok keys ids indexes ids' indexes' :
  (forall id i, indexes !! id = Some i -> ids !! i = Some id) ->
  index_object_keys keys ids indexes = (ids', indexes') ->
  (forall id i, indexes' !! id = Some i -> ids' !! i = Some id) /\ indexes ⊆ indexes' /\
  (forall k, k ∈ keys -> is_Some (indexes' !! ok_object_id k)) /\
  (forall id, id ∈ ids' -> id ∈ ids \/ id ∈ ok_object_id <$> keys).
Proof.
  revert ids indexes. induction keys as [|k keys IH]; intros ids indexes Hinv; cbn [index_object_keys].
  { intros [= <- <-]. split_and!; [done|done|by intros ? ?%elem_of_nil|auto]. }
  destruct (indexes !! ok_object_id k) as [i|] eqn:E; intros Hrun.
  - destruct (IH _ _ Hinv Hrun) as (H1 & H2 & H3 & H4). split_and!; [done|done| |].
    2:{ intros id Hid. destruct (H4 id Hid); [by left|]. right. by right. }
    intros k' [->|Hk']%elem_of_cons; [|auto]. exists i. by eapply lookup_weaken.
  - edestruct IH as (H1 & H2 & H3 & H4); [|exact Hrun|].
    { intros id i [[<- <-]|[_ Hi]]%lookup_insert_Some.
      - by rewrite lookup_app_r, Nat.sub_diag by lia.
      - apply lookup_app_l_Some. auto. }
    split_and!; [done| | |].
    + etransitivity; [|exact H2]. by apply insert_subseteq.
    + intros k' [->|Hk']%elem_of_cons; [|auto]. exists (length ids).
      eapply lookup_weaken; [|exact H2]. apply lookup_insert_eq.
    + intros id Hid. destruct (H4 _ Hid) as [Hid'|?]; [|by right; right].
      apply elem_of_app in Hid' as [?| ->%list_elem_of_singleton]; [by left|]. right. by left.
Qed.

Section Handlers.
Context {R : RocksDB} {P : Protobuf} {F : PosixDir} {H : Host}.
Context {RS : RocksDBSpec} {PS : ProtobufSpec} {HS : HostSpec}.
Context (cfg : CoreConfig).

Lemma ConstantTimeEquals_spec s t : ConstantTimeEquals s t = bool_decide (s = t).
Proof using HS.
  unfold ConstantTimeEquals. destruct (Nat.eqb_spec (String.length s) (String.length t)) as [E|E].
  - cbn [negb]. apply eq_true_iff_eq. rewrite Z.eqb_eq, bool_decide_eq_true.
    by apply CRYPTO_memcmp_spec.
  - cbn [negb]. rewrite bool_decide_eq_false_2; [done|congruence].
Qed.

(** ** Shared checks *)

Section Snapshot.
Context (s : snap_t) (a : AState) (Hr : repr (snap_view s) a) (Hwf : WF a).

Lemma CReads_Authenticate p t :
  is_u64 p -> CReads cfg (Authenticate s p t) (spec_authenticate a p t).
Proof using Hr RS.
  intros Hp. unfold Authenticate, spec_authenticate.
  destruct (p =? 0); [apply CReads_ret|]. destruct (str_empty t); [apply CReads_ret|].
  change (if bool_decide ((p, t) ∈ a_tokens a) then Ok tt else Err _)
    with (rbind (Ok (bool_decide ((p, t) ∈ a_tokens a))) (fun b : bool =>
      if b then Ok tt else Err (mkStatus UNAUTHENTICATED "invalid token"))).
  apply CReads_bind; [by apply CReads_storage, Reads_HasToken|].
  intros [] _; apply CReads_ret.
Qed.

Lemma CReads_AvailableUuid u :
  is_u64 u -> CReads cfg (ValidateAvailableUuid s u) (spec_available_uuid a u).
Proof using Hr Hwf RS.
  intros Hu. unfold ValidateAvailableUuid, spec_available_uuid.
  destruct (u =? 0); [apply CReads_ret|].
  apply (CReads_bind cfg _ _ (Ok (a_next_uuid a)) (fun n => if n <=? u then _ else _));
    [by apply CReads_storage, Reads_NextUuid|].
  intros n [= <-]. destruct (a_next_uuid a <=? u); [apply CReads_ret|].
  apply (CReads_bind cfg _ _ (Ok (a_uuids a !! u))
    (fun o => match o with Some _ => _ | None => _ end));
    [by apply CReads_storage, Reads_UsedUuidSeq|].
  intros o [= <-]. destruct (a_uuids a !! u); apply CReads_ret.
Qed.

Lemma Reads_LoadChannel id : is_u64 id -> Reads (LoadChannel s id) (Ok (spec_channel a id)).
Proof using Hr Hwf RS.
  intros Hid. unfold LoadChannel, spec_channel. destruct (id =? 0); [apply Reads_ok|].
  by apply Reads_GetChannel.
Qed.

End Snapshot.

(** ** Object keys *)

(** The two loops over the keys check that each is a capability. *)
Lemma keys_match a keys ids indexes :
  index_object_keys keys [] ∅ = (ids, indexes) ->
  forallb (key_matches ((fun i => a_committed a !! i) <$> ids) indexes) keys =
  forallb (holds_capability a) keys.
Proof using HS.
  intros Hrun. destruct (index_object_keys_ok keys [] ∅ ids indexes) as (H1 & _ & H3 & _);
    [by intros ? ? ?%lookup_empty_Some|done|].
  apply eq_true_iff_eq. rewrite !forallb_forall.
  assert (E : forall k, k ∈ keys ->
    key_matches ((fun i => a_committed a !! i) <$> ids) indexes k = holds_capability a k).
  { intros k Hk. unfold key_matches, holds_capability. destruct (H3 k Hk) as [i Hi].
    rewrite Hi. simpl. rewrite list_lookup_fmap, (H1 _ _ Hi). simpl.
    destruct (a_committed a !! ok_object_id k); [|done]. apply ConstantTimeEquals_spec. }
  split; intros Hall k Hk; [rewrite <- E|rewrite E]; auto; by apply list_elem_of_In.
Qed.

(** ** Publishing *)

(** The batch a post writes, or why it does not. *)
Definition spec_build (a : AState) (m : EventMessage) : Result WriteBatch :=
  if em_channel_id m =? 0 then Err (mkStatus PERMISSION_DENIED "system channel is read-only")
  else
    match a_channels a !! em_channel_id m with
    | None => Err (mkStatus NOT_FOUND "channel not found")
    | Some c =>
        if negb (CanWrite c (em_principal m))
        then Err (mkStatus PERMISSION_DENIED "write permission denied")
        else
          rdo ValidateRecipients c (em_recipients m) in
          if negb (forallb (holds_capability a) (em_object_keys m))
          then Err (mkStatus NOT_FOUND "object capability not found")
          else
            rlet batch := PutMessage [] m in
            rlet batch := PutUsedUuid batch (em_uuid m) (em_seq m) in
            SetMaxSeq batch (em_seq m)
    end.

Lemma CReads_BuildPublishBatch s a principal channel_id seq uuid recipients payload keys ts :
  repr (snap_view s) a -> WF a -> is_u64 channel_id ->
  Forall (fun k => is_u64 (ok_object_id k)) keys ->
  CReads cfg (BuildPublishBatch cfg s principal channel_id seq uuid recipients payload keys ts)
    (spec_build a (MkEventMessage seq channel_id principal recipients payload ts uuid keys)).
Proof using HS RS.
  intros Hr Hwf Hc Hk. unfold BuildPublishBatch, spec_build.
  cbn [em_channel_id em_principal em_recipients em_object_keys em_uuid em_seq].
  destruct (channel_id =? 0) eqn:E0; [apply CReads_ret|].
  apply (CReads_bind cfg _ _ (Ok (a_channels a !! channel_id))
    (fun o => match o with Some _ => _ | None => _ end)).
  { apply CReads_storage. pose proof (Reads_LoadChannel s a Hr Hwf channel_id Hc) as Hl.
    unfold spec_channel in Hl. by rewrite E0 in Hl. }
  intros o [= <-]. destruct (a_channels a !! channel_id) as [c|]; [|apply CReads_ret].
  destruct (CanWrite c principal); [|apply CReads_ret]. cbn [negb].
  apply CReads_bind; [apply CReads_ret|]. intros [] _.
  destruct (index_object_keys keys [] ∅) as [ids indexes] eqn:Ei.
  eapply CReads_escalate.
  - apply Reads_GetCommittedObjects; [done..|].
    destruct (index_object_keys_ok keys [] ∅ ids indexes) as (_ & _ & _ & H4);
      [by intros ? ? ?%lookup_empty_Some|done|].
    apply Forall_forall. intros id Hid. destruct (H4 id Hid) as [?%elem_of_nil|Hin]; [done|].
    apply list_elem_of_fmap in Hin as (k & -> & Hin). by eapply Forall_forall in Hk.
  - done.
  - cbn beta iota. rewrite (keys_match a keys ids indexes Ei).
    destruct (forallb _ _); apply CReads_ret.
Qed.

Definition post_ops (m : EventMessage) : list (Key * option Val) :=
  [(KMessage (em_seq m), Some (VMessage m)); (KUuid (em_uuid m), Some (VU64 (em_seq m)));
   (KMaxSeq, Some (VU64 (em_seq m)))].

(** The three writes append the message. *)
Lemma tapply_post a m k :
  0 <= a_max_seq a -> em_seq m = a_max_seq a + 1 ->
  tapply (post_ops m) (a_get a) k = a_get (a_append a m) k.
Proof.
  intros H0 Hs. unfold tapply, post_ops, tset. cbn [fold_left fst snd].
  destruct k; repeat case_decide; simplify_eq/=; try done.
  all: rewrite ?a_max_seq_append, ?Hs, ?a_message_append; try done.
  - rewrite <- Hs. by rewrite lookup_insert_eq.
  - rewrite lookup_insert_ne by congruence. done.
  - by rewrite <- Hs, decide_True.
  - rewrite decide_False by congruence. done.
Qed.

Lemma holds_capability_text a keys :
  WF a -> forallb (holds_capability a) keys = true ->
  Forall (fun k => utf8_valid (ok_object_token k) = true) keys.
Proof.
  intros Hwf Hall. apply Forall_forall. intros k Hk.
  rewrite forallb_forall in Hall. specialize (Hall k (proj1 (list_elem_of_In _ _) Hk)).
  unfold holds_capability in Hall. destruct (a_committed a !! _) as [o|] eqn:E; [|done].
  apply bool_decide_eq_true in Hall. rewrite <- Hall.
  destruct (wf_committed _ Hwf _ _ E) as [(_ & Ht & _) _]. by apply utf8_token.
Qed.

Lemma spec_build_post a m :
  WF a -> em_seq m = u64_add (a_max_seq a) 1 -> is_u64 (em_uuid m) ->
  payload_text_ok (em_payload m) = true ->
  match spec_build a m with
  | Err e => spec_post a m = Err e \/
      (e = mkStatus INTERNAL "serialize message failed" /\ SerializeMessage m = None)
  | Ok batch => spec_post a m = Ok (a_append a m) /\ Forall2 op_rep batch (post_ops m) /\
                em_seq m = a_max_seq a + 1
  end.
Proof using PS.
  intros Hwf Hs Hu Hp. pose proof (wf_max_seq_nonneg _ Hwf) as H0.
  pose proof (wf_max_seq _ Hwf) as Hm. unfold is_u64 in Hm.
  unfold spec_build, spec_post. destruct (em_channel_id m =? 0); [by left|].
  destruct (a_channels a !! em_channel_id m) as [c|]; [|by left].
  destruct (negb (CanWrite c (em_principal m))); [by left|].
  destruct (ValidateRecipients c (em_recipients m)) as [[]|e]; [|by left]. cbn [rbind].
  destruct (forallb (holds_capability a) (em_object_keys m)) eqn:Ek; [|by left]. cbn [negb].
  unfold PutMessage, PutUsedUuid, SetMaxSeq. destruct (SerializeMessage m) as [bytes|] eqn:Eb.
  2:{ by right. }
  cbn [rbind]. destruct ((em_uuid m =? 0) || (em_seq m =? 0)) eqn:Ez; [by left|]. cbn [rbind].
  apply orb_false_iff in Ez as [Eu Es].
  assert (Hseq : em_seq m = a_max_seq a + 1 /\ is_u64 (em_seq m)).
  { rewrite Hs in Es |- *. destruct (decide (a_max_seq a = two64 - 1)) as [E|E].
    - by rewrite E in Es.
    - unfold is_u64. rewrite u64_add_small by lia. lia. }
  destruct Hseq as [Hseq Hsu]. split_and!; [done| |done].
  assert (Hparse : ParseMessage bytes = Some m).
  { apply (ParseMessage_Serialize m); [|done]. split; [done|]. by eapply holds_capability_text. }
  unfold post_ops. cbn [app]. repeat constructor; cbn; unfold is_u64 in *; try done; lia.
Qed.

(** What a request of this server can carry: 64-bit ids and text the schema allows. *)
Definition post_request_ok (principal channel_id uuid : Z) (payload : string)
    (keys : list ObjectKey) : Prop :=
  is_u64 principal /\ is_u64 channel_id /\ is_u64 uuid /\ payload_text_ok payload = true /\
  Forall (fun k => is_u64 (ok_object_id k)) keys.

Definition publish_rejection (s : Status) : Prop := context_rejection s \/ serialize_rejection s.

(** Why the post of this message under this context is rejected. *)
Definition post_rejection (context : option ServerContext) (m : EventMessage) (s : Status) : Prop :=
  inactive context s \/
  (s = mkStatus INTERNAL "serialize message failed" /\ SerializeMessage m = None).

Lemma post_rejection_publish context m s : post_rejection context m s -> publish_rejection s.
Proof. intros [Hs|[-> _]]; [left; by eapply inactive_rejection|right; by left]. Qed.

(** From the permission checks to the commit, shared by the two forms of publishing. *)
Lemma step_post {B} (v : B) (commit : WriteBatch -> RM CoreW B) s a m context w0 w :
  (forall batch ops w', unchanged w0 w' -> Forall2 op_rep batch ops ->
     (forall k, key_ok k -> tapply ops (a_get a) k = a_get (a_append a m) k) ->
     wp (commit batch) (Outcome cfg (post_rejection context m) w0 a (Ok (v, a_append a m))) w') ->
  repr (snap_view s) a -> WF a -> unchanged w0 w ->
  post_request_ok (em_principal m) (em_channel_id m) (em_uuid m) (em_payload m)
    (em_object_keys m) ->
  em_seq m = u64_add (a_max_seq a) 1 ->
  wp (let? batch := BuildPublishBatch cfg s (em_principal m) (em_channel_id m) (em_seq m)
                      (em_uuid m) (em_recipients m) (em_payload m) (em_object_keys m) (em_ts_ms m) in
      do? CheckRpcActive context in commit batch)
    (Outcome cfg (post_rejection context m) w0 a (rlet a' := spec_post a m in Ok (v, a'))) w.
Proof using HS PS RS.
  intros Hcommit Hr Hwf Hu (_ & Hc & Hid & Hp & Hk) Hs.
  pose proof (wf_max_seq_nonneg _ Hwf) as H0.
  pose proof (spec_build_post a m Hwf Hs Hid Hp) as Hb.
  eapply step_result; [by apply (CReads_BuildPublishBatch s a)|done| |].
  - destruct m. cbn in *. intros e E. rewrite E in Hb.
    destruct Hb as [->|Hb]; [by left|right; by right].
  - intros batch w1 E Hu1 _. destruct m. cbn in *. rewrite E in Hb.
    destruct Hb as (-> & Hops & Hseq). cbn [rbind].
    apply step_active_of; [by left|done|]. intros w2 Hu2. eapply Hcommit; [done|done|].
    intros k _. by apply tapply_post.
Qed.

(** The message a request asks to store. *)
Definition posted (req : PublishAutoSeqRequest) (w : CoreW) (a : AState) : EventMessage :=
  MkEventMessage (u64_add (a_max_seq a) 1) (pa_channel_id req) (pa_principal req) (pa_recipients req)
    (pa_payload req) (now_ms w) (pa_uuid req) (pa_object_keys req).

Lemma PublishAutoSeq_exact req context w a :
  fatal_error_triggered w = false -> repr (cview w) a -> WF a ->
  post_request_ok (pa_principal req) (pa_channel_id req) (pa_uuid req) (pa_payload req)
    (pa_object_keys req) ->
  wp (PublishAutoSeq cfg req context)
    (Outcome cfg (post_rejection context (posted req w a)) w a
       (spec_publish cfg (pa_principal req) (pa_token req) (pa_channel_id req) (pa_uuid req)
          (pa_recipients req) (pa_payload req) (pa_object_keys req) None (now_ms w) a)) w.
Proof using HS PS RS.
  intros Hav Hr Hwf Hreq. pose proof Hreq as (Hp & Hc & Hu & _). unfold PublishAutoSeq, spec_publish.
  apply step_available; [done|]. destruct (_ || _); [by apply step_refuse|].
  apply step_now; [done|]. intros w1 H1. apply step_active_of; [by left|done|]. intros w2 H2.
  apply step_snapshot; [done|]. intros s w3 Hs H3 _. rewrite <- Hs in Hr.
  apply step_check; [by apply CReads_Authenticate|done|]. intros _ w4 _ H4 _.
  apply step_check; [by apply CReads_AvailableUuid|done|]. intros _ w5 _ H5 _.
  apply step_pure; [done|]. intros _ _. apply step_pure; [done|]. intros _ _.
  eapply step_read; [by apply CReads_storage, Reads_MaxSeq|done|]. intros w6 H6 _.
  fold (posted req w a). cbv zeta.
  apply (step_post _ _ s a (posted req w a)); [|done..]. intros batch ops w7 H7 Hops Ha.
  eapply step_commit; [done|by rewrite <- Hs|done..].
Qed.

Lemma PublishAutoSeq_outcome req context w a :
  fatal_error_triggered w = false -> repr (cview w) a -> WF a ->
  post_request_ok (pa_principal req) (pa_channel_id req) (pa_uuid req) (pa_payload req)
    (pa_object_keys req) ->
  wp (PublishAutoSeq cfg req context)
    (Outcome cfg publish_rejection w a
       (spec_publish cfg (pa_principal req) (pa_token req) (pa_channel_id req) (pa_uuid req)
          (pa_recipients req) (pa_payload req) (pa_object_keys req) None (now_ms w) a)) w.
Proof using HS PS RS.
  intros Hav Hr Hwf Hreq. eapply wp_mono; [|by apply PublishAutoSeq_exact].
  intros r w'. apply Outcome_weaken, post_rejection_publish.
Qed.

(** The specification of [Publish], which returns nothing. *)
Definition drop_value {A B} (r : Result (A * B)) : Result (unit * B) :=
  rlet x := r in Ok (tt, x.2).

Lemma Publish_outcome req context w a :
  fatal_error_triggered w = false -> repr (cview w) a -> WF a ->
  post_request_ok (pr_principal req) (pr_channel_id req) (pr_uuid req) (pr_payload req)
    (pr_object_keys req) ->
  wp (Publish cfg req context)
    (Outcome cfg publish_rejection w a (drop_value
       (spec_publish cfg (pr_principal req) (pr_token req) (pr_channel_id req) (pr_uuid req)
          (pr_recipients req) (pr_payload req) (pr_object_keys req) (Some (pr_seq req))
          (now_ms w) a))) w.
Proof using HS PS RS.
  intros Hav Hr Hwf Hreq. set (m := MkEventMessage (pr_seq req) (pr_channel_id req) (pr_principal req)
    (pr_recipients req) (pr_payload req) (now_ms w) (pr_uuid req) (pr_object_keys req)).
  eapply (wp_mono _ (Outcome cfg (post_rejection context m) _ _ _)).
  { intros r w'. apply Outcome_weaken, post_rejection_publish. }
  pose proof Hreq as (Hp & Hc & Hu & _). unfold Publish, spec_publish.
  apply step_available; [done|]. destruct (_ || _); [by apply step_refuse|].
  apply step_now; [done|]. intros w1 H1. apply step_active_of; [by left|done|]. intros w2 H2.
  apply step_snapshot; [done|]. intros s w3 Hs H3 _. rewrite <- Hs in Hr.
  unfold drop_value. rewrite rbind_assoc.
  apply step_check; [by apply CReads_Authenticate|done|]. intros _ w4 _ H4 _. rewrite rbind_assoc.
  apply step_check; [by apply CReads_AvailableUuid|done|]. intros _ w5 _ H5 _. rewrite rbind_assoc.
  apply step_pure; [done|]. intros _ _. rewrite rbind_assoc.
  apply step_pure; [done|]. intros _ _.
  eapply step_read; [by apply CReads_storage, Reads_MaxSeq|done|]. intros w6 H6 _. cbv zeta.
  destruct (Z.eqb_spec (pr_seq req) (u64_add (a_max_seq a) 1)) as [E|E]; cbn [negb];
    [|by apply step_refuse].
  rewrite rbind_assoc. cbn [rbind snd]. rewrite <- E.
  apply (step_post tt (CommitBatch cfg) s a m); [|done..]. intros batch ops w7 H7 Hops Ha.
  eapply step_commit_unit; [done|by rewrite <- Hs|done..].
Qed.

End Handlers.
