(* ===== verification/ChannelHandlers.v ===== *)
(** * Channel, uuid and credential handlers implement their specifications *)

From S2P Require Import Prelude Status Encoding Tokens Proto Json Platform Keys World FileStore.
From S2P Require Import Storage Core Commands Model Reads Spec SystemMessages Refine Handlers.

(** ** Adding and removing one credential *)

Lemma elem_of_added `{Countable A} (x y : A) (t : gset A) : y <> x -> y ∈ t <-> y ∈ {[x]} ∪ t.
Proof. set_solver. Qed.

Lemma elem_of_removed `{Countable A} (x y : A) (t : gset A) : y <> x -> y ∈ t <-> y ∈ t ∖ {[x]}.
Proof. set_solver. Qed.

Lemma added_in `{Countable A} (x : A) (t : gset A) : x ∈ {[x]} ∪ t.
Proof. set_solver. Qed.

Lemma removed_out `{Countable A} (x : A) (t : gset A) : x ∉ t ∖ {[x]}.
Proof. set_solver. Qed.

Section ChannelHandlers.
Context {R : RocksDB} {P : Protobuf} {F : PosixDir} {H : Host}.
Context {RS : RocksDBSpec} {PS : ProtobufSpec} {HS : HostSpec}.
Context (cfg : CoreConfig).

(** ** Sequencing *)

Lemma wp_bind_ok_assoc {S A B C} (m : RM S A) (f : A -> RM S B) (g : B -> RM S C) Q w :
  wp (bind_ok m (fun x => bind_ok (f x) g)) Q w -> wp (bind_ok (bind_ok m f) g) Q w.
Proof. unfold wp, bind_ok, bind, ret. by destruct (m w) as [[]]. Qed.

Lemma wp_bind_assoc {S A B C} (m : M S A) (f : A -> RM S B) (g : B -> RM S C) Q w :
  wp (bind m (fun x => bind_ok (f x) g)) Q w -> wp (bind_ok (bind m f) g) Q w.
Proof. unfold wp, bind_ok, bind. by destruct (m w). Qed.

(** ** Changing a channel *)

(** The batch of a channel change, or why there is none. *)
Definition spec_mutation_batch (a : AState) (c : ChannelInfo) (payload : string) (ts_ms : Z)
    : Result WriteBatch :=
  let m := system_message a c payload ts_ms in
  rlet batch := PutChannel [] c in
  rlet batch := PutMessage batch m in
  rlet batch := PutUsedUuid batch (em_uuid m) (em_seq m) in
  rlet batch := SetMaxSeq batch (em_seq m) in
  SetNextUuid batch (u64_add (em_uuid m) 1).

Definition mutation_ops (c : ChannelInfo) (m : EventMessage) : list (Key * option Val) :=
  (KChannel (ci_channel_id c), Some (VChannel c)) :: post_ops m ++
  [(KNextUuid, Some (VU64 (u64_add (em_uuid m) 1)))].

Definition mutated (a : AState) (c : ChannelInfo) (m : EventMessage) : AState :=
  a_append (a_set_next_uuid (a_put_channel a c) (u64_add (em_uuid m) 1)) m.

Lemma tapply_mutation a c m k :
  0 <= a_max_seq a -> em_seq m = a_max_seq a + 1 ->
  tapply (mutation_ops c m) (a_get a) k = a_get (mutated a c m) k.
Proof.
  intros H0 Hs. unfold mutation_ops, tapply. cbn [fold_left fst snd app].
  rewrite fold_left_app. cbn [fold_left fst snd].
  change (tset (tapply (post_ops m) (tset (a_get a) (KChannel (ci_channel_id c)) (Some (VChannel c))))
    KNextUuid (Some (VU64 (u64_add (em_uuid m) 1))) k = a_get (mutated a c m) k).
  assert (E : forall k', tset (a_get a) (KChannel (ci_channel_id c)) (Some (VChannel c)) k' =
    a_get (a_put_channel a c) k').
  { intros k'. unfold tset. case_decide as Ek; [subst k'; cbn; by rewrite lookup_insert_eq|].
    destruct k'; try done. cbn. by rewrite lookup_insert_ne by congruence. }
  assert (E2 : forall f g k', (forall x, f x = g x) -> tapply (post_ops m) f k' = tapply (post_ops m) g k').
  { intros f g k' Hfg. unfold tapply, post_ops, tset. cbn. by repeat case_decide. }
  unfold tset at 1. case_decide as Ek; [by subst k|].
  rewrite (E2 _ _ k E), tapply_post by done. by destruct k.
Qed.

Lemma spec_mutation_batch_ok a c payload ts :
  WF a -> is_u64 (ci_channel_id c) -> channel_text_ok c -> utf8_valid payload = true ->
  let m := system_message a c payload ts in
  match spec_mutation_batch a c payload ts with
  | Err e => spec_mutation a c payload ts = Err e \/ serialize_rejection e
  | Ok batch => spec_mutation a c payload ts = Ok (mutated a c m) /\
                Forall2 op_rep batch (mutation_ops c m) /\ em_seq m = a_max_seq a + 1
  end.
Proof using PS.
  intros Hwf Hid Hc Hp m. pose proof (wf_max_seq_nonneg _ Hwf) as H0.
  pose proof (wf_max_seq _ Hwf) as Hm. pose proof (wf_next_uuid _ Hwf) as Hn. unfold is_u64 in *.
  unfold spec_mutation_batch, spec_mutation, PutChannel, PutMessage, PutUsedUuid, SetMaxSeq, SetNextUuid.
  fold m. destruct (SerializeChannel c) as [cb|] eqn:Ec; [|right; by right]. cbn [rbind].
  destruct (SerializeMessage m) as [mb|] eqn:Em; [|right; by left]. cbn [rbind].
  destruct ((em_uuid m =? 0) || (em_seq m =? 0)) eqn:Ez; [by left|]. cbn [rbind].
  destruct (u64_add (em_uuid m) 1 =? 0) eqn:E1; [by left|]. cbn [rbind].
  apply orb_false_iff in Ez as [Eu Es].
  assert (Hseq : em_seq m = a_max_seq a + 1 /\ is_u64 (em_seq m)).
  { unfold m, system_message in Es |- *. cbn [em_seq] in *.
    destruct (decide (a_max_seq a = two64 - 1)) as [E|E].
    - by rewrite E in Es.
    - unfold is_u64. rewrite u64_add_small by lia. lia. }
  destruct Hseq as [Hseq Hsu]. split_and!; [done| |done].
  assert (Hpm : ParseMessage mb = Some m).
  { apply (ParseMessage_Serialize m); [|done]. split; [by apply payload_text_utf8|constructor]. }
  assert (Hpc : ParseChannel cb = Some c) by by apply ParseChannel_Serialize.
  pose proof (u64_add_is_u64 (em_uuid m) 1).
  unfold mutation_ops, post_ops. cbn [app].
  assert (is_u64 (em_uuid m)) by (unfold is_u64; cbn; lia).
  solve_ops.
Qed.

(** [BuildChannelMutationBatch] and what follows it. *)
Lemma step_mutation {B} (k : WriteBatch -> RM CoreW B) spec s a c payload w0 w :
  repr (snap_view s) a -> unchanged w0 w ->
  (forall e, spec_mutation_batch a c payload (now_ms w) = Err e ->
     spec = Err e \/ serialize_rejection e) ->
  (forall batch w', spec_mutation_batch a c payload (now_ms w) = Ok batch -> unchanged w0 w' ->
     wp (k batch) (Outcome cfg serialize_rejection w0 a spec) w') ->
  wp (bind_ok (BuildChannelMutationBatch s c payload) k)
    (Outcome cfg serialize_rejection w0 a spec) w.
Proof using RS.
  intros Hr Hu He Hk. unfold BuildChannelMutationBatch.
  apply wp_bind_ok_assoc. eapply step_read; [by apply CReads_storage, Reads_MaxSeq|done|].
  intros w1 H1 O1. apply wp_bind_ok_assoc.
  eapply step_read; [by apply CReads_storage, Reads_NextUuid|done|]. intros w2 H2 O2.
  apply wp_bind_assoc, step_now; [done|]. intros w3 H3.
  replace (now_ms w2) with (now_ms w) by (unfold now_ms; congruence).
  eapply step_result; [apply CReads_ret|done|exact He|]. intros batch w4 E H4 _. by apply Hk.
Qed.

(** A change of a channel's record and its announcement, committed at the end. *)
Lemma step_mutation_commit s a c payload w0 w :
  repr (snap_view s) a -> repr (cview w0) a -> WF a -> unchanged w0 w -> now_ms w = now_ms w0 ->
  is_u64 (ci_channel_id c) -> channel_text_ok c -> utf8_valid payload = true ->
  wp (let? batch := BuildChannelMutationBatch s c payload in CommitBatch cfg batch)
    (Outcome cfg serialize_rejection w0 a
       (rlet a' := spec_mutation a c payload (now_ms w0) in Ok (tt, a'))) w.
Proof using PS RS.
  intros Hr Hr0 Hwf Hu Hnow Hid Hc Hp. pose proof (wf_max_seq_nonneg _ Hwf) as H0.
  pose proof (spec_mutation_batch_ok a c payload (now_ms w0) Hwf Hid Hc Hp) as Hb. cbv zeta in Hb.
  apply (step_mutation _ _ s a); [done|done| |]; rewrite Hnow.
  - intros e E. rewrite E in Hb. destruct Hb as [->|?]; [by left|by right].
  - intros batch w1 E H1. rewrite E in Hb. destruct Hb as (-> & Hops & Hseq). cbn [rbind].
    eapply step_commit_unit; [done..|]. intros k _. by apply tapply_mutation.
Qed.

Lemma now_ms_cos w w' : cos w' = cos w -> now_ms w' = now_ms w.
Proof. unfold now_ms. by intros ->. Qed.

(** ** Creating a channel *)

Lemma add_new_members_in seen members requested x :
  x ∈ add_new_members seen members requested -> x ∈ members \/ x ∈ requested.
Proof.
  revert seen members. induction requested as [|r requested IH]; intros seen members; cbn; [auto|].
  case_bool_decide; intros Hx; apply IH in Hx as [Hx|Hx]; auto.
  - right. by right.
  - apply elem_of_app in Hx as [Hx|Hx%list_elem_of_singleton]; [by left|]. right. subst. by left.
  - right. by right.
Qed.

Lemma add_new_members_prefix seen members requested :
  members `prefix_of` add_new_members seen members requested.
Proof.
  revert seen members. induction requested as [|r requested IH]; intros seen members; cbn; [done|].
  case_bool_decide; [done|]. etransitivity; [|apply IH]. by apply prefix_app_r.
Qed.

(** The 64-bit ids and the text a request carries. *)
Definition create_request_ok (req : CreateChannelRequest) : Prop :=
  is_u64 (cr_principal req) /\ Forall is_u64 (cr_members req) /\
  utf8_valid (cr_name req) = true /\ utf8_valid (cr_protocol req) = true /\
  utf8_valid (cr_description req) = true.

Lemma created_channel_values req id :
  create_request_ok req -> invalid_channel_parameters req = false ->
  channel_values_ok (created_channel req id).
Proof.
  intros (Hp & Hm & Hn & Hpr & Hd) Hv. unfold invalid_channel_parameters in Hv.
  repeat apply orb_false_iff in Hv as [Hv ?].
  assert (Hz : 0 < cr_principal req) by (unfold is_u64 in Hp; lia).
  unfold Contains in *. apply bool_decide_eq_false in H5.
  split_and!; cbn; try done; [apply Hp| |].
  - destruct (add_new_members_prefix {[cr_principal req]} [cr_principal req] (cr_members req)) as [l E].
    by rewrite E.
  - apply Forall_forall. intros x [->%list_elem_of_singleton|Hx]%add_new_members_in.
    + unfold is_u64 in Hp. lia.
    + eapply Forall_forall in Hm; [|done]. unfold is_u64 in Hm.
      destruct (decide (x = 0)) as [->|]; [done|lia].
Qed.

Lemma CreateChannel_outcome req w a :
  fatal_error_triggered w = false -> repr (cview w) a -> WF a -> create_request_ok req ->
  wp (CreateChannel cfg req)
    (Outcome cfg serialize_rejection w a (spec_create_channel req (now_ms w) a)) w.
Proof using PS RS.
  intros Hav Hr Hwf Hreq. unfold CreateChannel, spec_create_channel.
  apply step_available; [done|].
  destruct (invalid_channel_parameters req) eqn:Ev; [by apply step_refuse|].
  apply step_pure; [done|]. intros _ _.
  apply step_snapshot; [done|]. intros s w1 Hs H1 O1. pose proof Hr as Hrs. rewrite <- Hs in Hrs.
  apply step_check; [apply CReads_Authenticate; [done|apply Hreq]|done|]. intros _ w2 _ H2 O2.
  cbv zeta. cbn [ci_members created_channel]. destruct (_ <? _); [by apply step_refuse|].
  eapply step_read; [by apply CReads_storage, Reads_NextChannelId|done|]. intros w3 H3 O3.
  change (MkChannelInfo _ _ _ _ _ _ _) with (created_channel req (a_next_channel a)).
  set (c := created_channel req (a_next_channel a)).
  pose proof (created_channel_values req (a_next_channel a) Hreq Ev) as Hc. fold c in Hc.
  assert (Hid : is_u64 (ci_channel_id c)).
  { pose proof (wf_next_channel _ Hwf). unfold is_u64. cbn. lia. }
  pose proof (spec_mutation_batch_ok a c (ChannelInitializedPayload c) (now_ms w) Hwf Hid
    (proj1 Hc) (utf8_ChannelInitializedPayload c Hc)) as Hb. cbv zeta in Hb.
  apply (step_mutation _ _ s a); [done|done| |];
    replace (now_ms w3) with (now_ms w) by (apply now_ms_cos; congruence).
  - intros e E. rewrite E in Hb. destruct Hb as [->|?]; [by left|by right].
  - intros batch w4 E H4. rewrite E in Hb. destruct Hb as (-> & Hops & Hseq). cbn [rbind].
    apply (step_pure _ _ _ _ (Ok _) _ (fun _ => _)); [done|]. intros batch' [= <-].
    pose proof (wf_max_seq_nonneg _ Hwf) as H0.
    pose proof (u64_add_is_u64 (a_next_channel a) 1).
    eapply (step_commit _ _ _ _ _ _ _
      (_ ++ [(KNextChannel, Some (VU64 (u64_add (a_next_channel a) 1)))])); [done|done| |].
    + apply Forall2_app; [exact Hops|solve_ops].
    + intros k _. unfold tapply. rewrite fold_left_app.
      change (tset (tapply (mutation_ops c (system_message a c (ChannelInitializedPayload c) (now_ms w)))
        (a_get a)) KNextChannel (Some (VU64 (u64_add (a_next_channel a) 1))) k = a_get (a_set_next_channel
        (mutated a c (system_message a c (ChannelInitializedPayload c) (now_ms w)))
          (u64_add (a_next_channel a) 1)) k).
      unfold tset. case_decide as Ek; [by subst k|]. rewrite tapply_mutation by done. by destruct k.
Qed.

(** ** Members *)

Definition member_request_ok (req : MemberRequest) : Prop :=
  is_u64 (mr_principal req) /\ is_u64 (mr_channel_id req) /\ is_u64 (mr_target_principal req).

Lemma wf_channel_text a id c : WF a -> a_channels a !! id = Some c -> channel_text_ok c.
Proof. intros Hwf E. by destruct (wf_channels _ Hwf _ _ E) as [(_ & _ & ? & _) _]. Qed.

Lemma wf_channel_id a id c :
  WF a -> a_channels a !! id = Some c -> ci_channel_id c = id /\ is_u64 (ci_channel_id c).
Proof.
  intros Hwf E. destruct (wf_channels _ Hwf _ _ E) as [(-> & _) ?].
  pose proof (wf_next_channel _ Hwf). unfold is_u64. split; [done|lia].
Qed.

(** The checks [AddMember] and [RemoveMember] share. *)
Lemma step_owned_channel {B} (k : ChannelInfo -> snap_t -> RM CoreW B) k' denied req w a :
  fatal_error_triggered w = false -> repr (cview w) a -> WF a -> member_request_ok req ->
  (forall s c w', snap_view s = cview w -> repr (snap_view s) a -> unchanged w w' ->
     now_ms w' = now_ms w -> a_channels a !! mr_channel_id req = Some c ->
     0 < mr_target_principal req < two64 ->
     wp (k c s) (Outcome cfg serialize_rejection w a (k' c)) w') ->
  wp (do? EnsureAvailable in
      if (mr_principal req =? 0) || (mr_target_principal req =? 0)
      then fail INVALID_ARGUMENT "principals must be greater than 0"
      else
        let? snapshot := storage CreateSnapshot in
        do? Authenticate snapshot (mr_principal req) (mr_token req) in
        if mr_channel_id req =? 0
        then fail PERMISSION_DENIED "system channel cannot be modified"
        else
          let? channel := storage (LoadChannel snapshot (mr_channel_id req)) in
          match channel with
          | None => fail NOT_FOUND "channel not found"
          | Some channel =>
              if negb (has_creator channel) || negb (creator channel =? mr_principal req)
              then fail PERMISSION_DENIED denied
              else k channel snapshot
          end)
    (Outcome cfg serialize_rejection w a (rlet c := spec_owned_channel req denied a in k' c)) w.
Proof using RS.
  intros Hav Hr Hwf (Hp & Hid & Ht) Hk. unfold spec_owned_channel.
  apply step_available; [done|].
  destruct (_ || (mr_target_principal req =? 0)) eqn:Et; [by apply step_refuse|].
  assert (0 < mr_target_principal req < two64).
  { apply orb_false_iff in Et as [_ Et%Z.eqb_neq]. unfold is_u64 in Ht. lia. }
  apply step_snapshot; [done|]. intros s w1 Hs H1 O1. pose proof Hr as Hrs. rewrite <- Hs in Hrs.
  rewrite rbind_assoc. apply step_check; [by apply CReads_Authenticate|done|]. intros _ w2 _ H2 O2.
  destruct (mr_channel_id req =? 0) eqn:E0; [by apply step_refuse|].
  eapply step_read; [by apply CReads_storage, (Reads_LoadChannel _ a)|done|]. intros w3 H3 O3.
  unfold spec_channel. rewrite E0.
  destruct (a_channels a !! mr_channel_id req) as [c|] eqn:Ec; [|by apply step_refuse].
  destruct (negb (has_creator c) || _); [by apply step_refuse|]. cbn [rbind].
  apply Hk; [done..| |done|done]. apply now_ms_cos. congruence.
Qed.

Lemma AddMember_outcome req w a :
  fatal_error_triggered w = false -> repr (cview w) a -> WF a -> member_request_ok req ->
  wp (AddMember cfg req)
    (Outcome cfg serialize_rejection w a (spec_add_member req (now_ms w) a)) w.
Proof using PS RS.
  intros Hav Hr Hwf Hreq. unfold AddMember, spec_add_member.
  apply (step_owned_channel (fun channel snapshot =>
    if IsMember channel (mr_target_principal req) then _ else _)); [done..|].
  intros s c w1 Hs Hrs H1 Hnow Hc Ht. destruct (wf_channel_id _ _ _ Hwf Hc) as [_ Hid].
  destruct (IsMember c (mr_target_principal req)); [by apply step_refuse|].
  destruct (_ <=? _); [by apply step_refuse|].
  apply (step_mutation_commit s); try done.
  - by apply (wf_channel_text a) in Hc.
  - apply utf8_MemberChangedPayload; [by left|lia].
Qed.

Lemma RemoveMember_outcome req w a :
  fatal_error_triggered w = false -> repr (cview w) a -> WF a -> member_request_ok req ->
  wp (RemoveMember cfg req)
    (Outcome cfg serialize_rejection w a (spec_remove_member req (now_ms w) a)) w.
Proof using PS RS.
  intros Hav Hr Hwf Hreq. unfold RemoveMember, spec_remove_member.
  apply (step_owned_channel (fun channel snapshot =>
    if mr_target_principal req =? creator channel then _ else _)); [done..|].
  intros s c w1 Hs Hrs H1 Hnow Hc Ht. destruct (wf_channel_id _ _ _ Hwf Hc) as [_ Hid].
  destruct (mr_target_principal req =? creator c); [by apply step_refuse|].
  destruct (negb (Contains _ _)).
  - apply wp_ret. destruct H1 as (Hv & Hq & Hg & Hl). injection Hv as Hv Hd.
    eapply Served; [done|by rewrite Hv|done|done|by right].
  - apply (step_mutation_commit s); try done.
    + by apply (wf_channel_text a) in Hc.
    + apply utf8_MemberChangedPayload; [by right|lia].
Qed.

(** ** UUIDs *)

Lemma AllocateUuids_outcome count w a :
  fatal_error_triggered w = false -> repr (cview w) a -> WF a ->
  wp (AllocateUuids cfg count) (Outcome cfg (fun _ => False) w a (spec_allocate count a)) w.
Proof using RS.
  intros Hav Hr Hwf. unfold AllocateUuids, spec_allocate.
  apply step_available; [done|]. destruct (_ || _); [by apply step_refuse|].
  apply step_snapshot; [done|]. intros s w1 Hs H1 _. pose proof Hr as Hrs. rewrite <- Hs in Hrs.
  eapply step_read; [by apply CReads_storage, Reads_NextUuid|done|]. intros w2 H2 _. cbv zeta.
  unfold SetNextUuid. pose proof (u64_add_is_u64 (a_next_uuid a) count) as Hu.
  destruct (u64_add (a_next_uuid a) count =? 0); [by apply wp_ret, Refused|].
  apply (step_pure _ _ _ _ (Ok _) _ (fun _ => _)); [done|]. intros batch [= <-].
  eapply (step_commit _ _ _ _ _ _ _ [(KNextUuid, Some (VU64 (u64_add (a_next_uuid a) count)))]);
    [done|done|solve_ops|].
  intros k _. unfold tapply, tset. cbn [fold_left fst snd].
  case_decide as E; [by subst k|by destruct k].
Qed.

(** ** Random credentials *)

Definition random_rejection (s : Status) : Prop :=
  exists error, error <> EINTR /\ s = mkStatus INTERNAL ("getrandom failed: " +:+ strerror error).

(** The fuel is enough: every call delivers a byte, fails, or uses up an interruption. *)
Lemma wp_fill_random fuel want filled o :
  (want - length filled + os_getrandom_tries o <= fuel)%nat ->
  (length filled <= want)%nat -> Forall is_byte filled ->
  wp (fill_random fuel want filled) (fun r _ =>
    match r with
    | Ok bytes => length bytes = want /\ Forall is_byte bytes
    | Err s => random_rejection s
    end) o.
Proof using HS.
  revert filled o. induction fuel as [|fuel IH]; intros filled o Hfuel Hlen Hb; cbn [fill_random].
  - rewrite (proj2 (Nat.leb_le want (length filled))) by lia. apply wp_ret. split; [lia|done].
  - destruct (Nat.leb_spec want (length filled)); [apply wp_ret; split; [lia|done]|].
    apply wp_bind. unfold wp at 1. pose proof (getrandom_spec (want - length filled) o) as Hg.
    destruct (os_getrandom _ o) as [[error|bytes] o']; specialize (Hg ltac:(lia)).
    + destruct (Z.eqb_spec error EINTR) as [->|Hne].
      * apply IH; [|lia|done]. specialize (Hg eq_refl). lia.
      * apply wp_ret. by exists error.
    + destruct Hg as (Hl & Hby & Ht). apply IH; [|rewrite length_app; lia|by apply Forall_app].
      rewrite length_app. lia.
Qed.

Lemma step_random {B} want (k : list Z -> RM CoreW B) Q w :
  (forall s w', unchanged w w' -> random_rejection s -> Q (Err s) w') ->
  (forall bytes w', unchanged w w' -> length bytes = want -> Forall is_byte bytes ->
     wp (k bytes) Q w') ->
  wp (bind_ok (storage (on_os (random_bytes want))) k) Q w.
Proof using HS.
  intros Hbad Hk. unfold bind_ok. apply wp_bind.
  pose proof (wp_fill_random (want + os_getrandom_tries (cos w)) want [] (cos w)) as Hf.
  cbn [length] in Hf. specialize (Hf ltac:(lia) ltac:(lia) ltac:(constructor)).
  unfold wp at 1, storage, on_os, random_bytes. unfold bind at 1, get. unfold wp in Hf.
  change (st_os (c_storage w)) with (cos w).
  destruct (fill_random _ _ _ _) as [[bytes|s] o].
  - apply Hk; [by repeat split|apply Hf|apply Hf].
  - apply Hbad; [by repeat split|done].
Qed.

(** ** Credentials *)

Lemma AddToken_outcome principal w a :
  fatal_error_triggered w = false -> repr (cview w) a -> WF a -> is_u64 principal ->
  wp (AddToken cfg principal) (fun r w' => exists bytes,
    length bytes = 16%nat /\ Forall is_byte bytes /\
    Outcome cfg random_rejection w a (spec_add_token principal (format_token bytes) a) r w') w.
Proof using HS RS.
  intros Hav Hr Hwf Hp. unfold AddToken, spec_add_token, GenerateToken.
  assert (Hz : length (replicate 16 0) = 16%nat /\ Forall is_byte (replicate 16 0)).
  { split; [done|]. by repeat constructor. }
  apply step_available; [done|].
  destruct (principal =? 0).
  { apply wp_ret. exists (replicate 16 0). split_and!; [apply Hz..|]. by apply Refused. }
  apply wp_bind_ok_assoc, step_random.
  - intros s w' Hu Hs. exists (replicate 16 0). split_and!; [apply Hz..|]. by apply Rejected.
  - intros bytes w1 Hu Hlen Hb. eapply wp_mono; [intros r w' Hout; exists bytes; split_and!; [done|done|exact Hout]|].
    unfold PutToken. cbn [app].
    eapply (step_commit _ _ _ _ _ _ _ [(KToken principal (format_token bytes), Some VUnit)]);
      [done|done|solve_ops|].
    intros k _. unfold tapply, tset. cbn [fold_left fst snd].
    case_decide as E; [subst k; cbn; by rewrite decide_True by apply added_in|].
    destruct k; try done. cbn. apply decide_ext, elem_of_added. congruence.
Qed.

Lemma DeleteToken_outcome principal token w a :
  fatal_error_triggered w = false -> repr (cview w) a -> WF a -> is_u64 principal ->
  wp (CoreDeleteToken cfg principal token)
    (Outcome cfg (fun _ => False) w a (spec_delete_token principal token a)) w.
Proof using RS.
  intros Hav Hr Hwf Hp. unfold CoreDeleteToken, spec_delete_token.
  apply step_available; [done|]. destruct (_ || _); [by apply step_refuse|].
  eapply (step_commit_unit _ _ _ _ _ _ [(KToken principal token, None)]); [done|done|solve_ops|].
  intros k _. unfold tapply, tset. cbn [fold_left fst snd].
  case_decide as E; [subst k; cbn; by rewrite decide_False by apply removed_out|].
  destruct k; try done. cbn. apply decide_ext, elem_of_removed. congruence.
Qed.

End ChannelHandlers.
