(* ===== verification/Invariant.v ===== *)
(** * Every specified operation preserves the invariant

    [WF] holds of a new storage root and is preserved by each operation, as long
    as the counters have room: the code lets the uuid, channel and object counters
    wrap at 2^64 ([Room]); the sequence number alone is guarded. *)

From S2P Require Import Prelude Status Encoding Tokens Proto Json Platform Keys World FileStore.
From S2P Require Import Storage Core Commands Model Spec SystemMessages Handlers ChannelHandlers.

(** The counters are not about to wrap. *)
Definition Room (a : AState) : Prop :=
  a_next_uuid a + kMaxUuidBatch < two64 /\ a_next_channel a + 1 < two64 /\
  a_next_object a + 1 < two64.

#[export] Instance Room_dec a : Decision (Room a).
Proof. unfold Room. apply _. Defined.

(** Members after a removal. *)
Lemma remove_first_sublist l x : remove_first l x `sublist_of` l.
Proof.
  induction l as [|y l IH]; cbn; [done|]. destruct (y =? x); [by apply sublist_cons|].
  by apply sublist_skip.
Qed.

Lemma remove_first_keeps l x y : y ∈ l -> y <> x -> y ∈ remove_first l x.
Proof.
  intros Hy Hne. induction l as [|z l IH]; cbn; [by apply elem_of_nil in Hy|].
  apply elem_of_cons in Hy. destruct (Z.eqb_spec z x) as [->|]; [by destruct Hy|].
  apply elem_of_cons. destruct Hy as [->|]; auto.
Qed.

Lemma remove_first_gone l x : NoDup l -> x ∉ remove_first l x.
Proof.
  induction 1 as [|y l Hy Hnd IH]; cbn; [by intros ?%elem_of_nil|].
  destruct (Z.eqb_spec y x) as [->|]; [done|]. by intros [->|?]%elem_of_cons.
Qed.

(** Members of a new channel: distinct, whatever the request repeats. *)
Lemma add_new_members_keeps seen members requested x :
  (forall y, y ∈ seen -> y ∈ members) -> x ∈ members \/ x ∈ requested ->
  x ∈ add_new_members seen members requested.
Proof.
  revert seen members. induction requested as [|m requested IH]; intros seen members Hs Hx; cbn.
  { destruct Hx as [?|?%elem_of_nil]; done. }
  rewrite elem_of_cons in Hx. case_bool_decide as Hm; apply IH.
  - done.
  - destruct Hx as [?|[->|?]]; auto.
  - intros y [->%elem_of_singleton|Hy]%elem_of_union; apply elem_of_app; [right; by left|auto].
  - rewrite elem_of_app, list_elem_of_singleton. naive_solver.
Qed.

(** The members of a new channel: its creator and those requested. *)
Lemma add_new_members_elem creator requested x :
  x ∈ add_new_members {[creator]} [creator] requested <-> x = creator \/ x ∈ requested.
Proof.
  rewrite <- (list_elem_of_singleton x creator). split.
  - apply add_new_members_in.
  - apply add_new_members_keeps. intros y ->%elem_of_singleton. by left.
Qed.

Lemma add_new_members_nodup seen members requested :
  (forall x, x ∈ members -> x ∈ seen) -> NoDup members ->
  NoDup (add_new_members seen members requested).
Proof.
  revert seen members. induction requested as [|r requested IH]; intros seen members Hs Hnd; cbn; [done|].
  case_bool_decide as Hr; [by apply IH|]. apply IH.
  - intros x [?| ->%list_elem_of_singleton]%elem_of_app; [|by apply elem_of_union_l, elem_of_singleton].
    by apply elem_of_union_r, Hs.
  - apply NoDup_app. split_and!; [done| |by repeat constructor; intros ?%elem_of_nil].
    intros x Hx ->%list_elem_of_singleton. by apply Hr, Hs.
Qed.

Section Invariant.
Context {R : RocksDB} {P : Protobuf} {F : PosixDir} {H : Host}.
Context {PS : ProtobufSpec}.
Context (cfg : CoreConfig).

Lemma WF_initial event_ms : WF (initial_state event_ms).
Proof using PS.
  constructor; cbn; try done.
  - intros [|i] m [= <-]. split_and!; [done| | |by left|done|done].
    + unfold invalid_reserved_fields. cbn [Z.eqb]. change (Z.of_nat 0 =? 0) with true. cbn iota.
      apply negb_false_iff, valid_initialization.
    + done.
  - intros u s. split.
    + intros [<- <-]%lookup_singleton_Some. by exists (InitializationMessage event_ms).
    + intros (m & [Hs Hm]%a_message_Some & <-). cbn in Hm.
      apply list_lookup_singleton_Some in Hm as [Hs0 <-].
      replace s with 0 by lia. apply lookup_singleton_eq.
Qed.

(** A uuid not yet handed out is not used. *)
Lemma wf_uuid_fresh a u : WF a -> a_next_uuid a <= u -> a_uuids a !! u = None.
Proof.
  intros Hwf Hu. destruct (a_uuids a !! u) as [s|] eqn:E; [|done].
  apply (wf_uuids _ Hwf) in E as (m & Hm & <-).
  destruct (wf_message _ _ _ Hwf Hm) as (_ & _ & _ & _ & ?). lia.
Qed.

Lemma WF_allocate count a uuids a' :
  WF a -> Room a -> 0 <= count -> spec_allocate count a = Ok (uuids, a') -> WF a'.
Proof.
  intros Hwf (Hroom & _) Hc. unfold spec_allocate. destruct (_ || _) eqn:E; [done|].
  apply orb_false_iff in E as [_ Hb]. pose proof (wf_next_uuid _ Hwf).
  rewrite u64_add_small by lia. destruct (_ =? 0); [done|]. intros [= _ <-].
  apply WF_set_next_uuid; [done|lia].
Qed.

(** ** Publishing *)

Lemma keys_references a m :
  WF a -> ValidateObjectKeysShape (em_object_keys m) = Ok tt ->
  forallb (holds_capability a) (em_object_keys m) = true -> invalid_object_references m = false.
Proof.
  intros Hwf Hs Hk. unfold ValidateObjectKeysShape in Hs. unfold invalid_object_references.
  destruct (_ <? _); [done|]. cbn [orb].
  destruct (existsb _ (em_object_keys m)) eqn:E in Hs; [done|].
  apply not_true_is_false. intros (k & Hin & Hbad)%existsb_exists.
  rewrite forallb_forall in Hk. specialize (Hk k Hin). unfold holds_capability in Hk.
  destruct (a_committed a !! ok_object_id k) as [o|] eqn:Eo; [|done].
  apply bool_decide_eq_true in Hk. destruct (wf_committed _ Hwf _ _ Eo) as [(_ & Ht & _) Hid].
  rewrite Hk in Ht. rewrite Ht in Hbad. cbn in Hbad. rewrite orb_false_r in Hbad. lia.
Qed.

Lemma spec_available_uuid_ok a u :
  spec_available_uuid a u = Ok tt -> u <> 0 /\ u < a_next_uuid a /\ a_uuids a !! u = None.
Proof.
  unfold spec_available_uuid. destruct (Z.eqb_spec u 0); [done|].
  destruct (Z.leb_spec (a_next_uuid a) u); [done|]. by destruct (a_uuids a !! u).
Qed.

(** What a post that succeeds was checked for. *)
Lemma spec_post_ok a m a' :
  spec_post a m = Ok a' ->
  exists c, a_channels a !! em_channel_id m = Some c /\ em_channel_id m <> 0 /\
    CanWrite c (em_principal m) = true /\ ValidateRecipients c (em_recipients m) = Ok tt /\
    forallb (holds_capability a) (em_object_keys m) = true /\
    em_uuid m <> 0 /\ em_seq m <> 0 /\ a' = a_append a m.
Proof.
  unfold spec_post. destruct (Z.eqb_spec (em_channel_id m) 0); [done|].
  destruct (a_channels a !! em_channel_id m) as [c|]; [|done].
  destruct (CanWrite c (em_principal m)) eqn:Ew; [|done]. cbn [negb].
  destruct (ValidateRecipients c (em_recipients m)) as [[]|] eqn:Er; [|done]. cbn [rbind].
  destruct (forallb _ _) eqn:Ek; [|done]. cbn [negb].
  destruct (Z.eqb_spec (em_uuid m) 0), (Z.eqb_spec (em_seq m) 0); try done.
  intros [= <-]. by exists c.
Qed.

Lemma rbind_ok {A B} (r : Result A) (k : A -> Result B) b :
  rbind r k = Ok b -> exists x, r = Ok x /\ k x = Ok b.
Proof. destruct r as [x|]; [|done]. by exists x. Qed.

(** What a publication that succeeds was checked for, and its effect. *)
Lemma spec_publish_ok principal token channel_id uuid recipients payload keys expected ts a seq a' :
  spec_publish cfg principal token channel_id uuid recipients payload keys expected ts a =
    Ok (seq, a') ->
  let m := MkEventMessage seq channel_id principal recipients payload ts uuid keys in
  principal <> 0 /\ (0 ∉ recipients) /\ (principal, token) ∈ a_tokens a /\ token <> "" /\
  spec_available_uuid a uuid = Ok tt /\ ValidatePayloadSize cfg payload = Ok tt /\
  ValidateObjectKeysShape keys = Ok tt /\ seq = u64_add (a_max_seq a) 1 /\
  (forall n, expected = Some n -> n = seq) /\ spec_post a m = Ok a'.
Proof.
  unfold spec_publish. destruct (Z.eqb_spec principal 0); [done|]. cbn [orb].
  unfold Contains. case_bool_decide as Hrec; [done|].
  intros ([] & Ha & H1)%rbind_ok. apply rbind_ok in H1 as ([] & Hu & H1).
  apply rbind_ok in H1 as ([] & Hp & H1). apply rbind_ok in H1 as ([] & Hk & H1).
  destruct (match expected with Some _ => _ | None => _ end) eqn:Ee; [done|].
  apply rbind_ok in H1 as (a1 & Hpost & [= <- <-]).
  unfold spec_authenticate in Ha. rewrite (proj2 (Z.eqb_neq _ _)) in Ha by done.
  destruct (str_empty token) eqn:Et; [done|]. case_bool_decide as Hin; [|done].
  split_and!; try done.
  - by intros ->.
  - intros n' ->. apply negb_false_iff, Z.eqb_eq in Ee. done.
Qed.

Lemma WF_publish principal token channel_id uuid recipients payload keys expected ts a seq a' :
  WF a -> is_u64 uuid ->
  spec_publish cfg principal token channel_id uuid recipients payload keys expected ts a =
    Ok (seq, a') -> WF a'.
Proof.
  intros Hwf Hu Hpub. apply spec_publish_ok in Hpub as
    (Hp & Hrec & Htok & _ & Huuid & _ & Hkeys & Hseq & _ & Hpost). cbv zeta in Hpost.
  apply spec_post_ok in Hpost as (c & Hc & Hc0 & _ & _ & Hcap & Hu0 & Hs0 & ->).
  apply spec_available_uuid_ok in Huuid as (_ & Hlt & Hfresh). cbn in *.
  pose proof (wf_max_seq _ Hwf) as Hm. unfold is_u64 in Hm, Hu.
  destruct (decide (a_max_seq a = two64 - 1)) as [E|E]; [by rewrite E in Hseq|].
  rewrite u64_add_small in Hseq by lia.
  apply WF_append; [done|lia|done|]. split_and!; cbn; try done; [| |by right|lia].
  - unfold invalid_reserved_fields. rewrite (proj2 (Z.eqb_neq _ _)) by lia. cbn.
    rewrite !(proj2 (Z.eqb_neq _ 0)) by done. cbn. by rewrite bool_decide_eq_false_2.
  - by apply (keys_references a).
Qed.

(** ** Channels *)

Lemma WF_mutation a c payload ts a' :
  WF a -> a_next_uuid a + 1 < two64 -> channel_wf (ci_channel_id c) c ->
  0 < ci_channel_id c < a_next_channel a ->
  (forall m, em_recipients m = [] -> em_object_keys m = [] -> em_payload m = payload ->
     ValidChannelSystemMessage m = true) ->
  spec_mutation a c payload ts = Ok a' -> WF a'.
Proof.
  intros Hwf Hroom Hc Hid Hvalid. unfold spec_mutation.
  set (m := system_message a c payload ts).
  destruct ((em_uuid m =? 0) || (em_seq m =? 0)) eqn:Ez; [done|].
  destruct (u64_add (em_uuid m) 1 =? 0); [done|]. intros [= <-].
  apply orb_false_iff in Ez as [Eu%Z.eqb_neq Es%Z.eqb_neq]. pose proof (wf_next_uuid _ Hwf).
  pose proof (wf_max_seq _ Hwf) as Hm. unfold is_u64, kMaxUuidBatch in *.
  assert (Hseq : em_seq m = a_max_seq a + 1 /\ a_max_seq a + 1 < two64).
  { cbn in Es |- *. destruct (decide (a_max_seq a = two64 - 1)) as [E|E]; [by rewrite E in Es|].
    rewrite u64_add_small by lia. lia. }
  rewrite u64_add_small by (cbn; lia).
  assert (Hwf2 : WF (a_set_next_uuid (a_put_channel a c) (em_uuid m + 1))).
  { apply WF_set_next_uuid; [by apply WF_put_channel|]. cbn. lia. }
  apply WF_append; [done|apply Hseq| |].
  - cbn. apply wf_uuid_fresh; [done|lia].
  - split_and!; [apply Hseq| | | |cbn; lia|cbn; lia].
    + unfold invalid_reserved_fields. change (a_max_seq _) with (a_max_seq a).
      rewrite (proj2 (Z.eqb_neq _ _)) by lia. rewrite (proj2 (Z.eqb_neq _ _) Eu).
      rewrite (Hvalid m) by done. rewrite (proj2 (Z.eqb_neq (em_channel_id m) 0)) by (cbn; lia).
      rewrite andb_false_r. cbn [orb]. by rewrite bool_decide_eq_false_2 by (by intros ?%elem_of_nil).
    + unfold invalid_object_references. done.
    + right. cbn. exists c. apply lookup_insert_eq.
Qed.

Lemma created_channel_wf req id :
  create_request_ok req -> invalid_channel_parameters req = false -> id <> 0 ->
  ValidateVisibility (cr_visibility req) = Ok tt ->
  Z.of_nat (length (ci_members (created_channel req id))) <= 1024 ->
  channel_wf id (created_channel req id).
Proof using PS.
  intros Hreq Hv Hid Hvis Hlen. pose proof (created_channel_values req id Hreq Hv) as
    (Htext & Hcr & Hne & Hm). unfold principals_ok in Hm.
  assert (Hprin : cr_principal req <> 0) by (cbn in Hcr; lia).
  split_and!; [done| |apply Htext..| |done|].
  - unfold ValidStoredChannel, has_creator, creator. cbn [ci_creator created_channel default].
    unfold invalid_channel_parameters in Hv. repeat apply orb_false_iff in Hv as [Hv ?].
    rewrite !andb_true_iff. split_and!; cbn; rewrite ?negb_true_iff, ?Z.eqb_neq; try (done || lia).
    + by rewrite Visibility_IsValid_named by (intros n E; by rewrite E in Hvis).
    + apply bool_decide_eq_true_2.
      destruct (add_new_members_prefix {[cr_principal req]} [cr_principal req] (cr_members req)) as [l ->].
      by left.
    + apply bool_decide_eq_false_2. intros Hin. rewrite Forall_forall in Hm. specialize (Hm _ Hin). lia.
  - apply add_new_members_nodup; [|by repeat constructor; intros ?%elem_of_nil].
    intros x ->%list_elem_of_singleton. by apply elem_of_singleton.
  - eapply Forall_impl; [exact Hm|]. unfold is_u64. cbn. intros. lia.
Qed.

Lemma WF_create_channel req ts a c a' :
  WF a -> Room a -> create_request_ok req -> spec_create_channel req ts a = Ok (c, a') -> WF a'.
Proof using PS.
  intros Hwf Hroom Hreq. unfold spec_create_channel.
  destruct (invalid_channel_parameters req) eqn:Ev; [done|].
  intros ([] & Hvis & H1)%rbind_ok. apply rbind_ok in H1 as ([] & Hauth & H1). cbv zeta in H1.
  destruct (_ <? _) eqn:El; [done|]. apply Z.ltb_ge in El.
  apply rbind_ok in H1 as (a1 & Hmut & [= <- <-]).
  set (c := created_channel req (a_next_channel a)) in *.
  pose proof (wf_next_channel _ Hwf) as Hn. pose proof Hroom as (Hr1 & Hr2 & Hr3).
  rewrite u64_add_small by lia.
  assert (Hc : channel_wf (ci_channel_id c) c).
  { apply created_channel_wf; [done|done|cbn; lia|done|exact El]. }
  assert (Hmut' : spec_mutation (a_set_next_channel a (a_next_channel a + 1)) c
    (ChannelInitializedPayload c) ts = Ok (a_set_next_channel a1 (a_next_channel a + 1))).
  { unfold spec_mutation in *. change (system_message (a_set_next_channel _ _) c) with (system_message a c).
    destruct (_ || _); [done|]. destruct (_ =? 0); [done|]. by injection Hmut as <-. }
  unfold kMaxUuidBatch in Hr1.
  eapply WF_mutation; [| | | | |exact Hmut']; [|cbn; lia|done|cbn; lia|].
  - apply WF_set_next_channel; [done|lia].
  - intros m Hm1 Hm2 Hm3. by eapply valid_channel_initialized; [..|apply created_channel_values].
Qed.

(** A channel with other members, among them its creator. *)
Lemma with_members_wf a id c members :
  WF a -> a_channels a !! id = Some c -> creator c ∈ members -> NoDup members ->
  Z.of_nat (length members) <= 1024 -> Forall (fun p => 0 < p < two64) members ->
  channel_wf id (with_members c members).
Proof.
  intros Hwf Hc Hcr Hnd Hlen Hm. destruct (wf_channels _ Hwf _ _ Hc) as [(Hid & Hv & Ht & _) _].
  split_and!; [done| |apply Ht..|done|done|].
  - unfold ValidStoredChannel in *. cbn in *. unfold has_creator, creator in *. cbn in *.
    rewrite !andb_true_iff in Hv |- *. destruct Hv as [[Hv _] _]. split_and!; try apply Hv.
    + by apply bool_decide_eq_true_2.
    + apply negb_true_iff, bool_decide_eq_false_2. intros H0.
      rewrite Forall_forall in Hm. specialize (Hm _ H0). lia.
  - eapply Forall_impl; [exact Hm|]. unfold is_u64. cbn. intros. lia.
Qed.

(** The members of a stored channel. *)
Lemma wf_members a id c :
  WF a -> a_channels a !! id = Some c ->
  Forall (fun p => 0 < p < two64) (ci_members c) /\ creator c ∈ ci_members c /\
  NoDup (ci_members c) /\ Z.of_nat (length (ci_members c)) <= 1024.
Proof.
  intros Hwf Hc. destruct (wf_channels _ Hwf _ _ Hc) as [(_ & Hv & _ & Hnd & Hlen & Hu) _].
  unfold ValidStoredChannel in Hv. rewrite !andb_true_iff in Hv.
  destruct Hv as [[_ Hcr%bool_decide_eq_true] H0%negb_true_iff%bool_decide_eq_false].
  split_and!; [|done..]. apply Forall_forall. intros x Hx. rewrite Forall_forall in Hu.
  specialize (Hu x Hx). unfold is_u64 in Hu. destruct (decide (x = 0)) as [->|]; [done|lia].
Qed.

Lemma spec_owned_channel_ok req denied a c :
  spec_owned_channel req denied a = Ok c ->
  a_channels a !! mr_channel_id req = Some c /\ creator c = mr_principal req /\
  has_creator c = true /\ mr_target_principal req <> 0 /\ mr_channel_id req <> 0 /\
  (mr_principal req, mr_token req) ∈ a_tokens a.
Proof.
  unfold spec_owned_channel. destruct (Z.eqb_spec (mr_principal req) 0); [done|].
  destruct (Z.eqb_spec (mr_target_principal req) 0); [done|]. cbn [orb].
  intros ([] & Ha & H1)%rbind_ok. destruct (Z.eqb_spec (mr_channel_id req) 0); [done|].
  destruct (a_channels a !! mr_channel_id req) as [c'|]; [|done].
  destruct (has_creator c') eqn:Eh; [|done].
  destruct (Z.eqb_spec (creator c') (mr_principal req)); [|done]. cbn in H1. injection H1 as <-.
  unfold spec_authenticate in Ha. rewrite (proj2 (Z.eqb_neq _ _)) in Ha by done.
  destruct (str_empty _); [done|]. by case_bool_decide.
Qed.

(** The two ways of changing the members of a channel. *)
Lemma WF_change_members req kind ts a c members a' :
  WF a -> Room a -> member_request_ok req ->
  kind = "system.member_added" \/ kind = "system.member_removed" ->
  a_channels a !! mr_channel_id req = Some c -> mr_target_principal req <> 0 ->
  creator c ∈ members -> NoDup members -> Z.of_nat (length members) <= 1024 ->
  Forall (fun p => 0 < p < two64) members ->
  spec_mutation a (with_members c members) (MemberChangedPayload kind (mr_target_principal req)) ts =
    Ok a' -> WF a'.
Proof using PS.
  intros Hwf (Hr & _) (_ & _ & Ht) Hkind Hc Ht0 Hcr Hnd Hlen Hm. unfold kMaxUuidBatch in Hr.
  destruct (wf_channels _ Hwf _ _ Hc) as [(Hid & _) Hlt].
  apply WF_mutation; [done|lia| |cbn; by rewrite Hid|].
  - cbn. rewrite Hid. by apply (with_members_wf a).
  - intros m H1 H2 H3. eapply valid_member_changed; [done..|]. unfold is_u64 in Ht. lia.
Qed.

Lemma WF_add_member req ts a u a' :
  WF a -> Room a -> member_request_ok req -> spec_add_member req ts a = Ok (u, a') -> WF a'.
Proof using PS.
  intros Hwf Hroom Hreq. unfold spec_add_member. intros (c & Hown & H1)%rbind_ok.
  apply spec_owned_channel_ok in Hown as (Hc & _ & _ & Ht0 & _).
  destruct (wf_members _ _ _ Hwf Hc) as (Hm & Hcr & Hnd & Hlen).
  unfold IsMember, Contains in H1. case_bool_decide as Hin; [done|].
  destruct (Z.leb_spec kMaxChannelMembers (Z.of_nat (length (ci_members c)))) as [|Hl]; [done|].
  apply rbind_ok in H1 as (a1 & Hmut & [= <- <-]). unfold kMaxChannelMembers in Hl.
  eapply WF_change_members; [done|done|done|by left|done|done|..|exact Hmut].
  - by apply elem_of_app; left.
  - apply NoDup_app. split_and!; [done| |by repeat constructor; intros ?%elem_of_nil].
    by intros x Hx ->%list_elem_of_singleton.
  - rewrite length_app. cbn. lia.
  - apply Forall_app. split; [done|]. constructor; [|done].
    destruct Hreq as (_ & _ & Ht). unfold is_u64 in Ht. lia.
Qed.

Lemma WF_remove_member req ts a u a' :
  WF a -> Room a -> member_request_ok req -> spec_remove_member req ts a = Ok (u, a') -> WF a'.
Proof using PS.
  intros Hwf Hroom Hreq. unfold spec_remove_member. intros (c & Hown & H1)%rbind_ok.
  apply spec_owned_channel_ok in Hown as (Hc & _ & _ & Ht0 & _).
  destruct (wf_members _ _ _ Hwf Hc) as (Hm & Hcr & Hnd & Hlen).
  destruct (Z.eqb_spec (mr_target_principal req) (creator c)) as [|Hne]; [done|].
  destruct (Contains _ _); [|by injection H1 as _ <-]. cbn [negb] in H1.
  apply rbind_ok in H1 as (a1 & Hmut & [= <- <-]).
  pose proof (remove_first_sublist (ci_members c) (mr_target_principal req)) as Hsub.
  eapply WF_change_members; [done|done|done|by right|done|done|..|exact Hmut].
  - by apply remove_first_keeps.
  - by eapply sublist_NoDup.
  - apply sublist_length in Hsub. lia.
  - rewrite Forall_forall in Hm |- *. intros x Hx. apply Hm. by eapply elem_of_submseteq, sublist_submseteq.
Qed.

(** ** Credentials *)

Lemma WF_add_token principal token a t a' :
  WF a -> is_u64 principal -> token <> "" -> spec_add_token principal token a = Ok (t, a') -> WF a'.
Proof.
  intros Hwf Hp Ht. unfold spec_add_token. destruct (Z.eqb_spec principal 0); [done|].
  intros [= <- <-]. apply WF_set_tokens; [done|]. intros p k [E%elem_of_singleton|Hin]%elem_of_union.
  - unfold is_u64 in Hp. injection E as -> ->. split; [lia|done].
  - by apply (wf_tokens _ Hwf).
Qed.

Lemma WF_delete_token principal token a u a' :
  WF a -> spec_delete_token principal token a = Ok (u, a') -> WF a'.
Proof.
  intros Hwf. unfold spec_delete_token. destruct (_ || _); [done|]. intros [= <- <-].
  apply WF_set_tokens; [done|]. intros p k [Hin _]%elem_of_difference. by apply (wf_tokens _ Hwf).
Qed.

End Invariant.
