(* ===== verification/Queries.v ===== *)
(** * Reading handlers answer from the abstract state *)

From S2P Require Import Prelude Status Encoding Tokens Proto Json Platform Keys World FileStore.
From S2P Require Import Storage Core Commands Model Reads Scan Spec Refine Handlers.

Section Queries.
Context {R : RocksDB} {P : Protobuf} {F : PosixDir} {H : Host}.
Context {RS : RocksDBSpec} {HS : HostSpec}.
Context (cfg : CoreConfig).

(** A handler that answers [r] when the database represents [a], and changes nothing: the
    only other way to end is a storage fault. *)
Definition Answers {B} (a : AState) (m : RM CoreW B) (r : Result B) : Prop :=
  forall w, fatal_error_triggered w = false -> repr (cview w) a ->
    wp m (fun x w' => (x = r /\ unchanged w w') \/
      exists s, x = Err s /\ fault cfg w s w' /\ c_contents w' = c_contents w) w.

Lemma Answers_ret {B} a (r : Result B) : Answers a (ret r) r.
Proof. intros w _ _. apply wp_ret. by left. Qed.

Lemma Answers_available {B} a (m : RM CoreW B) r :
  Answers a m r -> Answers a (do? EnsureAvailable in m) r.
Proof. intros Hm w Hav Hr. apply step_available; [done|]. by apply Hm. Qed.

Lemma Answers_pure {A B} a (r : Result A) (k : A -> RM CoreW B) k' :
  (forall v, r = Ok v -> Answers a (k v) (k' v)) ->
  Answers a (bind_ok (ret r) k) (rbind r k').
Proof.
  intros Hk w Hav Hr. unfold bind_ok. apply wp_bind, wp_ret.
  destruct r as [v|e]; [by apply Hk|]. apply wp_ret. by left.
Qed.

(** A handler that works on one snapshot. *)
Lemma Answers_snapshot {B} a (k : snap_t -> RM CoreW B) r :
  (forall s, repr (snap_view s) a -> CReads cfg (k s) r) ->
  Answers a (bind_ok (storage CreateSnapshot) k) r.
Proof using RS.
  intros Hk w Hav Hr. unfold bind_ok. apply wp_bind, (wp_CreateSnapshot cfg).
  - intros s w1 Hs H1 _. eapply wp_mono; [|apply Hk; by rewrite Hs].
    intros x w2 [(-> & H2 & _)|(e & -> & Hf & Hv)]; [left|right].
    + split; [done|]. by etransitivity.
    + exists e. split_and!; [done|by eapply unchanged_fault|]. by destruct H1 as [<- _].
  - intros e w1 Hf Hv. apply wp_ret. right. by exists e.
Qed.

Lemma CReads_bind_ok {A B} (m : RM CoreW A) v (k : A -> RM CoreW B) r :
  CReads cfg m (Ok v) -> CReads cfg (k v) r -> CReads cfg (bind_ok m k) r.
Proof.
  intros Hm Hk. apply (CReads_bind cfg m k (Ok v) (fun _ => r)); [done|]. by intros ? [= <-].
Qed.

(** ** Status, uuids and channels *)

Definition spec_get_status (a : AState) (principal : Z) (token : string) : Result Z :=
  rdo spec_authenticate a principal token in Ok (a_max_seq a).

Lemma GetStatus_answers a principal token :
  WF a -> is_u64 principal -> Answers a (GetStatus principal token) (spec_get_status a principal token).
Proof using RS.
  intros Hwf Hp. apply Answers_available, Answers_snapshot. intros s Hs.
  apply CReads_bind; [by apply CReads_Authenticate|]. intros _ _.
  by apply CReads_storage, Reads_MaxSeq.
Qed.

Definition spec_seq_by_uuid (a : AState) (uuid : Z) : Result Z :=
  match a_uuids a !! uuid with
  | Some seq => Ok seq
  | None => Err (mkStatus NOT_FOUND "uuid has not been consumed by a committed message")
  end.

Lemma GetSeqByUuid_answers a uuid :
  WF a -> is_u64 uuid -> Answers a (GetSeqByUuid uuid) (spec_seq_by_uuid a uuid).
Proof using RS.
  intros Hwf Hu. apply Answers_available, Answers_snapshot. intros s Hs.
  eapply CReads_bind_ok; [by apply CReads_storage, (Reads_UsedUuidSeq s a)|].
  unfold spec_seq_by_uuid. destruct (a_uuids a !! uuid); apply CReads_ret.
Qed.

Definition spec_get_channel (a : AState) (principal : Z) (token : string) (channel_id : Z)
    : Result ChannelInfo :=
  rdo spec_authenticate a principal token in
  match spec_channel a channel_id with
  | None => Err (mkStatus NOT_FOUND "channel not found")
  | Some c => if CanRead c principal then Ok c
              else Err (mkStatus PERMISSION_DENIED "channel not visible")
  end.

Lemma GetChannel_answers a principal token channel_id :
  WF a -> is_u64 principal -> is_u64 channel_id ->
  Answers a (CoreGetChannel principal token channel_id) (spec_get_channel a principal token channel_id).
Proof using RS.
  intros Hwf Hp Hc. apply Answers_available, Answers_snapshot. intros s Hs.
  apply CReads_bind; [by apply CReads_Authenticate|]. intros _ _.
  eapply CReads_bind_ok; [by apply CReads_storage, (Reads_LoadChannel s a)|].
  destruct (spec_channel a channel_id) as [c|]; [|apply CReads_ret].
  destruct (CanRead c principal); apply CReads_ret.
Qed.

(** The channels a principal lists: the system channel with the filter ALL, then the stored
    ones in the order of their ids. *)
Definition spec_list_channels (a : AState) (principal : Z) (token : string) (filter : ChannelFilter)
    : Result (list ChannelInfo) :=
  rdo ValidateFilter filter in
  rdo spec_authenticate a principal token in
  Ok ((if bool_decide (filter = CHANNEL_FILTER_ALL) then [SystemChannel] else []) ++
      List.filter (listed filter principal) (sorted_entries (a_channels a)).*2).

Lemma ListChannels_answers a principal token filter :
  WF a -> is_u64 principal ->
  Answers a (CoreListChannels principal token filter) (spec_list_channels a principal token filter).
Proof using RS.
  intros Hwf Hp. apply Answers_available, Answers_pure. intros _ _.
  apply Answers_snapshot. intros s Hs.
  apply CReads_bind; [by apply CReads_Authenticate|]. intros _ _.
  eapply CReads_bind_ok; [by apply CReads_storage, (Reads_ListChannels s a)|]. apply CReads_ret.
Qed.

(** Who may read a stored channel: everybody when it is public or protected, its members
    when it is private. *)
Definition open_to (c : ChannelInfo) (principal : Z) : Prop :=
  ci_visibility c = VISIBILITY_PUBLIC \/ ci_visibility c = VISIBILITY_PROTECTED \/
  principal ∈ ci_members c.

Lemma CanRead_open c principal :
  ci_channel_id c <> 0 -> CanRead c principal = true <-> open_to c principal.
Proof.
  intros H0. unfold CanRead, open_to, IsMember, Contains. rewrite (proj2 (Z.eqb_neq _ _)) by done.
  destruct (decide (ci_visibility c = VISIBILITY_PUBLIC)) as [E|E];
    [rewrite (bool_decide_eq_true_2 _ E); tauto|rewrite (bool_decide_eq_false_2 _ E)].
  destruct (decide (ci_visibility c = VISIBILITY_PROTECTED)) as [E'|E'];
    [rewrite (bool_decide_eq_true_2 _ E'); tauto|rewrite (bool_decide_eq_false_2 _ E')].
  cbn. rewrite bool_decide_eq_true. tauto.
Qed.

(** What each filter of a listing asks for. *)
Definition selects (filter : ChannelFilter) (principal : Z) (c : ChannelInfo) : Prop :=
  match filter with
  | CHANNEL_FILTER_ALL => True
  | CHANNEL_FILTER_JOINED => principal ∈ ci_members c
  | CHANNEL_FILTER_OWNED => ci_creator c = Some principal
  | ChannelFilter_other _ => False
  end.

Lemma listed_selects filter principal c :
  ci_channel_id c <> 0 -> ValidateFilter filter = Ok tt ->
  listed filter principal c = true <-> open_to c principal /\ selects filter principal c.
Proof.
  intros H0 Hf. unfold listed. rewrite !andb_true_iff, CanRead_open by done.
  unfold IsMember, Contains, has_creator, creator.
  destruct (decide (filter = CHANNEL_FILTER_JOINED)) as [->|Hj].
  { rewrite (bool_decide_eq_false_2 (CHANNEL_FILTER_JOINED = CHANNEL_FILTER_OWNED)) by done.
    rewrite bool_decide_eq_true_2 by done. cbn. rewrite negb_involutive, bool_decide_eq_true. tauto. }
  rewrite (bool_decide_eq_false_2 _ Hj). destruct (decide (filter = CHANNEL_FILTER_OWNED)) as [->|Ho].
  { rewrite (bool_decide_eq_true_2 (CHANNEL_FILTER_OWNED = _)) by done. cbn [selects]. destruct (ci_creator c) as [q|]; cbn.
    - rewrite negb_involutive, Z.eqb_eq. split; [intros [[] ->]|intros [? [= ->]]]; auto.
    - split; intros [_ E]; done. }
  rewrite (bool_decide_eq_false_2 _ Ho). destruct filter; [cbn; tauto|done..].
Qed.

(** ** Object capabilities *)

Definition spec_object (a : AState) (object_id : Z) (object_token : string) : Result StoredObject :=
  if (object_id =? 0) || str_empty object_token
  then Err (mkStatus INVALID_ARGUMENT "object_id must be nonzero and object_token must be nonempty")
  else
    match a_committed a !! object_id with
    | Some o => if bool_decide (so_object_token o = object_token) then Ok o
                else Err (mkStatus NOT_FOUND "object capability not found")
    | None => Err (mkStatus NOT_FOUND "object capability not found")
    end.

Lemma CReads_LoadAuthorizedObject s a object_id object_token :
  repr (snap_view s) a -> WF a -> is_u64 object_id ->
  CReads cfg (LoadAuthorizedObject cfg s object_id object_token) (spec_object a object_id object_token).
Proof using HS RS.
  intros Hr Hwf Hid. unfold LoadAuthorizedObject, spec_object.
  destruct (_ || _); [apply CReads_ret|].
  eapply CReads_escalate; [by apply (Reads_GetCommittedObject s a)|done|].
  destruct (a_committed a !! object_id) as [o|]; [|apply CReads_ret].
  rewrite ConstantTimeEquals_spec. case_bool_decide; apply CReads_ret.
Qed.

Lemma GetObjectMetadata_answers a object_id object_token :
  WF a -> is_u64 object_id ->
  Answers a (GetObjectMetadata cfg object_id object_token)
    (rlet o := spec_object a object_id object_token in Ok (metadata_of o)).
Proof using HS RS.
  intros Hwf Hid. apply Answers_available, Answers_snapshot. intros s Hs.
  apply CReads_bind; [by apply CReads_LoadAuthorizedObject|]. intros o _. apply CReads_ret.
Qed.

Fixpoint spec_objects (a : AState) (keys : list ObjectKey) : Result (list StoredObject) :=
  match keys with
  | [] => Ok []
  | k :: keys =>
      rlet o := spec_object a (ok_object_id k) (ok_object_token k) in
      rlet os := spec_objects a keys in Ok (o :: os)
  end.

Lemma CReads_batch_metadata s a keys staged :
  repr (snap_view s) a -> WF a -> Forall (fun k => is_u64 (ok_object_id k)) keys ->
  CReads cfg (batch_metadata cfg s keys staged)
    (rlet os := spec_objects a keys in Ok (staged ++ (metadata_of <$> os))).
Proof using HS RS.
  intros Hr Hwf. revert staged. induction keys as [|k keys IH]; intros staged Hk; cbn [batch_metadata].
  { cbn. rewrite app_nil_r. apply CReads_ret. }
  apply Forall_cons in Hk as [Hk1 Hk]. cbn [spec_objects]. rewrite rbind_assoc.
  apply CReads_bind; [by apply CReads_LoadAuthorizedObject|]. intros o _. rewrite rbind_assoc.
  specialize (IH (staged ++ [metadata_of o]) Hk).
  destruct (spec_objects a keys); cbn in *; [|done]. by rewrite <- app_assoc in IH.
Qed.

Definition spec_batch_metadata (a : AState) (keys : list ObjectKey) : Result (list ObjectMetadata) :=
  match keys with
  | [] => Err (mkStatus INVALID_ARGUMENT "object_keys must not be empty")
  | _ => rdo ValidateObjectKeysShape keys in rlet os := spec_objects a keys in Ok (metadata_of <$> os)
  end.

Lemma BatchGetObjectMetadata_answers a keys :
  WF a -> Forall (fun k => is_u64 (ok_object_id k)) keys ->
  Answers a (BatchGetObjectMetadata cfg keys) (spec_batch_metadata a keys).
Proof using HS RS.
  intros Hwf Hk. apply Answers_available. unfold spec_batch_metadata.
  destruct keys as [|k keys]; [apply Answers_ret|]. apply Answers_pure. intros _ _.
  apply Answers_snapshot. intros s Hs. by apply (CReads_batch_metadata s a _ []).
Qed.

End Queries.
