(* ===== verification/Pages.v ===== *)
(** * Pages of messages

    [Fetch] and [ListMessages] scan the log from a sequence number and stop at a
    page limit, a size budget or a scan limit.  [log_page] says what they return on
    the abstract log, [log_page_ok] what such a page covers, and [follow_pages] what
    a client that follows the pages collects. *)

From S2P Require Import Prelude Status Encoding Tokens Proto Json Platform Keys World FileStore.
From S2P Require Import Storage Core Commands Model Reads Scan Spec Refine Handlers Queries.

(** Two scans whose visitors agree. *)
Lemma spec_scan_sim {V W} (Rel : V -> W -> Prop) visit1 visit2 msgs max scanned next v w :
  (forall v w m, Rel v w -> m ∈ msgs ->
     (visit1 v m).1 = (visit2 w m).1 /\ Rel (visit1 v m).2 (visit2 w m).2) ->
  Rel v w ->
  (spec_scan visit1 msgs max scanned next v).1 = (spec_scan visit2 msgs max scanned next w).1 /\
  Rel (spec_scan visit1 msgs max scanned next v).2 (spec_scan visit2 msgs max scanned next w).2.
Proof.
  revert scanned next v w. induction msgs as [|m msgs IH]; intros scanned next v w Hv HR; cbn; [done|].
  destruct (max <=? scanned); [done|]. destruct (Hv v w m HR) as [Ha HR']; [by left|].
  destruct (visit1 v m) as [a1 v1], (visit2 w m) as [a2 w2]. cbn in *. subst a2.
  destruct a1; [|done..]. apply IH; [|done]. intros. apply Hv; [done|by right].
Qed.

(** A property every visit preserves. *)
Lemma spec_scan_inv {V} (Inv : V -> Prop) visit msgs max scanned next v :
  (forall v m, Inv v -> Inv (visit v m).2) -> Inv v ->
  Inv (spec_scan visit msgs max scanned next v).2.
Proof.
  intros Hv. revert scanned next v. induction msgs as [|m msgs IH]; intros scanned next v Hi; cbn; [done|].
  destruct (max <=? scanned); [done|]. specialize (Hv v m Hi). destruct (visit v m) as [a v'].
  destruct a; [by apply IH|done..].
Qed.

Section Pages.
Context {R : RocksDB} {P : Protobuf} {F : PosixDir} {H : Host}.
Context {RS : RocksDBSpec} {PS : ProtobufSpec} {HS : HostSpec}.
Context (cfg : CoreConfig).

(** ** The scan of a page *)

Section Page.
Context (limit : Z) (vis : EventMessage -> bool).

(** The response and its size so far. *)
Definition page_visit (st : list EventMessage * Z) (m : EventMessage)
    : MessageScanAction * (list EventMessage * Z) :=
  if negb (vis m) then (kContinue, st)
  else
    let pg := page_append cfg limit (MkPageState st.1 st.2 ∅) m in
    (pg.1, (pg_messages pg.2, pg_bytes pg.2)).

(** Messages of a suffix of the log that starts at [next]. *)
Definition dense (next : Z) (msgs : list EventMessage) : Prop :=
  forall i m, msgs !! i = Some m -> em_seq m = next + Z.of_nat i.

Definition page_full (acc : list EventMessage) (bytes : Z) (m : EventMessage) : Prop :=
  vis m = true /\ acc <> [] /\
  response_soft_limit_bytes cfg - Z.min bytes (response_soft_limit_bytes cfg) < MessageByteSize m.

Lemma dense_tail next m msgs : dense next (m :: msgs) -> dense (next + 1) msgs.
Proof. intros Hd i x Hi. rewrite (Hd (S i) x Hi). lia. Qed.

(** Passed over, refused for its size, or appended. *)
Lemma page_visit_cases acc bytes m act acc' bytes' :
  page_visit (acc, bytes) m = (act, (acc', bytes')) ->
  (vis m = false /\ act = kContinue /\ acc' = acc /\ bytes' = bytes) \/
  (vis m = true /\ page_full acc bytes m /\ act = kStopBefore /\ acc' = acc /\ bytes' = bytes) \/
  (vis m = true /\ acc' = acc ++ [m] /\
   ((limit <= Z.of_nat (length (acc ++ [m])) /\ act = kStopAfter) \/
    (Z.of_nat (length (acc ++ [m])) < limit /\ act = kContinue))).
Proof.
  unfold page_visit, page_full. destruct (vis m) eqn:Ev; cbn [negb]; [|intros [= <- <- <-]; by left].
  unfold page_append. cbn [pg_messages pg_bytes fst snd].
  destruct (negb (bool_decide (acc = [])) && _) eqn:Eb.
  - apply andb_true_iff in Eb as [E1%negb_true_iff%bool_decide_eq_false E2%Z.ltb_lt].
    intros [= <- <- <-]. by right; left.
  - destruct (Z.leb_spec limit (Z.of_nat (length (acc ++ [m])))); intros [= <- <- <-]; right; right; auto 6.
Qed.

(** What a scan returns: it passes [k] messages and keeps the visible ones among them. *)
Lemma page_scan_ok msgs max scanned next acc bytes :
  dense next msgs -> Z.of_nat (length acc) < limit ->
  exists k bytes',
    spec_scan page_visit msgs max scanned next (acc, bytes) =
      (next + Z.of_nat k, (acc ++ List.filter vis (take k msgs), bytes')) /\
    (k <= length msgs)%nat /\ (scanned + Z.of_nat k <= max \/ k = 0%nat) /\
    Z.of_nat (length (acc ++ List.filter vis (take k msgs))) <= limit /\
    (k = length msgs \/ max <= scanned + Z.of_nat k \/
     Z.of_nat (length (acc ++ List.filter vis (take k msgs))) = limit \/
     exists m, msgs !! k = Some m /\ page_full (acc ++ List.filter vis (take k msgs)) bytes' m).
Proof.
  revert scanned next acc bytes. induction msgs as [|m msgs IH]; intros scanned next acc bytes Hd Hl.
  { exists 0%nat, bytes. cbn. rewrite app_nil_r, Z.add_0_r. split_and!; auto; lia. }
  assert (Hm : em_seq m = next) by (rewrite (Hd 0%nat m eq_refl); lia).
  cbn [spec_scan]. destruct (Z.leb_spec max scanned).
  { exists 0%nat, bytes. cbn. rewrite app_nil_r, Z.add_0_r. split_and!; auto; lia. }
  assert (Hmore : forall acc' b1, acc' = acc ++ List.filter vis [m] ->
    Z.of_nat (length acc') < limit -> exists k bytes',
      spec_scan page_visit msgs max (scanned + 1) (em_seq m + 1) (acc', b1) =
        (next + Z.of_nat k, (acc ++ List.filter vis (take k (m :: msgs)), bytes')) /\
      (k <= length (m :: msgs))%nat /\ (scanned + Z.of_nat k <= max \/ k = 0%nat) /\
      Z.of_nat (length (acc ++ List.filter vis (take k (m :: msgs)))) <= limit /\
      (k = length (m :: msgs) \/ max <= scanned + Z.of_nat k \/
       Z.of_nat (length (acc ++ List.filter vis (take k (m :: msgs)))) = limit \/
       exists x, (m :: msgs) !! k = Some x /\
         page_full (acc ++ List.filter vis (take k (m :: msgs))) bytes' x)).
  { intros acc' b1 -> Hl'.
    edestruct (IH (scanned + 1) (em_seq m + 1)) as (k & b & E & H1 & H2 & H3 & H4);
      [rewrite Hm; by eapply dense_tail|exact Hl'|]. rewrite E, Hm.
    exists (S k), b. cbn [take length lookup list_lookup].
    replace (List.filter vis (m :: take k msgs)) with (List.filter vis [m] ++ List.filter vis (take k msgs))
      by (cbn; by destruct (vis m)).
    rewrite <- app_assoc in *. split_and!; [f_equal; lia|lia|left; lia|done|].
    destruct H4 as [->|[?|[?|(x & Hx & Hf)]]]; [by left|right; left; lia|by right; right; left|].
    right; right; right. by exists x. }
  destruct (page_visit (acc, bytes) m) as [act [acc' b1]] eqn:Epv.
  apply page_visit_cases in Epv as [(Hv & -> & -> & ->)|[(Hv & Hf & -> & -> & ->)|(Hv & -> & Hcase)]].
  - apply Hmore; [|done]. cbn. by rewrite Hv, app_nil_r.
  - exists 0%nat, bytes. cbn. rewrite app_nil_r, Z.add_0_r, Hm.
    split_and!; [done|lia|by right|lia|]. right; right; right. by exists m.
  - destruct Hcase as [(Hlim & ->)|(Hlim & ->)].
    + exists 1%nat, b1. cbn. rewrite Hv, Hm, take_0. rewrite length_app in *. cbn in *.
      split_and!; [done|lia|left; lia|lia|]. right; right; left. lia.
    + apply Hmore; [cbn; by rewrite Hv|done].
Qed.

(** The page grows by at least one message, unless nothing may be scanned. *)
Lemma page_scan_progress m msgs max next :
  dense next (m :: msgs) -> 0 < max -> 0 < limit ->
  exists k bytes', (1 <= k)%nat /\
    spec_scan page_visit (m :: msgs) max 0 next ([], 0) =
      (next + Z.of_nat k, (List.filter vis (take k (m :: msgs)), bytes')).
Proof.
  intros Hd Hmax Hlim. destruct (page_scan_ok (m :: msgs) max 0 next [] 0 Hd) as
    (k & b & E & H1 & H2 & H3 & H4); [cbn; lia|]. exists k, b. split; [|done].
  destruct k as [|k]; [|lia]. cbn in H4.
  destruct H4 as [?|[?|[?|(x & _ & _ & Hne & _)]]]; [done|lia|lia|done].
Qed.

(** ** The size budget *)

Definition page_size (msgs : list EventMessage) : Z := foldr Z.add 0 (MessageByteSize <$> msgs).

Lemma page_size_app l1 l2 : page_size (l1 ++ l2) = page_size l1 + page_size l2.
Proof. unfold page_size. induction l1 as [|m l1 IH]; cbn in *; lia. Qed.

(** The first message of a page may be of any size; the others stay within the budget. *)
Definition within_budget (msgs : list EventMessage) : Prop :=
  page_size msgs <= Z.max (response_soft_limit_bytes cfg) (from_option MessageByteSize 0 (head msgs)).

Lemma page_scan_budget msgs max next :
  0 <= response_soft_limit_bytes cfg < two64 - 2 ^ 31 ->
  within_budget (spec_scan page_visit msgs max 0 next ([], 0)).2.1.
Proof using PS.
  intros Hsoft.
  cut (let st := (spec_scan page_visit msgs max 0 next ([], 0)).2 in
       within_budget st.1 /\ st.2 = page_size st.1 /\ 0 <= st.2 < two64 - 2 ^ 31 + 2 ^ 31).
  { intros Hc. apply Hc. }
  apply (spec_scan_inv (fun st => within_budget st.1 /\ st.2 = page_size st.1 /\
    0 <= st.2 < two64 - 2 ^ 31 + 2 ^ 31)); [|unfold within_budget, page_size; cbn; lia].
  intros [acc bytes] m (Hb & Hs & H0). cbn [fst snd] in *. unfold page_visit.
  destruct (vis m); cbn [negb]; [|done]. unfold page_append. cbn [pg_messages pg_bytes fst snd].
  pose proof (MessageByteSize_bound m) as Hm. change (2 ^ 31) with 2147483648 in *. unfold within_budget in *.
  destruct acc as [|m0 acc].
  - unfold page_size in *. cbn in Hs. subst bytes. cbn. destruct (_ <=? _); cbn;
      rewrite u64_add_small by lia; lia.
  - cbn [bool_decide negb andb]. rewrite bool_decide_eq_false_2 by done. cbn [negb andb].
    destruct (Z.ltb_spec (response_soft_limit_bytes cfg - Z.min bytes (response_soft_limit_bytes cfg))
      (MessageByteSize m)) as [|Hle]; [done|].
    assert (Hb' : page_size ((m0 :: acc) ++ [m]) = bytes + MessageByteSize m).
    { rewrite page_size_app, Hs. unfold page_size at 2. cbn. lia. }
    assert (Hin : 0 <= bytes + MessageByteSize m < two64 /\
      bytes + MessageByteSize m <= Z.max (response_soft_limit_bytes cfg) (MessageByteSize m0)).
    { pose proof (MessageByteSize_bound m0) as Hm0. change (2 ^ 31) with 2147483648 in *.
      rewrite <- Hs in Hb. cbn in Hb. unfold two64 in *. lia. }
    destruct (_ <=? _); cbn [fst snd pg_messages pg_bytes]; rewrite Hb', u64_add_small by lia; cbn; lia.
Qed.

End Page.

(** ** What is visible *)

Definition readable (a : AState) (principal channel_id : Z) : bool :=
  match spec_channel a channel_id with Some c => CanRead c principal | None => false end.

Definition visible (a : AState) (principal : Z) (only_my_recipient : bool) (requested : gset Z)
    (m : EventMessage) : bool :=
  (bool_decide (requested = ∅) || bool_decide (em_channel_id m ∈ requested)) &&
  readable a principal (em_channel_id m) &&
  (negb only_my_recipient || HasRecipient m principal).

(** The page a scan of the log from [from] gives. *)
Definition log_page (a : AState) (from limit : Z) (vis : EventMessage -> bool) : FetchResponse :=
  if a_max_seq a <? from
  then {| fs_messages := []; fs_last_seq := a_max_seq a; fs_next_seq := a_max_seq a + 1 |}
  else
    let r := spec_scan (page_visit limit vis) (drop (Z.to_nat from) (a_log a))
               (max_scan_records cfg) 0 from ([], 0) in
    {| fs_messages := r.2.1; fs_last_seq := a_max_seq a; fs_next_seq := r.1 |}.

(** The first channel of a request that may not be read. *)
Fixpoint spec_readable_channels (a : AState) (principal : Z) (channels : list Z) : Result unit :=
  match channels with
  | [] => Ok tt
  | id :: channels =>
      match spec_channel a id with
      | None => Err (mkStatus NOT_FOUND "channel not found")
      | Some c => if CanRead c principal then spec_readable_channels a principal channels
                  else Err (mkStatus PERMISSION_DENIED "channel not visible")
      end
  end.

Lemma spec_readable_channels_ok a principal channels id :
  spec_readable_channels a principal channels = Ok tt -> id ∈ channels ->
  readable a principal id = true.
Proof.
  induction channels as [|x channels IH]; intros Hok Hin; [by apply elem_of_nil in Hin|]. cbn in Hok.
  destruct (spec_channel a x) as [c|] eqn:Ec; [|done].
  destruct (CanRead c principal) eqn:Er; [|done].
  apply elem_of_cons in Hin as [->|Hin]; [|by apply IH]. unfold readable. by rewrite Ec.
Qed.

Section Snapshot.
Context (s : snap_t) (a : AState) (Hr : repr (snap_view s) a) (Hwf : WF a).

Lemma Reads_validate_channels principal validated channels :
  Forall is_u64 channels ->
  (forall id, id ∈ validated -> readable a principal id = true) ->
  Reads (validate_channels s principal validated channels) (spec_readable_channels a principal channels).
Proof using Hr Hwf RS.
  revert validated. induction channels as [|id channels IH]; intros validated Hu Hv; cbn; [apply Reads_ok|].
  apply Forall_cons in Hu as [Hid Hu]. case_bool_decide as Hin.
  - specialize (Hv id Hin) as Hrd. unfold readable in Hrd.
    destruct (spec_channel a id) as [c|]; [|done]. rewrite Hrd. by apply IH.
  - eapply Reads_bind; [by apply (Reads_LoadChannel s a)|].
    destruct (spec_channel a id) as [c|] eqn:Ec; [|apply Reads_ret].
    destruct (CanRead c principal) eqn:Er; [|apply Reads_ret]. cbn. apply IH; [done|].
    intros x [->%elem_of_singleton|Hx]%elem_of_union; [|by apply Hv]. unfold readable. by rewrite Ec.
Qed.

(** A logged message's channel. *)
Lemma message_channel m :
  m ∈ a_log a -> is_u64 (em_channel_id m) /\ is_Some (spec_channel a (em_channel_id m)).
Proof using Hwf.
  intros [i Hi]%list_elem_of_lookup. destruct (wf_log _ Hwf _ _ Hi) as (_ & _ & _ & Hc & _).
  unfold spec_channel. destruct (Z.eqb_spec (em_channel_id m) 0) as [->|Hne]; [by split|].
  destruct Hc as [|[c Hc]]; [done|]. destruct (wf_channels _ Hwf _ _ Hc) as [_ ?].
  pose proof (wf_next_channel _ Hwf). split; [unfold is_u64; lia|by exists c].
Qed.

(** ** Fetch *)

Section Fetch.
Context (Hmax : a_max_seq a < two64 - 1).
Context (principal limit : Z) (only_my_recipient : bool) (requested : gset Z).

(** The visitor of [FetchVisible] on the abstract state, with its cache. *)
Definition fetch_visit (pg : PageState) (m : EventMessage) : MessageScanAction * PageState :=
  if negb (bool_decide (requested = ∅)) && negb (bool_decide (em_channel_id m ∈ requested))
  then (kContinue, pg)
  else
    let known :=
      match pg_readable pg !! em_channel_id m with
      | Some b => (b, pg)
      | None =>
          let can_read := readable a principal (em_channel_id m) in
          (can_read, MkPageState (pg_messages pg) (pg_bytes pg)
                       (<[em_channel_id m := can_read]> (pg_readable pg)))
      end in
    if negb known.1 || (only_my_recipient && negb (HasRecipient m principal))
    then (kContinue, known.2)
    else page_append cfg limit known.2 m.

(** What the cache knows is right. *)
Definition cache_ok (pg : PageState) : Prop :=
  forall id b, pg_readable pg !! id = Some b -> b = readable a principal id.

Lemma page_append_cache pg m : pg_readable (page_append cfg limit pg m).2 = pg_readable pg.
Proof. unfold page_append. destruct (_ && _); [done|]. by destruct (_ <=? _). Qed.

Lemma fetch_visit_cache pg m : cache_ok pg -> cache_ok (fetch_visit pg m).2.
Proof.
  intros Hc. unfold fetch_visit. destruct (_ && _); [done|].
  destruct (pg_readable pg !! em_channel_id m) as [b|] eqn:E.
  - cbv zeta. destruct (_ || _); [done|]. intros id b'. rewrite page_append_cache. apply Hc.
  - assert (Hc' : cache_ok (MkPageState (pg_messages pg) (pg_bytes pg)
      (<[em_channel_id m := readable a principal (em_channel_id m)]> (pg_readable pg)))).
    { intros id b. cbn [pg_readable]. intros [[<- <-]|[_ Hb]]%lookup_insert_Some; [done|by apply Hc]. }
    cbv zeta. destruct (_ || _); [done|]. intros id b'. rewrite page_append_cache. apply Hc'.
Qed.

Lemma Reads_fetch_visitor pg m :
  cache_ok pg -> m ∈ a_log a ->
  Reads (fetch_visitor cfg s principal limit only_my_recipient requested pg m) (Ok (fetch_visit pg m)).
Proof using Hr Hwf RS.
  intros Hc Hm. unfold fetch_visitor, fetch_visit. destruct (_ && _); [apply Reads_ok|].
  set (known := match pg_readable pg !! em_channel_id m with Some b => (b, pg) | None => _ end).
  apply (Reads_bind _ _ known); [unfold known|cbv zeta; destruct (_ || _); apply Reads_ok].
  destruct (pg_readable pg !! em_channel_id m) as [b|]; [apply Reads_ok|].
  destruct (message_channel m Hm) as [Hu [c Ec]].
  eapply Reads_bind; [by apply (Reads_LoadChannel s a)|]. unfold readable. rewrite Ec. apply Reads_ok.
Qed.

(** The cached visitor and the visibility predicate see the same page. *)
Lemma fetch_visit_sim pg st m :
  cache_ok pg -> pg_messages pg = st.1 -> pg_bytes pg = st.2 ->
  let r := page_visit limit (visible a principal only_my_recipient requested) st m in
  (fetch_visit pg m).1 = r.1 /\
  pg_messages (fetch_visit pg m).2 = r.2.1 /\ pg_bytes (fetch_visit pg m).2 = r.2.2.
Proof.
  intros Hc E1 E2. unfold fetch_visit, page_visit, visible.
  destruct (bool_decide (requested = ∅)), (bool_decide (em_channel_id m ∈ requested)); cbn [negb andb orb];
    try done.
  all: set (known := match pg_readable pg !! em_channel_id m with Some b => _ | None => _ end).
  all: assert (Hk : known.1 = readable a principal (em_channel_id m) /\
         pg_messages known.2 = st.1 /\ pg_bytes known.2 = st.2)
         by (unfold known; destruct (pg_readable pg !! em_channel_id m) eqn:E; [by apply Hc in E|done]).
  all: destruct Hk as (Hk & Hk1 & Hk2); rewrite Hk; clearbody known.
  all: destruct (readable a principal (em_channel_id m)); cbn [negb andb orb]; [|done].
  all: destruct only_my_recipient, (HasRecipient m principal); cbn [negb andb orb]; try done.
  all: unfold page_append; rewrite Hk1, Hk2; cbn [pg_messages pg_bytes];
       destruct (_ && _); [done|]; cbn [pg_messages pg_bytes]; by destruct (_ <=? _).
Qed.

Lemma Reads_FetchVisible from channels :
  0 <= from -> requested = list_to_set channels ->
  (forall id, id ∈ requested -> readable a principal id = true) ->
  Reads (FetchVisible cfg s principal from limit only_my_recipient channels)
    (Ok (log_page a from limit (visible a principal only_my_recipient requested))).
Proof using Hr Hwf Hmax RS.
  intros Hfrom Hq Hreq. unfold FetchVisible, log_page. cbv zeta. rewrite <- Hq.
  eapply Reads_bind; [by apply Reads_MaxSeq|]. pose proof (wf_max_seq_nonneg _ Hwf).
  destruct (Z.ltb_spec (a_max_seq a) from) as [|Hle].
  { rewrite u64_add_small by lia. apply Reads_ok. }
  set (pg0 := MkPageState [] 0 _).
  assert (Hc0 : cache_ok pg0).
  { intros id b. cbn. rewrite lookup_gset_to_gmap_Some. intros [Hin <-]. by rewrite Hreq. }
  eapply Reads_bind.
  { eapply (Reads_ScanMessages s a Hr Hwf _ fetch_visit cache_ok); [|done|lia|done].
    intros pg m Hc Hm. split; [by apply Reads_fetch_visitor|by apply fetch_visit_cache]. }
  set (scan1 := spec_scan fetch_visit _ _ _ _ _).
  edestruct (spec_scan_sim (fun pg st => cache_ok pg /\ pg_messages pg = st.1 /\ pg_bytes pg = st.2)
    fetch_visit (page_visit limit (visible a principal only_my_recipient requested))
    (drop (Z.to_nat from) (a_log a)) (max_scan_records cfg) 0 from pg0 ([], 0))
    as [Ha (_ & Hb & _)]; [|done|].
  - intros pg st m (Hc & E1 & E2) _. destruct (fetch_visit_sim pg st m Hc E1 E2) as (? & ? & ?).
    split; [done|]. split_and!; [by apply fetch_visit_cache|done|done].
  - fold scan1 in Ha, Hb. rewrite <- Ha, <- Hb. apply Reads_ok.
Qed.

End Fetch.
End Snapshot.

Definition spec_fetch (a : AState) (req : FetchRequest) : Result FetchResponse :=
  if (fr_limit req =? 0) || (1000 <? fr_limit req)
  then Err (mkStatus INVALID_ARGUMENT "limit must be in 1..1000")
  else
    rdo spec_authenticate a (fr_principal req) (fr_token req) in
    rdo spec_readable_channels a (fr_principal req) (fr_channels req) in
    Ok (log_page a (fr_from_seq req) (fr_limit req)
          (visible a (fr_principal req) (fr_only_my_recipient req) (list_to_set (fr_channels req)))).

Definition fetch_request_ok (req : FetchRequest) : Prop :=
  is_u64 (fr_principal req) /\ 0 <= fr_from_seq req /\ Forall is_u64 (fr_channels req).

Lemma Fetch_answers a req :
  WF a -> a_max_seq a < two64 - 1 -> fetch_request_ok req ->
  Answers cfg a (Fetch cfg req) (spec_fetch a req).
Proof using RS.
  intros Hwf Hmax (Hp & Hf & Hc). apply Answers_available. unfold spec_fetch.
  destruct (_ || _); [apply Answers_ret|]. apply Answers_snapshot. intros s Hs.
  apply CReads_bind; [by apply CReads_Authenticate|]. intros _ _.
  apply CReads_bind; [apply CReads_storage, (Reads_validate_channels s a); [done..|by intros ? ?%elem_of_empty]|].
  intros [] Hok. apply CReads_storage, (Reads_FetchVisible s a); [done..|].
  intros id Hid%elem_of_list_to_set. by eapply spec_readable_channels_ok.
Qed.

(** ** The administrator's listing *)

Definition list_visit (limit : Z) (pg : PageState) (m : EventMessage)
    : MessageScanAction * PageState :=
  let pg := match pg_readable pg !! em_channel_id m with
            | Some _ => pg
            | None => MkPageState (pg_messages pg) (pg_bytes pg)
                        (<[em_channel_id m := true]> (pg_readable pg))
            end in
  page_append cfg limit pg m.

Lemma Reads_ListAllMessages s a from limit :
  repr (snap_view s) a -> WF a -> a_max_seq a < two64 - 1 -> 0 <= from ->
  Reads (ListAllMessages cfg s from limit) (Ok (log_page a from limit (fun _ => true))).
Proof using RS.
  intros Hr Hwf Hmax Hfrom. unfold ListAllMessages, log_page.
  eapply Reads_bind; [by apply Reads_MaxSeq|]. pose proof (wf_max_seq_nonneg _ Hwf).
  destruct (Z.ltb_spec (a_max_seq a) from) as [|Hle].
  { rewrite u64_add_small by lia. apply Reads_ok. }
  eapply Reads_bind.
  { eapply (Reads_ScanMessages s a Hr Hwf _ (list_visit limit) (fun _ => True)); [|done|lia|done].
    intros pg m _ Hm. split; [|done]. unfold list_visitor, list_visit.
    destruct (message_channel a Hwf m Hm) as [Hu [c Ec]].
    eapply Reads_bind; [|apply Reads_ok].
    destruct (pg_readable pg !! em_channel_id m); [apply Reads_ok|].
    eapply Reads_bind; [by apply (Reads_LoadChannel s a)|]. rewrite Ec. apply Reads_ok. }
  set (scan1 := spec_scan (list_visit limit) _ _ _ _ _).
  edestruct (spec_scan_sim (fun pg st => pg_messages pg = st.1 /\ pg_bytes pg = st.2)
    (list_visit limit) (page_visit limit (fun _ => true))
    (drop (Z.to_nat from) (a_log a)) (max_scan_records cfg) 0 from (MkPageState [] 0 ∅) ([], 0))
    as [Ha (Hb & _)]; [|done|].
  - intros pg st m (E1 & E2) _. unfold list_visit, page_visit. cbn [negb].
    set (pg' := match _ with Some _ => pg | None => _ end).
    assert (E : pg_messages pg' = st.1 /\ pg_bytes pg' = st.2)
      by (unfold pg'; by destruct (pg_readable pg !! em_channel_id m)).
    destruct E as [Hk1 Hk2]. clearbody pg'. unfold page_append. rewrite Hk1, Hk2.
    cbn [pg_messages pg_bytes]. destruct (_ && _); [done|]. cbn [pg_messages pg_bytes].
    by destruct (_ <=? _).
  - fold scan1 in Ha, Hb. rewrite <- Ha, <- Hb. apply Reads_ok.
Qed.

Definition spec_list_messages (a : AState) (from limit : Z) : Result FetchResponse :=
  if (limit =? 0) || (1000 <? limit) then Err (mkStatus INVALID_ARGUMENT "limit must be in 1..1000")
  else Ok (log_page a from limit (fun _ => true)).

Lemma ListMessages_answers a from limit :
  WF a -> a_max_seq a < two64 - 1 -> 0 <= from ->
  Answers cfg a (ListMessages cfg from limit) (spec_list_messages a from limit).
Proof using RS.
  intros Hwf Hmax Hf. apply Answers_available. unfold spec_list_messages.
  destruct (_ || _); [apply Answers_ret|]. apply Answers_snapshot. intros s Hs.
  by apply CReads_storage, Reads_ListAllMessages.
Qed.

(** ** The contract of a page *)

Lemma log_dense a from : WF a -> 0 <= from -> dense from (drop (Z.to_nat from) (a_log a)).
Proof.
  intros Hwf Hf i m Hi. rewrite lookup_drop in Hi. apply (wf_log _ Hwf) in Hi as (-> & _). lia.
Qed.

(** The messages from [from] up to, but not including, [to]. *)
Definition log_range (a : AState) (from to : Z) : list EventMessage :=
  take (Z.to_nat (to - from)) (drop (Z.to_nat from) (a_log a)).

Lemma log_page_ok a from limit vis :
  WF a -> 0 <= from <= a_max_seq a -> 0 < limit ->
  let r := log_page a from limit vis in
  fs_messages r = List.filter vis (log_range a from (fs_next_seq r)) /\
  from <= fs_next_seq r <= a_max_seq a + 1 /\ fs_last_seq r = a_max_seq a /\
  Z.of_nat (length (fs_messages r)) <= limit /\
  (0 < max_scan_records cfg -> from < fs_next_seq r) /\
  (fs_next_seq r <= a_max_seq a ->
     max_scan_records cfg <= fs_next_seq r - from \/
     Z.of_nat (length (fs_messages r)) = limit \/ fs_messages r <> []).
Proof.
  intros Hwf Hfrom Hlim. unfold log_page. rewrite (proj2 (Z.ltb_ge _ _)) by lia. cbv zeta. cbn [fs_messages fs_next_seq fs_last_seq].
  pose proof (log_dense a from Hwf ltac:(lia)) as Hd.
  assert (Hlen : Z.of_nat (length (drop (Z.to_nat from) (a_log a))) = a_max_seq a - from + 1).
  { rewrite length_drop. unfold a_max_seq in *. lia. }
  destruct (page_scan_ok limit vis _ (max_scan_records cfg) 0 from [] 0 Hd ltac:(cbn; lia))
    as (k & b & E & H1 & H2 & H3 & H4). rewrite E. cbn [fst snd app] in *. unfold log_range.
  replace (Z.to_nat (from + Z.of_nat k - from)) with k by lia.
  split_and!; [done|lia|lia|done|done| |].
  - intros Hms. destruct (drop (Z.to_nat from) (a_log a)) as [|m0 msgs] eqn:Edrop; [cbn in Hlen; lia|].
    destruct (page_scan_progress limit vis m0 msgs (max_scan_records cfg) from Hd Hms Hlim)
      as (k' & b' & Hk' & E'). rewrite E in E'. simplify_eq. lia.
  - intros Hnext. destruct H4 as [?|[?|[?|(m & _ & _ & Hne & _)]]]; [lia|left; lia|auto..].
Qed.

(** Following [next_seq] until it passes [last_seq]. *)
Fixpoint follow_pages (fuel : nat) (a : AState) (from limit : Z) (vis : EventMessage -> bool)
    : option (list EventMessage) :=
  match fuel with
  | O => None
  | S fuel =>
      let r := log_page a from limit vis in
      if fs_last_seq r <? fs_next_seq r then Some (fs_messages r)
      else (fun rest => fs_messages r ++ rest) <$> follow_pages fuel a (fs_next_seq r) limit vis
  end.

Lemma filter_app' {A} (f : A -> bool) l1 l2 :
  List.filter f (l1 ++ l2) = List.filter f l1 ++ List.filter f l2.
Proof. induction l1 as [|x l1 IH]; cbn; [done|]. rewrite IH. by destruct (f x). Qed.

Lemma follow_pages_ok fuel a from limit vis :
  WF a -> 0 <= from <= a_max_seq a -> 0 < limit -> 0 < max_scan_records cfg ->
  (Z.to_nat (a_max_seq a - from) < fuel)%nat ->
  follow_pages fuel a from limit vis = Some (List.filter vis (drop (Z.to_nat from) (a_log a))).
Proof.
  intros Hwf Hfrom Hlim Hms. revert from Hfrom.
  induction fuel as [|fuel IH]; intros from Hfrom Hfuel; [lia|]. cbn [follow_pages]. cbv zeta.
  destruct (log_page_ok a from limit vis Hwf Hfrom Hlim) as (Hmsg & Hn & -> & _ & Hprog & _).
  specialize (Hprog Hms). rewrite Hmsg. set (n := fs_next_seq _) in *. unfold log_range.
  destruct (Z.ltb_spec (a_max_seq a) n).
  - rewrite take_ge; [done|]. rewrite length_drop. unfold a_max_seq in *. lia.
  - rewrite IH by lia. cbn. f_equal. rewrite <- filter_app'. f_equal.
    rewrite <- (take_drop (Z.to_nat (n - from)) (drop (Z.to_nat from) (a_log a))) at 2.
    f_equal. rewrite drop_drop. f_equal. lia.
Qed.

End Pages.
