(* ===== verification/Startup.v ===== *)
(** * Creating, checking and recovering a storage root

    A new root represents [initial_state]; every represented state passes the
    startup validation; recovery removes what unfinished object writes left, in the
    database and in the object directory. *)

From S2P Require Import Prelude Status Encoding Tokens Proto Json Platform Keys World FileStore.
From S2P Require Import Storage Core Commands Model Reads Scan Spec SystemMessages Files Durability Refine.

Section Startup.
Context {R : RocksDB} {P : Protobuf} {F : PosixDir} {H : Host}.
Context {RS : RocksDBSpec} {PS : ProtobufSpec} {FS : PosixDirSpec}.

(** ** A new root *)

Definition init_ops (event_ms : Z) : list (Key * option Val) :=
  [(KSchema, Some (VU64 kSchemaVersion)); (KMaxSeq, Some (VU64 0)); (KNextUuid, Some (VU64 1));
   (KNextChannel, Some (VU64 1)); (KNextObject, Some (VU64 1)); (KUuid 0, Some (VU64 0));
   (KMessage 0, Some (VMessage (InitializationMessage event_ms)))].

Lemma init_batch_rep event_ms :
  is_Some (SerializeMessage (InitializationMessage event_ms)) ->
  Forall2 op_rep (InitializationBatch event_ms) (init_ops event_ms).
Proof using PS.
  intros [b Hb]. unfold InitializationBatch, init_ops. rewrite Hb. cbn [default from_option].
  assert (ParseMessage b = Some (InitializationMessage event_ms)).
  { apply ParseMessage_Serialize; [|done]. split; [|constructor].
    apply payload_text_utf8. vm_compute. reflexivity. }
  solve_ops.
Qed.

Lemma init_repr event_ms :
  is_Some (SerializeMessage (InitializationMessage event_ms)) ->
  repr (apply_batch (InitializationBatch event_ms) ∅) (initial_state event_ms).
Proof using PS.
  intros Hs. eapply repr_store_ext; [|eapply (repr_store_batch _ (fun _ => None));
    [|by apply init_batch_rep]].
  - intros k Hk. unfold tapply, init_ops, tset. cbn [fold_left fst snd].
    destruct k; repeat case_decide; simplify_eq/=; try done.
    + rewrite lookup_singleton_ne; [done|congruence].
    + assert (seq <> 0) by congruence. unfold a_message. destruct (Z.ltb_spec seq 0); [done|]. cbn.
      by rewrite (proj2 (lookup_ge_None [_] _)) by (cbn; lia).
  - split; [intros; apply lookup_empty|]. by intros b s ?%lookup_empty_Some.
Qed.

(** [InitializeNew] on an empty database. *)
Lemma InitializeNew_outcome w :
  view w = ∅ ->
  let ms := Z.quot (os_system_clock (st_os w)).1 1000000 in
  is_Some (SerializeMessage (InitializationMessage ms)) ->
  wp InitializeNew_commit (fun r w' =>
    match r with
    | Ok _ => repr (view w') (initial_state ms) /\ (forall x, disk w' x -> x = view w')
    | Err s => code s <> OK /\ (view w' = ∅ \/ repr (view w') (initial_state ms))
    end) w.
Proof using PS RS.
  intros Hv ms Hs. pose proof (init_repr ms Hs) as Hr. unfold InitializeNew_commit.
  apply wp_bind. unfold wp at 1, on_os. fold ms.
  destruct (os_system_clock (st_os w)) as [now o] eqn:Eclock. cbn in ms. fold ms.
  apply wp_bind, wp_on_os. intros i o1. unfold status_ok. case_bool_decide as Hi; cbn [negb].
  2:{ apply wp_ret. split; [done|by left]. }
  apply wp_bind, wp_on_db. unfold wp at 1. cbn [st_db st_fs st_os].
  pose proof (Write_sync (InitializationBatch ms) (st_db w)) as Hw.
  change (db_view (st_db w)) with (view w) in Hw. rewrite Hv in Hw.
  destruct (db_Write _ _ (st_db w)) as [st d']. destruct (rocks_ok st) eqn:Est; destruct Hw as [Hw Hx].
  - rewrite RocksToStatus_ok by done. unfold bind_ok. apply wp_bind, wp_ret. cbn iota. unfold inject.
    apply wp_bind, wp_on_os. intros i2 o2. apply wp_ret. cbn. unfold view. cbn.
    unfold check_status, status_ok. case_bool_decide; [by rewrite Hw in *|]. split; [done|]. right. by rewrite Hw.
  - destruct (RocksToStatus_fatal st "finish storage initialization" Est) as [Hf Hc].
    unfold bind_ok. apply wp_bind, wp_ret. unfold check_status, status_ok.
    rewrite bool_decide_eq_false_2 by done. apply wp_ret. split; [done|]. unfold view. cbn.
    destruct Hw as [->| ->]; auto.
Qed.

(** ** Validation *)

(** A computation on a snapshot of the current contents. *)
Lemma wp_with_snapshot {B} (k : snap_t -> RM StorageW B) Q w :
  (forall s w', snap_view s = view w -> same_store w w' -> wp (k s) Q w') ->
  (forall e w', same_store w w' -> fatal_status e -> reported e -> Q (Err e) w') ->
  wp (bind_ok CreateSnapshot k) Q w.
Proof using RS.
  intros Hk Hbad. unfold bind_ok, CreateSnapshot. apply wp_bind, wp_bind, wp_on_db. unfold wp at 1.
  pose proof (GetSnapshot_spec (st_db w)) as Hs.
  destruct (db_GetSnapshot (st_db w)) as [[s|] d'] eqn:Es; destruct Hs as [Hd Hs]; apply wp_ret.
  - apply Hk; [by apply Hs|done].
  - apply wp_ret, Hbad; [done..|]. split; [done|]. apply (Fallible_snapshot (st_db w)). by rewrite Es.
Qed.

Lemma wf_initialization a :
  WF a -> exists m, a_message a 0 = Some m /\ ValidInitializationMessage m = true /\ em_uuid m = 0.
Proof.
  intros Hwf. destruct (a_log a) as [|m log] eqn:E; [by destruct (wf_log_nonempty _ Hwf)|].
  assert (Hm : a_message a 0 = Some m) by (unfold a_message; cbn; by rewrite E).
  exists m. destruct (wf_message _ _ _ Hwf Hm) as (_ & Hres & _). split; [done|].
  unfold invalid_reserved_fields in Hres. cbn in Hres. apply negb_false_iff in Hres.
  split; [done|]. unfold ValidInitializationMessage in Hres.
  destruct (Z.eqb_spec (em_uuid m) 0); [done|]. by rewrite !orb_true_r in Hres.
Qed.

Lemma Validate_ok w a :
  repr (view w) a -> WF a ->
  wp Validate (fun r w' => same_store w w' /\ (r = Ok tt \/ faulted r)) w.
Proof using RS.
  intros Hr Hwf. unfold Validate. apply wp_with_snapshot.
  2:{ intros e w' Hs Hf Hc. split; [done|]. right. by exists e. }
  intros s w1 Hs Hs1. rewrite <- Hs in Hr.
  destruct (wf_initialization a Hwf) as (m & Hm & Hvalid & Huuid).
  pose proof (wf_next_uuid _ Hwf). pose proof (wf_next_channel _ Hwf). pose proof (wf_next_object _ Hwf).
  match goal with |- wp ?m _ _ => assert (HR : Reads m (Ok tt)) end.
  { eapply Reads_bind; [by apply (Reads_u64 s a Hr KSchema)|]. cbn [negb Z.eqb].
    eapply Reads_bind; [by apply (Reads_MaxSeq s a)|].
    eapply Reads_bind; [by apply (Reads_NextUuid s a)|]. rewrite (proj2 (Z.eqb_neq _ _)) by lia.
    eapply Reads_bind; [by apply (Reads_NextChannelId s a)|]. rewrite (proj2 (Z.eqb_neq _ _)) by lia.
    eapply Reads_bind; [by apply (Reads_NextObjectId s a)|]. rewrite (proj2 (Z.eqb_neq _ _)) by lia.
    destruct (repr_some _ _ (KMessage 0) (VMessage m) Hr) as (b & Hb & Hpm); [done|by cbn [a_get]; rewrite Hm|].
    cbn [key_bytes] in Hb. apply wp_Get.
    - intros g Hg E1 E2. rewrite E1, E2. by eexists.
    - intros g [Hok Hnf] Hst. destruct (IsNotFound g.1); [rewrite Hnf in Hb; done|].
      rewrite orb_false_r in Hst. rewrite Hst. cbn [negb]. specialize (Hok Hst).
      replace g.2 with b by congruence. cbn [val_rep] in Hpm. rewrite Hpm, Hvalid. cbn [negb].
      eapply Reads_bind; [by apply (Reads_UsedUuidSeq s a)|].
      replace (a_uuids a !! 0) with (Some 0); [apply Reads_ok|].
      symmetry. apply (wf_uuids _ Hwf). by exists m. }
  eapply wp_mono; [|apply HR]. intros r w' [Hs' Hr']. split; [by etransitivity|done].
Qed.

(** ** Recovery *)

Definition a_recovered (a : AState) : AState := a_set_objects a ∅ (a_committed a) (a_next_object a).

Definition preparing_objects (a : AState) : list StoredObject := (sorted_entries (a_preparing a)).*2.

Lemma preparing_object a o :
  WF a -> o ∈ preparing_objects a ->
  a_preparing a !! so_object_id o = Some o /\ 0 < so_object_id o < two64.
Proof.
  intros Hwf ([i o'] & -> & Ho%sorted_entries_elem)%list_elem_of_fmap. cbn.
  destruct (wf_preparing _ Hwf _ _ Ho) as [(-> & _) ?]. pose proof (wf_next_object _ Hwf).
  split; [done|lia].
Qed.

Lemma ListPreparingObjects_ok w a :
  repr (view w) a -> WF a ->
  wp ListPreparingObjects (fun r w' => same_store w w' /\ (r = Ok (preparing_objects a) \/ faulted r)) w.
Proof using RS.
  intros Hr Hwf. unfold ListPreparingObjects. apply wp_Iterate.
  intros l st full d' Hv Hiter Hl Hst Hfall. cbn [from_option] in Hiter.
  assert (Hu : forall i o, a_preparing a !! i = Some o -> is_u64 i).
  { intros i o E. destruct (wf_preparing _ Hwf _ _ E) as [_ ?].
    pose proof (wf_next_object _ Hwf). unfold is_u64. lia. }
  destruct (prefix_iteration _ a Hr CF_objects kPreparingObjectPrefix KPreparing (a_preparing a)
    VObject full) as (es & rest & -> & Hrest & HF); try done.
  { intros k b. apply key_bytes_preparing. }
  apply wp_ret. split; [done|].
  eapply (listing_loop_ok list_preparing_loop kPreparingObjectPrefix "list preparing objects" VObject
    l es rest st _ []); try done.
  - intros k b l' st' acc Hp. cbn. by rewrite Hp.
  - intros [i o] b l' st' acc E%sorted_entries_elem Hb. cbn [list_preparing_loop fst snd].
    rewrite NumericKey_prefix. cbn [negb]. rewrite DecodeNumericKey_NumericKey by (by eapply Hu).
    cbn [rbind]. destruct (wf_preparing _ Hwf _ _ E) as [Ho Hi].
    rewrite (ParseObject_ok i o b Ho); [done|lia|done].
Qed.

Lemma Reads_check_not_committed s a objects :
  repr (snap_view s) a -> WF a ->
  (forall o, o ∈ objects -> a_preparing a !! so_object_id o = Some o /\ 0 < so_object_id o < two64) ->
  Reads (check_not_committed s objects) (Ok tt).
Proof using RS.
  intros Hr Hwf. induction objects as [|o objects IH]; intros Ho; cbn [check_not_committed]; [apply Reads_ok|].
  destruct (Ho o) as [Hp Hi]; [by left|].
  eapply Reads_bind; [apply (Reads_GetCommittedObject s a); [done..|unfold is_u64; lia]|].
  destruct (a_committed a !! so_object_id o) as [c|] eqn:E.
  - pose proof (wf_disjoint _ Hwf) as Hd. rewrite map_disjoint_spec in Hd.
    by destruct (Hd _ _ _ Hp E).
  - apply IH. intros o' Ho'. apply Ho. by right.
Qed.

(** [Commit] at the storage layer. *)
Lemma wp_Commit batch w Q :
  (forall w', view w' = apply_batch batch (view w) -> st_fs w' = st_fs w ->
     (forall x, disk w' x -> x = view w') -> Q (Ok tt) w') ->
  (forall s w', fatal_status s -> reported s -> st_fs w' = st_fs w ->
     (view w' = view w \/ view w' = apply_batch batch (view w)) ->
     (forall x, disk w' x -> disk w x \/ x = view w \/ x = apply_batch batch (view w)) -> Q (Err s) w') ->
  wp (Commit batch) Q w.
Proof using RS.
  intros Hok Hbad. unfold Commit. apply wp_bind. unfold wp at 1, on_os.
  destruct (InjectStorageFault kBeforeCommit (st_os w)) as [i o1] eqn:E1.
  unfold status_ok. case_bool_decide as Hi; cbn [negb].
  2:{ apply wp_ret, Hbad; [done| |done|by left|by left]. split; [done|by eapply injection_fallible]. }
  apply wp_bind, wp_on_db. unfold wp at 1. cbn [st_db st_fs st_os].
  pose proof (Write_sync batch (st_db w)) as Hw. destruct (db_Write _ _ (st_db w)) as [st d'] eqn:E2.
  destruct (rocks_ok st) eqn:Est; destruct Hw as [Hw Hx].
  - rewrite RocksToStatus_ok by done. rewrite bool_decide_eq_true_2 by done. cbn [negb].
    apply wp_bind. unfold wp at 1, on_os. cbn [st_db st_fs st_os].
    destruct (InjectStorageFault kAfterCommit o1) as [i2 o2] eqn:E3.
    case_bool_decide; apply wp_ret; [by apply Hok|].
    apply Hbad; [done| |done|by right|intros x ->%Hx; by right; right].
    split; [done|by eapply injection_fallible].
  - destruct (RocksToStatus_fatal st "commit storage batch" Est) as [Hf Hc].
    rewrite bool_decide_eq_false_2 by done. cbn [negb]. apply wp_ret, Hbad; [done| |done..].
    split; [done|]. apply (Fallible_write SynchronousWriteOptions batch (st_db w)). by rewrite E2.
Qed.

Definition recovery_ops (objects : list StoredObject) : list (Key * option Val) :=
  (fun o => (KPreparing (so_object_id o), None)) <$> objects.

Lemma recovery_batch_rep objects batch ops :
  (forall o, o ∈ objects -> 0 < so_object_id o < two64) -> Forall2 op_rep batch ops ->
  Forall2 op_rep (fold_left (fun b o => DeletePreparingObject b (so_object_id o)) objects batch)
    (ops ++ recovery_ops objects).
Proof.
  revert batch ops. induction objects as [|o objects IH]; intros batch ops Ho Hb; cbn.
  { by rewrite app_nil_r. }
  assert (is_u64 (so_object_id o)) by (specialize (Ho o ltac:(by left)); unfold is_u64; lia).
  rewrite cons_middle, app_assoc. apply IH; [intros o' Ho'; apply Ho; by right|].
  apply Forall2_app; [done|]. solve_ops.
Qed.

Lemma tapply_recovery objects f k :
  tapply (recovery_ops objects) f k =
  if decide (k ∈ (fun o => KPreparing (so_object_id o)) <$> objects) then None else f k.
Proof.
  revert f. induction objects as [|o objects IH]; intros f.
  { rewrite decide_False; [done|]. by intros ?%elem_of_nil. }
  assert (E : tapply (recovery_ops (o :: objects)) f k =
    tapply (recovery_ops objects) (tset f (KPreparing (so_object_id o)) None) k) by done.
  rewrite E, IH. clear E. cbn [fmap list_fmap]. unfold tset. destruct (decide (k ∈ _ <$> objects)) as [Hin|Hin].
  - rewrite decide_True; [done|]. by right.
  - case_decide as Hk; [rewrite decide_True; [done|]; subst; by left|].
    rewrite decide_False; [done|]. by intros [?|?]%elem_of_cons.
Qed.

Lemma tapply_recovered a k :
  WF a -> tapply (recovery_ops (preparing_objects a)) (a_get a) k = a_get (a_recovered a) k.
Proof.
  intros Hwf. rewrite tapply_recovery. case_decide as Hin.
  - apply list_elem_of_fmap in Hin as (o & -> & _). cbn. by rewrite lookup_empty.
  - destruct k; try done. cbn. rewrite lookup_empty.
    destruct (a_preparing a !! id) as [o|] eqn:E; [|done]. destruct Hin.
    apply list_elem_of_fmap. exists o. destruct (wf_preparing _ Hwf _ _ E) as [(-> & _) _].
    split; [done|]. apply list_elem_of_fmap. exists (id, o). split; [done|]. by apply sorted_entries_elem.
Qed.

(** The crash contents after a recovery that ended, and after one that failed. *)
Definition recovery_disk (a : AState) (w w' : StorageW) {A} (r : Result A) : Prop :=
  match r with
  | Ok _ => (forall x, disk w' x -> x = view w') \/ st_contents w' = st_contents w
  | Err _ => forall x, disk w' x -> disk w x \/ repr x a \/ repr x (a_recovered a)
  end.

(** The names an interrupted writer can have left. *)
Definition recovery_names (a : AState) : list string :=
  (so_object_id <$> preparing_objects a) ≫= object_names.

(** What a recovery comes to. *)
Definition recovery_post (a : AState) (w : StorageW) (r : Result unit) (w' : StorageW) : Prop :=
  recovery_disk a w w' r /\ keeping (recovery_names a) w w' /\
  match r with
  | Ok _ => repr (view w') (a_recovered a) /\
            dir w' = without (so_object_id <$> preparing_objects a) (dir w)
  | Err s => code s <> OK /\ (repr (view w') a \/ repr (view w') (a_recovered a)) /\
             touched (recovery_names a) (dir w) (dir w')
  end.

(** It failed before it wrote to the database. *)
Lemma recovery_failed a w s w' :
  repr (view w) a -> code s <> OK -> st_contents w' = st_contents w ->
  touched (recovery_names a) (dir w) (dir w') -> keeping (recovery_names a) w w' ->
  recovery_post a w (Err s) w'.
Proof.
  intros Hr Hc Hv Ht Hk. injection Hv as Hv Hd.
  split; [cbn; rewrite Hd; by left|]. split_and!; [done|done|left; by rewrite Hv|done].
Qed.

Lemma keeping_fs names w w' : st_fs w' = st_fs w -> keeping names w w'.
Proof. unfold keeping. intros ->. apply fs_keeps_refl. Qed.

Lemma recovery_unread a w s w' :
  repr (view w) a -> code s <> OK -> st_contents w' = st_contents w -> st_fs w' = st_fs w ->
  recovery_post a w (Err s) w'.
Proof.
  intros Hr Hc Hv Hf. apply recovery_failed; [done..| |by apply keeping_fs].
  apply touched_same. unfold dir. by rewrite Hf.
Qed.

(** With its batch committed, or not. *)
Lemma recovery_commit a w f o :
  repr (view w) a -> WF a -> fs_keeps (recovery_names a) (st_fs w) f ->
  dir (MkStorageW (st_db w) f o) = without (so_object_id <$> preparing_objects a) (dir w) ->
  wp (Commit (fold_left (fun b o => DeletePreparingObject b (so_object_id o)) (preparing_objects a) []))
    (recovery_post a w) (MkStorageW (st_db w) f o).
Proof using RS.
  intros Hr Hwf Hk Hdir.
  assert (Hrec : repr (apply_batch (fold_left (fun b o => DeletePreparingObject b (so_object_id o))
    (preparing_objects a) []) (view w)) (a_recovered a)).
  { eapply repr_batch; [done|apply (recovery_batch_rep _ [] []); [|constructor]|].
    - intros o' Ho. by apply (preparing_object a).
    - intros k _. by apply tapply_recovered. }
  apply wp_Commit; change (view (MkStorageW (st_db w) f o)) with (view w).
  - intros w5 Hv5 Hf5 Hd5. split; [by left|]. unfold keeping. rewrite Hf5.
    split_and!; [done|by rewrite Hv5|unfold dir at 1; by rewrite Hf5].
  - intros e w5 Hfe [Hc _] Hf5 Hv5 Hd5. split.
    + intros x Hx. destruct (Hd5 x Hx) as [?|[->| ->]]; auto.
    + unfold keeping. rewrite Hf5. split_and!; [done|done|destruct Hv5 as [->| ->]; auto|]. intros n Hn.
      replace (dir w5) with (dir (MkStorageW (st_db w) f o)) by (unfold dir; by rewrite Hf5).
      by rewrite Hdir, without_lookup, decide_False.
Qed.

Lemma recovery_post_contents a w w0 r w' :
  st_contents w0 = st_contents w -> st_fs w0 = st_fs w -> recovery_post a w0 r w' -> recovery_post a w r w'.
Proof.
  intros Hv Hf. injection Hv as Hv Hd. unfold recovery_post, recovery_disk, keeping, dir.
  rewrite Hf, Hv, Hd. done.
Qed.

Lemma RecoverPreparingObjects_outcome w a :
  repr (view w) a -> WF a -> wp RecoverPreparingObjects (recovery_post a w) w.
Proof using FS RS.
  intros Hr Hwf. unfold RecoverPreparingObjects. unfold bind_ok at 1. apply wp_bind.
  eapply wp_mono; [|by apply ListPreparingObjects_ok]. intros r w1 [(Hv1 & Hf1 & _) [->|(e & -> & Hf & Hc & _)]].
  2:{ by apply wp_ret, recovery_unread. }
  destruct (preparing_objects a) as [|o0 os] eqn:Eos.
  { apply wp_ret. split; [by right|]. split; [by apply keeping_fs|]. rewrite Eos. split; [|unfold dir; by rewrite Hf1].
    injection Hv1 as Hv1 _. rewrite Hv1. eapply repr_store_ext; [|exact Hr]. intros k _.
    rewrite <- (tapply_recovered a k Hwf), Eos. done. }
  rewrite <- Eos. clear o0 os Eos.
  apply wp_with_snapshot.
  2:{ intros e w' (Hv & Hfs & _) Hf [Hc _]. apply recovery_unread; congruence. }
  intros s w2 Hs (Hv2 & Hf2 & _). unfold bind_ok at 1. apply wp_bind. pose proof Hv1 as Hv1'.
  injection Hv1' as Hv1' _.
  eapply wp_mono; [|apply (Reads_check_not_committed s a); [congruence|done|intros o; by apply preparing_object]].
  intros r w3 [(Hv3 & Hf3 & _) [->|(e & -> & Hf & Hc & _)]].
  2:{ apply wp_ret, recovery_unread; congruence. }
  assert (Hv : st_contents w3 = st_contents w) by congruence. assert (Hfs : st_fs w3 = st_fs w) by congruence.
  unfold bind_ok. apply wp_bind. eapply wp_mono; [intros r w'; apply wp_mono; intros r' w''; by apply (recovery_post_contents a w w3)|].
  assert (Hr3 : repr (view w3) a) by (injection Hv as -> _; done).
  eapply wp_mono; [|apply wp_both; [apply kept_Cleanup|apply (wp_Cleanup _ _ (fun r w4 => st_db w4 = st_db w3 /\
    match r with
    | Ok _ => dir w4 = without (so_object_id <$> preparing_objects a) (dir w3)
    | Err s => code s <> OK /\ touched (recovery_names a) (dir w3) (dir w4)
    end))]]; [|by auto|].
  - intros [[]|e] [d4 f4 o4] (Hk & Hd4 & H4); cbn in Hd4; subst d4; [by apply recovery_commit|].
    destruct H4 as [Hc Ht]. by apply wp_ret, recovery_failed.
  - intros e f Ht Hio. split_and!; [done| |done]. destruct Hio as [[_ [->| ->]]| ->]; done.
Qed.

End Startup.
