(* ===== verification/Objects.v ===== *)
(** * Writing an object, phase by phase

    [WriteObject] registers the object under the lock, writes its file without it,
    and commits it under the lock again.  Each phase is specified on its own, so
    that the phases of concurrent writers can be interleaved (Concurrency.v). *)

From S2P Require Import Prelude Status Encoding Tokens Proto Json Platform Keys World FileStore.
From S2P Require Import Files Storage Core Commands Model Reads Spec SystemMessages Refine.
From S2P Require Import Handlers ChannelHandlers Invariant Queries.

Section Objects.
Context {R : RocksDB} {P : Protobuf} {F : PosixDir} {H : Host}.
Context {RS : RocksDBSpec} {PS : ProtobufSpec} {HS : HostSpec}.
Context (cfg : CoreConfig).

(** ** Registering *)

Definition prepared_object (req : WriteObjectRequest) (token : string) (id : Z) : StoredObject :=
  MkStoredObject id token (wr_principal req) (wr_name req) (wr_type req) (wr_description req)
    (str_size (wr_data req)).

Definition spec_prepare (req : WriteObjectRequest) (token : string) (a : AState)
    : Result (StoredObject * AState) :=
  if wr_principal req =? 0 then Err (mkStatus INVALID_ARGUMENT "principal must be greater than 0")
  else if invalid_object_request req
  then Err (mkStatus INVALID_ARGUMENT "invalid object metadata or data size")
  else
    rdo spec_authenticate a (wr_principal req) (wr_token req) in
    let o := prepared_object req token (a_next_object a) in
    Ok (o, a_prepare a o).

Definition write_request_ok (req : WriteObjectRequest) : Prop :=
  is_u64 (wr_principal req) /\ utf8_valid (wr_name req) = true /\ utf8_valid (wr_type req) = true /\
  utf8_valid (wr_description req) = true.

Definition prepare_rejection (s : Status) : Prop :=
  random_rejection s \/ s = mkStatus INTERNAL "serialize object metadata failed".

(** The stored form of an object. *)
Lemma SerializeObject_ok req token id bytes :
  write_request_ok req -> IsBase64UrlToken token = true ->
  SerializeObject (prepared_object req token id) = Ok bytes ->
  ParseRecord bytes = Some (record_of (prepared_object req token id)).
Proof using PS.
  intros (_ & Hn & Ht & Hd) Htok. unfold SerializeObject. destruct (SerializeRecord _) eqn:E; [|done].
  intros [= <-]. eapply ParseRecord_Serialize; [|exact E].
  split_and!; cbn; [by apply utf8_token|done..].
Qed.

Lemma WriteObject_prepare_outcome req w a :
  fatal_error_triggered w = false -> repr (cview w) a -> WF a -> write_request_ok req ->
  wp (WriteObject_prepare cfg req) (fun r w' => exists bytes,
    length bytes = 32%nat /\ Forall is_byte bytes /\
    Outcome cfg prepare_rejection w a (spec_prepare req (base64url bytes) a) r w') w.
Proof using HS PS RS.
  intros Hav Hr Hwf Hreq. unfold WriteObject_prepare, spec_prepare, GenerateObjectToken.
  assert (Hz : length (replicate 32 0) = 32%nat /\ Forall is_byte (replicate 32 0)).
  { split; [done|]. by repeat constructor. }
  apply step_available; [done|]. destruct (wr_principal req =? 0).
  { apply wp_ret. exists (replicate 32 0). split_and!; [apply Hz..|]. by apply Refused. }
  destruct (invalid_object_request req).
  { apply wp_ret. exists (replicate 32 0). split_and!; [apply Hz..|]. by apply Refused. }
  apply wp_bind_ok_assoc, step_random.
  { intros s w' Hu Hs. exists (replicate 32 0). split_and!; [apply Hz..|]. apply Rejected; [by left|done]. }
  intros bytes w1 H1 Hlen Hb.
  eapply wp_mono; [intros r w' Hout; exists bytes; split_and!; [done|done|exact Hout]|].
  apply base64url_is_token in Hlen as Htok. revert Htok. generalize (base64url bytes). intros token Htok.
  apply (step_read cfg _ _ _ _ token); [apply CReads_ret|done|]. intros w2 H2 _.
  apply step_snapshot; [done|]. intros s w3 Hs H3 _. pose proof Hr as Hrs. rewrite <- Hs in Hrs.
  apply step_check; [apply CReads_Authenticate; [done|apply Hreq]|done|]. intros _ w4 _ H4 _.
  eapply step_read; [by apply CReads_storage, (Reads_NextObjectId s a)|done|]. intros w5 H5 _. cbv zeta.
  change (MkStoredObject _ _ _ _ _ _ _) with (prepared_object req token (a_next_object a)).
  set (o := prepared_object req token (a_next_object a)).
  unfold PutPreparingObject. destruct (SerializeObject o) as [bytes'|e] eqn:Eser; cbn [rbind].
  2:{ unfold SerializeObject in Eser. destruct (SerializeRecord _); [done|]. injection Eser as <-.
      apply wp_ret, Rejected; [by right|done]. }
  apply (step_read cfg _ _ _ _ _ _ _ _ (CReads_ret cfg (Ok _))); [done|]. intros w6 H6 _.
  apply (step_read cfg _ _ _ _ _ _ _ _ (CReads_ret cfg (Ok _))); [done|]. intros w7 H7 _.
  apply SerializeObject_ok in Eser; [|done|done].
  pose proof (wf_next_object _ Hwf) as Hn. pose proof (u64_add_is_u64 (a_next_object a) 1).
  assert (is_u64 (a_next_object a)) by (unfold is_u64; lia).
  eapply (step_commit _ _ _ _ _ _ _ [(KPreparing (a_next_object a), Some (VObject o));
    (KNextObject, Some (VU64 (u64_add (a_next_object a) 1)))]); [done|done|solve_ops|].
  intros k _. unfold tapply, tset. cbn [fold_left fst snd].
  destruct k; repeat case_decide; simplify_eq/=; try done.
  - by rewrite lookup_insert_eq.
  - by rewrite lookup_insert_ne by congruence.
Qed.

Lemma prepared_object_wf req token id :
  write_request_ok req -> wr_principal req <> 0 -> invalid_object_request req = false ->
  IsBase64UrlToken token = true -> object_wf id (prepared_object req token id).
Proof.
  intros (Hp & _) Hp0 Hv Htok. unfold invalid_object_request in Hv.
  repeat apply orb_false_iff in Hv as [Hv ?]. unfold is_u64 in Hp.
  split_and!; cbn; try done; try lia.
  destruct (wr_data req); [done|]. unfold str_size. cbn [String.length]. lia.
Qed.

Lemma spec_prepare_ok req token a o a' :
  write_request_ok req -> WF a -> Room a -> IsBase64UrlToken token = true ->
  spec_prepare req token a = Ok (o, a') ->
  WF a' /\ o = prepared_object req token (a_next_object a) /\ a' = a_prepare a o.
Proof.
  intros Hreq Hwf (_ & _ & Hroom) Htok. unfold spec_prepare.
  destruct (Z.eqb_spec (wr_principal req) 0); [done|].
  destruct (invalid_object_request req) eqn:Ev; [done|].
  intros ([] & _ & [= <- <-])%rbind_ok. split_and!; [|done|done].
  apply WF_prepare; [done|done|done|]. by apply prepared_object_wf.
Qed.

(** ** Committing *)

(** The second critical section, for an object that is registered. *)
Inductive commit_result (w0 : CoreW) (a : AState) (req : WriteObjectRequest) (o : StoredObject)
    : CommitOutcome -> CoreW -> Prop :=
  | CR_committed w :
      spec_authenticate a (wr_principal req) (wr_token req) = Ok tt ->
      repr (cview w) (a_commit_object a o) -> quiet w0 w -> latch w = latch w0 -> on_disk_now w ->
      commit_result w0 a req o Committed w
  | CR_refused s w :
      (spec_authenticate a (wr_principal req) (wr_token req) = Err s \/
       s = mkStatus INTERNAL "serialize object metadata failed") ->
      unchanged w0 w -> commit_result w0 a req o (NotAttempted s) w
  | CR_fault s w :
      fault cfg w0 s w -> c_contents w = c_contents w0 -> commit_result w0 a req o (NotAttempted s) w
  | CR_aborted s w :
      fault cfg w0 s w -> c_contents w = c_contents w0 -> latch w = latch (trip cfg s w0) ->
      commit_result w0 a req o (Aborted s) w
  | CR_attempted s w :
      fault cfg w0 s w -> latch w = latch (trip cfg s w0) ->
      (cview w = cview w0 \/ repr (cview w) (a_commit_object a o)) ->
      disk_within w0 w (fun x => repr x (a_commit_object a o)) ->
      commit_result w0 a req o (Attempted s) w.

Lemma SameObject_refl o : SameObject o o = true.
Proof. unfold SameObject. rewrite !Z.eqb_refl, !bool_decide_eq_true_2 by done. done. Qed.

Definition commit_ops (o : StoredObject) : list (Key * option Val) :=
  [(KPreparing (so_object_id o), None); (KCommitted (so_object_id o), Some (VObject o))].

Lemma tapply_commit a o k :
  tapply (commit_ops o) (a_get a) k = a_get (a_commit_object a o) k.
Proof.
  unfold tapply, tset, commit_ops. cbn [fold_left fst snd].
  destruct k; repeat case_decide; simplify_eq/=; try done.
  - by rewrite lookup_delete_eq.
  - by rewrite lookup_delete_ne by congruence.
  - by rewrite lookup_insert_eq.
  - by rewrite lookup_insert_ne by congruence.
Qed.

(** A fault seen after steps that changed nothing. *)
Lemma fault_after w0 w1 s w :
  unchanged w0 w1 -> fault cfg w1 s w -> c_contents w = c_contents w1 ->
  fault cfg w0 s w /\ c_contents w = c_contents w0.
Proof. intros Hu Hf Hv. split; [by eapply unchanged_fault|]. destruct Hu. congruence. Qed.

Lemma fault_trip w0 s w :
  fault cfg w0 s w -> fault cfg w0 s (trip cfg s w) /\ c_contents (trip cfg s w) = c_contents w /\
  latch (trip cfg s w) = latch (trip cfg s w0).
Proof.
  intros (H1 & H2 & [H3 H4] & H5 & H6). destruct (trip_quiet cfg s w) as ([? ?] & ? & ?).
  assert (E : latch (trip cfg s w) = latch (trip cfg s w0)).
  { destruct H6 as [H6|H6]; [by apply latch_trip|by apply latch_trip_trip]. }
  split; [|done]. split_and!; [done|done|split; congruence|congruence|by right].
Qed.

Lemma wp_CReads {A B} (m : RM CoreW A) r (k : Result A -> M CoreW B) (Q : B -> CoreW -> Prop) w0 w :
  CReads cfg m r -> unchanged w0 w ->
  (forall w', unchanged w0 w' -> wp (k r) Q w') ->
  (forall s w', fault cfg w0 s w' -> c_contents w' = c_contents w0 -> wp (k (Err s)) Q w') ->
  wp (bind m k) Q w.
Proof.
  intros Hm Hu Hk Hf. apply wp_bind. eapply wp_mono; [|apply Hm].
  intros x w1 [(-> & H1 & _)|(s & -> & Hs & Hv)].
  - apply Hk. by etransitivity.
  - destruct (fault_after w0 w s w1 Hu Hs Hv). by apply Hf.
Qed.

Lemma WriteObject_commit_outcome req o w a :
  repr (cview w) a -> WF a -> is_u64 (wr_principal req) ->
  a_preparing a !! so_object_id o = Some o -> record_text_ok (record_of o) ->
  wp (WriteObject_commit cfg req o) (commit_result w a req o) w.
Proof using PS RS.
  intros Hr Hwf Hp Ho Htext. unfold WriteObject_commit.
  destruct (wf_preparing _ Hwf _ _ Ho) as [_ Hid]. pose proof (wf_next_object _ Hwf).
  assert (Hu : is_u64 (so_object_id o)) by (unfold is_u64; lia).
  (* the snapshot *)
  apply (wp_bind (storage CreateSnapshot)), (wp_CreateSnapshot cfg).
  2:{ intros e w' Hf Hv. by apply wp_ret, CR_fault. }
  intros s w1 Hs H1 _.
  assert (Hrs : repr (snap_view s) a) by (by rewrite Hs).
  (* authentication *)
  eapply wp_CReads; [by apply (CReads_Authenticate cfg s a)|exact H1| |].
  2:{ intros e w' Hf Hv. by apply wp_ret, CR_fault. }
  intros w2 H2. destruct (spec_authenticate a (wr_principal req) (wr_token req)) as [[]|e] eqn:Eauth.
  2:{ apply wp_ret, CR_refused; [by left|done]. }
  (* the registered object *)
  eapply wp_CReads; [by apply CReads_storage, (Reads_GetPreparingObject s a)|exact H2| |].
  2:{ intros e w' Hf Hv. unfold must_exit. destruct Hf as (Hfe & Hf'). rewrite Hfe. cbn [orb].
      apply wp_FatalStorageError, wp_ret.
      destruct (fault_trip w e w') as (? & ? & ?); [by split|]. apply CR_aborted; congruence. }
  intros w3 H3. rewrite Ho, SameObject_refl. cbn [negb]. unfold PutCommittedObject.
  destruct (SerializeObject o) as [bytes|e] eqn:Eser; cbn [rbind].
  2:{ unfold SerializeObject in Eser. destruct (SerializeRecord _); [done|]. injection Eser as <-.
      apply wp_ret, CR_refused; [by right|done]. }
  assert (Hparse : ParseRecord bytes = Some (record_of o)).
  { unfold SerializeObject in Eser. destruct (SerializeRecord _) eqn:E2; [|done].
    injection Eser as <-. by eapply ParseRecord_Serialize. }
  (* the commit *)
  assert (Hrep : repr (apply_batch [BDelete CF_objects (NumericKey kPreparingObjectPrefix (so_object_id o));
    BPut CF_objects (NumericKey kCommittedObjectPrefix (so_object_id o)) bytes] (cview w3))
    (a_commit_object a o)).
  { destruct H3 as [Hv3 _]. injection Hv3 as -> _. eapply (repr_batch _ a _ _ (commit_ops o)); [done|solve_ops|].
    intros k _. apply tapply_commit. }
  pose proof H3 as (Hv3 & [? ?] & ? & Hl3). injection Hv3 as Hv3 Hd3.
  apply wp_bind, run_CommitBatch.
  - intros w4 Hv4 [? ?] Hl4 _ Hx. apply wp_ret, CR_committed; [done|by rewrite Hv4|split; congruence|congruence|done].
  - intros e w4 Hf Hl Hv4 Hx. apply wp_ret, CR_attempted.
    + by eapply unchanged_fault.
    + rewrite Hl. by apply latch_trip.
    + destruct Hv4 as [->| ->]; [by left|by right].
    + intros x Hdx. rewrite <- Hd3, <- Hv3. destruct (Hx x Hdx) as [?|[?|<-]]; auto.
Qed.

End Objects.
