(* ===== verification/Services.v ===== *)
(** * The RPC surface (src/service/grpc_services.cpp)

    Every unary RPC runs a handler of the core and passes its status through
    [HandleRpcStatus]: a status that asks for an exit, or that reports data loss,
    closes the server. *)

From S2P Require Import Prelude Status Encoding Tokens Proto Json Platform Keys World FileStore.
From S2P Require Import Files Storage Core Commands Model Reads Scan Spec SystemMessages Refine.
From S2P Require Import Handlers ChannelHandlers Invariant Queries Pages Objects.

Section Services.
Context {R : RocksDB} {P : Protobuf} {F : PosixDir} {H : Host}.
Context (cfg : CoreConfig).

(** [ToGrpcStatus(core_, handler)], and the response when the handler filled it. *)
Definition ToGrpcStatus (s : Status) : M CoreW (StatusCode * string) :=
  let! s := HandleRpcStatus cfg s in ret (ToGrpc s).

Definition rpc {A} (m : RM CoreW A) : M CoreW ((StatusCode * string) * option A) :=
  let! r := m in
  let! g := ToGrpcStatus (result_status r) in
  ret (g, match r with Ok v => Some v | Err _ => None end).

(** Every unary RPC of the four services but [WriteObject]: each holds the lock at most once.
    [WriteObject] releases it between its phases and is the writers of Concurrency.v. *)
Inductive Request :=
  | RGetStatus (principal : Z) (token : string)
  | RAllocateUuids (count : Z)
  | RGetSeqByUuid (uuid : Z)
  | RPublish (req : PublishRequest) (context : option ServerContext)
  | RPublishAutoSeq (req : PublishAutoSeqRequest) (context : option ServerContext)
  | RFetch (req : FetchRequest)
  | RGetObjectMetadata (object_id : Z) (object_token : string)
  | RBatchGetObjectMetadata (object_keys : list ObjectKey)
  | RReadObject (object_id : Z) (object_token : string) (offset nbytes : Z)
  | RCreateChannel (req : CreateChannelRequest)
  | RGetChannel (principal : Z) (token : string) (channel_id : Z)
  | RListChannels (principal : Z) (token : string) (filter : ChannelFilter)
  | RAddMember (req : MemberRequest)
  | RRemoveMember (req : MemberRequest)
  | RAddToken (principal : Z)
  | RDeleteToken (principal : Z) (token : string)
  | RListMessages (from_seq limit : Z).

Inductive Response :=
  | Seq (seq : Z) | Uuids (uuids : list Z) | Done | Page (page : FetchResponse)
  | Metadata (m : list ObjectMetadata) | Data (data : string) | Channels (c : list ChannelInfo)
  | Token (token : string).

(** A handler with its result put into a response. *)
Definition respond {A} (f : A -> Response) (m : RM CoreW A) : RM CoreW Response :=
  let? v := m in ok (f v).

Definition handle (r : Request) : RM CoreW Response :=
  match r with
  | RGetStatus p t => respond Seq (GetStatus p t)
  | RAllocateUuids n => respond Uuids (AllocateUuids cfg n)
  | RGetSeqByUuid u => respond Seq (GetSeqByUuid u)
  | RPublish req ctx => respond (fun _ => Done) (Publish cfg req ctx)
  | RPublishAutoSeq req ctx => respond Seq (PublishAutoSeq cfg req ctx)
  | RFetch req => respond Page (Fetch cfg req)
  | RGetObjectMetadata id t => respond (fun m => Metadata [m]) (GetObjectMetadata cfg id t)
  | RBatchGetObjectMetadata keys => respond Metadata (BatchGetObjectMetadata cfg keys)
  | RReadObject id t offset n => respond Data (ReadObject cfg id t offset n)
  | RCreateChannel req => respond (fun c => Channels [c]) (CreateChannel cfg req)
  | RGetChannel p t id => respond (fun c => Channels [c]) (CoreGetChannel p t id)
  | RListChannels p t f => respond Channels (CoreListChannels p t f)
  | RAddMember req => respond (fun _ => Done) (AddMember cfg req)
  | RRemoveMember req => respond (fun _ => Done) (RemoveMember cfg req)
  | RAddToken p => respond Token (AddToken cfg p)
  | RDeleteToken p t => respond (fun _ => Done) (CoreDeleteToken cfg p t)
  | RListMessages from limit => respond Page (ListMessages cfg from limit)
  end.

Definition serve (r : Request) : M CoreW ((StatusCode * string) * option Response) := rpc (handle r).

(** 64-bit fields and UTF-8 text, as protobuf delivers them. *)
Definition request_ok (r : Request) : Prop :=
  match r with
  | RGetStatus p _ | RListChannels p _ _ | RAddToken p | RDeleteToken p _ => is_u64 p
  | RAllocateUuids n => 0 <= n
  | RGetSeqByUuid u => is_u64 u
  | RPublish req _ => post_request_ok (pr_principal req) (pr_channel_id req) (pr_uuid req)
                        (pr_payload req) (pr_object_keys req)
  | RPublishAutoSeq req _ => post_request_ok (pa_principal req) (pa_channel_id req) (pa_uuid req)
                               (pa_payload req) (pa_object_keys req)
  | RFetch req => fetch_request_ok req
  | RGetObjectMetadata id _ => is_u64 id
  | RBatchGetObjectMetadata keys => Forall (fun k => is_u64 (ok_object_id k)) keys
  | RReadObject id _ offset n => is_u64 id /\ 0 <= offset /\ 0 <= n
  | RCreateChannel req => create_request_ok req
  | RGetChannel p _ id => is_u64 p /\ is_u64 id
  | RAddMember req | RRemoveMember req => member_request_ok req
  | RListMessages from _ => 0 <= from
  end.

(** ** Fail-stop *)

Lemma run_HandleRpcStatus s w :
  HandleRpcStatus cfg s w = (s, if must_exit s then trip cfg s w else w).
Proof.
  unfold HandleRpcStatus. destruct (must_exit s); [|done]. unfold bind. by rewrite run_FatalStorageError.
Qed.

Lemma unavailable_refused {B} (k : unit -> RM CoreW B) w :
  fatal_error_triggered w = true ->
  bind_ok EnsureAvailable k w =
    (Err (mkStatus UNAVAILABLE "server is shutting down due to a fatal storage error"), w).
Proof. intros Hf. unfold bind_ok, EnsureAvailable, bind, get. by rewrite Hf. Qed.

Lemma respond_err {A} (f : A -> Response) m e w w' : m w = (Err e, w') -> respond f m w = (Err e, w').
Proof. intros E. unfold respond, bind_ok, bind. by rewrite E. Qed.

Lemma handle_unavailable r w :
  fatal_error_triggered w = true ->
  handle r w = (Err (mkStatus UNAVAILABLE "server is shutting down due to a fatal storage error"), w).
Proof.
  intros Hf. by destruct r; apply respond_err, unavailable_refused.
Qed.

End Services.
