(* ===== verification/Effects.v ===== *)
(** * What any request does to the abstract state

    A request leaves the database representing a well-formed state that extends
    the one before: the log only grows, uuids stay consumed, committed objects
    stay, counters move forward by a bounded amount.  This holds whatever the
    request returns, a storage fault included. *)

From S2P Require Import Prelude Status Encoding Tokens Proto Json Platform Keys World FileStore.
From S2P Require Import Files Durability Storage Core Commands Model Reads Scan Spec SystemMessages Refine.
From S2P Require Import Handlers ChannelHandlers Invariant Queries Pages Objects Services.

(** ** Extension *)

(** A channel never changes but for its members. *)
Definition channel_kept (c c' : ChannelInfo) : Prop := c' = with_members c (ci_members c').

(** What only grows: the log, the used uuids, the channels with everything but their members,
    the committed objects and the counters. Credentials and members come and go and are not
    part of it. *)
Record Extends (a a' : AState) : Prop := {
  ex_log : a_log a `prefix_of` a_log a';
  ex_uuids : a_uuids a ⊆ a_uuids a';
  ex_channels : forall id c, a_channels a !! id = Some c ->
                  exists c', a_channels a' !! id = Some c' /\ channel_kept c c';
  ex_committed : a_committed a ⊆ a_committed a';
  ex_next_uuid : a_next_uuid a <= a_next_uuid a';
  ex_next_channel : a_next_channel a <= a_next_channel a';
  ex_next_object : a_next_object a <= a_next_object a'
}.

Lemma channel_kept_with c ms : channel_kept c (with_members c ms).
Proof. done. Qed.

#[export] Instance channel_kept_refl : Reflexive channel_kept.
Proof. by intros []. Qed.

#[export] Instance channel_kept_trans : Transitive channel_kept.
Proof. unfold channel_kept. intros c c' c'' -> ->. done. Qed.

(** The same channels. *)
Lemma channels_same (m : gmap Z ChannelInfo) id c :
  m !! id = Some c -> exists c', m !! id = Some c' /\ channel_kept c c'.
Proof. intros E. by exists c. Qed.

#[export] Instance Extends_refl : Reflexive Extends.
Proof. intros a. constructor; try done; [apply channels_same|lia..]. Qed.

#[export] Instance Extends_trans : Transitive Extends.
Proof.
  intros a b c [] []. constructor; [by etransitivity|by etransitivity| |by etransitivity|lia..].
  intros id x (y & Hy & Hxy)%ex_channels0. apply ex_channels1 in Hy as (z & Hz & Hyz).
  exists z. split; [done|]. by etransitivity.
Qed.

#[export] Hint Resolve channels_same channel_kept_with : oe.

(** One request moves the counters this far at most. *)
Definition Bounded (a a' : AState) : Prop :=
  a_max_seq a' <= a_max_seq a + 1 /\ a_next_uuid a' <= a_next_uuid a + kMaxUuidBatch /\
  a_next_channel a' <= a_next_channel a + 1 /\ a_next_object a' <= a_next_object a + 1.

(** The counters have room for [n] more requests. *)
Definition Budget (n : Z) (a : AState) : Prop :=
  a_max_seq a + n < two64 - 1 /\ a_next_uuid a + n * kMaxUuidBatch < two64 /\
  a_next_channel a + n < two64 /\ a_next_object a + n < two64.

Definition same_objects (a a' : AState) : Prop :=
  a_preparing a' = a_preparing a /\ a_committed a' = a_committed a /\
  a_next_object a' = a_next_object a.

Lemma Budget_Room n a : 1 <= n -> Budget n a -> Room a.
Proof. unfold Budget, Room, kMaxUuidBatch. lia. Qed.

Lemma Budget_step n a a' : Budget (n + 1) a -> Bounded a a' -> Budget n a'.
Proof. unfold Budget, Bounded, kMaxUuidBatch. lia. Qed.

Lemma Budget_mono n m a : m <= n -> Budget n a -> Budget m a.
Proof. unfold Budget, kMaxUuidBatch. lia. Qed.

Lemma Bounded_refl a : Bounded a a.
Proof. unfold Bounded, kMaxUuidBatch. lia. Qed.

Lemma append_extends a m :
  a_uuids a !! em_uuid m = None -> Extends a (a_append a m) /\ same_objects a (a_append a m).
Proof.
  intros Hfresh. split; [|done]. constructor; cbn; try done; try lia; auto with oe.
  - by apply prefix_app_r.
  - by apply insert_subseteq.
Qed.

Section Effects.
Context {R : RocksDB} {P : Protobuf} {F : PosixDir} {H : Host}.
Context {RS : RocksDBSpec} {PS : ProtobufSpec} {HS : HostSpec} {FS : PosixDirSpec}.
Context (cfg : CoreConfig).

(** What a request that does not write objects does. *)
Definition Evolves (a a' : AState) : Prop :=
  WF a' /\ Extends a a' /\ Bounded a a' /\ same_objects a a'.

Lemma Evolves_refl a : WF a -> Evolves a a.
Proof. intros Hwf. split_and!; [done|done|apply Bounded_refl|done]. Qed.

(** ** The specifications *)

Lemma allocate_evolves count a v a' :
  WF a -> Room a -> 0 <= count -> spec_allocate count a = Ok (v, a') -> Evolves a a'.
Proof.
  intros Hwf Hroom Hc Hs. pose proof (WF_allocate _ _ _ _ Hwf Hroom Hc Hs) as Hwf'.
  destruct Hroom as (Hroom & _). pose proof (wf_next_uuid _ Hwf). revert Hs. unfold spec_allocate.
  destruct (_ || _) eqn:E; [done|]. apply orb_false_iff in E as [_ Hb].
  rewrite u64_add_small by lia. destruct (_ =? 0); [done|]. intros [= _ <-].
  unfold kMaxUuidBatch in *. split_and!; [done| | |done].
  - constructor; cbn; try done; auto with oe; lia.
  - unfold Bounded, kMaxUuidBatch. cbn. change (a_max_seq (a_set_next_uuid _ _)) with (a_max_seq a). lia.
Qed.

Lemma publish_evolves principal token channel_id uuid recipients payload keys expected ts a seq a' :
  WF a -> is_u64 uuid ->
  spec_publish cfg principal token channel_id uuid recipients payload keys expected ts a =
    Ok (seq, a') -> Evolves a a'.
Proof.
  intros Hwf Hu Hpub. pose proof (WF_publish _ _ _ _ _ _ _ _ _ _ _ _ _ Hwf Hu Hpub) as Hwf'.
  apply spec_publish_ok in Hpub as (_ & _ & _ & _ & Huuid & _ & _ & _ & _ & Hpost). cbv zeta in Hpost.
  apply spec_post_ok in Hpost as (c & _ & _ & _ & _ & _ & _ & _ & ->).
  apply spec_available_uuid_ok in Huuid as (_ & _ & Hfresh).
  destruct (append_extends a (MkEventMessage seq channel_id principal recipients payload ts uuid keys) Hfresh).
  split_and!; try done. unfold Bounded. rewrite a_max_seq_append. cbn. unfold kMaxUuidBatch. lia.
Qed.

Lemma mutation_extends a c payload ts a' :
  WF a -> Room a -> (forall c0, a_channels a !! ci_channel_id c = Some c0 -> channel_kept c0 c) ->
  spec_mutation a c payload ts = Ok a' ->
  Extends a a' /\ Bounded a a' /\ same_objects a a' /\ a_next_channel a' = a_next_channel a.
Proof.
  intros Hwf (Hroom & _) Hkept. unfold spec_mutation. destruct (_ || _); [done|]. destruct (_ =? 0); [done|].
  intros [= <-]. set (m := system_message a c payload ts). pose proof (wf_next_uuid _ Hwf).
  unfold kMaxUuidBatch in Hroom. rewrite u64_add_small by (cbn; lia).
  destruct (append_extends (a_set_next_uuid (a_put_channel a c) (em_uuid m + 1)) m) as [Hx _].
  { cbn. apply wf_uuid_fresh; [done|lia]. }
  split_and!; [|unfold Bounded; rewrite a_max_seq_append; cbn;
    change (a_max_seq (a_set_next_uuid (a_put_channel a c) _)) with (a_max_seq a);
    unfold kMaxUuidBatch; lia|done|done].
  etransitivity; [|exact Hx]. constructor; cbn; try done; try lia.
  intros id c0 E. destruct (decide (id = ci_channel_id c)) as [->|Hne].
  - exists c. by rewrite lookup_insert_eq; auto.
  - exists c0. by rewrite lookup_insert_ne by done.
Qed.

Lemma owned_channel req denied a c :
  WF a -> spec_owned_channel req denied a = Ok c -> a_channels a !! ci_channel_id c = Some c.
Proof.
  intros Hwf (Hc & _)%spec_owned_channel_ok. by destruct (wf_channels _ Hwf _ _ Hc) as [[-> _] _].
Qed.

Lemma create_channel_evolves req ts a c a' :
  WF a -> Room a -> create_request_ok req -> spec_create_channel req ts a = Ok (c, a') -> Evolves a a'.
Proof using PS.
  intros Hwf Hroom Hreq Hs. pose proof (WF_create_channel _ _ _ _ _ Hwf Hroom Hreq Hs) as Hwf'.
  revert Hs. unfold spec_create_channel. destruct (invalid_channel_parameters req); [done|].
  intros ([] & _ & H1)%rbind_ok. apply rbind_ok in H1 as ([] & _ & H1). cbv zeta in H1.
  destruct (_ <? _); [done|]. apply rbind_ok in H1 as (a1 & Hmut & [= _ <-]).
  apply mutation_extends in Hmut as (Hx & (? & ? & ? & ?) & (? & ? & ?) & Hnc); [|done|done|].
  2:{ cbn. intros c0 E. destruct (wf_channels _ Hwf _ _ E) as [_ Hlt]. lia. }
  pose proof (wf_next_channel _ Hwf). destruct Hroom as (_ & ? & _).
  split_and!; [done| | |done]; rewrite u64_add_small in * by lia.
  - etransitivity; [exact Hx|]. constructor; cbn; try done; auto with oe; lia.
  - unfold Bounded. cbn. change (a_max_seq (a_set_next_channel a1 _)) with (a_max_seq a1). lia.
Qed.

Lemma add_member_evolves req ts a u a' :
  WF a -> Room a -> member_request_ok req -> spec_add_member req ts a = Ok (u, a') -> Evolves a a'.
Proof using PS.
  intros Hwf Hroom Hreq Hs. pose proof (WF_add_member _ _ _ _ _ Hwf Hroom Hreq Hs) as Hwf'.
  revert Hs. unfold spec_add_member. intros (c & Hown & H1)%rbind_ok.
  apply (owned_channel _ _ _ _ Hwf) in Hown.
  destruct (IsMember _ _); [done|]. destruct (_ <=? _); [done|].
  apply rbind_ok in H1 as (a1 & Hmut & [= _ <-]).
  apply mutation_extends in Hmut as (? & ? & ? & _); [done..|]. cbn. intros c0. rewrite Hown.
  intros [= <-]. apply channel_kept_with.
Qed.

Lemma remove_member_evolves req ts a u a' :
  WF a -> Room a -> member_request_ok req -> spec_remove_member req ts a = Ok (u, a') -> Evolves a a'.
Proof using PS.
  intros Hwf Hroom Hreq Hs. pose proof (WF_remove_member _ _ _ _ _ Hwf Hroom Hreq Hs) as Hwf'.
  revert Hs. unfold spec_remove_member. intros (c & Hown & H1)%rbind_ok.
  apply (owned_channel _ _ _ _ Hwf) in Hown.
  destruct (_ =? _); [done|]. destruct (negb _); [injection H1 as _ <-; by apply Evolves_refl|].
  apply rbind_ok in H1 as (a1 & Hmut & [= _ <-]).
  apply mutation_extends in Hmut as (? & ? & ? & _); [done..|]. cbn. intros c0. rewrite Hown.
  intros [= <-]. apply channel_kept_with.
Qed.

Lemma set_tokens_evolves a t : WF (a_set_tokens a t) -> Evolves a (a_set_tokens a t).
Proof.
  intros Hwf'. split_and!; [done| | |done]; [constructor; cbn; try done; auto with oe; lia|].
  unfold Bounded, kMaxUuidBatch. change (a_max_seq (a_set_tokens a t)) with (a_max_seq a). cbn. lia.
Qed.

Lemma token_nonempty bytes : length bytes = 16%nat -> format_token bytes <> "".
Proof. by destruct bytes. Qed.

(** ** The handlers *)

(** The object directory is as it was, on disk too. *)
Definition same_dir (w w' : CoreW) : Prop :=
  dir (c_storage w') = dir (c_storage w) /\ keeping [] (c_storage w) (c_storage w').

Lemma same_dir_fs w w' : st_fs (c_storage w') = st_fs (c_storage w) -> same_dir w w'.
Proof. intros Hf. unfold same_dir, keeping, dir. rewrite Hf. split; [done|apply fs_keeps_refl]. Qed.

(** What a crash can leave: nothing else than the contents, or what it could leave before, or a
    state the one before evolves to. *)
Definition crash_moves (w : CoreW) (a : AState) (w' : CoreW) : Prop :=
  on_disk_now w' \/ forall x, cdisk w' x -> cdisk w x \/ exists a', repr x a' /\ Evolves a a'.

(** The database represents a state the one before evolves to. *)
Definition moves (w : CoreW) (a : AState) (w' : CoreW) : Prop :=
  (exists a', repr (cview w') a' /\ Evolves a a') /\ same_dir w w' /\ c_sub w' = c_sub w /\
  crash_moves w a w'.

Lemma crash_same w a w' : cdisk w' = cdisk w -> crash_moves w a w'.
Proof. intros Hd. right. rewrite Hd. by left. Qed.

Lemma moves_stays w a w' :
  WF a -> repr (cview w) a -> c_contents w' = c_contents w -> same_dir w w' ->
  c_sub w' = c_sub w -> moves w a w'.
Proof.
  intros Hwf Hr Hv Hd Hs. injection Hv as Hv Hx. split_and!; [|apply Hd..|done|by apply crash_same].
  exists a. rewrite Hv. split; [done|by apply Evolves_refl].
Qed.

Lemma Outcome_moves {B} Rej w a (spec : Result (B * AState)) r w' :
  WF a -> repr (cview w) a -> Outcome cfg Rej w a spec r w' ->
  (forall v a', spec = Ok (v, a') -> Evolves a a') -> moves w a w'.
Proof.
  intros Hwf Hr Hout Hev. destruct Hout as [v a' w' Hs Hr' [Hf%same_dir_fs Hsub] _ Hx
    |e w' _ (Hv & [Hf%same_dir_fs Hsub] & _)|s w' _ (Hv & [Hf%same_dir_fs Hsub] & _)
    |s w' (_ & _ & [Hf%same_dir_fs Hsub] & _) Hv Hx].
  - split_and!; [exists a'; eauto|apply Hf..|done|].
    destruct Hx as [[_ Hx]|(_ & _ & Hx)]; [by left|by apply crash_same].
  - by apply moves_stays.
  - by apply moves_stays.
  - split_and!; [|apply Hf..|done|].
    + destruct Hv as [->|(v & a' & Hs & Hr' & _)]; [|by exists a'; eauto].
      exists a. split; [done|by apply Evolves_refl].
    + destruct Hx as [Hx|(v & a' & Hs & _ & Hx)]; [by apply crash_same|]. right. intros x Hd.
      destruct (Hx x Hd) as [?|[->|?]]; [by left| |]; right.
      * exists a. split; [done|by apply Evolves_refl].
      * exists a'. eauto.
Qed.

(** ** Reading object data *)

(** Every committed object has its file, of the recorded size. *)
Definition files_ok (a : AState) (d : gmap string Node) : Prop :=
  forall id o, a_committed a !! id = Some o ->
    exists data, d !! FinalName id = Some (NFile data) /\ str_size data = so_nbytes o.

Definition file_data (d : gmap string Node) (id : Z) : string :=
  match d !! FinalName id with Some (NFile data) => data | _ => "" end.

Definition spec_read_object (a : AState) (data : Z -> string) (object_id : Z)
    (object_token : string) (offset nbytes : Z) : Result string :=
  if nbytes =? 0 then Err (mkStatus INVALID_ARGUMENT "nbytes must be greater than 0")
  else
    rlet o := spec_object a object_id object_token in
    if so_nbytes o <? offset then Err (mkStatus OUT_OF_RANGE "offset exceeds object size")
    else Ok (take_bytes (Z.to_nat (Z.min nbytes (so_nbytes o - offset)))
               (drop_bytes (Z.to_nat offset) (data object_id))).

(** Nothing that is stored changes. *)
Definition stored_same (w w' : CoreW) : Prop :=
  c_contents w' = c_contents w /\ same_dir w w' /\ c_sub w' = c_sub w /\
  commit_generation w' = commit_generation w.

#[export] Instance stored_same_trans : Transitive stored_same.
Proof.
  intros x y z (? & [? ?] & ? & ?) (? & [? ?] & ? & ?). unfold stored_same, same_dir.
  split_and!; [congruence|congruence|by transitivity (c_storage y)|congruence..].
Qed.

Lemma unchanged_stored w w' : unchanged w w' -> stored_same w w'.
Proof. intros (Hv & [Hf%same_dir_fs Hs] & Hg & _). by split_and!; try apply Hf. Qed.

Lemma spec_object_ok a id token o :
  spec_object a id token = Ok o ->
  a_committed a !! id = Some o /\ so_object_token o = token /\ id <> 0.
Proof.
  unfold spec_object. destruct (Z.eqb_spec id 0); [done|]. destruct (str_empty token); [done|]. cbn [orb].
  destruct (a_committed a !! id) as [o'|]; [|done]. case_bool_decide; [|done]. by intros [= <-].
Qed.

Lemma wp_storage {A} (m : M StorageW A) (Q : A -> CoreW -> Prop) w :
  wp m (fun a s => Q a (MkCoreW s (commit_generation w) (fatal_error_triggered w) (fatal_calls w)
                          (c_sub w))) (c_storage w) -> wp (storage m) Q w.
Proof. unfold wp, storage. by destruct (m (c_storage w)). Qed.

Lemma wp_bind_ok_assoc' {S A B C} (m : RM S A) (f : A -> RM S B) (g : B -> RM S C) Q w :
  wp (bind_ok (bind_ok m f) g) Q w -> wp (bind_ok m (fun x => bind_ok (f x) g)) Q w.
Proof. unfold wp, bind_ok, bind, ret. by destruct (m w) as [[]]. Qed.

Lemma ReadObject_outcome a id token offset nbytes w :
  fatal_error_triggered w = false -> repr (cview w) a -> WF a -> files_ok a (dir (c_storage w)) ->
  is_u64 id -> 0 <= offset -> 0 <= nbytes ->
  wp (ReadObject cfg id token offset nbytes) (fun r w' => stored_same w w' /\
    ((r = spec_read_object a (file_data (dir (c_storage w))) id token offset nbytes /\ latch w' = latch w) \/
     exists s, r = Err s /\ (io_status s /\ latch w' = latch w \/ fault cfg w s w'))) w.
Proof using FS HS RS.
  intros Hav Hr Hwf Hfiles Hid Ho Hn. unfold ReadObject, spec_read_object.
  apply step_available; [done|]. destruct (Z.eqb_spec nbytes 0); [by apply wp_ret; split; [|left]|].
  set (Q := fun (r : Result string) w' => _).
  assert (HQ : forall s w', fault cfg w s w' -> c_contents w' = c_contents w -> Q (Err s) w').
  { intros s w' Hflt Hv. pose proof Hflt as (Hf & _ & [Hfs%same_dir_fs Hsub] & Hg & _).
    split; [done|]. right. exists s. auto. }
  apply wp_bind_ok_assoc'. subst Q.
  unfold bind_ok at 1. apply wp_bind.
  eapply wp_mono; [|apply (Answers_snapshot cfg a _ (spec_object a id token)); [|done|done]].
  2:{ intros s Hs. by apply CReads_LoadAuthorizedObject. }
  intros x w1 [(-> & Hu)|(s & -> & Hf & Hv)]; [|by apply wp_ret, HQ].
  pose proof Hu as (_ & [Hf _] & _ & Hl). apply unchanged_stored in Hu.
  destruct (spec_object a id token) as [o|e] eqn:Eo; cbn [rbind].
  2:{ apply wp_ret. split; [done|by left]. }
  apply spec_object_ok in Eo as (Hc & _ & Hid0). destruct (Hfiles _ _ Hc) as (data & Hd & Hsz).
  destruct (wf_committed _ Hwf _ _ Hc) as [Howf _]. destruct Howf as (Hoid & _ & _ & _ & _ & _ & _ & _ & Hb).
  destruct (Z.ltb_spec (so_nbytes o) offset).
  { apply wp_ret. split; [done|by left]. }
  apply wp_bind, wp_storage. unfold ReadObjectFile. rewrite Hoid, <- Hsz.
  unfold file_data. rewrite Hd.
  assert (Hsame : forall st, reads_dir (c_storage w1) st -> keeping [] (c_storage w1) st ->
    stored_same w (MkCoreW st (commit_generation w1) (fatal_error_triggered w1) (fatal_calls w1) (c_sub w1))).
  { intros st (G1 & G2 & G3) Hk. etransitivity; [exact Hu|]. unfold stored_same, same_dir, cview, cdisk, view, disk.
    cbn. by rewrite G2. }
  eapply wp_mono; [|apply wp_both; [apply kept_ReadRange|apply (wp_ReadRange id data offset nbytes _ (fun r st =>
    reads_dir (c_storage w1) st /\ (r = Ok (take_bytes (Z.to_nat (Z.min nbytes (str_size data - offset)))
      (drop_bytes (Z.to_nat offset) data)) \/ exists s, r = Err s /\ io_status s)))]];
    [|done|unfold dir; by rewrite Hf|lia..|by auto|by eauto].
  intros r st (Hk & Hrd & [->|(s & -> & Hio)]); [apply wp_ret; split; [by apply Hsame|by left]|].
  unfold escalate. assert (must_exit s = false) as ->.
  { destruct Hio as [E1 E2]. unfold must_exit. rewrite E1.
    rewrite bool_decide_eq_false_2; [done|]. by destruct E2 as [->| ->]. }
  apply wp_ret. split; [by apply Hsame|]. right; exists s; split; [done|by left].
Qed.

(** ** Errors *)

(** The errors of a specification are refusals, not storage failures. *)
Definition mild {A} (r : Result A) : Prop := forall s, r = Err s -> must_exit s = false.

Lemma mild_ok {A} (v : A) : mild (Ok v).
Proof. by intros s. Qed.

Lemma mild_err {A} c msg : c <> DATA_LOSS -> mild (A := A) (Err (mkStatus c msg)).
Proof. intros Hc s [= <-]. unfold must_exit. cbn. by rewrite bool_decide_eq_false_2. Qed.

Lemma mild_bind {A B} (r : Result A) (k : A -> Result B) :
  mild r -> (forall v, mild (k v)) -> mild (rbind r k).
Proof. intros Hr Hk. destruct r as [v|e]; cbn; [apply Hk|]. intros s [= <-]. by apply Hr. Qed.

Ltac mild_step :=
  first [apply mild_ok | by apply mild_err | apply mild_bind; [|intros ?] | case_match | progress cbv zeta].

Lemma mild_authenticate a p t : mild (spec_authenticate a p t).
Proof. unfold spec_authenticate. repeat mild_step. Qed.

Lemma mild_publish p t c u rs pl ks e ts a : mild (spec_publish cfg p t c u rs pl ks e ts a).
Proof.
  unfold spec_publish, spec_available_uuid, ValidatePayloadSize, ValidateObjectKeysShape, spec_post,
    ValidateRecipients.
  repeat first [apply mild_authenticate | mild_step].
Qed.

Lemma mild_mutation a c p ts : mild (spec_mutation a c p ts).
Proof. unfold spec_mutation. repeat mild_step. Qed.

Lemma mild_channel_requests :
  (forall req ts a, mild (spec_create_channel req ts a)) /\
  (forall req ts a, mild (spec_add_member req ts a)) /\
  (forall req ts a, mild (spec_remove_member req ts a)).
Proof.
  unfold spec_create_channel, ValidateVisibility, spec_add_member, spec_remove_member, spec_owned_channel.
  split_and!; intros; repeat first [apply mild_authenticate | apply mild_mutation | mild_step].
Qed.

Lemma mild_tokens :
  (forall p t a, mild (spec_add_token p t a)) /\ (forall p t a, mild (spec_delete_token p t a)) /\
  (forall n a, mild (spec_allocate n a)).
Proof. unfold spec_add_token, spec_delete_token, spec_allocate. split_and!; intros; repeat mild_step. Qed.

Lemma mild_object a id t : mild (spec_object a id t).
Proof. unfold spec_object. repeat mild_step. Qed.

Lemma mild_objects a ks : mild (spec_batch_metadata a ks).
Proof.
  assert (Hs : mild (spec_objects a ks)).
  { induction ks as [|k ks IH]; cbn; repeat first [apply mild_object | exact IH | mild_step]. }
  unfold spec_batch_metadata, ValidateObjectKeysShape. repeat first [exact Hs | mild_step].
Qed.

Lemma mild_readable a p cs : mild (spec_readable_channels a p cs).
Proof. induction cs as [|c cs IH]; cbn; repeat first [exact IH | mild_step]. Qed.

Lemma mild_queries :
  (forall a p t, mild (spec_get_status a p t)) /\ (forall a u, mild (spec_seq_by_uuid a u)) /\
  (forall a p t c, mild (spec_get_channel a p t c)) /\ (forall a p t f, mild (spec_list_channels a p t f)) /\
  (forall a req, mild (spec_fetch cfg a req)) /\ (forall a f n, mild (spec_list_messages cfg a f n)) /\
  (forall a d id t o n, mild (spec_read_object a d id t o n)).
Proof.
  unfold spec_get_status, spec_seq_by_uuid, spec_get_channel, spec_list_channels, ValidateFilter, spec_fetch,
    spec_list_messages, spec_read_object.
  split_and!; intros;
    repeat first [apply mild_authenticate | apply mild_readable | apply mild_object | mild_step].
Qed.

Lemma mild_rejections s :
  publish_rejection s \/ random_rejection s \/ io_status s -> must_exit s = false.
Proof.
  unfold must_exit. intros [[[->| ->]|[->| ->]]|[(e & _ & ->)|[-> [->| ->]]]]; reflexivity.
Qed.

(** An error is a storage failure, or a refusal by a request that did nothing. *)
Definition clean {B} (w : CoreW) (x : Result B) (w' : CoreW) : Prop :=
  match x with
  | Ok _ => latch w' = latch w
  | Err s => (fatal_status s /\ fallible /\ (latch w' = latch w \/ latch w' = latch (trip cfg s w))) \/
             (stored_same w w' /\ latch w' = latch w /\ must_exit s = false)
  end.

Lemma unchanged_clean {B} w (s : Status) w' :
  unchanged w w' -> must_exit s = false -> clean w (@Err B s) w'.
Proof.
  intros Hu Hm. right. split_and!; [by apply unchanged_stored|apply Hu|done].
Qed.

Lemma fault_clean {B} w s w' : fault cfg w s w' -> clean w (@Err B s) w'.
Proof. intros (Hf & [_ Hfall] & _ & _ & Hl). by left. Qed.

Lemma Outcome_clean {B} (Rej : Status -> Prop) w a (spec : Result (B * AState)) r w' :
  mild spec -> (forall s, Rej s -> must_exit s = false) -> Outcome cfg Rej w a spec r w' -> clean w r w'.
Proof.
  intros Hm HR. destruct 1; [done|apply unchanged_clean; by auto..|by apply fault_clean].
Qed.

(** Passing the status on can only close the latch. *)
Lemma trip_moves s w a w' : moves w a w' -> moves w a (trip cfg s w').
Proof.
  intros ((a' & Hr & He) & [Hd Hk] & Hs & Hx). destruct (trip_quiet cfg s w') as ([Hf Hs'] & _ & Hv).
  injection Hv as Hv Hc. split_and!; [exists a'; by rewrite Hv|split|congruence|].
  - unfold dir in *. congruence.
  - unfold keeping in *. by rewrite Hf.
  - unfold crash_moves, on_disk_now in *. by rewrite Hv, Hc.
Qed.

End Effects.
