(* ===== verification/Requests.v ===== *)
(** * Any request

    One specification for all unary requests, as a function on the abstract state and
    the data of the objects, and the one way in which any of them ends.  What a
    request can change, and when it changes nothing, follows from it. *)

From S2P Require Import Prelude Status Encoding Tokens Proto Json Platform Keys World FileStore.
From S2P Require Import Files Storage Core Commands Model Reads Scan Spec SystemMessages Refine.
From S2P Require Import Handlers ChannelHandlers Invariant Queries Pages Startup Objects Services.
From S2P Require Import Durability Effects.

(** ** The specification *)

(** What the host contributes to an answer: the time and random bytes. *)
Record Choice := MkChoice { ch_ms : Z; ch_bytes : list Z }.

Definition choice_ok (ch : Choice) : Prop := length (ch_bytes ch) = 16%nat.

Section Requests.
Context {R : RocksDB} {P : Protobuf} {F : PosixDir} {H : Host}.
Context {RS : RocksDBSpec} {PS : ProtobufSpec} {HS : HostSpec} {FS : PosixDirSpec}.
Context (cfg : CoreConfig).

(** A command answers and leads to a state; a query answers from the state. *)
Definition command {B} (f : B -> Response) (spec : Result (B * AState)) : Result (Response * AState) :=
  rlet p := spec in Ok (f p.1, p.2).

Definition query {B} (a : AState) (f : B -> Response) (spec : Result B) : Result (Response * AState) :=
  rlet v := spec in Ok (f v, a).

Definition request_spec (ch : Choice) (data : Z -> string) (r : Request) (a : AState)
    : Result (Response * AState) :=
  match r with
  | RGetStatus p t => query a Seq (spec_get_status a p t)
  | RAllocateUuids n => command Uuids (spec_allocate n a)
  | RGetSeqByUuid u => query a Seq (spec_seq_by_uuid a u)
  | RPublish req _ => command (fun _ => Done)
      (spec_publish cfg (pr_principal req) (pr_token req) (pr_channel_id req) (pr_uuid req)
         (pr_recipients req) (pr_payload req) (pr_object_keys req) (Some (pr_seq req)) (ch_ms ch) a)
  | RPublishAutoSeq req _ => command Seq
      (spec_publish cfg (pa_principal req) (pa_token req) (pa_channel_id req) (pa_uuid req)
         (pa_recipients req) (pa_payload req) (pa_object_keys req) None (ch_ms ch) a)
  | RFetch req => query a Page (spec_fetch cfg a req)
  | RGetObjectMetadata id t =>
      query a (fun m => Metadata [m]) (rlet o := spec_object a id t in Ok (metadata_of o))
  | RBatchGetObjectMetadata keys => query a Metadata (spec_batch_metadata a keys)
  | RReadObject id t offset n => query a Data (spec_read_object a data id t offset n)
  | RCreateChannel req => command (fun c => Channels [c]) (spec_create_channel req (ch_ms ch) a)
  | RGetChannel p t id => query a (fun c => Channels [c]) (spec_get_channel a p t id)
  | RListChannels p t f => query a Channels (spec_list_channels a p t f)
  | RAddMember req => command (fun _ => Done) (spec_add_member req (ch_ms ch) a)
  | RRemoveMember req => command (fun _ => Done) (spec_remove_member req (ch_ms ch) a)
  | RAddToken p => command Token (spec_add_token p (format_token (ch_bytes ch)) a)
  | RDeleteToken p t => command (fun _ => Done) (spec_delete_token p t a)
  | RListMessages from limit => query a Page (spec_list_messages cfg a from limit)
  end.

(** The statuses the host can give instead of an answer. *)
Definition may_reject (r : Request) (s : Status) : Prop :=
  match r with
  | RPublish _ _ | RPublishAutoSeq _ _ => publish_rejection s
  | RCreateChannel _ | RAddMember _ | RRemoveMember _ => serialize_rejection s
  | RAddToken _ => random_rejection s
  | RReadObject _ _ _ _ => io_status s
  | _ => False
  end.

(** The ways a request ends.  Reading an object uses the directory, without changing it. *)
Inductive Handled (r : Request) (w : CoreW) (a : AState) (spec : Result (Response * AState))
    (x : Result Response) (w' : CoreW) : Prop :=
  | H_outcome : Outcome cfg (may_reject r) w a spec x w' -> Handled r w a spec x w'
  | H_reads :
      stored_same w w' -> latch w' = latch w -> (forall v a', spec = Ok (v, a') -> a' = a) ->
      (x = (rlet p := spec in Ok p.1) \/ exists s, x = Err s /\ may_reject r s) ->
      Handled r w a spec x w'.

(** ** Every handler meets it *)

Lemma respond_command {B} (f : B -> Response) (m : RM CoreW B) Rej w a spec :
  wp m (Outcome cfg Rej w a spec) w -> wp (respond f m) (Outcome cfg Rej w a (command f spec)) w.
Proof.
  unfold wp, respond, bind_ok, bind, ok, ret, command. destruct (m w) as [[v|e] w']; intros Hout.
  - inversion Hout as [v' a' w1 -> ? ? ? ?| | |]; subst. by eapply Served.
  - inversion Hout as [|e' w1 -> ?|s w1 ? ?|s w1 Hf Hv Hd]; subst; [by apply Refused|by apply Rejected|].
    apply Failed; [done| |].
    + destruct Hv as [?|(v & a' & -> & ?)]; [by left|]. right. by exists (f v), a'.
    + destruct Hd as [?|(v & a' & -> & ?)]; [by left|]. right. by exists (f v), a'.
Qed.

Lemma respond_query {B} (f : B -> Response) (m : RM CoreW B) Rej w a spec :
  Answers cfg a m spec -> fatal_error_triggered w = false -> repr (cview w) a ->
  wp (respond f m) (Outcome cfg Rej w a (query a f spec)) w.
Proof.
  intros Hm Hav Hr. specialize (Hm w Hav Hr). unfold wp, respond, bind_ok, bind, ok, ret, query in *.
  destruct (m w) as [x w']. destruct Hm as [[-> Hu]|(s & -> & Hf & Hv)].
  - pose proof Hu as ([= Hv Hx] & Hq & Hg & Hl). destruct spec as [v|e]; [|by apply Refused].
    eapply Served; [done|by rewrite Hv|done|done|by right].
  - injection Hv as Hv Hx. apply Failed; [done|by left|by left].
Qed.

Lemma Outcome_mono {B} (Rej Rej' : Status -> Prop) w a (spec : Result (B * AState)) x w' :
  (forall s, Rej s -> Rej' s) -> Outcome cfg Rej w a spec x w' -> Outcome cfg Rej' w a spec x w'.
Proof.
  intros Hr. destruct 1; [by eapply Served|by apply Refused|by apply Rejected; auto|by apply Failed].
Qed.

Lemma ReadObject_handled a id token offset nbytes w :
  fatal_error_triggered w = false -> repr (cview w) a -> WF a -> files_ok a (dir (c_storage w)) ->
  is_u64 id -> 0 <= offset -> 0 <= nbytes ->
  wp (respond Data (ReadObject cfg id token offset nbytes))
    (Handled (RReadObject id token offset nbytes) w a
       (query a Data (spec_read_object a (file_data (dir (c_storage w))) id token offset nbytes))) w.
Proof using FS HS RS.
  intros Hav Hr Hwf Hf Hid Ho Hn. pose proof (ReadObject_outcome cfg a id token offset nbytes w Hav Hr Hwf Hf Hid Ho Hn) as Hw.
  unfold wp, respond, bind_ok, bind, ok, ret, query in *.
  destruct (ReadObject cfg id token offset nbytes w) as [x w']. set (spec := spec_read_object _ _ _ _ _ _) in *.
  assert (Hst : forall v a', (rlet v := spec in Ok (Data v, a)) = Ok (v, a') -> a' = a).
  { intros v a'. destruct spec; [|done]. by intros [= _ <-]. }
  destruct Hw as [Hs [[-> Hl]|(s & -> & [[Hio Hl]|Hflt])]].
  - destruct spec; (apply H_reads; [done|done|done|by left]).
  - apply H_reads; [done|done|done|]. right. by exists s.
  - destruct Hs as ([= Hv Hx] & _). apply H_outcome, Failed; [done|by left|by left].
Qed.

Lemma handle_outcome r w a :
  fatal_error_triggered w = false -> repr (cview w) a -> WF a -> a_max_seq a < two64 - 1 ->
  files_ok a (dir (c_storage w)) -> request_ok r ->
  wp (handle cfg r) (fun x w' => exists ch, choice_ok ch /\
    Handled r w a (request_spec ch (file_data (dir (c_storage w))) r a) x w') w.
Proof using FS HS PS RS.
  intros Hav Hr Hwf Hmax Hfiles Hreq.
  set (ch := MkChoice (now_ms w) (replicate 16 0)).
  assert (Hone : wp (handle cfg r) (Handled r w a (request_spec ch (file_data (dir (c_storage w))) r a)) w ->
    wp (handle cfg r) (fun x w' => exists ch, choice_ok ch /\
      Handled r w a (request_spec ch (file_data (dir (c_storage w))) r a) x w') w).
  { intros Hw. eapply wp_mono; [|exact Hw]. intros x w' Hh. by exists ch. }
  assert (Hq : forall B (f : B -> Response) m spec, Answers cfg a m spec ->
    wp (respond f m) (Handled r w a (query a f spec)) w).
  { intros B f m spec Hm. eapply wp_mono; [intros x w'; apply H_outcome|]. by apply respond_query. }
  assert (Hc : forall B (f : B -> Response) m (Rej : Status -> Prop) spec, (forall s, Rej s -> may_reject r s) ->
    wp m (Outcome cfg Rej w a spec) w -> wp (respond f m) (Handled r w a (command f spec)) w).
  { intros B f m Rej spec HR Hm. eapply wp_mono; [intros x w' Ho; by apply H_outcome, (Outcome_mono Rej)|].
    by apply respond_command. }
  destruct r; cbn [handle request_ok request_spec] in *;
    lazymatch goal with |- context [AddToken] => idtac | _ => apply Hone end.
  - by apply Hq, GetStatus_answers.
  - by eapply Hc, AllocateUuids_outcome.
  - by apply Hq, GetSeqByUuid_answers.
  - eapply wp_mono; [|eapply Hc, Publish_outcome; [|done..]; done]. unfold drop_value, command.
    by intros x w'; destruct (spec_publish _ _ _ _ _ _ _ _ _ _ _) as [[]|].
  - by eapply Hc, PublishAutoSeq_outcome.
  - by apply Hq, Fetch_answers.
  - by apply Hq, GetObjectMetadata_answers.
  - by apply Hq, BatchGetObjectMetadata_answers.
  - destruct Hreq as (? & ? & ?). by apply ReadObject_handled.
  - by eapply Hc, CreateChannel_outcome.
  - destruct Hreq. by apply Hq, GetChannel_answers.
  - by apply Hq, ListChannels_answers.
  - by eapply Hc, AddMember_outcome.
  - by eapply Hc, RemoveMember_outcome.
  - pose proof (AddToken_outcome cfg _ w a Hav Hr Hwf Hreq) as Hw. unfold wp in Hw |- *.
    destruct (AddToken cfg principal w) as [x w'] eqn:E. destruct Hw as (bytes & Hlen & _ & Hout).
    assert (respond Token (AddToken cfg principal) w = respond Token (fun _ => (x, w')) w) as ->.
    { unfold respond, bind_ok, bind. by rewrite E. }
    pose proof (respond_command Token (fun _ => (x, w')) _ w a _ Hout) as Hw. unfold wp in Hw.
    destruct (respond Token _ w) as [y w2]. exists (MkChoice 0 bytes). split; [done|by apply H_outcome].
  - by eapply Hc, DeleteToken_outcome.
  - by apply Hq, ListMessages_answers.
Qed.

(** ** What a request changes *)

Lemma request_evolves ch data r a v a' :
  choice_ok ch -> WF a -> Room a -> request_ok r -> request_spec ch data r a = Ok (v, a') -> Evolves a a'.
Proof.
  intros Hch Hwf Hroom Hreq.
  assert (Hq : forall B (f : B -> Response) spec, query a f spec = Ok (v, a') -> Evolves a a').
  { intros B f spec. unfold query. destruct spec; [|done]. intros [= _ <-]. by apply Evolves_refl. }
  assert (Hc : forall B (f : B -> Response) spec, command f spec = Ok (v, a') ->
    exists u, spec = Ok (u, a')).
  { intros B f spec. unfold command. destruct spec as [[u a1]|]; [|done]. intros [= _ <-]. by exists u. }
  destruct r; cbn [request_spec request_ok] in *; try (by apply Hq); intros [u Hs]%Hc.
  - by eapply allocate_evolves.
  - eapply publish_evolves; [done| |done]. apply Hreq.
  - eapply publish_evolves; [done| |done]. apply Hreq.
  - by eapply create_channel_evolves.
  - by eapply add_member_evolves.
  - by eapply remove_member_evolves.
  - pose proof (WF_add_token _ _ _ _ _ Hwf Hreq (token_nonempty _ Hch) Hs) as Hwf'.
    unfold spec_add_token in Hs. destruct (_ =? 0); [done|]. injection Hs as _ <-. by apply set_tokens_evolves.
  - pose proof (WF_delete_token _ _ _ _ _ Hwf Hs) as Hwf'.
    unfold spec_delete_token in Hs. destruct (_ || _); [done|]. injection Hs as _ <-. by apply set_tokens_evolves.
Qed.

Lemma handle_moves r w a :
  repr (cview w) a -> WF a -> Room a -> a_max_seq a < two64 - 1 -> files_ok a (dir (c_storage w)) ->
  request_ok r -> wp (handle cfg r) (fun _ w' => moves w a w') w.
Proof using FS HS PS RS.
  intros Hr Hwf Hroom Hmax Hfiles Hreq. destruct (fatal_error_triggered w) eqn:Hav.
  { unfold wp. rewrite handle_unavailable by done. by apply moves_stays. }
  eapply wp_mono; [|by apply handle_outcome]. intros x w' (ch & Hch & [Hout|(Hv & Hd & Hs & _) _ _ _]).
  - eapply Outcome_moves; try done. intros v a'. by apply request_evolves.
  - by apply moves_stays.
Qed.

Lemma serve_moves r w a :
  repr (cview w) a -> WF a -> Room a -> a_max_seq a < two64 - 1 -> files_ok a (dir (c_storage w)) ->
  request_ok r -> wp (serve cfg r) (fun _ w' => moves w a w') w.
Proof using FS HS PS RS.
  intros. unfold serve, rpc, ToGrpcStatus. apply wp_bind.
  eapply wp_mono; [|by apply handle_moves]. intros x w' Hm. unfold wp, bind, ret.
  rewrite run_HandleRpcStatus. destruct (must_exit _); [by apply trip_moves|done].
Qed.

(** ** What an error means *)

Lemma request_mild ch data r a : mild (request_spec ch data r a).
Proof.
  destruct mild_channel_requests as (M1 & M2 & M3). destruct mild_tokens as (M4 & M5 & M6).
  destruct (mild_queries cfg) as (M7 & M8 & M9 & M10 & M11 & M12 & M13).
  assert (Hc : forall B (f : B -> Response) spec, mild spec -> mild (command f spec)).
  { intros B f spec Hm. apply mild_bind; [done|intros; apply mild_ok]. }
  assert (Hq : forall B (f : B -> Response) spec, mild spec -> mild (query a f spec)).
  { intros B f spec Hm. apply mild_bind; [done|intros; apply mild_ok]. }
  destruct r; cbn [request_spec]; first [apply Hc | apply Hq]; auto using mild_publish, mild_objects.
  apply mild_bind; [apply mild_object|intros; apply mild_ok].
Qed.

Lemma rejection_mild r s : may_reject r s -> must_exit s = false.
Proof.
  intros Hr. apply mild_rejections. destruct r; try done; cbn in Hr; auto; left; by right.
Qed.

Lemma handle_clean r w a :
  repr (cview w) a -> WF a -> a_max_seq a < two64 - 1 -> files_ok a (dir (c_storage w)) ->
  request_ok r -> wp (handle cfg r) (clean cfg w) w.
Proof using FS HS PS RS.
  intros Hr Hwf Hmax Hfiles Hreq. destruct (fatal_error_triggered w) eqn:Hav.
  { unfold wp. rewrite handle_unavailable by done. by apply unchanged_clean. }
  eapply wp_mono; [|by apply handle_outcome]. intros x w' (ch & _ & [Hout|Hs Hl _ Hx]).
  - eapply Outcome_clean; [apply request_mild|apply rejection_mild|exact Hout].
  - pose proof (request_mild ch (file_data (dir (c_storage w))) r a) as Hm.
    destruct Hx as [->|(s & -> & Hrej)].
    + destruct (request_spec _ _ _ _) as [[v a']|e]; [done|]. right. split_and!; [done|done|by apply Hm].
    + right. split_and!; [done|done|by eapply rejection_mild].
Qed.

End Requests.
