(* ===== verification/Concurrency.v ===== *)
(** * Concurrent writers

    [WriteObject] gives up the lock while it writes the object's file, so other
    requests and other writers run between its phases.  The server is a step
    relation over the coordinator and the writers in flight; the invariant ties
    every writer to its registered object and every committed object to its
    file. *)

From stdpp Require Import relations.
From S2P Require Import Prelude Status Encoding Tokens Proto Json Platform Keys World FileStore.
From S2P Require Import Files Storage Core Commands Model Reads Scan Spec SystemMessages Refine.
From S2P Require Import Handlers ChannelHandlers Invariant Queries Pages Startup Objects Services.
From S2P Require Import Effects Requests.

(** Where a writer is between two critical sections. *)
Inductive Stage := Writing | Written | Cleaning (status : Status).

Record Writer := MkWriter { wt_req : WriteObjectRequest; wt_object : StoredObject; wt_stage : Stage }.

Definition wt_id (wt : Writer) : Z := so_object_id (wt_object wt).

Lemma names_apart id id' n :
  0 < id < two64 -> 0 < id' < two64 -> id <> id' -> n ∈ object_names id' -> n ∉ object_names id.
Proof.
  intros H1 H2 Hne Hn Hn'. unfold object_names in *.
  apply elem_of_cons in Hn as [->|Hn%list_elem_of_singleton];
    apply elem_of_cons in Hn' as [E|E%list_elem_of_singleton]; try subst n.
  - apply Hne. symmetry. by apply TemporaryName_inj.
  - exact (Temporary_Final id' id H1 E).
  - exact (Temporary_Final id id' H2 (eq_sym E)).
  - apply Hne. symmetry. by apply FinalName_inj.
Qed.

Section Concurrency.
Context {R : RocksDB} {P : Protobuf} {F : PosixDir} {H : Host}.
Context {RS : RocksDBSpec} {PS : ProtobufSpec} {HS : HostSpec} {FS : PosixDirSpec}.
Context (cfg : CoreConfig).

(** ** The phases of [WriteObject] *)

Definition writer_step (wt : Writer) : M CoreW (Writer + Result (Z * string)) :=
  let 'MkWriter req object stage := wt in
  match stage with
  | Writing =>
      let! file_status := storage (WriteObjectFile (so_object_id object) (wr_data req)) in
      match file_status with
      | Err status =>
          if must_exit status
          then let! s := FatalStorageError cfg status in ret (inr (Err s))
          else ret (inl (MkWriter req object (Cleaning status)))
      | Ok _ => ret (inl (MkWriter req object Written))
      end
  | Written =>
      let! outcome := WriteObject_commit cfg req object in
      match outcome with
      | NotAttempted status =>
          if must_exit status
          then let! s := FatalStorageError cfg status in ret (inr (Err s))
          else ret (inl (MkWriter req object (Cleaning status)))
      | _ => let! r := WriteObject_finish cfg object outcome in ret (inr r)
      end
  | Cleaning status =>
      let! s := CleanupPreparingObject cfg (so_object_id object) status in ret (inr (Err s))
  end.

(** A writer that runs alone: it writes, commits and, at worst, cleans up. *)
Fixpoint run_writer (fuel : nat) (wt : Writer) : RM CoreW (Z * string) :=
  let! x := writer_step wt in
  match x, fuel with
  | inr r, _ => ret r
  | inl wt', S fuel => run_writer fuel wt'
  | inl _, O => ret (Err out_of_fuel)
  end.

Lemma WriteObject_run req w :
  WriteObject cfg req w =
  (let? o := WriteObject_prepare cfg req in run_writer 2 (MkWriter req o Writing)) w.
Proof.
  unfold WriteObject, bind_ok, bind. destruct (WriteObject_prepare cfg req w) as [[o|e] w1]; [|done].
  cbn [run_writer writer_step]. unfold bind.
  destruct (storage _ w1) as [[[]|e] w2].
  - cbn. unfold bind.
    destruct (WriteObject_commit cfg req o w2) as [[|s1|s2|s3] w3]; cbn [WriteObject_finish]; try done.
    + unfold bind. by destruct (FatalStorageError cfg s2 w3).
    + destruct (must_exit s3); unfold bind; [by destruct (FatalStorageError cfg s3 w3)|].
      cbn. unfold bind. by destruct (CleanupPreparingObject cfg _ _ w3).
  - destruct (must_exit e); unfold bind; [by destruct (FatalStorageError cfg e w2)|].
    cbn. unfold bind. by destruct (CleanupPreparingObject cfg _ _ w2).
Qed.

(** ** The server *)

Record Sys := MkSys { sys_core : CoreW; sys_writers : gmap nat Writer }.

Definition sdir (sys : Sys) : gmap string Node := dir (c_storage (sys_core sys)).

(** The status of a finished RPC goes through [HandleRpcStatus]. *)
Definition closed (s : Status) (w : CoreW) : CoreW := (HandleRpcStatus cfg s w).2.

(** A request that passed the test of the latch just before it was closed runs as it would have
    on the open server, but finds the latch closed when it meets a fault itself. *)
Definition set_latch (w : CoreW) (triggered : bool) (calls : list Status) : CoreW :=
  MkCoreW (c_storage w) (commit_generation w) triggered calls (c_sub w).

Definition reopened (sys : Sys) : Sys :=
  MkSys (set_latch (sys_core sys) false (fatal_calls (sys_core sys))) (sys_writers sys).

Definition relatched (sys sys' : Sys) : Sys :=
  MkSys (set_latch (sys_core sys') (fatal_error_triggered (sys_core sys)) (fatal_calls (sys_core sys)))
    (sys_writers sys').

(** The latch is all a fault changes, and a fault that finds it closed changes nothing. *)
Lemma late_fault s sys :
  fatal_error_triggered (sys_core sys) = true ->
  FatalStorageError cfg s (sys_core sys) = (s, sys_core sys) /\
  relatched sys (MkSys (FatalStorageError cfg s (sys_core (reopened sys))).2 (sys_writers sys)) = sys.
Proof.
  destruct sys as [[st g f calls sub] ws]. rewrite !run_FatalStorageError. cbn. intros ->. by split.
Qed.

Inductive step : Sys -> Sys -> Prop :=
  | S_serve r sys :
      request_ok r -> step sys (MkSys (serve cfg r (sys_core sys)).2 (sys_writers sys))
  | S_prepare i req o w' sys :
      write_request_ok req -> sys_writers sys !! i = None ->
      WriteObject_prepare cfg req (sys_core sys) = (Ok o, w') ->
      step sys (MkSys w' (<[i := MkWriter req o Writing]> (sys_writers sys)))
  | S_prepare_fails req s w' sys :
      write_request_ok req -> WriteObject_prepare cfg req (sys_core sys) = (Err s, w') ->
      step sys (MkSys (closed s w') (sys_writers sys))
  | S_writer i wt wt' w' sys :
      sys_writers sys !! i = Some wt -> writer_step wt (sys_core sys) = (inl wt', w') ->
      step sys (MkSys w' (<[i := wt']> (sys_writers sys)))
  | S_writer_ends i wt r w' sys :
      sys_writers sys !! i = Some wt -> writer_step wt (sys_core sys) = (inr r, w') ->
      step sys (MkSys (closed (result_status r) w') (delete i (sys_writers sys)))
  | S_late sys sys' :
      fatal_error_triggered (sys_core sys) = true -> step (reopened sys) sys' ->
      step sys (relatched sys sys').

(** ** The invariant *)

Definition writer_ok (a : AState) (d : gmap string Node) (wt : Writer) : Prop :=
  a_preparing a !! wt_id wt = Some (wt_object wt) /\ record_text_ok (record_of (wt_object wt)) /\
  is_u64 (wr_principal (wt_req wt)) /\ so_nbytes (wt_object wt) = str_size (wr_data (wt_req wt)) /\
  match wt_stage wt with
  | Writing => forall n, n ∈ object_names (wt_id wt) -> d !! n = None
  | Written => d !! FinalName (wt_id wt) = Some (NFile (wr_data (wt_req wt)))
  | Cleaning _ => True
  end.

Record SysInv (a : AState) (sys : Sys) : Prop := {
  si_repr : repr (cview (sys_core sys)) a;
  si_wf : WF a;
  si_writers : forall i wt, sys_writers sys !! i = Some wt -> writer_ok a (sdir sys) wt;
  si_distinct : forall i j wi wj, sys_writers sys !! i = Some wi -> sys_writers sys !! j = Some wj ->
                  wt_id wi = wt_id wj -> i = j;
  si_files : files_ok a (sdir sys);
  (** The names of the objects to come are free. *)
  si_fresh : forall id n, a_next_object a <= id < two64 -> n ∈ object_names id -> sdir sys !! n = None
}.

(** What was stored stays stored. *)
Definition Keeps (a : AState) (d d' : gmap string Node) : Prop :=
  forall id, is_Some (a_committed a !! id) -> d' !! FinalName id = d !! FinalName id.

(** An object is committed by a writer whose file is complete. *)
Definition Grown (a a' : AState) (sys : Sys) : Prop :=
  forall id o, a_committed a' !! id = Some o -> a_committed a !! id = Some o \/
    exists i wt, sys_writers sys !! i = Some wt /\ wt_stage wt = Written /\ wt_id wt = id /\
      wt_object wt = o.

Definition Preserved (a : AState) (sys sys' : Sys) : Prop :=
  exists a', SysInv a' sys' /\ Extends a a' /\ Bounded a a' /\ Keeps a (sdir sys) (sdir sys') /\
    Grown a a' sys.

Lemma Grown_same a a' sys : a_committed a' = a_committed a -> Grown a a' sys.
Proof. intros E id o. rewrite E. by left. Qed.

Lemma Grown_commit a o sys i wt :
  sys_writers sys !! i = Some wt -> wt_stage wt = Written -> wt_object wt = o ->
  Grown a (a_commit_object a o) sys.
Proof.
  intros Hi Hst <- id o'. cbn. intros [[<- <-]|[_ Ho]]%lookup_insert_Some; [|by left].
  right. by exists i, wt.
Qed.

(** *** Steps that leave the directory alone *)

Lemma SysInv_same_objects a a' sys w' :
  SysInv a sys -> repr (cview w') a' -> WF a' -> same_objects a a' ->
  dir (c_storage w') = sdir sys -> SysInv a' (MkSys w' (sys_writers sys)).
Proof.
  intros [] Hr Hwf (Hp & Hc & Hn) Hd. constructor; cbn; try done.
  - intros i wt Hi. unfold sdir. cbn. rewrite Hd. destruct (si_writers0 i wt Hi) as (? & ?).
    split; [by rewrite Hp|done].
  - unfold files_ok, sdir in *. cbn. rewrite Hd, Hc. done.
  - unfold sdir in *. cbn. rewrite Hd, Hn. done.
Qed.

Lemma closed_state s w :
  cview (closed s w) = cview w /\ c_storage (closed s w) = c_storage w.
Proof.
  unfold closed. rewrite run_HandleRpcStatus. cbn. destruct (must_exit s); [|done].
  unfold trip. by destruct (fatal_error_triggered w).
Qed.

Lemma preserved_serve a sys r :
  SysInv a sys -> Budget 1 a -> request_ok r ->
  Preserved a sys (MkSys (serve cfg r (sys_core sys)).2 (sys_writers sys)).
Proof using FS HS PS RS.
  intros Hinv Hb Hreq. pose proof Hinv as [].
  assert (Hm := serve_moves cfg r (sys_core sys) a si_repr0 si_wf0 (Budget_Room 1 a ltac:(lia) Hb)
    ltac:(unfold Budget in Hb; lia) si_files0 Hreq).
  unfold wp in Hm. destruct (serve cfg r (sys_core sys)) as [x w'].
  destruct Hm as ((a' & Hr & Hwf & Hx & Hbd & Hso) & [Hd _] & _).
  exists a'. split_and!; [by eapply SysInv_same_objects|done|done| |by apply Grown_same, Hso].
  intros id _. unfold sdir. cbn. by rewrite Hd.
Qed.

(** *** Registering an object *)

Lemma prepare_same a sys w' ws :
  SysInv a sys -> cview w' = cview (sys_core sys) -> st_fs (c_storage w') = st_fs (c_storage (sys_core sys)) ->
  ws = sys_writers sys -> Preserved a sys (MkSys w' ws).
Proof.
  intros Hinv Hv Hf ->. pose proof Hinv as []. exists a.
  split_and!; [|done|apply Bounded_refl|intros id _; unfold sdir, dir; cbn; by rewrite Hf|by apply Grown_same].
  eapply SysInv_same_objects; [done| |done|done|unfold sdir, dir; by rewrite Hf]. by rewrite Hv.
Qed.

(** The state after a registration, with or without its writer. *)
Lemma prepare_extends a o :
  WF a -> Room a -> so_object_id o = a_next_object a -> object_wf (so_object_id o) o ->
  WF (a_prepare a o) /\ Extends a (a_prepare a o) /\ Bounded a (a_prepare a o) /\
  a_next_object (a_prepare a o) = a_next_object a + 1.
Proof.
  intros Hwf (_ & _ & Hroom) Hid Ho. pose proof (wf_next_object _ Hwf).
  assert (Hn : a_next_object (a_prepare a o) = a_next_object a + 1).
  { cbn. rewrite u64_add_small by lia. lia. }
  split_and!; [by apply WF_prepare| | |done].
  - constructor; rewrite ?Hn; cbn; try done; auto with oe; lia.
  - unfold Bounded. rewrite Hn. change (a_max_seq (a_prepare a o)) with (a_max_seq a). cbn.
    unfold kMaxUuidBatch. lia.
Qed.

Lemma SysInv_prepare a o sys w' :
  SysInv a sys -> Room a -> so_object_id o = a_next_object a -> object_wf (so_object_id o) o ->
  repr (cview w') (a_prepare a o) -> dir (c_storage w') = sdir sys ->
  SysInv (a_prepare a o) (MkSys w' (sys_writers sys)).
Proof.
  intros Hinv Hroom Hid Ho Hr Hd. pose proof Hinv as [].
  destruct (prepare_extends a o) as (Hwf' & _ & _ & Hn); [done..|].
  constructor; cbn; try done.
  - intros i wt Hi. unfold sdir. cbn. rewrite Hd. destruct (si_writers0 i wt Hi) as (Hp & Hrest).
    split; [|done]. cbn. rewrite lookup_insert_ne; [done|].
    destruct (wf_preparing _ si_wf0 _ _ Hp) as [_ ?]. lia.
  - unfold files_ok, sdir in *. cbn. by rewrite Hd.
  - intros id n Hn'. unfold sdir in *. cbn. rewrite Hd. apply si_fresh0. cbn in Hn. lia.
Qed.

Lemma SysInv_add_writer a i wt sys :
  SysInv a sys -> sys_writers sys !! i = None -> writer_ok a (sdir sys) wt ->
  (forall j wj, sys_writers sys !! j = Some wj -> wt_id wj <> wt_id wt) ->
  SysInv a (MkSys (sys_core sys) (<[i := wt]> (sys_writers sys))).
Proof.
  intros [] Hi Hwt Hne. constructor; cbn; try done.
  - intros j wj [[<- <-]|[_ Hj]]%lookup_insert_Some; [done|by eapply si_writers0].
  - intros j k wj wk [[<- <-]|[Hj1 Hj]]%lookup_insert_Some [[<- <-]|[Hk1 Hk]]%lookup_insert_Some E;
      [done|by destruct (Hne _ _ Hk)|by destruct (Hne _ _ Hj)|by eapply si_distinct0].
Qed.

(** A registration that reached the database. *)
Lemma prepared_state a sys req token o a' w' :
  SysInv a sys -> Room a -> write_request_ok req -> IsBase64UrlToken token = true ->
  spec_prepare req token a = Ok (o, a') -> repr (cview w') a' ->
  dir (c_storage w') = sdir sys ->
  SysInv a' (MkSys w' (sys_writers sys)) /\ Extends a a' /\ Bounded a a' /\
  o = prepared_object req token (a_next_object a) /\ a' = a_prepare a o.
Proof.
  intros Hinv Hroom Hreq Htok Hs Hr Hd. pose proof Hinv as [].
  apply spec_prepare_ok in Hs as (Hwf' & Ho & ->); [|done..].
  assert (Hwfo : object_wf (so_object_id o) o).
  { destruct (wf_preparing _ Hwf' (so_object_id o) o) as [? _]; [cbn; apply lookup_insert_eq|done]. }
  destruct (prepare_extends a o) as (_ & Hx & Hbd & _); [done..|by rewrite Ho|done|].
  split_and!; [|done..]. eapply SysInv_prepare; try done. by rewrite Ho.
Qed.

(** Its writer. *)
Lemma prepared_writer_ok a d req token :
  WF a -> write_request_ok req -> IsBase64UrlToken token = true ->
  (forall n, n ∈ object_names (a_next_object a) -> d !! n = None) ->
  let o := prepared_object req token (a_next_object a) in
  writer_ok (a_prepare a o) d (MkWriter req o Writing).
Proof.
  intros Hwf Hreq Htok Hfree o. split; [cbn; apply lookup_insert_eq|].
  split; [split_and!; cbn; [by apply utf8_token|apply Hreq..]|].
  split; [apply Hreq|]. by split.
Qed.

Lemma preserved_prepare a sys req r w' :
  SysInv a sys -> Budget 1 a -> write_request_ok req ->
  WriteObject_prepare cfg req (sys_core sys) = (r, w') ->
  match r with
  | Err s => Preserved a sys (MkSys w' (sys_writers sys))
  | Ok o => forall i, sys_writers sys !! i = None ->
      Preserved a sys (MkSys w' (<[i := MkWriter req o Writing]> (sys_writers sys)))
  end.
Proof using HS PS RS.
  intros Hinv Hb Hreq Hrun. pose proof Hinv as [].
  pose proof (Budget_Room 1 a ltac:(lia) Hb) as Hroom.
  destruct (fatal_error_triggered (sys_core sys)) eqn:Hav.
  { unfold WriteObject_prepare in Hrun. rewrite unavailable_refused in Hrun by done. injection Hrun as <- <-.
    by apply prepare_same. }
  pose proof (WriteObject_prepare_outcome cfg req _ a Hav si_repr0 si_wf0 Hreq) as Hout.
  unfold wp in Hout. rewrite Hrun in Hout. destruct Hout as (bytes & Hlen & _ & Hout).
  apply base64url_is_token in Hlen as Htok. revert Htok Hout. generalize (base64url bytes).
  intros token Htok Hout.
  assert (Hd : st_fs (c_storage w') = st_fs (c_storage (sys_core sys)) -> dir (c_storage w') = sdir sys).
  { unfold sdir, dir. by intros ->. }
  inversion Hout as [o a' w1 Hs Hr [Hf _] _ _ E1 E2|e w1 _ (Hv & [Hf _] & _) E1 E2
    |s w1 _ (Hv & [Hf _] & _) E1 E2|s w1 (_ & _ & [Hf _] & _) Hv _ E1 E2]; subst; specialize (Hd Hf).
  - intros i Hi. destruct (prepared_state a sys req token o a' w') as (Hinv' & Hx & Hbd & Ho & ->); [done..|].
    exists (a_prepare a o).
    split_and!; [|done|done|intros id _; unfold sdir at 1; cbn; by rewrite Hd|by apply Grown_same].
    apply (SysInv_add_writer _ i _ _ Hinv' Hi); cbn.
    + subst o. apply prepared_writer_ok; [done..|]. unfold sdir. cbn. rewrite Hd. intros n.
      apply si_fresh0. pose proof (wf_next_object _ si_wf0). lia.
    + intros j wj Hj E. destruct (si_writers0 j wj Hj) as (Hp & _).
      destruct (wf_preparing _ si_wf0 _ _ Hp) as [_ Hlt]. rewrite E, Ho in Hlt. cbn in Hlt. lia.
  - injection Hv as Hv _. by apply prepare_same.
  - injection Hv as Hv _. by apply prepare_same.
  - destruct Hv as [Hv|(o & a' & Hs & Hr & _)]; [by apply prepare_same|].
    destruct (prepared_state a sys req token o a' w') as (Hinv' & Hx & Hbd & _ & ->); [done..|].
    eexists. split_and!; [done..| |by apply Grown_same]. intros id _. unfold sdir at 1. cbn. by rewrite Hd.
Qed.

(** *** A writer's own steps *)

(** The writer's object: registered, not committed, not the one to come. *)
Lemma writer_object a sys i wt :
  SysInv a sys -> sys_writers sys !! i = Some wt ->
  a_preparing a !! wt_id wt = Some (wt_object wt) /\ a_committed a !! wt_id wt = None /\
  0 < wt_id wt < a_next_object a /\ a_next_object a < two64.
Proof.
  intros [] Hi. destruct (si_writers0 i wt Hi) as (Hp & _).
  destruct (wf_preparing _ si_wf0 _ _ Hp) as [_ Hid]. pose proof (wf_next_object _ si_wf0).
  split_and!; [done| |lia..]. destruct (a_committed a !! wt_id wt) as [c|] eqn:E; [|done].
  pose proof (wf_disjoint _ si_wf0) as Hd. rewrite map_disjoint_spec in Hd. by destruct (Hd _ _ _ Hp E).
Qed.

(** Only the writer's own names change on disk, and it gives up its place. *)
Lemma SysInv_release a sys i wt w' :
  SysInv a sys -> sys_writers sys !! i = Some wt -> repr (cview w') a ->
  touched (object_names (wt_id wt)) (sdir sys) (dir (c_storage w')) ->
  SysInv a (MkSys w' (delete i (sys_writers sys))) /\
  Keeps a (sdir sys) (dir (c_storage w')).
Proof.
  intros Hinv Hi Hr Ht. pose proof (writer_object _ _ _ _ Hinv Hi) as (Hp & Hc & Hid & Hn).
  pose proof Hinv as [].
  assert (Hother : forall id n, 0 < id < two64 -> id <> wt_id wt -> n ∈ object_names id ->
    dir (c_storage w') !! n = sdir sys !! n).
  { intros id n Hid' Hne Hin. apply Ht. eapply (names_apart _ id); [lia|done|congruence|done]. }
  assert (Hfin : forall id, FinalName id ∈ object_names id) by (intros; by right; left).
  assert (Hkeep : Keeps a (sdir sys) (dir (c_storage w'))).
  { intros id [o Ho]. destruct (wf_committed _ si_wf0 _ _ Ho) as [_ ?].
    apply (Hother id); [lia|congruence|done]. }
  split; [|done]. constructor; cbn; try done.
  - intros j wj [Hne Hj]%lookup_delete_Some. destruct (si_writers0 j wj Hj) as (H1 & H2 & H3 & H4 & H5).
    split_and!; try done. unfold sdir. cbn.
    assert (Hapart : wt_id wj <> wt_id wt) by (intros E; by rewrite (si_distinct0 j i wj wt Hj Hi E) in Hne).
    destruct (wf_preparing _ si_wf0 _ _ H1) as [_ ?].
    destruct (wt_stage wj); [|by rewrite (Hother (wt_id wj)) by (apply Hfin || done || lia)|done].
    intros n Hn'. rewrite (Hother (wt_id wj)) by (apply Hfin || done || lia). auto.
  - intros j k wj wk [_ Hj]%lookup_delete_Some [_ Hk]%lookup_delete_Some. by apply si_distinct0.
  - intros id o Ho. destruct (si_files0 id o Ho) as (data & Hd & Hs). exists data.
    split; [|done]. change (dir (c_storage w') !! FinalName id = Some (NFile data)).
    by rewrite (Hkeep id) by (by eexists).
  - intros id n Hid' Hn'. change (dir (c_storage w') !! n = None). rewrite (Hother id); [by eapply si_fresh0|lia|lia|done].
Qed.

Lemma SysInv_keep_writer a sys i wt wt' w' :
  SysInv a sys -> sys_writers sys !! i = Some wt -> repr (cview w') a ->
  touched (object_names (wt_id wt)) (sdir sys) (dir (c_storage w')) ->
  wt_id wt' = wt_id wt -> writer_ok a (dir (c_storage w')) wt' ->
  Preserved a sys (MkSys w' (<[i := wt']> (sys_writers sys))).
Proof.
  intros Hinv Hi Hr Ht Hid Hok. destruct (SysInv_release a sys i wt w') as [Hrel Hk]; [done..|].
  exists a. split_and!; [|done|apply Bounded_refl|done|by apply Grown_same].
  rewrite <- insert_delete_eq. apply (SysInv_add_writer a i wt' _ Hrel); cbn; [apply lookup_delete_eq|done|].
  intros j wj [Hne Hj]%lookup_delete_Some E. destruct Hinv. by rewrite (si_distinct0 j i wj wt Hj Hi) in Hne by congruence.
Qed.

(** The registered object is withdrawn. *)
Lemma SysInv_discard a sys id w' :
  SysInv a sys -> (forall j wj, sys_writers sys !! j = Some wj -> wt_id wj <> id) ->
  repr (cview w') (a_discard a id) -> dir (c_storage w') = sdir sys ->
  SysInv (a_discard a id) (MkSys w' (sys_writers sys)) /\ Extends a (a_discard a id) /\
  Bounded a (a_discard a id).
Proof.
  intros [] Hne Hr Hd. split_and!.
  - constructor; cbn; try done; [by apply WF_discard| | |].
    + intros j wj Hj. destruct (si_writers0 j wj Hj) as (H1 & Hrest). split; [|unfold sdir; cbn; by rewrite Hd].
      cbn. rewrite lookup_delete_ne; [done|]. intros E. by destruct (Hne j wj Hj).
    + unfold files_ok, sdir in *. cbn. by rewrite Hd.
    + unfold sdir in *. cbn. by rewrite Hd.
  - constructor; cbn; try done; auto with oe; lia.
  - exact (Bounded_refl a).
Qed.

(** The registered object is committed; its file is there. *)
Lemma SysInv_committed a sys i wt w' :
  SysInv a sys -> sys_writers sys !! i = Some wt -> wt_stage wt = Written ->
  repr (cview w') (a_commit_object a (wt_object wt)) -> dir (c_storage w') = sdir sys ->
  let sys' := MkSys w' (delete i (sys_writers sys)) in
  SysInv (a_commit_object a (wt_object wt)) sys' /\ Extends a (a_commit_object a (wt_object wt)) /\
  Bounded a (a_commit_object a (wt_object wt)) /\ Keeps a (sdir sys) (sdir sys').
Proof.
  intros Hinv Hi Hst Hr Hd. pose proof (writer_object _ _ _ _ Hinv Hi) as (Hp & Hc & Hid & _).
  pose proof Hinv as []. destruct (si_writers0 i wt Hi) as (_ & _ & _ & Hsz & Hfile).
  rewrite Hst in Hfile. unfold wt_id in *. split_and!.
  - constructor; cbn; try done.
    + apply WF_commit_object; [done|exact Hp].
    + intros j wj [Hne Hj]%lookup_delete_Some. destruct (si_writers0 j wj Hj) as (H1 & Hrest).
      split; [|unfold sdir; cbn; by rewrite Hd]. cbn. rewrite lookup_delete_ne; [done|].
      intros E. by rewrite (si_distinct0 i j wt wj Hi Hj E) in Hne.
    + intros j k wj wk [_ Hj]%lookup_delete_Some [_ Hk]%lookup_delete_Some. by apply si_distinct0.
    + intros id o. cbn. unfold sdir. cbn. rewrite Hd. intros [[<- <-]|[_ Ho]]%lookup_insert_Some; [|by apply si_files0].
      exists (wr_data (wt_req wt)). by rewrite Hsz.
    + unfold sdir in *. cbn. by rewrite Hd.
  - constructor; cbn; try done; try apply channels_same; try lia. by apply insert_subseteq.
  - exact (Bounded_refl a).
  - intros id _. unfold sdir. cbn. by rewrite Hd.
Qed.

Lemma SysInv_commit a sys i wt w' :
  SysInv a sys -> sys_writers sys !! i = Some wt -> wt_stage wt = Written ->
  repr (cview w') (a_commit_object a (wt_object wt)) -> dir (c_storage w') = sdir sys ->
  Preserved a sys (MkSys w' (delete i (sys_writers sys))).
Proof.
  intros Hinv Hi Hst Hr Hd. destruct (SysInv_committed a sys i wt w') as (? & ? & ? & ?); [done..|].
  eexists. split_and!; [done..|]. by eapply Grown_commit.
Qed.

(** A writer that ends without having changed the database. *)
Lemma preserved_release a sys i wt w' :
  SysInv a sys -> sys_writers sys !! i = Some wt -> cview w' = cview (sys_core sys) ->
  touched (object_names (wt_id wt)) (sdir sys) (dir (c_storage w')) ->
  Preserved a sys (MkSys w' (delete i (sys_writers sys))).
Proof.
  intros Hinv Hi Hv Ht. destruct (SysInv_release a sys i wt w') as [Hrel Hk]; [done|done| |done|].
  { rewrite Hv. apply Hinv. }
  exists a. split_and!; [done|done|apply Bounded_refl|done|by apply Grown_same].
Qed.

(** What a step of a writer comes to, with its place in the table. *)
Definition writer_post (a : AState) (sys : Sys) (i : nat)
    (x : Writer + Result (Z * string)) (w' : CoreW) : Prop :=
  Preserved a sys (MkSys w' (match x with inl wt' => <[i := wt']> (sys_writers sys)
                                         | inr _ => delete i (sys_writers sys) end)).

Lemma preserved_writing a sys i req o :
  SysInv a sys -> sys_writers sys !! i = Some (MkWriter req o Writing) ->
  wp (writer_step (MkWriter req o Writing)) (writer_post a sys i) (sys_core sys).
Proof using FS.
  intros Hinv Hi. pose proof (writer_object _ _ _ _ Hinv Hi) as (Hp & Hc & Hid & Hn).
  pose proof Hinv as []. destruct (si_writers0 _ _ Hi) as (W1 & W2 & W3 & W4 & W5). cbn in W1, W2, W3, W4, W5.
  cbn [writer_step]. apply wp_bind, wp_storage, wp_Write; [unfold wt_id in Hid; cbn in Hid; lia| |].
  - intros f o' Hn1 Hn2 Hf. apply wp_ret.
    eapply SysInv_keep_writer; [done|done|done| |done|]; unfold dir; cbn.
    + rewrite Hf. apply touched_insert. by right; left.
    + split_and!; cbn; try done; [apply W2..|]. rewrite Hf. apply lookup_insert_eq.
  - intros s f o' Herr Ht. destruct (must_exit s).
    + apply wp_FatalStorageError, wp_ret. destruct (trip_quiet cfg s (MkCoreW (MkStorageW
        (st_db (c_storage (sys_core sys))) f o') (commit_generation (sys_core sys))
        (fatal_error_triggered (sys_core sys)) (fatal_calls (sys_core sys)) (c_sub (sys_core sys))))
        as ([Hf _] & _ & Hv). injection Hv as Hv _.
      eapply preserved_release; [done|done|by rewrite Hv|]. unfold dir at 1. rewrite Hf. exact Ht.
    + apply wp_ret. eapply SysInv_keep_writer; [done|done|done|exact Ht|done|].
      split_and!; cbn; try done; apply W2.
Qed.

Lemma preserved_written a sys i req o :
  SysInv a sys -> sys_writers sys !! i = Some (MkWriter req o Written) ->
  wp (writer_step (MkWriter req o Written)) (writer_post a sys i) (sys_core sys).
Proof using PS RS.
  intros Hinv Hi. pose proof Hinv as []. destruct (si_writers0 _ _ Hi) as (W1 & W2 & W3 & W4 & W5).
  cbn in W1, W2, W3, W4, W5.
  assert (Hsame : forall w', st_fs (c_storage w') = st_fs (c_storage (sys_core sys)) ->
    dir (c_storage w') = sdir sys) by (unfold sdir, dir; by intros w' ->).
  assert (Hrel : forall w', cview w' = cview (sys_core sys) ->
    st_fs (c_storage w') = st_fs (c_storage (sys_core sys)) ->
    Preserved a sys (MkSys w' (delete i (sys_writers sys)))).
  { intros w' Hv Hf. eapply preserved_release; [done|done|done|]. by apply touched_same, Hsame. }
  assert (Hclean : forall s w', cview w' = cview (sys_core sys) ->
    st_fs (c_storage w') = st_fs (c_storage (sys_core sys)) ->
    Preserved a sys (MkSys w' (<[i := MkWriter req o (Cleaning s)]> (sys_writers sys)))).
  { intros s w' Hv Hf. eapply SysInv_keep_writer; [done|done|by rewrite Hv|by apply touched_same, Hsame|done|].
    split_and!; cbn; try done; apply W2. }
  cbn [writer_step]. apply wp_bind. eapply wp_mono; [|by apply (WriteObject_commit_outcome cfg req o _ a)].
  intros oc w1 Hres. destruct Hres as [w1 _ Hr [Hf _] _ _|s w1 _ (Hv & [Hf _] & _)|s w1 (_ & _ & [Hf _] & _) Hv
    |s w1 (_ & _ & [Hf _] & _) Hv _|s w1 (_ & _ & [Hf _] & _) _ Hv _]; cbn [WriteObject_finish].
  - apply wp_bind, wp_ret, wp_ret. eapply SysInv_commit; [done|done|done|exact Hr|by apply Hsame].
  - injection Hv as Hv _. destruct (must_exit s); [|by apply wp_ret, Hclean]. apply wp_FatalStorageError, wp_ret.
    destruct (trip_quiet cfg s w1) as ([? _] & _ & ?). apply Hrel; congruence.
  - injection Hv as Hv _. destruct (must_exit s); [|by apply wp_ret, Hclean]. apply wp_FatalStorageError, wp_ret.
    destruct (trip_quiet cfg s w1) as ([? _] & _ & ?). apply Hrel; congruence.
  - injection Hv as Hv _. apply wp_bind, wp_ret, wp_ret. by apply Hrel.
  - apply wp_bind, wp_FatalStorageError, wp_ret, wp_ret.
    destruct (trip_quiet cfg s w1) as ([? _] & _ & Hv1). injection Hv1 as Hv1 _. destruct Hv as [Hv|Hr]; [apply Hrel; congruence|].
    eapply SysInv_commit; [done|done|done|by rewrite Hv1|apply Hsame; congruence].
Qed.

Lemma discard_batch a d id :
  repr d a -> is_u64 id -> repr (apply_batch (DeletePreparingObject [] id) d) (a_discard a id).
Proof.
  intros Hr Hid. eapply (repr_batch _ a _ _ [(KPreparing id, None)]); [done|solve_ops|].
  intros k _. unfold tapply, tset. cbn [fold_left fst snd].
  case_decide as E; [subst k; cbn; by rewrite lookup_delete_eq|].
  destruct k; try done. cbn. by rewrite lookup_delete_ne by congruence.
Qed.

Lemma preserved_cleaning a sys i req o s :
  SysInv a sys -> sys_writers sys !! i = Some (MkWriter req o (Cleaning s)) ->
  wp (writer_step (MkWriter req o (Cleaning s))) (writer_post a sys i) (sys_core sys).
Proof using FS RS.
  intros Hinv Hi. pose proof (writer_object _ _ _ _ Hinv Hi) as (Hp & Hc & Hid & Hn).
  pose proof Hinv as []. unfold wt_id in Hp, Hc, Hid. cbn [wt_object] in Hp, Hc, Hid.
  cbn [writer_step]. apply wp_bind. unfold CleanupPreparingObject. apply wp_bind, wp_storage.
  unfold CleanupObjectFiles. apply wp_Cleanup.
  2:{ intros e f Ht _. change (touched (object_names (so_object_id o)) (sdir sys) (fs_view f)) in Ht.
      destruct (must_exit e).
      - unfold wp at 1. rewrite run_FatalStorageError. apply wp_ret. set (w1 := MkCoreW _ _ _ _ _).
        destruct (trip_quiet cfg e w1) as ([Hf _] & _ & Hv). injection Hv as Hv _.
        eapply preserved_release; [done|done|by rewrite Hv|]. unfold dir at 1. rewrite Hf. exact Ht.
      - apply wp_ret, wp_ret. eapply preserved_release; [done|done|done|exact Ht]. }
  intros f Hf. set (w1 := MkCoreW _ _ _ _ _).
  assert (Ht : touched (object_names (so_object_id o)) (sdir sys) (dir (c_storage w1))).
  { unfold dir at 1. cbn [c_storage st_fs w1]. rewrite Hf. cbn [without foldl]. eapply touched_trans; [|apply touched_delete; by right; left].
    apply touched_delete. by left. }
  destruct (SysInv_release a sys i _ w1 Hinv Hi si_repr0 Ht) as [Hrel Hk].
  assert (Hgone : forall j wj, delete i (sys_writers sys) !! j = Some wj -> wt_id wj <> so_object_id o).
  { intros j wj [Hne Hj]%lookup_delete_Some E. by rewrite (si_distinct0 j i _ _ Hj Hi E) in Hne. }
  assert (Hboth : forall w', st_fs (c_storage w') = st_fs (c_storage w1) ->
    (cview w' = cview w1 \/ cview w' = apply_batch (DeletePreparingObject [] (so_object_id o)) (cview w1)) ->
    Preserved a sys (MkSys w' (delete i (sys_writers sys)))).
  { intros w' Hf' Hv. assert (Hd : dir (c_storage w') = dir (c_storage w1)) by (unfold dir; by rewrite Hf').
    destruct Hv as [Hv|Hv].
    - eapply preserved_release; [done|done|by rewrite Hv|by rewrite Hd].
    - assert (Hr' : repr (cview w') (a_discard a (so_object_id o))).
      { rewrite Hv. apply discard_batch; [done|unfold is_u64; lia]. }
      destruct (SysInv_discard a _ (so_object_id o) w' Hrel Hgone Hr' Hd) as (? & ? & ?).
      exists (a_discard a (so_object_id o)). split_and!; try done; [|by apply Grown_same].
      unfold sdir at 2. cbn. by rewrite Hd. }
  apply wp_bind, run_CommitBatch.
  - intros w' Hv [Hf' _] _ _ _. apply wp_ret, wp_ret. apply Hboth; [done|by right].
  - intros e w' (_ & _ & [Hf' _] & _) _ Hv _. apply wp_ret, wp_ret. by apply Hboth.
Qed.

(** ** Every step preserves the invariant *)

Lemma preserved_closed a sys s w' ws :
  Preserved a sys (MkSys w' ws) -> Preserved a sys (MkSys (closed s w') ws).
Proof.
  intros (a' & Hinv & Hx & Hb & Hk & Hg). destruct (closed_state s w') as [Hv Hs].
  exists a'. unfold sdir in *. cbn in *. rewrite Hs. split_and!; [|done..].
  destruct Hinv. cbn in *. unfold sdir in *. cbn in *.
  constructor; unfold sdir; cbn; rewrite ?Hs, ?Hv; done.
Qed.

Lemma SysInv_latch a w ws f calls : SysInv a (MkSys w ws) -> SysInv a (MkSys (set_latch w f calls) ws).
Proof. by intros []; constructor. Qed.

Lemma preserved_writer a sys i wt :
  SysInv a sys -> Budget 1 a -> sys_writers sys !! i = Some wt ->
  wp (writer_step wt) (writer_post a sys i) (sys_core sys).
Proof using FS HS PS RS.
  destruct wt as [req o []]; intros; [by apply preserved_writing|by apply preserved_written|by apply preserved_cleaning].
Qed.

Lemma step_preserved a sys sys' :
  SysInv a sys -> Budget 1 a -> step sys sys' -> Preserved a sys sys'.
Proof using FS HS PS RS.
  intros Hinv Hb Hstep. pose proof (preserved_writer a) as Hw.
  induction Hstep as [r sys Hreq|i req o w' sys Hreq Hi Hrun|req s w' sys Hreq Hrun
    |i wt wt' w' sys Hi Hrun|i wt r w' sys Hi Hrun|sys sys' Hf _ IH].
  - by apply preserved_serve.
  - exact (preserved_prepare a sys req (Ok o) w' Hinv Hb Hreq Hrun i Hi).
  - apply preserved_closed. exact (preserved_prepare a sys req (Err s) w' Hinv Hb Hreq Hrun).
  - exact (wp_run _ _ _ _ _ (Hw sys i wt Hinv Hb Hi) Hrun).
  - apply preserved_closed. exact (wp_run _ _ _ _ _ (Hw sys i wt Hinv Hb Hi) Hrun).
  - destruct sys as [w ws], sys' as [w' ws']. destruct IH as (a' & Hinv' & Hx & Hbd & Hk & Hg); [by apply SysInv_latch|].
    exists a'. split_and!; [by apply SysInv_latch|done..].
Qed.

(** The budget left after a run is what the run did not use. *)
Lemma steps_bounded n m a sys sys' :
  0 <= m -> SysInv a sys -> Budget (Z.of_nat n + m) a -> nsteps step n sys sys' ->
  exists a', SysInv a' sys' /\ Extends a a' /\ Keeps a (sdir sys) (sdir sys') /\ Budget m a'.
Proof using FS HS PS RS.
  intros Hm Hinv Hb Hsteps. revert a Hinv Hb.
  induction Hsteps as [sys|n sys1 sys2 sys3 Hstep _ IH]; intros a Hinv Hb.
  { exists a. by split_and!. }
  destruct (step_preserved a sys1 sys2) as (a1 & Hinv1 & Hx1 & Hb1 & Hk1 & _); [done| |done|].
  { eapply Budget_mono; [|exact Hb]. lia. }
  destruct (IH a1 Hinv1) as (a2 & Hinv2 & Hx2 & Hk2 & Hb2).
  { eapply Budget_step; [|exact Hb1]. by replace (Z.of_nat n + m + 1) with (Z.of_nat (S n) + m) by lia. }
  exists a2. split_and!; [done|by etransitivity| |done]. intros id [o Ho]. rewrite Hk2, Hk1; [done|by eexists|].
  exists o. by eapply lookup_weaken, ex_committed.
Qed.

Lemma steps_preserved n a sys sys' :
  SysInv a sys -> Budget (Z.of_nat n) a -> nsteps step n sys sys' ->
  exists a', SysInv a' sys' /\ Extends a a' /\ Keeps a (sdir sys) (sdir sys').
Proof using FS HS PS RS.
  intros Hinv Hb Hsteps.
  destruct (steps_bounded n 0 a sys sys') as (a' & ? & ? & ? & _); [done|done| |done|by exists a'].
  by rewrite Z.add_0_r.
Qed.

(** ** Where runs start *)

Lemma SysInv_initial event_ms w :
  repr (cview w) (initial_state event_ms) -> dir (c_storage w) = ∅ ->
  SysInv (initial_state event_ms) (MkSys w ∅).
Proof using PS.
  intros Hr Hd. constructor; cbn; try done; [apply WF_initial|].
  intros id n _ _. unfold sdir. cbn. rewrite Hd. apply lookup_empty.
Qed.

Lemma WF_recovered a : WF a -> WF (a_recovered a).
Proof.
  intros Hwf. pose proof (wf_next_object _ Hwf). apply WF_set_objects; [done|lia| | |].
  - intros id o E. by rewrite lookup_empty in E.
  - apply (wf_committed _ Hwf).
  - apply map_disjoint_empty_l.
Qed.

(** Recovery does not touch the file of a committed object, nor the names to come. *)
Lemma committed_kept a id : WF a -> is_Some (a_committed a !! id) -> FinalName id ∉ recovery_names a.
Proof.
  intros Hwf [o Ho] (x & Hin & (p & -> & Hp)%list_elem_of_fmap)%list_elem_of_bind.
  apply preparing_object in Hp as [Hp Hid]; [|done].
  destruct (wf_committed _ Hwf _ _ Ho) as [_ Hid']. pose proof (wf_next_object _ Hwf).
  destruct (decide (id = so_object_id p)) as [->|Hne].
  - pose proof (wf_disjoint _ Hwf) as Hdj. rewrite map_disjoint_spec in Hdj. by eapply Hdj.
  - eapply (names_apart (so_object_id p) id); [done|lia|congruence| |exact Hin]. by right; left.
Qed.

Lemma fresh_kept a id n :
  WF a -> a_next_object a <= id < two64 -> n ∈ object_names id -> n ∉ recovery_names a.
Proof.
  intros Hwf Hid Hn (x & Hin & (p & -> & Hp)%list_elem_of_fmap)%list_elem_of_bind.
  apply preparing_object in Hp as [Hp Hpos]; [|done]. destruct (wf_preparing _ Hwf _ _ Hp) as [_ ?].
  pose proof (wf_next_object _ Hwf). by apply (names_apart (so_object_id p) id n); [lia..| |].
Qed.

(** The server stops at any point; the next one recovers. *)
Lemma SysInv_recovered a sys w' :
  SysInv a sys -> repr (cview w') (a_recovered a) ->
  dir (c_storage w') = without (so_object_id <$> preparing_objects a) (sdir sys) ->
  SysInv (a_recovered a) (MkSys w' ∅) /\ Extends a (a_recovered a) /\
  Keeps a (sdir sys) (dir (c_storage w')).
Proof.
  intros [] Hr Hd.
  assert (Hkeep : Keeps a (sdir sys) (dir (c_storage w'))).
  { intros id Ho. rewrite Hd, without_lookup, decide_False; [done|]. by apply committed_kept. }
  split_and!; [|constructor; cbn; try done; auto with oe; lia|done].
  constructor; cbn; try done; [by apply WF_recovered| |].
  - intros id o Ho. destruct (si_files0 id o Ho) as (data & Hf & Hs). exists data. split; [|done].
    change (dir (c_storage w') !! FinalName id = Some (NFile data)). by rewrite (Hkeep id) by (by eexists).
  - intros id n Hid Hn. change (dir (c_storage w') !! n = None). rewrite Hd, without_lookup.
    case_decide; [done|]. by eapply si_fresh0.
Qed.

End Concurrency.
