(* ===== verification/Service.v ===== *)
(** * The service

    What clients see of the server, as a machine of its own: a log with channels,
    credentials and objects, in which each request is answered at one moment by the
    specification.  Objects that are being written, the database, the files, the
    counters and the snapshots are not part of it.  The server simulates it step by
    step, whatever requests and writers interleave. *)

From S2P Require Import Prelude Status Encoding Tokens Proto Json Platform Keys World FileStore.
From S2P Require Import Files Durability Storage Core Commands Model Unique Reads Scan Spec.
From S2P Require Import SystemMessages Refine Handlers ChannelHandlers Invariant Queries Pages.
From S2P Require Import Startup Objects Services Effects Requests Concurrency.

(** ** What clients see *)

Definition Answer (B : Type) : Type := (StatusCode * string) * option B.

Inductive Event :=
  | ECall (r : Request) (answer : Answer Response)
  | EWrite (req : WriteObjectRequest) (answer : Answer (Z * string)).

Record Service := MkService {
  sv_state : AState;               (** without objects being written *)
  sv_data : gmap Z string;         (** the data of the objects *)
  sv_open : bool
}.

Definition sv_read (s : Service) (id : Z) : string := default "" (sv_data s !! id).

Definition unavailable_status : Status :=
  mkStatus UNAVAILABLE "server is shutting down due to a fatal storage error".

Definition refusal {B} (e : Status) : Answer B := (ToGrpc e, None).
Definition reply {B} (v : B) : Answer B := (ToGrpc StatusOk, Some v).

(** The service without the objects that are being written. *)
Definition hide (a : AState) : AState := a_set_objects a ∅ (a_committed a) 1.

(** An object of a request, with a new identity and a token of the server's. *)
Definition object_for (req : WriteObjectRequest) (o : StoredObject) : Prop :=
  invalid_object_request req = false /\ IsBase64UrlToken (so_object_token o) = true /\
  o = prepared_object req (so_object_token o) (so_object_id o).

Section Service.
Context {R : RocksDB} {P : Protobuf} {F : PosixDir} {H : Host}.
Context {RS : RocksDBSpec} {PS : ProtobufSpec} {HS : HostSpec} {FS : PosixDirSpec}.
Context (cfg : CoreConfig).

Definition store (s : Service) (req : WriteObjectRequest) (o : StoredObject) (open : bool) : Service :=
  MkService (a_commit_object (sv_state s) o) (<[so_object_id o := wr_data req]> (sv_data s)) open.

Inductive service : Service -> option Event -> Service -> Prop :=
  (** A request is answered by the specification, ... *)
  | Sv_answered ch r s v a' :
      choice_ok ch -> request_spec cfg ch (sv_read s) r (sv_state s) = Ok (v, a') ->
      service s (Some (ECall r (reply v))) (MkService a' (sv_data s) (sv_open s))
  | Sv_refused ch r s e :
      request_spec cfg ch (sv_read s) r (sv_state s) = Err e ->
      service s (Some (ECall r (refusal e))) s
  (** ... or not at all, because of the host or of the caller's deadline, ... *)
  | Sv_rejected r s e : may_reject r e -> service s (Some (ECall r (refusal e))) s
  (** ... or because the storage failed: the client cannot tell whether it took effect, and the
      service is closed. *)
  | Sv_failed ch r s e a' :
      fatal_status e -> reported e ->
      (a' = sv_state s \/ exists v, request_spec cfg ch (sv_read s) r (sv_state s) = Ok (v, a')) ->
      service s (Some (ECall r (refusal e))) (MkService a' (sv_data s) false)
  | Sv_unavailable r s :
      sv_open s = false -> service s (Some (ECall r (refusal unavailable_status))) s
  (** An object is stored, with its data, at one moment. *)
  | Sv_stored req s o :
      object_for req o -> spec_authenticate (sv_state s) (wr_principal req) (wr_token req) = Ok tt ->
      a_committed (sv_state s) !! so_object_id o = None ->
      service s (Some (EWrite req (reply (so_object_id o, so_object_token o)))) (store s req o (sv_open s))
  | Sv_not_stored req s e :
      code e <> OK ->
      service s (Some (EWrite req (refusal e))) (MkService (sv_state s) (sv_data s) (sv_open s && negb (must_exit e)))
  | Sv_store_failed req s o e :
      fatal_status e -> reported e -> object_for req o -> a_committed (sv_state s) !! so_object_id o = None ->
      service s (Some (EWrite req (refusal e))) (store s req o false)
  (** What the server does in between is not seen. *)
  | Sv_internal s : service s None s.

Inductive service_run : Service -> list (option Event) -> Service -> Prop :=
  | Sr_nil s : service_run s [] s
  | Sr_cons s e s1 tr s2 : service s e s1 -> service_run s1 tr s2 -> service_run s (e :: tr) s2.

(** ** The steps of the server, with what clients see of them *)

Inductive lstep : Sys -> option Event -> Sys -> Prop :=
  | L_serve r sys :
      request_ok r ->
      lstep sys (Some (ECall r (serve cfg r (sys_core sys)).1))
        (MkSys (serve cfg r (sys_core sys)).2 (sys_writers sys))
  | L_prepare i req o w' sys :
      write_request_ok req -> sys_writers sys !! i = None ->
      WriteObject_prepare cfg req (sys_core sys) = (Ok o, w') ->
      lstep sys None (MkSys w' (<[i := MkWriter req o Writing]> (sys_writers sys)))
  | L_prepare_fails req s w' sys :
      write_request_ok req -> WriteObject_prepare cfg req (sys_core sys) = (Err s, w') ->
      lstep sys (Some (EWrite req (refusal s))) (MkSys (closed cfg s w') (sys_writers sys))
  | L_writer i wt wt' w' sys :
      sys_writers sys !! i = Some wt -> writer_step cfg wt (sys_core sys) = (inl wt', w') ->
      lstep sys None (MkSys w' (<[i := wt']> (sys_writers sys)))
  | L_writer_ends i wt r w' sys :
      sys_writers sys !! i = Some wt -> writer_step cfg wt (sys_core sys) = (inr r, w') ->
      lstep sys (Some (EWrite (wt_req wt) (match r with Ok v => reply v | Err e => refusal e end)))
        (MkSys (closed cfg (result_status r) w') (delete i (sys_writers sys)))
  | L_late sys e sys' :
      fatal_error_triggered (sys_core sys) = true -> lstep (reopened sys) e sys' ->
      lstep sys e (relatched sys sys').

Inductive server_run : Sys -> list (option Event) -> Sys -> Prop :=
  | R_nil sys : server_run sys [] sys
  | R_cons sys e sys1 tr sys2 : lstep sys e sys1 -> server_run sys1 tr sys2 -> server_run sys (e :: tr) sys2.

(** They are the steps of Concurrency.v. *)
Lemma step_lstep sys sys' : step cfg sys sys' <-> exists e, lstep sys e sys'.
Proof.
  split.
  - induction 1 as [| | | | |sys sys' Hf _ [e IH]]; [eexists; by econstructor..|]. exists e. by apply L_late.
  - intros [e Hl]. induction Hl; [by econstructor..|]. by apply S_late.
Qed.

(** ** Hiding the objects that are being written *)

Definition hidden {B} (r : Result (B * AState)) : Result (B * AState) := rlet p := r in Ok (p.1, hide p.2).

Lemma hide_commit a o : hide (a_commit_object a o) = a_commit_object (hide a) o.
Proof. unfold hide, a_commit_object, a_set_objects. cbn. by rewrite delete_empty. Qed.

Lemma hide_idem a : hide (hide a) = hide a.
Proof. done. Qed.

Lemma hidden_bind {A B} (r : Result A) (k k' : A -> Result (B * AState)) :
  (forall v, k' v = hidden (k v)) -> rbind r k' = hidden (rbind r k).
Proof. intros Hk. destruct r; [apply Hk|done]. Qed.

Lemma hide_post a m : spec_post (hide a) m = rlet a' := spec_post a m in Ok (hide a').
Proof.
  unfold spec_post. change (a_channels (hide a)) with (a_channels a).
  change (forallb (holds_capability (hide a))) with (forallb (holds_capability a)).
  destruct (em_channel_id m =? 0); [done|]. destruct (a_channels a !! _); [|done].
  destruct (negb (CanWrite _ _)); [done|]. destruct (ValidateRecipients _ _); [|done]. cbn [rbind].
  destruct (negb (forallb _ _)); [done|]. by destruct (_ || _).
Qed.

Lemma hide_mutation a c p ts : spec_mutation (hide a) c p ts = rlet a' := spec_mutation a c p ts in Ok (hide a').
Proof.
  unfold spec_mutation. cbv zeta. change (system_message (hide a) c p ts) with (system_message a c p ts).
  destruct (_ || _); [done|]. by destruct (_ =? 0).
Qed.

Lemma hide_readable a p cs : spec_readable_channels (hide a) p cs = spec_readable_channels a p cs.
Proof. induction cs as [|c cs IH]; [done|]. cbn [spec_readable_channels]. by rewrite IH. Qed.

Lemma hide_objects a keys : spec_objects (hide a) keys = spec_objects a keys.
Proof. induction keys as [|k keys IH]; [done|]. cbn [spec_objects]. by rewrite IH. Qed.

(** A request does not see them. *)
Lemma request_hide ch data r a :
  request_spec cfg ch data r (hide a) = hidden (request_spec cfg ch data r a).
Proof.
  assert (Hq : forall B (f : B -> Response) spec, query (hide a) f spec = hidden (query a f spec)).
  { intros B f spec. by destruct spec. }
  assert (Hc : forall B (f : B -> Response) spec spec', spec' = hidden spec -> command f spec' = hidden (command f spec)).
  { intros B f spec spec' ->. by destruct spec as [[]|]. }
  assert (Hfetch : forall req, spec_fetch cfg (hide a) req = spec_fetch cfg a req).
  { intros req. unfold spec_fetch. by rewrite hide_readable. }
  assert (Hbatch : forall keys, spec_batch_metadata (hide a) keys = spec_batch_metadata a keys).
  { intros keys. unfold spec_batch_metadata. by rewrite hide_objects. }
  destruct r; cbn [request_spec]; rewrite ?Hfetch, ?Hbatch; try apply Hq; apply Hc.
  - unfold spec_allocate. cbv zeta. change (a_next_uuid (hide a)) with (a_next_uuid a). by repeat case_match.
  - unfold spec_publish. destruct (_ || _); [done|]. repeat (apply hidden_bind; intros _). cbv zeta.
    change (a_max_seq (hide a)) with (a_max_seq a). case_match; [done|]. rewrite hide_post. by destruct (spec_post _ _).
  - unfold spec_publish. destruct (_ || _); [done|]. repeat (apply hidden_bind; intros _). cbv zeta.
    change (a_max_seq (hide a)) with (a_max_seq a). rewrite hide_post. by destruct (spec_post _ _).
  - unfold spec_create_channel. destruct (invalid_channel_parameters _); [done|].
    repeat (apply hidden_bind; intros _). cbv zeta. change (a_next_channel (hide a)) with (a_next_channel a).
    destruct (_ <? _); [done|]. rewrite hide_mutation. by destruct (spec_mutation _ _ _ _).
  - unfold spec_add_member. apply hidden_bind. intros c. repeat (case_match; try done). rewrite hide_mutation.
    by destruct (spec_mutation _ _ _ _).
  - unfold spec_remove_member. apply hidden_bind. intros c. repeat (case_match; try done). rewrite hide_mutation.
    by destruct (spec_mutation _ _ _ _).
  - unfold spec_add_token. by case_match.
  - unfold spec_delete_token. by case_match.
Qed.

(** Of the data it sees that of the objects. *)
Lemma request_data ch data data' r a :
  (forall id, is_Some (a_committed a !! id) -> data id = data' id) ->
  request_spec cfg ch data r a = request_spec cfg ch data' r a.
Proof.
  intros Hd. destruct r; try done. cbn. unfold spec_read_object. case_match; [done|].
  destruct (spec_object a object_id object_token) as [o|] eqn:Eo; [|done]. cbn [rbind].
  apply spec_object_ok in Eo as (Ho & _). by rewrite Hd by by eexists.
Qed.

(** ** The simulation *)

Record sim (a : AState) (s : Service) (sys : Sys) : Prop := {
  sm_sys : SysInv a sys;
  sm_state : sv_state s = hide a;
  sm_data : forall id, is_Some (a_committed a !! id) -> sdir sys !! FinalName id = Some (NFile (sv_read s id));
  sm_open : sv_open s = negb (fatal_error_triggered (sys_core sys));
  sm_writers : forall i wt, sys_writers sys !! i = Some wt ->
    object_for (wt_req wt) (wt_object wt) /\ forall e, wt_stage wt = Cleaning e -> code e <> OK
}.

Lemma sim_read a s sys id : sim a s sys -> is_Some (a_committed a !! id) -> sv_read s id = file_data (sdir sys) id.
Proof. intros [] Hid. unfold file_data. by rewrite (sm_data0 id Hid). Qed.

(** What the specification says of the service it says of the server's state. *)
Lemma sim_spec a s sys ch r :
  sim a s sys ->
  request_spec cfg ch (sv_read s) r (sv_state s) = hidden (request_spec cfg ch (file_data (sdir sys)) r a).
Proof.
  intros Hs. rewrite (sm_state _ _ _ Hs), request_hide. f_equal. apply request_data.
  intros id. by apply sim_read.
Qed.

(** A request was served. *)
Lemma sim_served a s sys a' w' :
  sim a s sys -> Evolves a a' -> repr (cview w') a' -> dir (c_storage w') = sdir sys ->
  sim a' (MkService (hide a') (sv_data s) (negb (fatal_error_triggered w'))) (MkSys w' (sys_writers sys)).
Proof.
  intros [] (Hwf & _ & _ & Hso) Hr Hd. pose proof Hso as (_ & Hc & _).
  constructor; cbn; try done; [by eapply SysInv_same_objects|].
  intros id. unfold sdir. cbn. rewrite Hc, Hd. apply sm_data0.
Qed.

(** A step that is not seen, or that ends without having stored an object. *)
Lemma sim_hidden a s sys a' sys' :
  sim a s sys -> SysInv a' sys' -> hide a' = hide a -> Keeps a (sdir sys) (sdir sys') ->
  (forall i wt, sys_writers sys' !! i = Some wt ->
    object_for (wt_req wt) (wt_object wt) /\ forall e, wt_stage wt = Cleaning e -> code e <> OK) ->
  sim a' (MkService (sv_state s) (sv_data s) (negb (fatal_error_triggered (sys_core sys')))) sys'.
Proof.
  intros [] Hinv Hh Hk Hw. constructor; cbn; try done; [by rewrite Hh|].
  assert (Hc : a_committed a' = a_committed a) by (by injection Hh).
  intros id. rewrite Hc. intros Hid. etransitivity; [by apply Hk|by apply sm_data0].
Qed.

(** *** Requests *)

Lemma serve_run r w :
  serve cfg r w = let '(x, w') := handle cfg r w in
    ((ToGrpc (result_status x), match x with Ok v => Some v | Err _ => None end),
     if must_exit (result_status x) then trip cfg (result_status x) w' else w').
Proof.
  unfold serve, rpc, bind. destruct (handle cfg r w) as [x w']. unfold ToGrpcStatus, bind.
  by rewrite run_HandleRpcStatus.
Qed.

Lemma service_eta s b : sv_open s = b -> MkService (sv_state s) (sv_data s) b = s.
Proof. by destruct s; intros <-. Qed.

Definition matched (a : AState) (s : Service) (e : option Event) (sys' : Sys) : Prop :=
  exists a' s', service s e s' /\ sim a' s' sys' /\ Bounded a a'.

Lemma sim_same a s sys w' :
  sim a s sys -> cview w' = cview (sys_core sys) -> dir (c_storage w') = sdir sys ->
  latch w' = latch (sys_core sys) -> sim a s (MkSys w' (sys_writers sys)).
Proof.
  intros Hs Hv Hd Hl. pose proof (sm_sys _ _ _ Hs) as []. assert (Hf : fatal_error_triggered w' = fatal_error_triggered (sys_core sys)).
  { unfold latch in Hl. congruence. }
  pose proof (sim_served a s sys a w' Hs (Evolves_refl a si_wf) ltac:(by rewrite Hv) Hd) as Hn.
  rewrite Hf, <- (sm_state _ _ _ Hs), <- (sm_open _ _ _ Hs), service_eta in Hn; done.
Qed.

Definition after (x : Result Response) (w : CoreW) : CoreW :=
  if must_exit (result_status x) then trip cfg (result_status x) w else w.

Lemma sim_answered a s sys ch r v a' w' :
  sim a s sys -> WF a -> Room a -> request_ok r -> choice_ok ch ->
  request_spec cfg ch (file_data (sdir sys)) r a = Ok (v, a') ->
  repr (cview w') a' -> dir (c_storage w') = sdir sys -> latch w' = latch (sys_core sys) ->
  matched a s (Some (ECall r (reply v))) (MkSys w' (sys_writers sys)).
Proof using FS HS PS RS.
  intros Hs Hwf Hroom Hreq Hch E Hr Hd Hl. assert (He : Evolves a a') by (by eapply request_evolves).
  exists a', (MkService (hide a') (sv_data s) (sv_open s)). split_and!; [|..|by apply He].
  - eapply Sv_answered; [exact Hch|]. by rewrite (sim_spec a s sys ch r Hs), E.
  - rewrite (sm_open _ _ _ Hs). assert (fatal_error_triggered (sys_core sys) = fatal_error_triggered w') as ->.
    { unfold latch in Hl. congruence. }
    by apply (sim_served a).
Qed.

Lemma sim_refused a s sys r e w' :
  sim a s sys -> service s (Some (ECall r (refusal e))) s -> must_exit e = false ->
  cview w' = cview (sys_core sys) -> dir (c_storage w') = sdir sys -> latch w' = latch (sys_core sys) ->
  matched a s (Some (ECall r (refusal e))) (MkSys (after (Err e) w') (sys_writers sys)).
Proof using FS HS PS RS.
  intros Hs He Hm Hv Hd Hl. unfold after. cbn [result_status]. rewrite Hm. exists a, s.
  split_and!; [done|by apply sim_same|apply Bounded_refl].
Qed.

(** The storage failed: the request may have taken effect, and the server closes. *)
Lemma sim_failed a s sys ch r e a' w' :
  sim a s sys -> fatal_status e -> reported e ->
  (a' = a \/ exists v, request_spec cfg ch (file_data (sdir sys)) r a = Ok (v, a')) -> Evolves a a' ->
  repr (cview w') a' -> dir (c_storage w') = sdir sys ->
  matched a s (Some (ECall r (refusal e))) (MkSys (after (Err e) w') (sys_writers sys)).
Proof using FS HS PS RS.
  intros Hs Hfat Hrep Ha He Hr Hd. unfold after. cbn [result_status].
  assert (must_exit e = true) as -> by (unfold must_exit; by rewrite Hfat).
  destruct (trip_quiet cfg e w') as ([Hf' _] & _ & Hv'). injection Hv' as Hv' _.
  exists a', (MkService (hide a') (sv_data s) false). split_and!; [| |apply He].
  - apply (Sv_failed ch); [done|done|]. destruct Ha as [->|[v E]]; [left; by rewrite (sm_state _ _ _ Hs)|].
    right. exists v. by rewrite (sim_spec a s sys ch r Hs), E.
  - assert (Hc : fatal_error_triggered (trip cfg e w') = true) by (unfold trip; by destruct (fatal_error_triggered w') eqn:?).
    rewrite <- Hv' in Hr. pose proof (sim_served a s sys a' (trip cfg e w') Hs He Hr) as Hn. rewrite Hc in Hn.
    apply Hn. unfold dir in *. by rewrite Hf'.
Qed.

Lemma sim_serve a s sys r :
  sim a s sys -> Budget 1 a -> request_ok r ->
  matched a s (Some (ECall r (serve cfg r (sys_core sys)).1))
    (MkSys (serve cfg r (sys_core sys)).2 (sys_writers sys)).
Proof using FS HS PS RS.
  intros Hs Hb Hreq. pose proof (sm_sys _ _ _ Hs) as []. rewrite serve_run.
  pose proof (Budget_Room 1 a ltac:(lia) Hb) as Hroom.
  assert (Hmax : a_max_seq a < two64 - 1) by (unfold Budget in Hb; lia).
  destruct (fatal_error_triggered (sys_core sys)) eqn:Hav.
  { rewrite handle_unavailable by done. apply (sim_refused a s sys r unavailable_status); try done.
    apply Sv_unavailable. by rewrite (sm_open _ _ _ Hs), Hav. }
  pose proof (handle_outcome cfg r _ a Hav si_repr si_wf Hmax si_files Hreq) as Hout. unfold wp in Hout.
  destruct (handle cfg r (sys_core sys)) as [x w']. destruct Hout as (ch & Hch & Hh). fold (sdir sys) in Hh.
  pose proof (sim_spec a s sys ch r Hs) as Hspec.
  pose proof (request_mild cfg ch (file_data (sdir sys)) r a) as Hmild.
  assert (Hdir : st_fs (c_storage w') = st_fs (c_storage (sys_core sys)) -> dir (c_storage w') = sdir sys).
  { unfold sdir, dir. by intros ->. }
  assert (Hspec_err : forall e, request_spec cfg ch (file_data (sdir sys)) r a = Err e ->
    service s (Some (ECall r (refusal e))) s).
  { intros e E. apply (Sv_refused ch). by rewrite Hspec, E. }
  destruct Hh as [Hout|(Hv & [Hd _] & _ & _) Hl Hsame Hx].
  - destruct Hout as [v a' w' E Hr' [Hf _] Hl _|e w' E (Hv & [Hf _] & _ & Hl)|e w' Hrej (Hv & [Hf _] & _ & Hl)
      |e w' (Hfat & Hrep & [Hf _] & _) Hv _].
    + cbn. apply (sim_answered a s sys ch r v a' w'); [done..|by apply Hdir|done].
    + injection Hv as Hv _. apply (sim_refused a s sys r e w'); [done|by apply Hspec_err|by apply Hmild|done|by apply Hdir|done].
    + injection Hv as Hv _. apply (sim_refused a s sys r e w'); [done|by apply Sv_rejected|by eapply rejection_mild|done|by apply Hdir|done].
    + destruct Hv as [Hv|(v & a' & E & Hr' & _)].
      * apply (sim_failed a s sys ch r e a w'); [done..|by left|by apply Evolves_refl|by rewrite Hv|by apply Hdir].
      * apply (sim_failed a s sys ch r e a' w'); [done..|right; by exists v|by eapply request_evolves|done|by apply Hdir].
  - injection Hv as Hv _. destruct Hx as [->|(e & -> & Hrej)].
    + destruct (request_spec cfg ch (file_data (sdir sys)) r a) as [[v a']|e] eqn:E.
      * cbn. apply (sim_answered a s sys ch r v a' w'); try done. by rewrite (Hsame v a' eq_refl), Hv.
      * apply (sim_refused a s sys r e w'); [done|by apply Hspec_err|by apply Hmild|done..].
    + apply (sim_refused a s sys r e w'); [done|by apply Sv_rejected|by eapply rejection_mild|done..].
Qed.

(** *** Writers *)

Lemma closed_triggered e w :
  fatal_error_triggered (closed cfg e w) = fatal_error_triggered w || must_exit e.
Proof.
  unfold closed. rewrite run_HandleRpcStatus. cbn. destruct (must_exit e); [|by rewrite orb_false_r].
  unfold trip. destruct (fatal_error_triggered w) eqn:E; [by rewrite E|done].
Qed.

(** The latch after an error: as it was, or closed by the error. *)
Definition latched (w : CoreW) (e : Status) (w' : CoreW) : Prop :=
  fatal_error_triggered w' || must_exit e = fatal_error_triggered w || must_exit e.

Lemma latched_same w e w' : latch w' = latch w -> latched w e w'.
Proof. unfold latch, latched. by intros [= -> _]. Qed.

Lemma latched_trip w e w' : must_exit e = true -> latched w e w'.
Proof. intros E. unfold latched. by rewrite E, !orb_true_r. Qed.

(** What a phase of a writer leaves in the database. *)
Definition phase_end (a : AState) (w : CoreW) (wt : Writer) (x : Writer + Result (Z * string)) (w' : CoreW)
    : Prop :=
  match x with
  | inl wt' => wt_req wt' = wt_req wt /\ wt_object wt' = wt_object wt /\ repr (cview w') a /\
      latch w' = latch w /\ (forall e, wt_stage wt' = Cleaning e -> code e <> OK)
  | inr (Ok v) => v = (wt_id wt, so_object_token (wt_object wt)) /\ wt_stage wt = Written /\
      spec_authenticate a (wr_principal (wt_req wt)) (wr_token (wt_req wt)) = Ok tt /\
      repr (cview w') (a_commit_object a (wt_object wt)) /\
      dir (c_storage w') = dir (c_storage w) /\ latch w' = latch w
  | inr (Err e) => code e <> OK /\ latched w e w' /\
      (repr (cview w') a \/ repr (cview w') (a_discard a (wt_id wt)) \/
       fatal_status e /\ reported e /\ wt_stage wt = Written /\
       repr (cview w') (a_commit_object a (wt_object wt)) /\ dir (c_storage w') = dir (c_storage w))
  end.

Lemma io_code s : io_status s -> code s <> OK.
Proof. intros [_ [E|E]]; by rewrite E. Qed.

Lemma authenticate_code a p t e : spec_authenticate a p t = Err e -> code e <> OK.
Proof. unfold spec_authenticate. repeat case_match; try done; by intros [= <-]. Qed.

Lemma phase_writing a w req o :
  repr (cview w) a -> 0 < so_object_id o < two64 ->
  wp (writer_step cfg (MkWriter req o Writing)) (phase_end a w (MkWriter req o Writing)) w.
Proof using FS.
  intros Hr Hid. cbn [writer_step]. apply wp_bind, wp_storage, wp_Write; [done| |].
  - intros f o' _ _ _. apply wp_ret. split_and!; try done.
  - intros e f o' He _. assert (Hc : code e <> OK).
    { destruct He as [?|[[? _]|[Hc _]]]; [by apply io_code|done|by rewrite Hc]. }
    destruct (must_exit e) eqn:Em.
    + apply wp_FatalStorageError, wp_ret. split_and!; [done|by apply latched_trip|]. left.
      set (w1 := MkCoreW _ _ _ _ _). destruct (trip_quiet cfg e w1) as (_ & _ & Hv). injection Hv as Hv _. by rewrite Hv.
    + apply wp_ret. split_and!; try done. by intros e' [= <-].
Qed.

Lemma phase_written a w req o :
  repr (cview w) a -> WF a -> is_u64 (wr_principal req) -> a_preparing a !! so_object_id o = Some o ->
  record_text_ok (record_of o) ->
  wp (writer_step cfg (MkWriter req o Written)) (phase_end a w (MkWriter req o Written)) w.
Proof using PS RS.
  intros Hr Hwf Hu Hp Ht. cbn [writer_step]. apply wp_bind.
  eapply wp_mono; [|by apply (WriteObject_commit_outcome cfg req o _ a)].
  assert (Hclean : forall e w1, code e <> OK -> cview w1 = cview w ->
    (latch w1 = latch w \/ fatal_status e) ->
    wp (if must_exit e then let! s := FatalStorageError cfg e in ret (inr (Err s))
        else ret (inl (MkWriter req o (Cleaning e)))) (phase_end a w (MkWriter req o Written)) w1).
  { intros e w1 Hc Hv Hl. destruct (must_exit e) eqn:Em.
    - apply wp_FatalStorageError, wp_ret. split_and!; [done|by apply latched_trip|]. left.
      destruct (trip_quiet cfg e w1) as (_ & _ & Hv1). injection Hv1 as Hv1 _. by rewrite Hv1, Hv.
    - apply wp_ret. split_and!; [done|done|by rewrite Hv| |by intros ? [= <-]].
      destruct Hl as [?|Hf]; [done|]. unfold must_exit in Em. by rewrite Hf in Em. }
  intros oc w1 Hres. destruct Hres as [w1 Ha Hr1 [Hf _] Hl _|e w1 He (Hv & _ & _ & Hl)|e w1 (Hf & [Hc _] & _) Hv
    |e w1 (Hf & [Hc _] & _) Hv _|e w1 (Hf & Hrep & [Hfs _] & _) _ Hv _]; cbn [WriteObject_finish].
  - apply wp_bind, wp_ret, wp_ret. split_and!; try done. unfold dir. by rewrite Hf.
  - injection Hv as Hv _. apply Hclean; [|done|by left]. destruct He as [He| ->]; [by eapply authenticate_code|done].
  - injection Hv as Hv _. apply Hclean; [done|done|by right].
  - injection Hv as Hv _. apply wp_bind, wp_ret, wp_ret. split_and!; [done| |left; by rewrite Hv].
    apply latched_trip. unfold must_exit. by rewrite Hf.
  - apply wp_bind, wp_FatalStorageError, wp_ret, wp_ret.
    destruct (trip_quiet cfg e w1) as ([Hfs1 _] & _ & Hv1). injection Hv1 as Hv1 _.
    split_and!; [apply Hrep|apply latched_trip; unfold must_exit; by rewrite Hf|].
    destruct Hv as [Hv|Hr1]; [left; by rewrite Hv1, Hv|]. right; right.
    split_and!; [done|apply Hrep..|done|by rewrite Hv1|]. unfold dir. by rewrite Hfs1, Hfs.
Qed.

Lemma phase_cleaning a w req o s :
  repr (cview w) a -> is_u64 (so_object_id o) -> code s <> OK ->
  wp (writer_step cfg (MkWriter req o (Cleaning s))) (phase_end a w (MkWriter req o (Cleaning s))) w.
Proof using FS RS.
  intros Hr Hid Hs. cbn [writer_step]. apply wp_bind. unfold CleanupPreparingObject. apply wp_bind, wp_storage.
  unfold CleanupObjectFiles. apply wp_Cleanup.
  - intros f _. set (w1 := MkCoreW _ _ _ _ _). assert (Hv1 : cview w1 = cview w) by done.
    apply wp_bind, run_CommitBatch.
    + intros w' Hv _ Hl _ _. apply wp_ret, wp_ret. split_and!; [done|by apply latched_same|]. right; left.
      rewrite Hv, Hv1. by apply discard_batch.
    + intros e w' (Hf & [Hc _] & _) _ Hv _. apply wp_ret, wp_ret.
      split_and!; [done|apply latched_trip; unfold must_exit; by rewrite Hf|].
      destruct Hv as [Hv|Hv]; [left; by rewrite Hv, Hv1|]. right; left. rewrite Hv, Hv1. by apply discard_batch.
  - intros e f _ He. assert (Hc : code e <> OK) by (destruct He as [?|E]; [by apply io_code|by rewrite E]).
    set (w1 := MkCoreW _ _ _ _ _). destruct (must_exit e) eqn:Em.
    + unfold wp at 1. rewrite run_FatalStorageError. apply wp_ret. split_and!; [done|by apply latched_trip|]. left.
      destruct (trip_quiet cfg e w1) as (_ & _ & Hv). injection Hv as Hv _. by rewrite Hv.
    + apply wp_ret, wp_ret. split_and!; [done|by apply latched_same|by left].
Qed.

Lemma sim_phase a s sys i wt :
  sim a s sys -> sys_writers sys !! i = Some wt ->
  wp (writer_step cfg wt) (phase_end a (sys_core sys) wt) (sys_core sys).
Proof using FS PS RS.
  intros Hs Hi. pose proof (sm_sys _ _ _ Hs) as Hinv. pose proof Hinv as [].
  destruct (sm_writers _ _ _ Hs i wt Hi) as [_ Hcl].
  destruct (writer_object _ _ _ _ Hinv Hi) as (Hp & _ & Hid & Hn). destruct (si_writers i wt Hi) as (_ & Ht & Hu & _).
  destruct wt as [req o [| |e]]; unfold wt_id in *; cbn in *.
  - apply phase_writing; [done|lia].
  - by apply phase_written.
  - apply phase_cleaning; [done|unfold is_u64; lia|by apply Hcl].
Qed.

(** The state after a step is the one the database represents. *)
Lemma preserved_state a a' sys sys' :
  Preserved a sys sys' -> repr (cview (sys_core sys')) a' -> WF a' ->
  SysInv a' sys' /\ Bounded a a' /\ Keeps a (sdir sys) (sdir sys').
Proof.
  intros (a1 & Hinv & _ & Hb & Hk & _) Hr Hwf. pose proof Hinv as [Hr1 Hwf1 _ _ _ _].
  assert (a1 = a') as <- by (by eapply repr_inj). done.
Qed.

Definition writers_good (ws : gmap nat Writer) : Prop := forall i wt, ws !! i = Some wt ->
  object_for (wt_req wt) (wt_object wt) /\ forall e, wt_stage wt = Cleaning e -> code e <> OK.

Lemma writers_delete i ws : writers_good ws -> writers_good (delete i ws).
Proof. intros Hw j wt [_ Hj]%lookup_delete_Some. by eapply Hw. Qed.

Lemma writers_insert i wt ws :
  writers_good ws -> object_for (wt_req wt) (wt_object wt) ->
  (forall e, wt_stage wt = Cleaning e -> code e <> OK) -> writers_good (<[i := wt]> ws).
Proof. intros Hw Ho Hc j wj [[<- <-]|[_ Hj]]%lookup_insert_Some; [done|by eapply Hw]. Qed.

(** Steps that are not seen. *)
Lemma sim_internal a s sys a' sys' :
  sim a s sys -> Preserved a sys sys' -> repr (cview (sys_core sys')) a' -> WF a' -> hide a' = hide a ->
  fatal_error_triggered (sys_core sys') = fatal_error_triggered (sys_core sys) ->
  writers_good (sys_writers sys') -> matched a s None sys'.
Proof.
  intros Hs Hp Hr Hwf Hh Hf Hw. destruct (preserved_state a a' sys sys' Hp Hr Hwf) as (Hinv & Hb & Hk).
  exists a', s. split_and!; [apply Sv_internal| |done].
  pose proof (sim_hidden a s sys a' sys' Hs Hinv Hh Hk Hw) as Hn.
  rewrite Hf, <- (sm_open _ _ _ Hs), service_eta in Hn; done.
Qed.

(** An object that is not stored. *)
Lemma sim_not_stored a s sys a' sys' req e :
  sim a s sys -> Preserved a sys sys' -> repr (cview (sys_core sys')) a' -> WF a' -> hide a' = hide a ->
  fatal_error_triggered (sys_core sys') = fatal_error_triggered (sys_core sys) || must_exit e ->
  writers_good (sys_writers sys') -> code e <> OK -> matched a s (Some (EWrite req (refusal e))) sys'.
Proof.
  intros Hs Hp Hr Hwf Hh Hf Hw Hc. destruct (preserved_state a a' sys sys' Hp Hr Hwf) as (Hinv & Hb & Hk).
  pose proof (sim_hidden a s sys a' sys' Hs Hinv Hh Hk Hw) as Hn.
  rewrite Hf, negb_orb, <- (sm_open _ _ _ Hs) in Hn. eexists a', _. split_and!; [|exact Hn|done]. by apply Sv_not_stored.
Qed.

(** An object that is stored. *)
Lemma sim_stored a s sys i wt sys' :
  sim a s sys -> sys_writers sys !! i = Some wt -> wt_stage wt = Written ->
  Preserved a sys sys' -> repr (cview (sys_core sys')) (a_commit_object a (wt_object wt)) ->
  sdir sys' = sdir sys -> writers_good (sys_writers sys') ->
  let open := negb (fatal_error_triggered (sys_core sys')) in
  sim (a_commit_object a (wt_object wt)) (store s (wt_req wt) (wt_object wt) open) sys' /\
  Bounded a (a_commit_object a (wt_object wt)) /\ a_committed (sv_state s) !! wt_id wt = None /\
  object_for (wt_req wt) (wt_object wt).
Proof.
  intros Hs Hi Hst Hp Hr Hd Hw. pose proof (sm_sys _ _ _ Hs) as Hinv. pose proof Hinv as [].
  destruct (writer_object _ _ _ _ Hinv Hi) as (Hpr & Hcm & Hid & _).
  destruct (preserved_state a (a_commit_object a (wt_object wt)) sys sys' Hp Hr) as (Hinv' & Hb & _).
  { by apply WF_commit_object. }
  destruct (si_writers i wt Hi) as (_ & _ & _ & _ & Hfile). rewrite Hst in Hfile.
  destruct (sm_writers _ _ _ Hs i wt Hi) as [Ho _].
  split_and!; [|done|by rewrite (sm_state _ _ _ Hs)|apply Ho..].
  constructor; [done| | |done|done]; unfold store; cbn.
  - by rewrite (sm_state _ _ _ Hs), hide_commit.
  - intros id Hx. rewrite Hd. unfold sv_read. cbn. unfold wt_id in *.
    destruct (decide (id = so_object_id (wt_object wt))) as [->|Hne].
    + by rewrite lookup_insert_eq.
    + unfold a_commit_object in Hx. cbn in Hx. rewrite lookup_insert_ne in Hx by congruence.
      rewrite lookup_insert_ne by congruence. by apply (sm_data _ _ _ Hs).
Qed.

(** *** The steps of the server *)

Lemma sim_writer a s sys i wt wt' w' :
  sim a s sys -> Budget 1 a -> sys_writers sys !! i = Some wt ->
  writer_step cfg wt (sys_core sys) = (inl wt', w') ->
  matched a s None (MkSys w' (<[i := wt']> (sys_writers sys))).
Proof using FS HS PS RS.
  intros Hs Hb Hi Hrun. pose proof (sm_sys _ _ _ Hs) as Hinv.
  pose proof (wp_run _ _ _ _ _ (sim_phase a s sys i wt Hs Hi) Hrun) as (E1 & E2 & Hr & Hl & Hc).
  apply (sim_internal a s sys a); [done| |done|apply Hinv|done|unfold latch in Hl; cbn; congruence|].
  - by eapply step_preserved, S_writer.
  - apply writers_insert; [exact (sm_writers _ _ _ Hs)| |done]. rewrite E1, E2. by apply (sm_writers _ _ _ Hs i).
Qed.

Lemma sim_writer_ends a s sys i wt r w' :
  sim a s sys -> Budget 1 a -> sys_writers sys !! i = Some wt ->
  writer_step cfg wt (sys_core sys) = (inr r, w') ->
  matched a s (Some (EWrite (wt_req wt) (match r with Ok v => reply v | Err e => refusal e end)))
    (MkSys (closed cfg (result_status r) w') (delete i (sys_writers sys))).
Proof using FS HS PS RS.
  intros Hs Hb Hi Hrun. pose proof (sm_sys _ _ _ Hs) as Hinv. pose proof (si_wf _ _ Hinv) as Hwf.
  pose proof (wp_run _ _ _ _ _ (sim_phase a s sys i wt Hs Hi) Hrun) as Hph.
  set (sys' := MkSys _ _).
  assert (Hp : Preserved a sys sys') by (by eapply step_preserved, S_writer_ends).
  assert (Hw : writers_good (sys_writers sys')) by (apply writers_delete; exact (sm_writers _ _ _ Hs)).
  destruct (closed_state cfg (result_status r) w') as [Hv Hst].
  assert (Hv' : cview (sys_core sys') = cview w') by done.
  assert (Hd' : sdir sys' = dir (c_storage w')) by (unfold sdir; cbn; by rewrite Hst).
  destruct r as [v|e]; cbn [result_status] in *.
  - destruct Hph as (-> & Hstage & Ha & Hr & Hd & Hl).
    destruct (sim_stored a s sys i wt sys') as (Hn & Hbd & Hfresh & Hobj); [done..|by rewrite Hv'|by rewrite Hd', Hd|done|].
    assert (Hf : fatal_error_triggered (sys_core sys') = fatal_error_triggered (sys_core sys)).
    { cbn. rewrite closed_triggered. cbn. rewrite orb_false_r. unfold latch in Hl. congruence. }
    rewrite Hf, <- (sm_open _ _ _ Hs) in Hn. eexists _, _. split_and!; [|exact Hn|done].
    apply Sv_stored; [done| |done]. by rewrite (sm_state _ _ _ Hs).
  - destruct Hph as (Hc & Hl & Hcases).
    assert (Hf : fatal_error_triggered (sys_core sys') = fatal_error_triggered (sys_core sys) || must_exit e).
    { cbn. by rewrite closed_triggered. }
    destruct Hcases as [Hr|[Hr|(Hfat & Hrep & Hstage & Hr & Hd)]].
    + apply (sim_not_stored a s sys a); [done|done|by rewrite Hv'|done..].
    + apply (sim_not_stored a s sys (a_discard a (wt_id wt))); [done|done|by rewrite Hv'|by apply WF_discard|done..].
    + destruct (sim_stored a s sys i wt sys') as (Hn & Hbd & Hfresh & Hobj); [done..|by rewrite Hv'|by rewrite Hd', Hd|done|].
      rewrite Hf in Hn. unfold must_exit in Hn. rewrite Hfat, orb_true_r in Hn.
      eexists _, _. split_and!; [|exact Hn|done]. by apply Sv_store_failed.
Qed.

Lemma sim_prepare a s sys req x w' :
  sim a s sys -> Budget 1 a -> write_request_ok req -> WriteObject_prepare cfg req (sys_core sys) = (x, w') ->
  match x with
  | Ok o => forall i, sys_writers sys !! i = None ->
      matched a s None (MkSys w' (<[i := MkWriter req o Writing]> (sys_writers sys)))
  | Err e => matched a s (Some (EWrite req (refusal e))) (MkSys (closed cfg e w') (sys_writers sys))
  end.
Proof using FS HS PS RS.
  intros Hs Hb Hreq Hrun. pose proof (sm_sys _ _ _ Hs) as Hinv. pose proof Hinv as [].
  pose proof (Budget_Room 1 a ltac:(lia) Hb) as Hroom. pose proof (sm_writers _ _ _ Hs) as Hw.
  assert (Herr : forall e a', x = Err e -> repr (cview w') a' -> WF a' -> hide a' = hide a ->
    latched (sys_core sys) e w' -> code e <> OK ->
    matched a s (Some (EWrite req (refusal e))) (MkSys (closed cfg e w') (sys_writers sys))).
  { intros e a' -> Hr Hwf Hh Hl Hc. destruct (closed_state cfg e w') as [Hv _].
    apply (sim_not_stored a s sys a'); [done| |cbn; by rewrite Hv|done|done| |done|done].
    - by eapply step_preserved, S_prepare_fails.
    - cbn. by rewrite closed_triggered. }
  destruct (fatal_error_triggered (sys_core sys)) eqn:Hav.
  { unfold WriteObject_prepare in Hrun. rewrite unavailable_refused in Hrun by done. injection Hrun as <- <-.
    apply (Herr _ a); [done..|by apply latched_same|done]. }
  pose proof (WriteObject_prepare_outcome cfg req _ a Hav si_repr si_wf Hreq) as Hout.
  unfold wp in Hout. rewrite Hrun in Hout. destruct Hout as (bytes & Hlen & _ & Hout).
  apply base64url_is_token in Hlen as Htok. revert Htok Hout. generalize (base64url bytes). intros token Htok Hout.
  assert (Hprep : forall o a', spec_prepare req token a = Ok (o, a') ->
    WF a' /\ hide a' = hide a /\ object_for req o).
  { intros o a' E. destruct (spec_prepare_ok req token a o a') as (? & -> & ->); [done..|].
    split_and!; [done|done|]. unfold spec_prepare in E. destruct (wr_principal req =? 0); [done|].
    by destruct (invalid_object_request req) eqn:Ev. }
  inversion Hout as [o a' w1 E Hr _ Hl _ E1 E2|e w1 E (Hv & _ & _ & Hl) E1 E2
    |e w1 Hrej (Hv & _ & _ & Hl) E1 E2|e w1 (Hf & [Hc _] & _) Hv _ E1 E2]; subst.
  - intros i Hi. destruct (Hprep o a' E) as (Hwf & Hh & Ho).
    apply (sim_internal a s sys a'); [done| |done|done|done|unfold latch in Hl; cbn; congruence|by apply writers_insert].
    by eapply step_preserved, S_prepare.
  - injection Hv as Hv _. apply (Herr _ a); [done|by rewrite Hv|done|done|by apply latched_same|].
    unfold spec_prepare in E. repeat (case_match; [by injection E as <-|]).
    destruct (spec_authenticate _ _ _) as [|e'] eqn:Ea; [done|]. injection E as <-. by eapply authenticate_code.
  - injection Hv as Hv _. apply (Herr _ a); [done|by rewrite Hv|done|done|by apply latched_same|].
    destruct Hrej as [(err & _ & ->)| ->]; done.
  - assert (Hl : latched (sys_core sys) e w') by (apply latched_trip; unfold must_exit; by rewrite Hf).
    destruct Hv as [Hv|(o & a' & E & Hr & _)]; [apply (Herr _ a); try done; by rewrite Hv|].
    destruct (Hprep o a' E) as (Hwf & Hh & _). by apply (Herr _ a').
Qed.

(** The service can do closed what it can do open. *)
Definition with_open (s : Service) (b : bool) : Service := MkService (sv_state s) (sv_data s) b.

Lemma service_closed s e s' : service s e s' -> service (with_open s false) e (with_open s' false).
Proof.
  destruct 1 as [ch r s v a' Hch Hs|ch r s e Hs|r s e Hr|ch r s e a' Hf Hr Ha|r s Ho|req s o Ho Ha Hc|req s e Hc
    |req s o e Hf Hr Ho Hc|s]; unfold with_open, store; cbn.
  - by apply (Sv_answered ch r (with_open s false)).
  - by apply (Sv_refused ch r (with_open s false)).
  - by apply Sv_rejected.
  - by apply (Sv_failed ch r (with_open s false)).
  - by apply Sv_unavailable.
  - by apply (Sv_stored req (with_open s false)).
  - by apply (Sv_not_stored req (with_open s false)).
  - by apply (Sv_store_failed req (with_open s false)).
  - apply Sv_internal.
Qed.

Lemma sim_latch a s w ws f calls :
  sim a s (MkSys w ws) -> sim a (with_open s (negb f)) (MkSys (set_latch w f calls) ws).
Proof. intros []. constructor; cbn; try done. by apply SysInv_latch. Qed.

Lemma sim_step a s sys e sys' :
  sim a s sys -> Budget 1 a -> lstep sys e sys' -> matched a s e sys'.
Proof using FS HS PS RS.
  intros Hs Hb Hl. revert s Hs.
  induction Hl as [r sys Hreq|i req o w' sys Hreq Hi Hrun|req x w' sys Hreq Hrun|i wt wt' w' sys Hi Hrun
    |i wt r w' sys Hi Hrun|[w ws] e [w' ws'] Hf _ IH]; intros s Hs.
  - by apply sim_serve.
  - exact (sim_prepare a s sys req (Ok o) w' Hs Hb Hreq Hrun i Hi).
  - exact (sim_prepare a s sys req (Err x) w' Hs Hb Hreq Hrun).
  - by eapply sim_writer.
  - by apply sim_writer_ends.
  - cbn in Hf. destruct (IH (with_open s true)) as (a' & s1 & Hsv & Hs1 & Hbd); [by apply (sim_latch a s w ws false)|].
    exists a', (with_open s1 false). split_and!; [|unfold relatched; cbn; rewrite Hf; by apply (sim_latch a' s1 w' ws' true)|done].
    apply service_closed in Hsv. assert (with_open (with_open s true) false = s) as E; [|by rewrite E in Hsv].
    change (MkService (sv_state s) (sv_data s) false = s). apply service_eta. rewrite (sm_open _ _ _ Hs). cbn. by rewrite Hf.
Qed.

Lemma sim_run_budget k tr a s sys sys' :
  0 <= k -> sim a s sys -> Budget (Z.of_nat (length tr) + k) a -> server_run sys tr sys' ->
  exists a' s', service_run s tr s' /\ sim a' s' sys' /\ Budget k a'.
Proof using FS HS PS RS.
  intros Hk Hs Hb Hrun. revert a s Hs Hb. induction Hrun as [sys|sys e sys1 tr sys2 Hl _ IH]; intros a s Hs Hb.
  { exists a, s. split_and!; [apply Sr_nil|done|exact Hb]. }
  destruct (sim_step a s sys e sys1) as (a1 & s1 & Hsv & Hs1 & Hbd); [done| |done|].
  { eapply Budget_mono; [|exact Hb]. cbn. lia. }
  destruct (IH a1 s1 Hs1) as (a2 & s2 & Hsr & Hs2 & Hb2).
  { eapply Budget_step; [|exact Hbd].
    by replace (Z.of_nat (length tr) + k + 1) with (Z.of_nat (length (e :: tr)) + k) by (cbn; lia). }
  exists a2, s2. split_and!; [by eapply Sr_cons|done|done].
Qed.

Lemma sim_run tr a s sys sys' :
  sim a s sys -> Budget (Z.of_nat (length tr)) a -> server_run sys tr sys' ->
  exists a' s', service_run s tr s' /\ sim a' s' sys'.
Proof using FS HS PS RS.
  intros Hs Hb Hrun. destruct (sim_run_budget 0 tr a s sys sys') as (a' & s' & Hsr & Hs' & _);
    [done|done|by rewrite Z.add_0_r|done|by exists a', s'].
Qed.

(** Nothing was answered, or an error was. *)
Definition unsuccessful (e : option Event) : Prop :=
  match e with
  | None => True
  | Some (ECall _ (_, v)) => v = None
  | Some (EWrite _ (_, v)) => v = None
  end.

(** Then the service is as before, or it closed. *)
Lemma service_unsuccessful s e s' :
  service s e s' -> unsuccessful e -> sv_open s' = true -> s' = s.
Proof.
  intros Hsv He Ho. destruct Hsv; try done. cbn in Ho |- *. destruct s as [st d o]. cbn in *. f_equal.
  by destruct o, (must_exit e).
Qed.

Lemma unsuccessful_step a s sys e sys' :
  sim a s sys -> Budget 1 a -> lstep sys e sys' -> unsuccessful e ->
  fatal_error_triggered (sys_core sys') = true \/
  exists a', SysInv a' sys' /\ hide a' = hide a /\ Keeps a (sdir sys) (sdir sys').
Proof using FS HS PS RS.
  intros Hs Hb Hl He. destruct (sim_step a s sys e sys' Hs Hb Hl) as (a' & s' & Hsv & Hs' & _).
  destruct (fatal_error_triggered (sys_core sys')) eqn:Hf; [by left|right]. exists a'.
  assert (s' = s) as -> by (apply (service_unsuccessful _ e); [done..|by rewrite (sm_open _ _ _ Hs'), Hf]).
  pose proof (sm_state _ _ _ Hs) as E. pose proof (sm_state _ _ _ Hs') as E'. rewrite E in E'.
  split_and!; [apply Hs'|done|]. intros id Hid.
  assert (Hc : a_committed a' = a_committed a) by (by injection E').
  rewrite (sm_data _ _ _ Hs id Hid). apply (sm_data _ _ _ Hs'). by rewrite Hc.
Qed.

(** Where it starts: a server with no writers, and the objects it has. *)
Definition service_of (a : AState) (d : gmap string Node) (open : bool) : Service :=
  MkService (hide a) (map_imap (fun id _ => Some (file_data d id)) (a_committed a)) open.

Lemma sim_start a w :
  SysInv a (MkSys w ∅) -> sim a (service_of a (dir (c_storage w)) (negb (fatal_error_triggered w))) (MkSys w ∅).
Proof.
  intros Hinv. constructor; [done..| |done|done]. intros id [o Ho].
  destruct (si_files _ _ Hinv id o Ho) as (data & Hd & _).
  unfold sv_read, service_of. cbn [sv_data]. rewrite map_lookup_imap, Ho. cbn [mbind option_bind default].
  change (dir (c_storage w)) with (sdir (MkSys w ∅)). unfold file_data. by rewrite Hd.
Qed.

End Service.
