(* ===== verification/Tracks.v ===== *)
(** * The commit counter follows the database

    [commit_generation_] is how the subscription thread learns that something was
    committed.  Whatever a request or an object writer does, the contents of the
    database stay as they are, or the counter moves by one, or the server is
    closed; nothing here looks at what is stored. *)

From S2P Require Import Prelude Status Encoding Tokens Proto Json Platform Keys World FileStore.
From S2P Require Import Storage Core Commands Model Reads Refine Services Concurrency.

Section Tracks.
Context {R : RocksDB} {P : Protobuf} {F : PosixDir} {H : Host}.
Context {RS : RocksDBSpec}.
Context (cfg : CoreConfig).

(** ** Storage operations that write nothing *)

Definition still {A} (m : M StorageW A) : Prop := forall w, st_contents (m w).2 = st_contents w.

Lemma still_ret {A} (x : A) : still (ret x).
Proof. by intros w. Qed.

Lemma still_bind {A B} (m : M StorageW A) (k : A -> M StorageW B) :
  still m -> (forall x, still (k x)) -> still (bind m k).
Proof.
  intros Hm Hk w. unfold bind. specialize (Hm w). destruct (m w) as [x w1]. cbn in Hm.
  by rewrite Hk.
Qed.

Lemma still_on_fs {A} (m : M fs_t A) : still (on_fs m).
Proof. intros w. unfold on_fs. by destruct (m (st_fs w)). Qed.

Lemma still_on_os {A} (m : M os_t A) : still (on_os m).
Proof. intros w. unfold on_os. by destruct (m (st_os w)). Qed.

Lemma still_on_db {A} (m : M db_t A) : (forall d, db_data (m d).2 = db_data d) -> still (on_db m).
Proof. intros Hm w. unfold on_db. specialize (Hm (st_db w)). by destruct (m (st_db w)). Qed.

Lemma still_gets {A} (f : StorageW -> A) : still (gets f).
Proof. by intros w. Qed.

Lemma still_get : still get.
Proof. by intros w. Qed.

Lemma still_db_calls :
  still (on_db db_GetSnapshot) /\ (forall s cf k, still (on_db (db_Get s cf k))) /\
  (forall s cf ks, still (on_db (db_MultiGet s cf ks))) /\
  (forall o cf t, still (on_db (db_Iterate o cf t))).
Proof using RS.
  split_and!; intros; apply still_on_db; intros d.
  - pose proof (GetSnapshot_spec d) as Hs. destruct (db_GetSnapshot d). apply Hs.
  - pose proof (Get_spec s cf k d) as Hs. destruct (db_Get s cf k d). apply Hs.
  - pose proof (MultiGet_spec s cf ks d) as Hs. destruct (db_MultiGet s cf ks d). apply Hs.
  - pose proof (Iterate_spec o cf t d) as Hs. destruct (db_Iterate o cf t d) as [[]]. apply Hs.
Qed.

Ltac still_step :=
  first [apply still_ret | apply still_on_fs | apply still_on_os | apply still_get | apply still_gets
        | apply still_db_calls | progress (unfold bind_ok, ok, fail, check_status; cbv zeta)
        | apply still_bind; [|intros ?] | case_match].

Lemma still_reads s :
  (forall k, still (GetRequiredUint64 s k)) /\ (forall u, still (GetUsedUuidSeq s u)) /\
  (forall p t, still (HasToken s p t)) /\ (forall id, still (LoadChannel s id)) /\
  still (ListChannels s) /\ (forall pre id, still (GetObject s pre id)) /\
  (forall ids, still (GetCommittedObjects s ids)).
Proof using RS.
  unfold GetRequiredUint64, GetUsedUuidSeq, HasToken, LoadChannel, GetChannel, ListChannels, GetObject,
    GetCommittedObjects.
  split_and!; intros; repeat still_step.
Qed.

Lemma still_CreateSnapshot : still CreateSnapshot.
Proof using RS. unfold CreateSnapshot. repeat still_step. Qed.

Lemma still_ScanMessages {V} s from last max (visitor : V -> EventMessage -> RM StorageW (MessageScanAction * V)) v :
  (forall v m, still (visitor v m)) -> still (ScanMessages s from last max visitor v).
Proof using RS.
  intros Hv. unfold ScanMessages. apply still_bind; [apply still_db_calls|]. intros [l st]. cbn [fst snd].
  generalize 0 as scanned. revert from v. induction l as [|[k b] l IH]; intros from v scanned; cbn [scan_loop].
  - apply still_ret.
  - repeat first [apply IH | apply Hv | still_step].
Qed.

Lemma still_pages s :
  (forall p from limit only cs, still (FetchVisible cfg s p from limit only cs)) /\
  (forall from limit, still (ListAllMessages cfg s from limit)).
Proof using RS.
  assert (Hc : forall id, still (LoadChannel s id)) by apply still_reads.
  unfold FetchVisible, ListAllMessages, GetMaxSeq. split; intros.
  - repeat first [apply still_reads | apply still_ScanMessages; intros ? ?; unfold fetch_visitor | apply Hc | still_step].
  - repeat first [apply still_reads | apply still_ScanMessages; intros ? ?; unfold list_visitor | apply Hc | still_step].
Qed.

Lemma still_validate_channels s p validated cs : still (validate_channels s p validated cs).
Proof using RS.
  assert (Hc : forall id, still (LoadChannel s id)) by apply still_reads.
  revert validated. induction cs as [|c cs IH]; intros validated; cbn [validate_channels];
    repeat first [apply IH | apply Hc | still_step].
Qed.

Lemma still_files :
  (forall id data, still (Write id data)) /\ (forall ids, still (Cleanup ids)) /\
  (forall id size offset n, still (ReadRange id size offset n)).
Proof.
  assert (Hw : forall fuel fd data, still (write_loop fuel fd data)).
  { intros fuel fd. induction fuel as [|fuel IH]; intros data; cbn [write_loop];
      repeat first [apply IH | still_step]. }
  assert (Hu : forall ids, still (unlink_all ids)).
  { induction ids as [|id ids IH]; cbn [unlink_all]; unfold UnlinkKnownPath;
      repeat first [apply IH | still_step]. }
  assert (Ho : forall fuel n, still (open_loop fuel n)).
  { intros fuel n. induction fuel as [|fuel IH]; cbn [open_loop]; repeat first [apply IH | still_step]. }
  assert (Hr : forall fuel fd n o c d, still (read_loop fuel fd n o c d)).
  { intros fuel fd n. induction fuel as [|fuel IH]; intros o c d; cbn [read_loop];
      repeat first [apply IH | still_step]. }
  unfold Write, write_temporary, publish_file, inject_open, inject, CloseFile, Cleanup, ReadRange.
  split_and!; intros; repeat first [apply Hw | apply Hu | apply Ho | apply Hr | progress unfold inject, CloseFile | still_step].
Qed.

(** ** Handlers *)

(** Nothing stored changes, and a closed server stays closed. *)
Definition inert {A} (m : M CoreW A) : Prop := forall w, let w' := (m w).2 in
  c_contents w' = c_contents w /\ commit_generation w' = commit_generation w /\ c_sub w' = c_sub w /\
  (fatal_error_triggered w = true -> fatal_error_triggered w' = true).

(** The database is unchanged, or the counter moved and what was committed is on disk, or the
    server is closed. *)
Definition tracked (w w' : CoreW) : Prop :=
  c_sub w' = c_sub w /\ (fatal_error_triggered w = true -> fatal_error_triggered w' = true) /\
  ((c_contents w' = c_contents w /\ commit_generation w' = commit_generation w) \/
   (commit_generation w' = u64_add (commit_generation w) 1 /\ on_disk_now w') \/
   (commit_generation w' = commit_generation w /\ fatal_error_triggered w' = true)).

Definition tracks {A} (m : M CoreW A) : Prop := forall w, tracked w (m w).2.

Lemma inert_ret {A} (x : A) : inert (ret x).
Proof. by intros w. Qed.

Lemma inert_bind {A B} (m : M CoreW A) (k : A -> M CoreW B) :
  inert m -> (forall x, inert (k x)) -> inert (bind m k).
Proof.
  intros Hm Hk w. unfold bind. specialize (Hm w). destruct (m w) as [x w1]. cbn in Hm.
  destruct Hm as (H1 & H2 & H3 & H4). destruct (Hk x w1) as (K1 & K2 & K3 & K4). cbn.
  rewrite K1, K2, K3. split_and!; auto.
Qed.

Lemma inert_storage {A} (m : M StorageW A) : still m -> inert (storage m).
Proof.
  intros Hm w. unfold storage, cview. specialize (Hm (c_storage w)). by destruct (m (c_storage w)).
Qed.

Lemma inert_get : inert get.
Proof. by intros w. Qed.

Lemma inert_fatal s : inert (FatalStorageError cfg s).
Proof.
  intros w. rewrite run_FatalStorageError. cbn. unfold trip. by destruct (fatal_error_triggered w) eqn:E.
Qed.

Lemma tracks_inert {A} (m : M CoreW A) : inert m -> tracks m.
Proof. intros Hm w. destruct (Hm w) as (H1 & H2 & H3 & H4). split_and!; auto. Qed.

(** At most one commit: reads before it, nothing stored after it. *)
Lemma tracks_after {A B} (m : M CoreW A) (k : A -> M CoreW B) :
  inert m -> (forall x, tracks (k x)) -> tracks (bind m k).
Proof.
  intros Hm Hk w. unfold bind. specialize (Hm w). destruct (m w) as [x w1]. cbn in Hm.
  destruct Hm as (H1 & H2 & H3 & H4). destruct (Hk x w1) as (K1 & K2 & K3).
  unfold tracked. rewrite K1, H3. rewrite H1, H2 in K3. split_and!; auto.
Qed.

Lemma tracks_before {A B} (m : M CoreW A) (k : A -> M CoreW B) :
  tracks m -> (forall x, inert (k x)) -> tracks (bind m k).
Proof.
  intros Hm Hk w. unfold bind. specialize (Hm w). destruct (m w) as [x w1]. cbn in Hm.
  destruct Hm as (H1 & H2 & H3). destruct (Hk x w1) as (K1 & K2 & K3 & K4).
  unfold tracked, on_disk_now in *. rewrite K3, K1, K2. injection K1 as -> ->. split_and!; auto.
  destruct H3 as [?|[?|[? ?]]]; auto.
Qed.

Lemma tracks_commit batch : tracks (CommitBatch cfg batch).
Proof using RS.
  intros w.
  assert (Hw : wp (CommitBatch cfg batch) (fun _ w' => tracked w w') w).
  { apply run_CommitBatch.
    - intros w' _ [_ Hs] Hl Hg Hx. split_and!; [done| |by right; left].
      unfold latch in Hl. intros Hf. congruence.
    - intros s w' (_ & _ & [_ Hs] & Hg & _) Hl _ _.
      assert (Hf : fatal_error_triggered w' = true).
      { unfold latch, trip in Hl. destruct (fatal_error_triggered w) eqn:E; cbn in Hl; congruence. }
      split_and!; [done|done|]. by right; right. }
  unfold wp in Hw. by destruct (CommitBatch cfg batch w).
Qed.

Ltac core_read :=
  apply inert_storage; first [apply still_CreateSnapshot | apply still_reads | apply still_pages | apply still_validate_channels
    | apply still_files | apply still_on_os].

Ltac inert_step :=
  first [apply inert_ret | apply inert_get | apply inert_fatal | core_read
        | progress (unfold bind_ok, ok, fail, escalate, EnsureAvailable, Authenticate, NowMs,
            CreateLinearizedSnapshot, ValidateReadableChannels, CheckRpcActive, GetMaxSeq, GetNextUuid,
            GetNextChannelId, GetNextObjectId, GetPreparingObject, GetCommittedObject, ReadObjectFile,
            WriteObjectFile, CleanupObjectFiles, ValidateAvailableUuid, LoadAuthorizedObject; cbv zeta)
        | apply inert_bind; [|intros ?] | case_match].

Lemma inert_queries :
  (forall p t, inert (GetStatus p t)) /\ (forall u, inert (GetSeqByUuid u)) /\
  (forall p t c, inert (CoreGetChannel p t c)) /\ (forall p t f, inert (CoreListChannels p t f)) /\
  (forall i t, inert (GetObjectMetadata cfg i t)) /\ (forall ks, inert (BatchGetObjectMetadata cfg ks)) /\
  (forall i t o n, inert (ReadObject cfg i t o n)) /\ (forall req, inert (Fetch cfg req)) /\
  (forall f l, inert (ListMessages cfg f l)).
Proof using RS.
  assert (Hb : forall s ks staged, inert (batch_metadata cfg s ks staged)).
  { intros s ks. induction ks as [|k ks IH]; intros staged; cbn [batch_metadata];
      repeat first [apply IH | inert_step]. }
  unfold GetStatus, GetSeqByUuid, CoreGetChannel, CoreListChannels, GetObjectMetadata,
    BatchGetObjectMetadata, ReadObject, Fetch, ListMessages.
  split_and!; intros; repeat first [apply Hb | inert_step].
Qed.

(** ** Requests and writers *)

Lemma tracks_bind_ok {A B} (m : RM CoreW A) (k : A -> RM CoreW B) :
  inert m -> (forall x, tracks (k x)) -> tracks (bind_ok m k).
Proof.
  intros Hm Hk. unfold bind_ok. apply tracks_after; [done|]. intros [x|s]; [done|].
  apply tracks_inert, inert_ret.
Qed.

Lemma tracks_commit_ok {B} batch (v : B) : tracks (do? CommitBatch cfg batch in ok v).
Proof using RS.
  unfold bind_ok. apply tracks_before; [apply tracks_commit|]. intros []; apply inert_ret.
Qed.

Lemma inert_randoms : inert GenerateToken /\ inert GenerateObjectToken.
Proof. unfold GenerateToken, GenerateObjectToken. split; repeat inert_step. Qed.

Lemma inert_BuildPublishBatch s p c sq u rs pl ks ts :
  inert (BuildPublishBatch cfg s p c sq u rs pl ks ts).
Proof using RS. unfold BuildPublishBatch. repeat inert_step. Qed.

Lemma inert_BuildChannelMutationBatch s c pl : inert (BuildChannelMutationBatch s c pl).
Proof using RS. unfold BuildChannelMutationBatch. repeat inert_step. Qed.

Lemma inert_checks :
  inert EnsureAvailable /\ (forall ctx, inert (CheckRpcActive ctx)) /\
  (forall s p t, inert (Authenticate s p t)) /\ (forall s u, inert (ValidateAvailableUuid s u)) /\
  inert NowMs.
Proof using P RS. split_and!; intros; repeat inert_step. Qed.

Ltac tracks_step :=
  cbv zeta;
  first [apply tracks_commit | apply tracks_commit_ok
        | apply tracks_bind_ok;
            [first [apply inert_checks | apply inert_randoms | apply inert_BuildPublishBatch
                   | apply inert_BuildChannelMutationBatch | apply inert_ret | solve [repeat inert_step]]
            |intros ?]
        | apply tracks_after; [apply inert_checks|intros ?]
        | apply tracks_inert, inert_ret | case_match].

Lemma tracks_commands :
  (forall n, tracks (AllocateUuids cfg n)) /\ (forall r c, tracks (Publish cfg r c)) /\
  (forall r c, tracks (PublishAutoSeq cfg r c)) /\ (forall r, tracks (CreateChannel cfg r)) /\
  (forall r, tracks (AddMember cfg r)) /\ (forall r, tracks (RemoveMember cfg r)) /\
  (forall p, tracks (AddToken cfg p)) /\ (forall p t, tracks (CoreDeleteToken cfg p t)) /\
  (forall r, tracks (WriteObject_prepare cfg r)).
Proof using RS.
  unfold AllocateUuids, Publish, PublishAutoSeq, CreateChannel, AddMember, RemoveMember, AddToken,
    CoreDeleteToken, WriteObject_prepare.
  split_and!; intros; repeat tracks_step.
Qed.

Lemma inert_HandleRpcStatus s : inert (HandleRpcStatus cfg s).
Proof. unfold HandleRpcStatus. repeat inert_step. Qed.

Lemma tracks_serve r : tracks (serve cfg r).
Proof using RS.
  assert (Hrpc : forall A (m : RM CoreW A), tracks m -> tracks (rpc cfg m)).
  { intros A m Hm. unfold rpc, ToGrpcStatus. apply tracks_before; [done|]. intros x.
    repeat first [apply inert_HandleRpcStatus | inert_step]. }
  assert (Hresp : forall A (f : A -> Response) (m : RM CoreW A), tracks m -> tracks (respond f m)).
  { intros A f m Hm. unfold respond, bind_ok. apply tracks_before; [done|]. intros []; apply inert_ret. }
  apply Hrpc. destruct r; cbn [handle]; apply Hresp;
    first [apply tracks_commands | apply tracks_inert, inert_queries].
Qed.

Lemma tracks_writer wt : tracks (writer_step cfg wt).
Proof using RS.
  assert (Hin : forall req o, tracks (WriteObject_commit cfg req o)).
  { intros req o. unfold WriteObject_commit. cbv zeta.
    repeat first [progress cbv zeta | apply tracks_before; [apply tracks_commit|intros ?; repeat inert_step]
      | apply tracks_after; [solve [repeat inert_step]|intros ?] | apply tracks_inert; solve [repeat inert_step]
      | case_match]. }
  destruct wt as [req o []]; cbn [writer_step].
  - apply tracks_inert. repeat inert_step.
  - apply tracks_before; [apply Hin|]. intros []; unfold WriteObject_finish; repeat inert_step.
  - unfold CleanupPreparingObject. apply tracks_before; [|intros ?; apply inert_ret].
    apply tracks_after; [solve [repeat inert_step]|]. intros [[]|e]; [|apply tracks_inert; repeat inert_step].
    apply tracks_before; [apply tracks_commit|]. intros []; apply inert_ret.
Qed.

(** Every step of the server moves the counter when it changes the database. *)
Lemma step_tracked sys sys' : step cfg sys sys' -> tracked (sys_core sys) (sys_core sys').
Proof using RS.
  assert (Hclosed : forall s w w', tracked w w' -> tracked w (closed cfg s w')).
  { intros s w w' (H1 & H2 & H3). destruct (inert_HandleRpcStatus s w') as (K1 & K2 & K3 & K4).
    unfold closed, tracked, on_disk_now in *. rewrite K1, K2, K3. injection K1 as -> ->. split_and!; auto. destruct H3 as [?|[?|[? ?]]]; auto. }
  assert (Hrun : forall A (m : M CoreW A) w x w', tracks m -> m w = (x, w') -> tracked w w').
  { intros A m w x w' Hm E. specialize (Hm w). by rewrite E in Hm. }
  induction 1 as [| | | | |sys sys' Hf _ IH]; cbn [sys_core].
  - apply tracks_serve.
  - eapply Hrun; [|done]. apply tracks_commands.
  - apply Hclosed. eapply Hrun; [|done]. apply tracks_commands.
  - eapply Hrun; [|done]. apply tracks_writer.
  - apply Hclosed. eapply Hrun; [|done]. apply tracks_writer.
  - destruct IH as (H1 & _ & H3). split_and!; [done|done|].
    destruct H3 as [?|[?|[? _]]]; [by left|by right; left|by right; right].
Qed.

End Tracks.
