(* ===== verification/Crash.v ===== *)
(** * What a crash can leave

    The server can lose power between any two steps.  Of the database, what is left
    is one of the contents [db_disk] allows; of the object directory, the entries
    that are on disk.  The invariant says that each such state is well formed, has
    the files of its objects on disk, and extends the state at the last moment all
    of it was on disk.  Every step keeps it, also one whose commit fails. *)

From stdpp Require Import relations.
From S2P Require Import Prelude Status Encoding Tokens Proto Json Platform Keys World FileStore.
From S2P Require Import Files Durability Storage Core Commands Model Reads Scan Spec SystemMessages.
From S2P Require Import Refine Handlers ChannelHandlers Invariant Queries Pages Startup Objects.
From S2P Require Import Services Effects Requests Concurrency Tracks.

Section Crash.
Context {R : RocksDB} {P : Protobuf} {F : PosixDir} {H : Host}.
Context {RS : RocksDBSpec} {PS : ProtobufSpec} {HS : HostSpec} {FS : PosixDirSpec}.
Context (cfg : CoreConfig).

Definition sfs (sys : Sys) : fs_t := st_fs (c_storage (sys_core sys)).

(** ** States with their files on disk *)

(** A state whose objects are in the directory, on disk, and whose next names are free there. *)
Record Stored (c : AState) (f : fs_t) : Prop := {
  sd_wf : WF c;
  sd_files : files_ok c (fs_view f);
  sd_durable : forall id, is_Some (a_committed c !! id) -> fs_durable f (FinalName id);
  sd_fresh : forall id n, a_next_object c <= id < two64 -> n ∈ object_names id ->
               fs_view f !! n = None /\ fs_durable f n
}.

(** Only the names of an unfinished object change. *)
Lemma Stored_changes c f f' names :
  Stored c f -> touched names (fs_view f) (fs_view f') -> fs_keeps names f f' ->
  (forall n, n ∈ names -> exists id, is_Some (a_preparing c !! id) /\ n ∈ object_names id) -> Stored c f'.
Proof.
  intros [] Ht Hk Hn. pose proof (wf_next_object _ sd_wf0).
  assert (Hc : forall id, is_Some (a_committed c !! id) -> FinalName id ∉ names).
  { intros id [o Ho] (id' & [p Hp] & Hin)%Hn. destruct (wf_committed _ sd_wf0 _ _ Ho) as [_ Hid].
    destruct (wf_preparing _ sd_wf0 _ _ Hp) as [_ Hid'].
    destruct (decide (id = id')) as [->|Hne].
    - pose proof (wf_disjoint _ sd_wf0) as Hdj. rewrite map_disjoint_spec in Hdj. by eapply Hdj.
    - apply (names_apart id' id (FinalName id)); [lia|lia|congruence|by right; left|done]. }
  assert (Hf : forall id n, a_next_object c <= id < two64 -> n ∈ object_names id -> n ∉ names).
  { intros id n Hid Hin (id' & [p Hp] & Hin')%Hn. destruct (wf_preparing _ sd_wf0 _ _ Hp) as [_ ?].
    apply (names_apart id' id n); [lia|lia|lia|done|done]. }
  constructor; [done| | |].
  - intros id o Ho. destruct (sd_files0 id o Ho) as (data & Hd & Hs). exists data. split; [|done].
    rewrite Ht; [done|]. apply Hc. by eexists.
  - intros id Hid. apply Hk; [by apply Hc|by apply sd_durable0].
  - intros id n Hid Hin. destruct (sd_fresh0 id n Hid Hin). split; [by rewrite Ht by by eapply Hf|].
    by apply Hk; [eapply Hf|].
Qed.

(** Every writer in flight has its object registered. *)
Definition Registered (c : AState) (ws : gmap nat Writer) : Prop :=
  forall i wt, ws !! i = Some wt -> a_preparing c !! wt_id wt = Some (wt_object wt).

(** The same writers, or fewer. *)
Definition fewer (ws ws' : gmap nat Writer) : Prop :=
  forall i wt', ws' !! i = Some wt' -> exists wt, ws !! i = Some wt /\ wt_object wt' = wt_object wt.

Lemma Registered_fewer c ws ws' : fewer ws ws' -> Registered c ws -> Registered c ws'.
Proof. intros Hf Hr i wt' (wt & Hi & E)%Hf. unfold wt_id. rewrite E. by eapply Hr. Qed.

Lemma fewer_refl ws : fewer ws ws.
Proof. intros i wt Hi. by exists wt. Qed.

Lemma fewer_delete i ws : fewer ws (delete i ws).
Proof. intros j wt [_ Hj]%lookup_delete_Some. by exists wt. Qed.

Lemma fewer_insert i wt wt' ws :
  ws !! i = Some wt -> wt_object wt' = wt_object wt -> fewer ws (<[i := wt']> ws).
Proof. intros Hi E j wj [[<- <-]|[_ Hj]]%lookup_insert_Some; [by exists wt|by exists wj]. Qed.

(** ** The invariant *)

(** One of the states a crash can leave, with room for [m] more requests; [b] is what was safe. *)
Definition survivor (m : Z) (b : AState) (sys : Sys) (x : Db) : Prop :=
  exists c, repr x c /\ Stored c (sfs sys) /\ Registered c (sys_writers sys) /\ Extends b c /\ Budget m c.

Record CrashInv (m : Z) (b a : AState) (sys : Sys) : Prop := {
  cr_sys : SysInv a sys;
  cr_now : Stored a (sfs sys) /\ Extends b a /\ Budget m a;
  cr_disk : forall x, cdisk (sys_core sys) x -> survivor m b sys x;
  cr_written : forall i wt, sys_writers sys !! i = Some wt -> wt_stage wt = Written ->
                 fs_durable (sfs sys) (FinalName (wt_id wt))
}.

Lemma SysInv_Registered a sys : SysInv a sys -> Registered a (sys_writers sys).
Proof. intros [] i wt Hi. by apply (si_writers i wt Hi). Qed.

Lemma cr_survivor m b a sys : CrashInv m b a sys -> survivor m b sys (cview (sys_core sys)).
Proof.
  intros [Hs (H1 & H2 & H3) _ _]. exists a. split_and!; [apply Hs|done|by apply SysInv_Registered|done..].
Qed.

(** When all of it is on disk, the current state is what is safe. *)
Lemma CrashInv_now m b a sys : CrashInv m b a sys -> on_disk_now (sys_core sys) -> CrashInv m a a sys.
Proof.
  intros [Hs (H1 & H2 & H3) _ H4] Hx. constructor; [done|by split_and!| |done].
  intros x ->%Hx. exists a. split_and!; [apply Hs|done|by apply SysInv_Registered|done..].
Qed.

(** ** What a step does *)

Definition fs_step (sys sys' : Sys) : Prop := exists names,
  (names = [] \/ exists i wt, sys_writers sys !! i = Some wt /\ wt_stage wt <> Written /\
                   names = object_names (wt_id wt)) /\
  fs_keeps names (sfs sys) (sfs sys') /\ touched names (sdir sys) (sdir sys') /\
  (forall i wt', sys_writers sys' !! i = Some wt' -> wt_stage wt' = Written ->
     sys_writers sys !! i = Some wt' \/ fs_durable (sfs sys') (FinalName (wt_id wt'))).

(** A state the step was to lead to. *)
Definition candidate (a : AState) (sys : Sys) (ws' : gmap nat Writer) (c : AState) : Prop :=
  WF c /\ Extends a c /\ Bounded a c /\ Grown a c sys /\ Registered c ws'.

Definition disk_step (a : AState) (sys sys' : Sys) : Prop := forall x, cdisk (sys_core sys') x ->
  x = cview (sys_core sys') \/
  (fewer (sys_writers sys) (sys_writers sys') /\ (cdisk (sys_core sys) x \/ x = cview (sys_core sys))) \/
  (exists c, repr x c /\ candidate a sys (sys_writers sys') c).

Definition StepFacts (a : AState) (sys sys' : Sys) : Prop := fs_step sys sys' /\ disk_step a sys sys'.

Lemma fs_step_same sys w' ws' :
  same_dir (sys_core sys) w' ->
  (forall i wt', ws' !! i = Some wt' -> wt_stage wt' = Written -> sys_writers sys !! i = Some wt') ->
  fs_step sys (MkSys w' ws').
Proof.
  intros [Hd Hk] Hw. exists []. split_and!; [by left|done|by apply touched_same|].
  intros i wt' Hi Hst. left. by apply Hw.
Qed.

Lemma written_delete i sys j wt' :
  delete i (sys_writers sys) !! j = Some wt' -> wt_stage wt' = Written -> sys_writers sys !! j = Some wt'.
Proof. by intros [_ ?]%lookup_delete_Some _. Qed.

Lemma disk_step_same a sys w' ws' :
  cdisk w' = cdisk (sys_core sys) -> fewer (sys_writers sys) ws' -> disk_step a sys (MkSys w' ws').
Proof. intros Hd Hf x. cbn. rewrite Hd. auto. Qed.

Lemma disk_step_now a sys w' ws' : on_disk_now w' -> disk_step a sys (MkSys w' ws').
Proof. intros Hx x ->%Hx. by left. Qed.

Lemma disk_step_within a sys w' ws' c :
  disk_within (sys_core sys) w' (fun x => repr x c) -> fewer (sys_writers sys) ws' ->
  candidate a sys ws' c -> disk_step a sys (MkSys w' ws').
Proof. intros Hw Hf Hc x Hx. right. destruct (Hw x Hx) as [?|[?|?]]; [by auto..|]. right. by exists c. Qed.

Lemma facts_closed a sys s w' ws :
  StepFacts a sys (MkSys w' ws) -> StepFacts a sys (MkSys (closed cfg s w') ws).
Proof.
  destruct (closed_state cfg s w') as [_ Hs].
  unfold StepFacts, fs_step, disk_step, sfs, sdir, cview, cdisk. cbn. by rewrite Hs.
Qed.

(** *** Requests *)

Lemma Evolves_candidate a c sys : SysInv a sys -> Evolves a c -> candidate a sys (sys_writers sys) c.
Proof.
  intros Hinv (Hwf & Hx & Hb & Hp & Hc & _). split_and!; try done; [by apply Grown_same|].
  intros i wt Hi. rewrite Hp. by eapply SysInv_Registered.
Qed.

Lemma facts_serve a sys r :
  SysInv a sys -> Budget 1 a -> request_ok r ->
  StepFacts a sys (MkSys (serve cfg r (sys_core sys)).2 (sys_writers sys)).
Proof using FS HS PS RS.
  intros Hinv Hb Hreq. pose proof Hinv as [].
  assert (Hm := serve_moves cfg r (sys_core sys) a si_repr si_wf (Budget_Room 1 a ltac:(lia) Hb)
    ltac:(unfold Budget in Hb; lia) si_files Hreq).
  unfold wp in Hm. destruct (serve cfg r (sys_core sys)) as [x w']. destruct Hm as (_ & Hd & _ & Hx).
  split; [by apply fs_step_same|]. destruct Hx as [Hx|Hx]; [by apply disk_step_now|].
  intros y [?|(c & Hr & He)]%Hx; right; [left; split; [apply fewer_refl|by left]|].
  right. exists c. split; [done|exact (Evolves_candidate a c sys Hinv He)].
Qed.

(** *** Registering an object *)

Lemma prepare_candidate a sys req token o a' :
  SysInv a sys -> Room a -> write_request_ok req -> IsBase64UrlToken token = true ->
  spec_prepare req token a = Ok (o, a') -> candidate a sys (sys_writers sys) a'.
Proof.
  intros Hinv Hroom Hreq Htok Hs. pose proof Hinv as [].
  apply spec_prepare_ok in Hs as (Hwf' & Ho & ->); [|done..].
  assert (Hwfo : object_wf (so_object_id o) o).
  { destruct (wf_preparing _ Hwf' (so_object_id o) o) as [? _]; [cbn; apply lookup_insert_eq|done]. }
  destruct (prepare_extends a o) as (_ & Hx & Hb & _); [done..|by rewrite Ho|done|].
  split_and!; [done..|by apply Grown_same|]. intros i wt Hi. cbn. rewrite lookup_insert_ne.
  - by eapply SysInv_Registered.
  - apply (SysInv_Registered _ _ Hinv) in Hi. destruct (wf_preparing _ si_wf _ _ Hi) as [_ ?].
    rewrite Ho. cbn. lia.
Qed.

Lemma facts_prepare a sys req r w' :
  SysInv a sys -> Budget 1 a -> write_request_ok req ->
  WriteObject_prepare cfg req (sys_core sys) = (r, w') ->
  match r with
  | Err s => StepFacts a sys (MkSys w' (sys_writers sys))
  | Ok o => forall i, StepFacts a sys (MkSys w' (<[i := MkWriter req o Writing]> (sys_writers sys)))
  end.
Proof using HS PS RS.
  intros Hinv Hb Hreq Hrun. pose proof Hinv as []. pose proof (Budget_Room 1 a ltac:(lia) Hb) as Hroom.
  assert (Hsame : forall w1, st_fs (c_storage w1) = st_fs (c_storage (sys_core sys)) ->
    cdisk w1 = cdisk (sys_core sys) -> StepFacts a sys (MkSys w1 (sys_writers sys))).
  { intros w1 Hf Hd. split; [by apply fs_step_same; [apply same_dir_fs|]|].
    apply disk_step_same; [done|apply fewer_refl]. }
  destruct (fatal_error_triggered (sys_core sys)) eqn:Hav.
  { unfold WriteObject_prepare in Hrun. rewrite unavailable_refused in Hrun by done. injection Hrun as <- <-.
    by apply Hsame. }
  pose proof (WriteObject_prepare_outcome cfg req _ a Hav si_repr si_wf Hreq) as Hout.
  unfold wp in Hout. rewrite Hrun in Hout. destruct Hout as (bytes & Hlen & _ & Hout).
  apply base64url_is_token in Hlen as Htok. revert Htok Hout. generalize (base64url bytes).
  intros token Htok Hout.
  inversion Hout as [o a' w1 Hs Hr [Hf _] _ Hx E1 E2|e w1 _ ([= Hv Hd] & [Hf _] & _) E1 E2
    |s w1 _ ([= Hv Hd] & [Hf _] & _) E1 E2|s w1 (_ & _ & [Hf _] & _) _ Hx E1 E2]; subst; [|by apply Hsame..|].
  - intros i. split.
    + apply fs_step_same; [by apply same_dir_fs|].
      intros j wt' [[<- <-]|[_ Hj]]%lookup_insert_Some Hst; [done|done].
    + destruct Hx as [[_ Hx]|(Hx & _)]; [by apply disk_step_now|].
      apply spec_prepare_ok in Hs as (_ & Ho & ->); [|done..]. apply (f_equal a_next_object) in Hx.
      rewrite Ho in Hx. cbn in Hx. pose proof (wf_next_object _ si_wf). destruct Hroom as (_ & _ & ?).
      rewrite u64_add_small in Hx; lia.
  - split; [by apply fs_step_same; [apply same_dir_fs|]|].
    destruct Hx as [Hx|(o & a' & Hs & _ & Hx)]; [apply disk_step_same; [done|apply fewer_refl]|].
    eapply disk_step_within; [exact Hx|apply fewer_refl|by eapply prepare_candidate].
Qed.

(** *** A writer's own steps *)

Definition writer_facts (a : AState) (sys : Sys) (i : nat) (x : Writer + Result (Z * string)) (w' : CoreW)
    : Prop :=
  StepFacts a sys (MkSys w' (match x with inl wt' => <[i := wt']> (sys_writers sys)
                                         | inr _ => delete i (sys_writers sys) end)).

(** The writer's next place has its object too. *)
Definition same_writer (wt : Writer) (x : Writer + Result (Z * string)) : Prop :=
  match x with inl wt' => wt_object wt' = wt_object wt | inr _ => True end.

Lemma fewer_place i wt (x : Writer + Result (Z * string)) ws :
  ws !! i = Some wt -> same_writer wt x ->
  fewer ws (match x with inl wt' => <[i := wt']> ws | inr _ => delete i ws end).
Proof. destruct x; [by apply fewer_insert|]. intros _ _. apply fewer_delete. Qed.

(** Nothing happened to the directory, and the writer is not done with its file because of it. *)
Lemma fs_place i wt (x : Writer + Result (Z * string)) sys w' :
  sys_writers sys !! i = Some wt -> st_fs (c_storage w') = sfs sys ->
  (forall wt', x = inl wt' -> wt_stage wt' <> Written) ->
  fs_step sys (MkSys w' (match x with inl wt' => <[i := wt']> (sys_writers sys)
                                     | inr _ => delete i (sys_writers sys) end)).
Proof.
  intros Hi Hf Hx. apply fs_step_same; [by apply same_dir_fs|]. destruct x as [wt'|r].
  - intros j wj [[<- <-]|[_ Hj]]%lookup_insert_Some Hst; [by destruct (Hx wt')|done].
  - intros j wj. apply written_delete.
Qed.

(** The writer's names changed. *)
Lemma fs_names i wt (x : Writer + Result (Z * string)) sys w' :
  sys_writers sys !! i = Some wt -> wt_stage wt <> Written ->
  keeping (object_names (wt_id wt)) (c_storage (sys_core sys)) (c_storage w') ->
  touched (object_names (wt_id wt)) (sdir sys) (dir (c_storage w')) ->
  (forall wt', x = inl wt' -> wt_stage wt' = Written ->
     fs_durable (st_fs (c_storage w')) (FinalName (wt_id wt'))) ->
  fs_step sys (MkSys w' (match x with inl wt' => <[i := wt']> (sys_writers sys)
                                     | inr _ => delete i (sys_writers sys) end)).
Proof.
  intros Hi Hst Hk Ht Hx. exists (object_names (wt_id wt)). split_and!; [right; by exists i, wt|done|done|].
  cbn. destruct x as [wt'|r].
  - intros j wj [[<- <-]|[_ Hj]]%lookup_insert_Some Hw; [right; by apply Hx|by left].
  - intros j wj Hj Hw. left. by eapply written_delete.
Qed.

Lemma facts_writing a sys i req o :
  SysInv a sys -> sys_writers sys !! i = Some (MkWriter req o Writing) ->
  wp (writer_step cfg (MkWriter req o Writing)) (writer_facts a sys i) (sys_core sys).
Proof using FS.
  intros Hinv Hi. pose proof (writer_object _ _ _ _ Hinv Hi) as (_ & _ & Hid & Hn).
  unfold wt_id in Hid. cbn in Hid. cbn [writer_step]. apply wp_bind, wp_storage.
  eapply wp_mono; [|apply wp_both; [apply Write_kept|apply (wp_Write (so_object_id o) (wr_data req) _
    (fun _ s => touched (object_names (so_object_id o)) (sdir sys) (dir s) /\
                st_db s = st_db (c_storage (sys_core sys)))); [lia| |]]].
  2:{ intros f o' Hn1 Hn2 Hf. split; [|done]. unfold dir at 1. cbn. rewrite Hf. apply touched_insert. by right; left. }
  2:{ intros s f o' _ Ht. by split. }
  intros r st ((Hk & Hdur) & Ht & Hdb). set (w1 := MkCoreW _ _ _ _ _).
  assert (Hfacts : forall x w', st_fs (c_storage w') = st_fs st -> cdisk w' = cdisk w1 ->
    same_writer (MkWriter req o Writing) x ->
    (forall wt', x = inl wt' -> wt_stage wt' = Written -> r = Ok tt) -> writer_facts a sys i x w').
  { intros x w' Hf Hd Hs Hw. split.
    - eapply fs_names; [exact Hi|done|unfold keeping; by rewrite Hf|unfold dir; rewrite Hf; exact Ht|].
      intros wt' -> Hst. rewrite Hf. unfold wt_id. rewrite Hs. apply Hdur. by eapply Hw.
    - apply disk_step_same; [|by eapply fewer_place]. rewrite Hd. unfold cdisk, disk. cbn. by rewrite Hdb. }
  destruct r as [[]|s]; [by apply wp_ret, Hfacts|]. destruct (must_exit s).
  - apply wp_FatalStorageError, wp_ret. destruct (trip_quiet cfg s w1) as ([Hf _] & _ & [= _ Hd]).
    by apply Hfacts.
  - apply wp_ret, Hfacts; try done. by intros wt' [= <-].
Qed.

Lemma commit_candidate a sys i wt :
  SysInv a sys -> sys_writers sys !! i = Some wt -> wt_stage wt = Written ->
  candidate a sys (delete i (sys_writers sys)) (a_commit_object a (wt_object wt)).
Proof.
  intros Hinv Hi Hst. pose proof (writer_object _ _ _ _ Hinv Hi) as (Hp & Hc & _). unfold wt_id in *.
  pose proof Hinv as []. split_and!; [by apply WF_commit_object| |exact (Bounded_refl a)|by eapply Grown_commit|].
  - constructor; cbn; try done; try apply channels_same; try lia. by apply insert_subseteq.
  - intros j wj [Hne Hj]%lookup_delete_Some. cbn. rewrite lookup_delete_ne; [by eapply SysInv_Registered|].
    intros E. by rewrite (si_distinct i j wt wj Hi Hj E) in Hne.
Qed.

Lemma facts_written a sys i req o :
  SysInv a sys -> sys_writers sys !! i = Some (MkWriter req o Written) ->
  wp (writer_step cfg (MkWriter req o Written)) (writer_facts a sys i) (sys_core sys).
Proof using PS RS.
  intros Hinv Hi. pose proof Hinv as []. destruct (si_writers _ _ Hi) as (W1 & W2 & W3 & _).
  cbn in W1, W2, W3. cbn [writer_step].
  assert (Hsame : forall x w', st_fs (c_storage w') = sfs sys -> cdisk w' = cdisk (sys_core sys) ->
    same_writer (MkWriter req o Written) x -> (forall wt', x = inl wt' -> wt_stage wt' <> Written) ->
    writer_facts a sys i x w').
  { intros x w' Hf Hd Hs Hx. split; [by eapply fs_place|]. apply disk_step_same; [done|by eapply fewer_place]. }
  apply wp_bind. eapply wp_mono; [|by apply (WriteObject_commit_outcome cfg req o _ a)].
  assert (Hna : forall s w1, st_fs (c_storage w1) = sfs sys -> cdisk w1 = cdisk (sys_core sys) ->
    wp (if must_exit s then let! s0 := FatalStorageError cfg s in ret (inr (Err s0))
        else ret (inl (MkWriter req o (Cleaning s)))) (writer_facts a sys i) w1).
  { intros s w1 Hf Hd. destruct (must_exit s); [apply wp_FatalStorageError|]; apply wp_ret.
    - destruct (trip_quiet cfg s w1) as ([Hf' _] & _ & [= _ Hd']). apply Hsame; [congruence..|done|done].
    - apply Hsame; try done. by intros wt' [= <-]. }
  intros oc w1 Hres. destruct Hres as [w1 _ Hr [Hf _] _ Hx|s w1 _ ([= _ Hd] & [Hf _] & _)
    |s w1 (_ & _ & [Hf _] & _) [= _ Hd]|s w1 (_ & _ & [Hf _] & _) [= _ Hd] _|s w1 (_ & _ & [Hf _] & _) _ _ Hx];
    cbn [WriteObject_finish].
  - apply wp_bind, wp_ret, wp_ret. split; [|by apply disk_step_now].
    by apply (fs_place i (MkWriter req o Written) (inr (Err StatusOk))).
  - by apply Hna.
  - by apply Hna.
  - apply wp_bind, wp_ret, wp_ret. by apply Hsame.
  - apply wp_bind, wp_FatalStorageError, wp_ret, wp_ret.
    destruct (trip_quiet cfg s w1) as ([Hf' _] & _ & [= _ Hd']). unfold quiet in *.
    split; [apply (fs_place i (MkWriter req o Written) (inr (Err s))); [done|unfold sfs; congruence|done]|].
    eapply disk_step_within; [|apply fewer_delete|].
    + unfold disk_within. rewrite Hd'. exact Hx.
    + by apply (commit_candidate a sys i (MkWriter req o Written)).
Qed.

Lemma discard_candidate a sys i wt :
  SysInv a sys -> sys_writers sys !! i = Some wt ->
  candidate a sys (delete i (sys_writers sys)) (a_discard a (wt_id wt)).
Proof.
  intros Hinv Hi. pose proof Hinv as []. split_and!; [by apply WF_discard| |exact (Bounded_refl a)|by apply Grown_same|].
  - constructor; cbn; try done; auto with oe; lia.
  - intros j wj [Hne Hj]%lookup_delete_Some. cbn. rewrite lookup_delete_ne; [by eapply SysInv_Registered|].
    intros E. by rewrite (si_distinct i j wt wj Hi Hj E) in Hne.
Qed.

Lemma facts_cleaning a sys i req o s :
  SysInv a sys -> sys_writers sys !! i = Some (MkWriter req o (Cleaning s)) ->
  wp (writer_step cfg (MkWriter req o (Cleaning s))) (writer_facts a sys i) (sys_core sys).
Proof using FS RS.
  intros Hinv Hi. pose proof (writer_object _ _ _ _ Hinv Hi) as (_ & _ & Hid & Hn).
  pose proof Hinv as []. unfold wt_id in Hid. cbn [wt_object] in Hid.
  cbn [writer_step]. apply wp_bind. unfold CleanupPreparingObject. apply wp_bind, wp_storage.
  unfold CleanupObjectFiles. eapply wp_mono; [|apply wp_both; [apply kept_Cleanup|apply (wp_Cleanup _ _
    (fun _ st => touched (object_names (so_object_id o)) (sdir sys) (dir st) /\
                 st_db st = st_db (c_storage (sys_core sys))))]].
  2:{ intros f Hf. split; [|done]. unfold dir at 1. cbn [st_fs]. rewrite Hf. intros n Hn'.
      by rewrite without_lookup, decide_False. }
  2:{ intros e f Ht _. by split. }
  intros r st (Hk & Ht & Hdb). set (w1 := MkCoreW _ _ _ _ _). cbn in Hk.
  assert (Hfs : forall w', st_fs (c_storage w') = st_fs st ->
    fs_step sys (MkSys w' (delete i (sys_writers sys)))).
  { intros w' Hf. apply (fs_names i (MkWriter req o (Cleaning s)) (inr (Err s))); [done|done| | |done].
    - unfold keeping in *. rewrite Hf. exact Hk.
    - unfold dir. rewrite Hf. exact Ht. }
  assert (Hcd : cdisk w1 = cdisk (sys_core sys) /\ cview w1 = cview (sys_core sys))
    by (unfold cdisk, disk, cview, view; cbn; by rewrite Hdb).
  assert (Hdone : forall e w', st_fs (c_storage w') = st_fs st -> cdisk w' = cdisk w1 ->
    writer_facts a sys i (inr (Err e)) w').
  { intros e w' Hf Hd. split; [by apply Hfs|]. apply disk_step_same; [|apply fewer_delete].
    rewrite Hd. apply Hcd. }
  destruct r as [[]|e].
  2:{ destruct (must_exit e); [|by apply wp_ret, wp_ret, Hdone]. unfold wp at 1. rewrite run_FatalStorageError.
      apply wp_ret. destruct (trip_quiet cfg e w1) as ([Hf _] & _ & [= _ Hd]). by apply Hdone. }
  apply wp_bind, run_CommitBatch.
  - intros w' _ [Hf' _] _ _ Hx. apply wp_ret, wp_ret. split; [by apply Hfs|by apply disk_step_now].
  - intros e w' (_ & _ & [Hf' _] & _) _ _ Hx. apply wp_ret, wp_ret. split; [by apply Hfs|].
    destruct Hcd as [Hcd Hcv]. eapply disk_step_within; [|apply fewer_delete|by eapply discard_candidate].
    intros x [?|[?|<-]]%Hx; rewrite <- ?Hcd, <- ?Hcv; [by auto..|]. right; right. rewrite Hcv.
    apply discard_batch; [done|]. unfold is_u64, wt_id. cbn. lia.
Qed.

Lemma facts_writer a sys i wt :
  SysInv a sys -> Budget 1 a -> sys_writers sys !! i = Some wt ->
  wp (writer_step cfg wt) (writer_facts a sys i) (sys_core sys).
Proof using FS HS PS RS.
  destruct wt as [req o []]; intros; [by apply facts_writing|by apply facts_written|by apply facts_cleaning].
Qed.

Lemma step_facts a sys sys' :
  SysInv a sys -> Budget 1 a -> step cfg sys sys' -> StepFacts a sys sys'.
Proof using FS HS PS RS.
  intros Hinv Hb Hstep. pose proof (facts_writer a) as Hw.
  induction Hstep as [r sys Hreq|i req o w' sys Hreq Hi Hrun|req s w' sys Hreq Hrun
    |i wt wt' w' sys Hi Hrun|i wt r w' sys Hi Hrun|sys sys' Hf _ IH].
  - by apply facts_serve.
  - exact (facts_prepare a sys req (Ok o) w' Hinv Hb Hreq Hrun i).
  - apply facts_closed. exact (facts_prepare a sys req (Err s) w' Hinv Hb Hreq Hrun).
  - exact (wp_run _ _ _ _ _ (Hw sys i wt Hinv Hb Hi) Hrun).
  - apply facts_closed. exact (wp_run _ _ _ _ _ (Hw sys i wt Hinv Hb Hi) Hrun).
  - destruct sys as [w ws], sys' as [w' ws']. by apply IH, SysInv_latch.
Qed.

(** ** Every step keeps the invariant *)

(** The directory changes under the name of an object every state has as unfinished. *)
Lemma Stored_step c sys sys' :
  Stored c (sfs sys) -> Registered c (sys_writers sys) -> fs_step sys sys' -> Stored c (sfs sys').
Proof.
  intros Hc Hr (names & Hn & Hk & Ht & _). eapply Stored_changes; [exact Hc|exact Ht|exact Hk|].
  intros n Hin. destruct Hn as [->|(i & wt & Hi & _ & ->)]; [by apply elem_of_nil in Hin|].
  exists (wt_id wt). split; [|done]. rewrite (Hr i wt Hi). by eexists.
Qed.

(** A complete file stays complete and on disk. *)
Lemma written_step m b a sys sys' i wt :
  CrashInv m b a sys -> fs_step sys sys' -> sys_writers sys !! i = Some wt -> wt_stage wt = Written ->
  sdir sys' !! FinalName (wt_id wt) = Some (NFile (wr_data (wt_req wt))) /\
  fs_durable (sfs sys') (FinalName (wt_id wt)).
Proof.
  intros [Hs _ _ Hw] (names & Hn & Hk & Ht & _) Hi Hst. pose proof Hs as [].
  assert (Hout : FinalName (wt_id wt) ∉ names).
  { destruct Hn as [->|(j & wj & Hj & Hst' & ->)]; [apply not_elem_of_nil|].
    pose proof (writer_object _ _ _ _ Hs Hi) as (_ & _ & ? & ?).
    pose proof (writer_object _ _ _ _ Hs Hj) as (_ & _ & ? & ?).
    apply (names_apart _ (wt_id wt)); [lia|lia| |by right; left]. intros E.
    assert (j = i) as -> by (by eapply si_distinct). congruence. }
  destruct (si_writers i wt Hi) as (_ & _ & _ & _ & Hf). rewrite Hst in Hf.
  split; [by rewrite Ht|]. apply Hk; [done|]. by eapply Hw.
Qed.

(** The state a step leads to, or was to lead to. *)
Lemma Stored_grown m b a sys sys' c :
  CrashInv m b a sys -> fs_step sys sys' -> WF c -> Extends a c -> Grown a c sys -> Stored c (sfs sys').
Proof.
  intros Hcr Hf Hwf Hx Hg. pose proof Hcr as [Hs (Hnow & _) _ _]. pose proof Hs as [].
  assert (Ha : Stored a (sfs sys')) by (by eapply Stored_step; [|apply SysInv_Registered|]).
  destruct Ha as [_ Hfiles Hdur Hfresh]. constructor; [done| | |].
  - intros id o [Ho|(i & wt & Hi & Hst & <- & <-)]%Hg; [by apply Hfiles|].
    destruct (written_step m b a sys sys' i wt) as [Hd _]; [done..|]. exists (wr_data (wt_req wt)).
    split; [done|]. destruct (si_writers i wt Hi) as (_ & _ & _ & Hsz & _). by rewrite Hsz.
  - intros id [o [Ho|(i & wt & Hi & Hst & <- & _)]%Hg]; [apply Hdur; by eexists|]. by eapply written_step.
  - intros id n Hid. apply Hfresh. pose proof (ex_next_object _ _ Hx). lia.
Qed.

Lemma Budget_0 m a : 0 <= m -> Budget (m + 1) a -> Budget 1 a.
Proof. intros Hm. apply Budget_mono. lia. Qed.

Lemma step_crash m b a sys sys' :
  0 <= m -> CrashInv (m + 1) b a sys -> step cfg sys sys' ->
  exists a', CrashInv m b a' sys' /\ Extends a a' /\ Keeps a (sdir sys) (sdir sys').
Proof using FS HS PS RS.
  intros Hm Hcr Hstep. pose proof Hcr as [Hs (Hst & Hba & Hb) Hdisk Hw].
  apply (Budget_0 m) in Hb as Hb1; [|done].
  destruct (step_preserved cfg a sys sys' Hs Hb1 Hstep) as (a' & Hs' & Hx & Hbd & Hkeep & Hg).
  destruct (step_facts a sys sys' Hs Hb1 Hstep) as [Hf Hd].
  exists a'. split_and!; [|done|done]. constructor; [done| | |].
  - split_and!; [by eapply Stored_grown; [..|apply Hs'| |]|by etransitivity|by eapply Budget_step].
  - intros x Hdx. destruct (Hd x Hdx) as [->|[[Hfew Hold]|(c & Hr & Hwf & Hxc & Hbc & Hgc & Hreg)]].
    + exists a'. split_and!; [apply Hs'|by eapply Stored_grown; [..|apply Hs'| |]|by apply SysInv_Registered
        |by etransitivity|by eapply Budget_step].
    + assert (survivor (m + 1) b sys x) as (c & Hr & Hsc & Hreg & Hbc & Hbud).
      { destruct Hold as [?| ->]; [by apply Hdisk|by eapply cr_survivor]. }
      exists c. split_and!; [done|by eapply Stored_step|by eapply Registered_fewer|done|].
      eapply Budget_mono; [|exact Hbud]. lia.
    + exists c. split_and!; [done|by eapply Stored_grown|done|by etransitivity|by eapply Budget_step].
  - intros i wt' Hi Hst'. destruct Hf as (names & Hn & Hk & Ht & Hdur).
    destruct (Hdur i wt' Hi Hst') as [Hi'|?]; [|done].
    apply (written_step (m + 1) b a sys sys' i wt'); [done| |done|done]. by exists names.
Qed.

(** ** In the middle of a step *)

(** The names no step can be writing to: all but those of unfinished files. *)
Definition idle_name (sys : Sys) (n : string) : Prop :=
  forall i wt, sys_writers sys !! i = Some wt -> wt_stage wt <> Written -> n ∉ object_names (wt_id wt).

(** A state whose files are on disk whatever the writers in flight do to their own. *)
Definition Settled (c : AState) (sys : Sys) : Prop :=
  Stored c (sfs sys) /\
  (forall id, is_Some (a_committed c !! id) -> idle_name sys (FinalName id)) /\
  (forall id n, a_next_object c <= id < two64 -> n ∈ object_names id -> idle_name sys n).

Lemma Settled_registered c sys :
  Stored c (sfs sys) -> Registered c (sys_writers sys) -> Settled c sys.
Proof.
  intros Hs Hr. pose proof Hs as [Hwf _ _ _]. pose proof (wf_next_object _ Hwf). split; [done|].
  split; intros id; [intros [o Ho] i wt Hi _|intros n Hid Hn i wt Hi _];
    pose proof (Hr i wt Hi) as Hp; destruct (wf_preparing _ Hwf _ _ Hp) as [_ Hid'].
  - destruct (wf_committed _ Hwf _ _ Ho) as [_ ?].
    apply (names_apart _ id); [lia|lia| |by right; left]. intros E. rewrite <- E in Ho.
    pose proof (wf_disjoint _ Hwf) as Hdj. rewrite map_disjoint_spec in Hdj. by eapply Hdj.
  - by apply (names_apart _ id); [lia..|].
Qed.

Lemma Settled_grown m b a sys c :
  CrashInv m b a sys -> WF c -> Extends a c -> Grown a c sys -> Settled c sys.
Proof.
  intros Hcr Hwf Hx Hg. pose proof Hcr as [Hs (Hst & _) _ _]. pose proof Hs as [].
  destruct (Settled_registered a sys Hst (SysInv_Registered a sys Hs)) as (_ & Hc & Hf). split_and!.
  - eapply Stored_grown; [exact Hcr| |done..]. exists []. split_and!; [by left|apply fs_keeps_refl|by apply touched_same|].
    intros i wt Hi _. by left.
  - intros id [o [Ho|(i & wt & Hi & Hst' & <- & _)]%Hg]; [apply Hc; by eexists|]. intros j wj Hj Hne.
    pose proof (writer_object _ _ _ _ Hs Hi) as (_ & _ & ? & ?).
    pose proof (writer_object _ _ _ _ Hs Hj) as (_ & _ & ? & ?).
    apply (names_apart _ (wt_id wt)); [lia|lia| |by right; left]. intros E.
    assert (j = i) as -> by (by eapply si_distinct). congruence.
  - intros id n Hid. apply Hf. pose proof (ex_next_object _ _ Hx). lia.
Qed.

(** What is left when the power fails during a step. *)
Lemma survivor_during m b a sys sys' x :
  0 <= m -> CrashInv (m + 1) b a sys -> step cfg sys sys' ->
  cdisk (sys_core sys) x \/ x = cview (sys_core sys) \/ cdisk (sys_core sys') x \/ x = cview (sys_core sys') ->
  exists c, repr x c /\ Settled c sys /\ Extends b c /\ Budget m c.
Proof using FS HS PS RS.
  intros Hm Hcr Hstep Hx. pose proof Hcr as [Hs (Hst & Hba & Hb) Hdisk _].
  assert (Hold : cdisk (sys_core sys) x \/ x = cview (sys_core sys) ->
    exists c, repr x c /\ Settled c sys /\ Extends b c /\ Budget m c).
  { intros Hx'. assert (survivor (m + 1) b sys x) as (c & Hr & Hsc & Hreg & Hbc & Hbud).
    { destruct Hx' as [?| ->]; [by apply Hdisk|by eapply cr_survivor]. }
    exists c. split_and!; [done|by apply Settled_registered|done|]. eapply Budget_mono; [|exact Hbud]. lia. }
  apply (Budget_0 m) in Hb as Hb1; [|done].
  assert (Hnew : x = cview (sys_core sys') -> exists c, repr x c /\ Settled c sys /\ Extends b c /\ Budget m c).
  { intros ->. destruct (step_preserved cfg a sys sys' Hs Hb1 Hstep) as (a' & Hs' & Hxa & Hbd & _ & Hg).
    exists a'. split_and!; [apply Hs'|by eapply Settled_grown; [..|apply Hs'| |]|by etransitivity|by eapply Budget_step]. }
  destruct Hx as [Hx|[Hx|[Hx|Hx]]]; [by apply Hold; left|by apply Hold; right| |by apply Hnew].
  destruct (step_facts a sys sys' Hs Hb1 Hstep) as [_ Hd].
  destruct (Hd x Hx) as [?|[[_ ?]|(c & Hr & Hwf & Hxc & Hbc & Hgc & _)]]; [by apply Hnew|by apply Hold|].
  exists c. split_and!; [done|by eapply Settled_grown|by etransitivity|by eapply Budget_step].
Qed.

(** A step that neither writes to the database nor touches the directory. *)
Lemma CrashInv_calm m b a sys w' :
  CrashInv m b a sys -> c_contents w' = c_contents (sys_core sys) -> st_fs (c_storage w') = sfs sys ->
  SysInv a (MkSys w' (sys_writers sys)) -> CrashInv m b a (MkSys w' (sys_writers sys)).
Proof.
  intros [Hs Hn Hd Hw] [= _ Hx] Hf Hs'. constructor; [done|..]; unfold survivor, sfs in *; cbn; rewrite ?Hf; try done.
  by rewrite Hx.
Qed.

(** ** Where runs start *)

(** A server that was just started: all of its state is on disk. *)
Lemma CrashInv_start m a w :
  SysInv a (MkSys w ∅) -> Stored a (st_fs (c_storage w)) -> Budget m a -> on_disk_now w ->
  CrashInv m a a (MkSys w ∅).
Proof.
  intros Hs Hst Hb Hx. constructor; [done|by split_and!| |done].
  intros x ->%Hx. exists a. split_and!; [apply Hs|done|by apply SysInv_Registered|done..].
Qed.

End Crash.
