(* ===== verification/Subscription.v ===== *)
(** * Subscriptions (src/service/open_event_core.cpp, src/service/grpc_services.cpp)

    A thread of the core keeps one snapshot for all streams: every 100 ms it
    compares the commit counter with the generation of its snapshot and takes a new
    one if they differ.  A stream waits until the snapshot is as new as the commits
    it started after, fetches the next page from it, sends the page, and waits for
    the next snapshot.  Every place where a thread waits or gives up a lock is a
    state of its machine here; what gRPC answers (is the call cancelled, was the
    message written) is an input of the step that asks. *)

From stdpp Require Import relations.
From S2P Require Import Prelude Status Encoding Tokens Proto Json Platform Keys World FileStore.
From S2P Require Import Storage Core Commands Services Concurrency.

(** ** The refresher thread *)

(** Where the thread is: in [wait_until]; about to take a snapshot for a generation, the lock
    released; about to lock again with the outcome; about to report a fatal status; gone. *)
Inductive Refresher {R : RocksDB} :=
  | RWaiting
  | RSnapping (generation : Z)
  | RSnapped (generation : Z) (snapshot : Result snap_t)
  | RFailing (status : Status)
  | RStopped.

Section Subscription.
Context {R : RocksDB} {P : Protobuf} {F : PosixDir} {H : Host}.

Definition set_sub (w : CoreW) (s : SubState) : CoreW :=
  MkCoreW (c_storage w) (commit_generation w) (fatal_error_triggered w) (fatal_calls w) s.

(** The constructor's choice of the soft limit. *)
Definition MakeCoreConfig (max_payload_bytes max_scan_records response_soft_limit_bytes : Z)
    (has_fatal_error_handler : bool) : CoreConfig :=
  MkCoreConfig max_payload_bytes max_scan_records
    (if response_soft_limit_bytes =? 0 then kMessagePageSoftBytes else response_soft_limit_bytes)
    has_fatal_error_handler.

Context (cfg : CoreConfig).

(** The members as they are declared. *)
Definition unstarted (st : StorageW) : CoreW :=
  MkCoreW st 0 false [] (MkSubState None 0 0 0 StatusOk false).

(** The constructor's body: the first snapshot, and the thread unless that failed fatally. *)
Definition start_subscriptions : M CoreW Refresher :=
  let! snapshot := storage CreateSnapshot in
  do! match snapshot with
      | Ok s => modify (fun w => set_sub w (MkSubState (Some s) 1 0 0 StatusOk false))
      | Err status =>
          do! modify (fun w => set_sub w (MkSubState None 0 0 0 status false)) in
          if requires_server_exit status
          then do! FatalStorageError cfg status in ret tt else ret tt
      end in
  let! w := get in
  ret (if fatal_error_triggered w then RStopped else RWaiting).

Definition construct (st : StorageW) : Refresher * CoreW := start_subscriptions (unstarted st).

(** The destructor: the thread is told to stop; once it is gone the snapshot is dropped. *)
Definition stop_thread (w : CoreW) : CoreW :=
  let s := c_sub w in
  set_sub w (MkSubState (subscription_snapshot s) (subscription_snapshot_version s)
    (subscription_snapshot_generation s) (subscription_snapshot_attempt_generation s)
    (subscription_snapshot_status s) true).

Definition drop_snapshot (w : CoreW) : CoreW :=
  let s := c_sub w in
  set_sub w (MkSubState None (subscription_snapshot_version s) (subscription_snapshot_generation s)
    (subscription_snapshot_attempt_generation s) (subscription_snapshot_status s)
    (stop_subscription_snapshot_thread s)).

(** What the thread does when it holds the lock again after taking a snapshot. *)
Definition install (generation : Z) (snapshot : Result snap_t) (s : SubState) : SubState :=
  match snapshot with
  | Ok snap =>
      MkSubState (Some snap) (u64_add (subscription_snapshot_version s) 1) generation generation
        StatusOk (stop_subscription_snapshot_thread s)
  | Err status =>
      MkSubState (subscription_snapshot s) (subscription_snapshot_version s)
        (subscription_snapshot_generation s) generation status
        (stop_subscription_snapshot_thread s)
  end.

(** [RefreshSubscriptionSnapshots] from one waiting point to the next. *)
Definition refresh (r : Refresher) : M CoreW Refresher :=
  match r with
  | RWaiting =>
      let! w := get in
      let s := c_sub w in
      if stop_subscription_snapshot_thread s || fatal_error_triggered w then ret RStopped
      else
        let generation := commit_generation w in
        if bool_decide (is_Some (subscription_snapshot s)) &&
           (generation =? subscription_snapshot_generation s)
        then ret RWaiting
        else ret (RSnapping generation)
  | RSnapping generation =>
      let! snapshot := storage CreateSnapshot in ret (RSnapped generation snapshot)
  | RSnapped generation snapshot =>
      let! w := get in
      if fatal_error_triggered w then ret RStopped
      else
        do! modify (fun w => set_sub w (install generation snapshot (c_sub w))) in
        match snapshot with
        | Err status => if requires_server_exit status then ret (RFailing status) else ret RWaiting
        | Ok _ => ret RWaiting
        end
  | RFailing status => do! FatalStorageError cfg status in ret RStopped
  | RStopped => ret RStopped
  end.

(** ** Waiting for the snapshot *)

(** [AcquireSubscriptionSnapshot] up to its wait. *)
Definition acquire_begin : RM CoreW Z :=
  do? EnsureAvailable in
  let! w := get in ok (commit_generation w).

(** The predicate of the wait. *)
Definition acquire_ready (required_generation : Z) (w : CoreW) : bool :=
  let s := c_sub w in
  stop_subscription_snapshot_thread s || fatal_error_triggered w ||
  (required_generation <=? subscription_snapshot_generation s) ||
  (negb (status_ok (subscription_snapshot_status s)) &&
   (required_generation <=? subscription_snapshot_attempt_generation s)).

(** What follows the wait: the snapshot and its version. When a fatal error or the
    destructor ended the wait this is the last snapshot there was, however old. *)
Definition acquire_end (required_generation : Z) : RM CoreW (snap_t * Z) :=
  let! w := get in
  let s := c_sub w in
  if negb (status_ok (subscription_snapshot_status s)) &&
     (required_generation <=? subscription_snapshot_attempt_generation s)
  then ret (Err (subscription_snapshot_status s))
  else
    match subscription_snapshot s with
    | None =>
        if fatal_error_triggered w
        then fail UNAVAILABLE "subscription snapshot is unavailable after fatal storage error"
        else fail UNAVAILABLE "subscription snapshot is unavailable"
    | Some snap => ok (snap, subscription_snapshot_version s)
    end.

Definition SubscriptionSnapshotVersion (w : CoreW) : Z := subscription_snapshot_version (c_sub w).

(** The value [WaitForSubscriptionSnapshot] returns, woken or timed out. *)
Definition WaitForSubscriptionSnapshot (observed_version : Z) (w : CoreW) : bool :=
  let s := c_sub w in
  fatal_error_triggered w ||
  negb (subscription_snapshot_version s =? observed_version) ||
  (negb (status_ok (subscription_snapshot_status s)) &&
   (subscription_snapshot_generation s <? subscription_snapshot_attempt_generation s)).

(** ** Streams *)

Record SubscribeRequest := MkSubscribeRequest {
  sq_principal : Z;
  sq_token : string;
  sq_from_seq : Z;
  sq_only_my_recipient : bool;
  sq_channels : list Z
}.

(** What [GetSubscriptionMaxSeq] does with the snapshot it acquired. *)
Definition subscription_max_seq (req : SubscribeRequest) (snapshot : snap_t) : RM CoreW Z :=
  do? Authenticate snapshot (sq_principal req) (sq_token req) in
  do? ValidateReadableChannels snapshot (sq_principal req) (sq_channels req) in
  storage (GetMaxSeq snapshot).

(** What [FetchSubscriptionBatch] does with it. *)
Definition subscription_batch (req : SubscribeRequest) (from_seq limit : Z) (snapshot : snap_t)
    : RM CoreW FetchResponse :=
  do? Authenticate snapshot (sq_principal req) (sq_token req) in
  do? ValidateReadableChannels snapshot (sq_principal req) (sq_channels req) in
  storage (FetchVisible cfg snapshot (sq_principal req) from_seq limit (sq_only_my_recipient req)
             (sq_channels req)).

(** Where [RunSubscription] is. *)
Inductive Phase :=
  | PStart                                  (** about to ask for the largest sequence number *)
  | PStartWait (required : Z)               (** waiting for the snapshot to read it from *)
  | PLoop                                   (** at the head of the loop *)
  | PFetchWait (required : Z)               (** waiting for the snapshot of the next batch *)
  | PSend (rest : list EventMessage) (batch : FetchResponse) (version : Z)
  | PIdle (version : Z)                     (** waiting for a snapshot newer than this one *)
  | PDone (status : StatusCode * string).

(** [sm_accepted]: the initial metadata was sent; [sm_sent]: the messages the client was sent. *)
Record Stream := MkStream {
  sm_req : SubscribeRequest;
  sm_phase : Phase;
  sm_next_seq : Z;
  sm_accepted : bool;
  sm_sent : list EventMessage
}.

Definition open_stream (req : SubscribeRequest) : Stream := MkStream req PStart 0 false [].

Definition at_phase (sm : Stream) (ph : Phase) : Stream :=
  MkStream (sm_req sm) ph (sm_next_seq sm) (sm_accepted sm) (sm_sent sm).

(** [return ToGrpcStatus(core_, status)]. *)
Definition end_stream (sm : Stream) (status : Status) : M CoreW Stream :=
  let! g := ToGrpcStatus cfg status in ret (at_phase sm (PDone g)).

Definition grpc_ok : StatusCode * string := (OK, "").

(** [AcquireSubscriptionSnapshot] when its wait is over; [None] while it lasts. *)
Definition acquire (required : Z) : M CoreW (option (Result (snap_t * Z))) :=
  let! w := get in
  if acquire_ready required w then let! r := acquire_end required in ret (Some r)
  else ret None.

Definition accept (sm : Stream) (max_seq : Z) : M CoreW Stream :=
  let next_seq := sq_from_seq (sm_req sm) in
  if (max_seq <? next_seq) && (1 <? next_seq - max_seq)
  then ret (at_phase sm (PDone (OUT_OF_RANGE, "from_seq exceeds max_seq + 1")))
  else ret (MkStream (sm_req sm) PLoop next_seq true (sm_sent sm)).

(** One step of [RunSubscription]; [cancelled] is what [IsCancelled] answers, [written] what
    [Write] returns. *)
Definition stream_step (cancelled written : bool) (sm : Stream) : M CoreW Stream :=
  let req := sm_req sm in
  match sm_phase sm with
  | PStart =>
      let! required := (do? EnsureAvailable in acquire_begin) in
      match required with
      | Err status => end_stream sm status
      | Ok required => ret (at_phase sm (PStartWait required))
      end
  | PStartWait required =>
      let! got := acquire required in
      match got with
      | None => ret sm
      | Some (Err status) => end_stream sm status
      | Some (Ok (snapshot, _)) =>
          let! max_seq := subscription_max_seq req snapshot in
          match max_seq with
          | Err status => end_stream sm status
          | Ok max_seq => accept sm max_seq
          end
      end
  | PLoop =>
      if cancelled then ret (at_phase sm (PDone grpc_ok))
      else
        let! required := acquire_begin in
        match required with
        | Err status => end_stream sm status
        | Ok required => ret (at_phase sm (PFetchWait required))
        end
  | PFetchWait required =>
      let! got := acquire required in
      match got with
      | None => ret sm
      | Some (Err status) => end_stream sm status
      | Some (Ok (snapshot, version)) =>
          let! batch := subscription_batch req (sm_next_seq sm) 100 snapshot in
          match batch with
          | Err status => end_stream sm status
          | Ok batch => ret (at_phase sm (PSend (fs_messages batch) batch version))
          end
      end
  | PSend (m :: rest) batch version =>
      if written
      then ret (MkStream req (PSend rest batch version) (sm_next_seq sm) (sm_accepted sm)
                  (sm_sent sm ++ [m]))
      else ret (at_phase sm (PDone grpc_ok))
  | PSend [] batch version =>
      ret (MkStream req (if fs_last_seq batch <? fs_next_seq batch then PIdle version else PLoop)
             (fs_next_seq batch) (sm_accepted sm) (sm_sent sm))
  | PIdle version =>
      let! w := get in
      if cancelled || WaitForSubscriptionSnapshot version w then ret (at_phase sm PLoop)
      else ret sm
  | PDone _ => ret sm
  end.

(** ** The registry of streams *)

(** [subscriptions_] and [subscriptions_stopping_]; a call is known by its context. *)
Record EventService := MkEventService {
  subscriptions : gset Z;
  subscriptions_stopping : bool
}.

Definition RegisterSubscription (context : Z) (e : EventService) : bool * EventService :=
  if subscriptions_stopping e then (false, e)
  else (true, MkEventService ({[context]} ∪ subscriptions e) (subscriptions_stopping e)).

Definition UnregisterSubscription (context : Z) (e : EventService) : EventService :=
  MkEventService (subscriptions e ∖ {[context]}) (subscriptions_stopping e).

(** With the contexts on which [TryCancel] is called. *)
Definition StopSubscriptions (e : EventService) : list Z * EventService :=
  (elements (subscriptions e), MkEventService (subscriptions e) true).

(** ** The server with its streams *)

Record SubSys := MkSubSys {
  ss_sys : Sys;
  ss_refresher : Refresher;
  ss_service : EventService;
  ss_streams : gmap Z Stream
}.

Definition ss_core (x : SubSys) : CoreW := sys_core (ss_sys x).

Definition with_core (x : SubSys) (w : CoreW) : Sys := MkSys w (sys_writers (ss_sys x)).

Definition subscribe_request_ok (req : SubscribeRequest) : Prop :=
  is_u64 (sq_principal req) /\ is_u64 (sq_from_seq req) /\ Forall is_u64 (sq_channels req).

Inductive sub_step : SubSys -> SubSys -> Prop :=
  (** Any request or object writer. *)
  | X_server x sys' :
      step cfg (ss_sys x) sys' ->
      sub_step x (MkSubSys sys' (ss_refresher x) (ss_service x) (ss_streams x))
  | X_refresh x r' w' :
      refresh (ss_refresher x) (ss_core x) = (r', w') ->
      sub_step x (MkSubSys (with_core x w') r' (ss_service x) (ss_streams x))
  (** [Subscribe]: a call that is registered runs; the other returns at once. *)
  | X_subscribe x context req e' :
      subscribe_request_ok req -> ss_streams x !! context = None ->
      RegisterSubscription context (ss_service x) = (true, e') ->
      sub_step x (MkSubSys (ss_sys x) (ss_refresher x) e'
                    (<[context := open_stream req]> (ss_streams x)))
  | X_stream x context sm cancelled written sm' w' :
      ss_streams x !! context = Some sm ->
      stream_step cancelled written sm (ss_core x) = (sm', w') ->
      sub_step x (MkSubSys (with_core x w') (ss_refresher x) (ss_service x)
                    (<[context := sm']> (ss_streams x)))
  | X_unsubscribe x context sm status :
      ss_streams x !! context = Some sm -> sm_phase sm = PDone status ->
      sub_step x (MkSubSys (ss_sys x) (ss_refresher x)
                    (UnregisterSubscription context (ss_service x)) (delete context (ss_streams x)))
  | X_stop_subscriptions x :
      sub_step x (MkSubSys (ss_sys x) (ss_refresher x) (StopSubscriptions (ss_service x)).2
                    (ss_streams x))
  (** The destructor runs when no stream holds the core any more. *)
  | X_destroy x :
      ss_streams x = ∅ ->
      sub_step x (MkSubSys (with_core x (stop_thread (ss_core x))) (ss_refresher x) (ss_service x)
                    (ss_streams x)).

End Subscription.
