(* ===== verification/SubInvariant.v ===== *)
(** * The invariant of the subscription machinery

    The snapshot the streams read shows a state the database was in, and the
    current one if its generation is the current one.  What a stream has sent is
    the visible part of the log from its first sequence number to its next, batch
    by batch.  Every step of the server, of the refresher and of the streams
    preserves this. *)

From stdpp Require Import relations.
From S2P Require Import Prelude Status Encoding Tokens Proto Json Platform Keys World FileStore.
From S2P Require Import Files Storage Core Commands Model Reads Scan Spec SystemMessages Refine.
From S2P Require Import Handlers ChannelHandlers Invariant Queries Pages Startup Objects Services.
From S2P Require Import Effects Requests Concurrency Tracks Subscription.

Section SubInvariant.
Context {R : RocksDB} {P : Protobuf} {F : PosixDir} {H : Host}.
Context {RS : RocksDBSpec} {PS : ProtobufSpec} {HS : HostSpec} {FS : PosixDirSpec}.
Context (cfg : CoreConfig).

(** ** Steps that store nothing *)

Definition calm (w w' : CoreW) : Prop :=
  c_contents w' = c_contents w /\ quiet w w' /\ commit_generation w' = commit_generation w /\
  (fatal_error_triggered w = true -> fatal_error_triggered w' = true).

#[export] Instance calm_refl : Reflexive calm.
Proof. intros w. by repeat split. Qed.

#[export] Instance calm_trans : Transitive calm.
Proof.
  intros x y z (? & [? ?] & ? & ?) (? & [? ?] & ? & ?). repeat split; [congruence..|auto].
Qed.

Lemma calm_unchanged w w' : unchanged w w' -> calm w w'.
Proof. intros (Hv & Hq & Hg & [= Hf _]). split_and!; try done. congruence. Qed.

Lemma calm_trip s w : calm w (trip cfg s w).
Proof.
  destruct (trip_quiet cfg s w) as (Hq & Hg & Hv). split_and!; try done.
  unfold trip. intros Hf. by rewrite Hf.
Qed.

Lemma calm_fault s w w' : fault cfg w s w' -> c_contents w' = c_contents w -> calm w w'.
Proof.
  intros (_ & _ & Hq & Hg & Hl) Hv. split_and!; try done. intros Hf.
  destruct Hl as [Hl|Hl]; unfold latch, trip in Hl; rewrite ?Hf in Hl; congruence.
Qed.

(** A read ends with its answer, or with an error. *)
Lemma calm_reads {A} (m : RM CoreW A) r w (Q : Result A -> CoreW -> Prop) :
  CReads cfg m r -> (forall w', calm w w' -> Q r w') ->
  (forall s w', calm w w' -> Q (Err s) w') -> wp m Q w.
Proof.
  intros Hm Hok Herr. eapply wp_mono; [|apply Hm]. intros x w' [(-> & Hu & _)|(s & -> & Hf & Hv)].
  - apply Hok. by apply calm_unchanged.
  - apply Herr. by eapply calm_fault.
Qed.

Lemma calm_open w w' :
  calm w w' -> fatal_error_triggered w' = false -> fatal_error_triggered w = false.
Proof. intros (_ & _ & _ & Hf) Hf'. destruct (fatal_error_triggered w); [|done]. by rewrite Hf in Hf'. Qed.

Lemma SysInv_calm a sys w' :
  SysInv a sys -> calm (sys_core sys) w' -> SysInv a (MkSys w' (sys_writers sys)).
Proof.
  intros Hinv (Hv & [Hf _] & _). pose proof Hinv as []. eapply SysInv_same_objects; [done| |done|done|].
  - by injection Hv as -> _.
  - unfold sdir, dir. by rewrite Hf.
Qed.

(** ** What a stream has sent *)

(** The request may be served on a state. *)
Definition spec_subscriber (b : AState) (req : SubscribeRequest) : Result unit :=
  rdo spec_authenticate b (sq_principal req) (sq_token req) in
  spec_readable_channels b (sq_principal req) (sq_channels req).

Definition visible_to (b : AState) (req : SubscribeRequest) : EventMessage -> bool :=
  visible b (sq_principal req) (sq_only_my_recipient req) (list_to_set (sq_channels req)).

(** [delivered a req next l]: [l] is the log from the first sequence number of the request up
    to [next], in batches, each filtered by what was visible on the state it was read from. *)
Inductive delivered (a : AState) (req : SubscribeRequest) : Z -> list EventMessage -> Prop :=
  | Delivered_start : delivered a req (sq_from_seq req) []
  | Delivered_batch next l b next' :
      delivered a req next l -> WF b -> Extends b a -> spec_subscriber b req = Ok tt ->
      next <= next' <= a_max_seq b + 1 ->
      delivered a req next' (l ++ List.filter (visible_to b req) (log_range b next next')).

Lemma delivered_extends a a' req next l :
  Extends a a' -> delivered a req next l -> delivered a' req next l.
Proof. intros Hx. induction 1; econstructor; try done. by etransitivity. Qed.

Lemma Extends_max_seq a a' : Extends a a' -> a_max_seq a <= a_max_seq a'.
Proof. intros [Hl _ _ _ _ _ _]. apply prefix_length in Hl. unfold a_max_seq. lia. Qed.

(** [b] is the state the current snapshot shows. *)
Definition stream_ok (a b : AState) (sm : Stream) : Prop :=
  let req := sm_req sm in
  subscribe_request_ok req /\
  match sm_phase sm with
  | PStart | PStartWait _ => sm_sent sm = [] /\ sm_accepted sm = false
  | PLoop | PFetchWait _ | PIdle _ =>
      delivered a req (sm_next_seq sm) (sm_sent sm) /\ 0 <= sm_next_seq sm <= a_max_seq b + 1
  | PSend rest batch _ =>
      delivered a req (fs_next_seq batch) (sm_sent sm ++ rest) /\
      0 <= fs_next_seq batch <= a_max_seq b + 1
  | PDone _ => exists next rest, delivered a req next (sm_sent sm ++ rest)
  end.

Lemma stream_ok_extends a a' b b' sm :
  Extends a a' -> Extends b b' -> stream_ok a b sm -> stream_ok a' b' sm.
Proof.
  intros Ha Hb%Extends_max_seq [Hreq Hsm]. split; [done|].
  destruct (sm_phase sm); try done; try (destruct Hsm as [Hd ?]; split; [by eapply delivered_extends|lia]).
  destruct Hsm as (next & rest & Hd). exists next, rest. by eapply delivered_extends.
Qed.

(** A stream that stops where it is. *)
Lemma stream_ok_done a b sm g : stream_ok a b sm -> stream_ok a b (at_phase sm (PDone g)).
Proof.
  intros [Hreq Hsm]. split; [done|]. cbn.
  destruct (sm_phase sm) as [| | | |rest batch ver| |]; cbn in Hsm.
  1,2: destruct Hsm as [-> _]; exists (sq_from_seq (sm_req sm)), []; constructor.
  1,2,4: destruct Hsm as [Hd _]; eexists _, []; rewrite app_nil_r; exact Hd.
  - destruct Hsm as [Hd _]. by eexists _, rest.
  - done.
Qed.

Lemma wp_end_stream a b sm s w0 w :
  calm w0 w -> stream_ok a b sm ->
  wp (end_stream cfg sm s) (fun sm' w' => calm w0 w' /\ stream_ok a b sm') w.
Proof.
  intros Hc Hsm. unfold end_stream, ToGrpcStatus. apply wp_bind, wp_bind. unfold wp at 1.
  rewrite run_HandleRpcStatus. apply wp_ret, wp_ret. split; [|by apply stream_ok_done].
  etransitivity; [exact Hc|]. destruct (must_exit s); [apply calm_trip|done].
Qed.

Section Snapshot.
Context (s : snap_t) (b : AState) (Hr : repr (snap_view s) b) (Hwf : WF b).
Context (Hmax : a_max_seq b < two64 - 1).
Context (req : SubscribeRequest) (Hreq : subscribe_request_ok req).

Lemma CReads_subscriber {A} (m : RM CoreW A) r :
  (spec_subscriber b req = Ok tt -> CReads cfg m r) ->
  CReads cfg (do? Authenticate s (sq_principal req) (sq_token req) in
              do? ValidateReadableChannels s (sq_principal req) (sq_channels req) in m)
    (rbind (spec_subscriber b req) (fun _ => r)).
Proof using RS Hr Hwf Hreq.
  destruct Hreq as (Hp & _ & Hc). intros Hm. unfold spec_subscriber in *. rewrite rbind_assoc.
  apply CReads_bind; [by apply (CReads_Authenticate cfg s b)|]. intros [] E. rewrite E in Hm.
  apply CReads_bind; [|intros [] E'; by apply Hm].
  apply CReads_storage, (Reads_validate_channels s b); [done..|by intros ? ?%elem_of_empty].
Qed.

Lemma CReads_subscription_max_seq :
  CReads cfg (subscription_max_seq req s) (rdo spec_subscriber b req in Ok (a_max_seq b)).
Proof using RS Hr Hwf Hreq. apply CReads_subscriber. intros _. by apply CReads_storage, Reads_MaxSeq. Qed.

Lemma CReads_subscription_batch from limit :
  0 <= from ->
  CReads cfg (subscription_batch cfg req from limit s)
    (rdo spec_subscriber b req in Ok (log_page cfg b from limit (visible_to b req))).
Proof using RS Hr Hwf Hreq Hmax.
  intros Hf. apply CReads_subscriber. intros Hs.
  apply CReads_storage, (Reads_FetchVisible cfg s b); [done..|].
  intros id Hid%elem_of_list_to_set. apply rbind_ok in Hs as ([] & _ & Hs).
  by eapply spec_readable_channels_ok.
Qed.

End Snapshot.

(** The next batch: it starts where the last ended. *)
Lemma delivered_page a b req next l :
  delivered a req next l -> WF b -> Extends b a -> spec_subscriber b req = Ok tt ->
  0 <= next <= a_max_seq b + 1 ->
  let r := log_page cfg b next 100 (visible_to b req) in
  delivered a req (fs_next_seq r) (l ++ fs_messages r) /\ 0 <= fs_next_seq r <= a_max_seq b + 1.
Proof.
  intros Hd Hwf Hx Hs Hn. cbv zeta. destruct (decide (next = a_max_seq b + 1)) as [->|Hne].
  - unfold log_page. rewrite (proj2 (Z.ltb_lt _ _)) by lia. cbn. rewrite app_nil_r. split; [done|lia].
  - destruct (log_page_ok cfg b next 100 (visible_to b req) Hwf) as (Hm & Hb & _); [lia|done|].
    split; [|lia]. rewrite Hm. by econstructor.
Qed.

(** ** A stream's step *)

Section Step.
Context (a b : AState) (w : CoreW).
Context (Hwf : WF b) (Hx : Extends b a) (Hmax : a_max_seq b < two64 - 1).
Context (Hsnap : forall s, subscription_snapshot (c_sub w) = Some s -> repr (snap_view s) b).

Abbreviation step_post := (fun sm' w' => calm w w' /\ stream_ok a b sm').

Lemma wp_acquire_begin sm (k : Z -> Stream) :
  stream_ok a b sm -> (forall g, stream_ok a b (k g)) ->
  wp (let! required := acquire_begin in
      match required with Err s => end_stream cfg sm s | Ok g => ret (k g) end) step_post w.
Proof.
  intros Hsm Hk. apply wp_bind. unfold acquire_begin, EnsureAvailable, bind_ok, bind, get, wp at 1.
  destruct (fatal_error_triggered w); [by apply wp_end_stream|]. by apply wp_ret.
Qed.

(** A wait for the snapshot, and what is read from it. *)
Lemma wp_acquire sm required (k : snap_t * Z -> M CoreW Stream) :
  stream_ok a b sm ->
  (forall s ver, repr (snap_view s) b -> wp (k (s, ver)) step_post w) ->
  wp (let! got := acquire required in
      match got with
      | None => ret sm
      | Some (Err s) => end_stream cfg sm s
      | Some (Ok x) => k x
      end) step_post w.
Proof using Hsnap.
  intros Hsm Hk. apply wp_bind. unfold acquire, wp at 1, bind, get.
  destruct (acquire_ready required w); [|by apply wp_ret].
  unfold acquire_end, bind, get. destruct (_ && _); [by apply wp_end_stream|].
  destruct (subscription_snapshot (c_sub w)) as [s|] eqn:E; [by apply Hk, Hsnap|].
  destruct (fatal_error_triggered w); by apply wp_end_stream.
Qed.

Lemma stream_step_ok cancelled written sm :
  stream_ok a b sm -> wp (stream_step cfg cancelled written sm) step_post w.
Proof using RS Hwf Hx Hmax Hsnap.
  intros Hsm. pose proof Hsm as [Hreq Hph]. unfold stream_step.
  destruct sm as [req ph next acc sent]. cbn [sm_req sm_phase sm_next_seq sm_accepted sm_sent] in *.
  destruct ph as [|g| |g|[|m rest] batch ver|ver|st].
  - pose proof (wp_acquire_begin _ (fun g => at_phase (MkStream req PStart next acc sent) (PStartWait g)) Hsm) as Hb.
    unfold acquire_begin, EnsureAvailable, wp, bind_ok, bind, get in *.
    destruct (fatal_error_triggered w) eqn:E; cbn in *; [|rewrite E in *]; by apply Hb.
  - apply wp_acquire; [done|]. intros s ver Hr. apply wp_bind.
    eapply calm_reads; [by apply (CReads_subscription_max_seq s b)| |]; cbn beta.
    2:{ intros e w' Hc. by apply wp_end_stream. }
    intros w' Hc. destruct (spec_subscriber b req) as [[]|e]; cbn; [|by apply wp_end_stream].
    unfold accept. cbn. destruct (_ && _) eqn:E; apply wp_ret; (split; [done|]); [by apply stream_ok_done|].
    split; [done|]. cbn. destruct Hph as [-> _]. split; [constructor|]. destruct Hreq as (_ & Hu & _).
    unfold is_u64 in Hu. apply andb_false_iff in E as [?%Z.ltb_ge|?%Z.ltb_ge]; lia.
  - destruct cancelled; [apply wp_ret; split; [done|by apply stream_ok_done]|]. by apply wp_acquire_begin.
  - apply wp_acquire; [done|]. intros s ver Hr. destruct Hph as [Hd Hn]. apply wp_bind.
    eapply calm_reads; [apply (CReads_subscription_batch s b); [done..|lia]| |]; cbn beta.
    2:{ intros e w' Hc. by apply wp_end_stream. }
    intros w' Hc. destruct (spec_subscriber b req) as [[]|e] eqn:E; cbn; [|by apply wp_end_stream].
    apply wp_ret. split; [done|]. split; [done|]. by apply delivered_page.
  - apply wp_ret. split; [done|]. split; [done|]. cbn. rewrite app_nil_r in Hph.
    destruct (_ <? _); cbn; exact Hph.
  - destruct written; apply wp_ret; (split; [done|]); [|by apply stream_ok_done].
    split; [done|]. cbn. by rewrite <- app_assoc.
  - apply wp_bind. unfold wp at 1, get. destruct (_ || _); apply wp_ret; split; done.
  - by apply wp_ret.
Qed.

End Step.

(** ** The invariant *)

(** What a snapshot taken for a generation shows: at least the commits of the mark if the
    generation is not older than the mark, everything if it is the current one. *)
Record shows (mk : AState * Z) (a : AState) (w : CoreW) (s : snap_t) (g : Z) (b : AState) : Prop := {
  sh_repr : repr (snap_view s) b;
  sh_wf : WF b;
  sh_old : Extends b a;
  sh_mark : mk.2 <= g -> Extends mk.1 b;
  sh_current : fatal_error_triggered w = false -> g = commit_generation w -> snap_view s = cview w
}.

(** The generation the thread works on is not older than that of the snapshot in place. *)
Definition refresher_ok (mk : AState * Z) (a b : AState) (w : CoreW) (r : Refresher) : Prop :=
  let s := c_sub w in
  let between g := subscription_snapshot_generation s <= g <= commit_generation w /\
                   subscription_snapshot_attempt_generation s <= g in
  match r with
  | RWaiting | RFailing _ => True
  | RSnapping g => between g
  | RSnapped g (Err e) => between g /\ status_ok e = false
  | RSnapped g (Ok s) => between g /\ exists b', shows mk a w s g b' /\ Extends b b'
  | RStopped => stop_subscription_snapshot_thread s = true \/ fatal_error_triggered w = true
  end.

(** [mk] marks an earlier moment, by its state and its commit counter; [b] is the state of
    the current snapshot. *)
Record SubInv (mk : AState * Z) (a b : AState) (x : SubSys) : Prop := {
  xi_sys : SysInv a (ss_sys x);
  xi_mark : Extends mk.1 a /\ 0 <= mk.2 <= commit_generation (ss_core x);
  xi_old : WF b /\ Extends b a;
  xi_generations : let s := c_sub (ss_core x) in
    0 <= subscription_snapshot_generation s <= commit_generation (ss_core x) /\
    0 <= subscription_snapshot_attempt_generation s <= commit_generation (ss_core x);
  xi_snapshot : forall s, subscription_snapshot (c_sub (ss_core x)) = Some s ->
    shows mk a (ss_core x) s (subscription_snapshot_generation (c_sub (ss_core x))) b;
  xi_refresher : refresher_ok mk a b (ss_core x) (ss_refresher x);
  xi_streams : forall i sm, ss_streams x !! i = Some sm -> stream_ok a b sm;
  xi_registered : dom (ss_streams x) = subscriptions (ss_service x)
}.

(** ** Steps of the server *)

(** The database is unchanged, or the counter moved forward, or the server is closed. *)
Definition advances (w w' : CoreW) : Prop :=
  c_sub w' = c_sub w /\ (fatal_error_triggered w = true -> fatal_error_triggered w' = true) /\
  commit_generation w <= commit_generation w' /\
  ((cview w' = cview w /\ commit_generation w' = commit_generation w) \/
   commit_generation w < commit_generation w' \/ fatal_error_triggered w' = true).

Lemma calm_advances w w' : calm w w' -> advances w w'.
Proof. intros (Hv & [_ Hs] & Hg & Hf). injection Hv as Hv _. split_and!; try done; [lia|by left]. Qed.

Lemma tracked_advances w w' :
  0 <= commit_generation w < two64 - 1 -> tracked w w' ->
  advances w w' /\ commit_generation w' <= commit_generation w + 1.
Proof.
  intros Hg (Hs & Hf & Hm). unfold advances. destruct Hm as [[[= Hv _] Hc]|[[Hc _]|[Hc Hf']]]; rewrite Hc.
  all: rewrite ?u64_add_small by lia; split_and!; try done; try lia; auto with lia.
Qed.

(** What is known of a snapshot stays known. *)
Lemma shows_advances mk a a' w w' s g b :
  shows mk a w s g b -> Extends a a' -> g <= commit_generation w -> advances w w' ->
  shows mk a' w' s g b.
Proof.
  intros [] Hx Hg (_ & Hf & _ & Hm). constructor; try done; [by etransitivity|].
  intros Hopen ->. destruct Hm as [[-> Hc]|[?|?]]; [|lia|congruence]. apply sh_current0; [|done].
  destruct (fatal_error_triggered w); [|done]. by rewrite Hf in Hopen.
Qed.

Lemma refresher_advances mk a a' b w w' r :
  refresher_ok mk a b w r -> Extends a a' -> advances w w' -> refresher_ok mk a' b w' r.
Proof.
  intros Hr Hx Hadv. pose proof Hadv as (Hs & Hf & Hg & _).
  destruct r as [|g|g [s|e]|st|]; cbn in *; rewrite ?Hs; try done; try lia.
  - destruct Hr as (Hb & b' & Hsh & Hbb). split; [lia|]. exists b'. split; [|done].
    eapply shows_advances; [done..|lia|done].
  - split; [lia|apply Hr].
  - destruct Hr; auto.
Qed.

Lemma SubInv_advances mk a a' b x sys' e' strs :
  SubInv mk a b x -> advances (ss_core x) (sys_core sys') -> SysInv a' sys' -> Extends a a' ->
  (forall i sm, strs !! i = Some sm -> stream_ok a' b sm) -> dom strs = subscriptions e' ->
  SubInv mk a' b (MkSubSys sys' (ss_refresher x) e' strs).
Proof.
  intros [] Hadv Hsys Hx Hst Hdom. pose proof Hadv as (Hs & _ & Hg & _).
  destruct xi_mark0 as [? ?], xi_old0 as [? ?]. constructor; unfold ss_core in *; cbn in *; try done.
  - split; [by etransitivity|lia].
  - split; [done|by etransitivity].
  - rewrite Hs. lia.
  - rewrite Hs. intros s E. eapply shows_advances; [by apply xi_snapshot0|done|lia|done].
  - by eapply refresher_advances.
Qed.

(** *** The refresher *)

Lemma SubInv_refresher mk a b x r :
  SubInv mk a b x -> refresher_ok mk a b (ss_core x) r ->
  SubInv mk a b (MkSubSys (ss_sys x) r (ss_service x) (ss_streams x)).
Proof. by intros [] Hr; constructor. Qed.

Lemma calm_CreateSnapshot (Q : Result snap_t -> CoreW -> Prop) w :
  (forall s w', calm w w' -> snap_view s = cview w -> Q (Ok s) w') ->
  (forall e w', calm w w' -> status_ok e = false -> Q (Err e) w') -> wp (storage CreateSnapshot) Q w.
Proof using RS cfg.
  intros Hok Herr. apply (wp_CreateSnapshot cfg).
  - intros s w' Hs Hu _. apply Hok; [by apply calm_unchanged|done].
  - intros e w' Hf Hv. apply Herr; [by eapply calm_fault|]. destruct Hf as (_ & [Hc _] & _).
    unfold status_ok. by rewrite bool_decide_eq_false_2.
Qed.

(** The current state is what a snapshot taken now shows. *)
Lemma shows_now mk a b x s g w' :
  SubInv mk a b x -> calm (ss_core x) w' -> snap_view s = cview (ss_core x) ->
  shows mk a w' s g a.
Proof.
  intros [] (Hv & _) Hs. injection Hv as Hv _. destruct xi_sys0. constructor; try done.
  - by rewrite Hs.
  - intros _. apply xi_mark0.
  - intros _ _. by rewrite Hv.
Qed.

(** The thread puts its snapshot in place. *)
Lemma SubInv_install mk a b x g snapshot :
  SubInv mk a b x -> refresher_ok mk a b (ss_core x) (RSnapped g snapshot) ->
  let w' := set_sub (ss_core x) (install g snapshot (c_sub (ss_core x))) in
  exists b', Extends b b' /\
    SubInv mk a b' (MkSubSys (with_core x w') RWaiting (ss_service x) (ss_streams x)).
Proof.
  intros Hinv Hr. pose proof Hinv as [].
  assert (Hsys : forall s, SysInv a (with_core x (set_sub (ss_core x) s))).
  { intros s. destruct xi_sys0. by apply (SysInv_same_objects a a (ss_sys x)). }
  destruct snapshot as [s|e]; cbn [refresher_ok] in Hr.
  - destruct Hr as (Hg & b' & [] & Hbb). exists b'. split; [done|].
    constructor; unfold ss_core in *; cbn in *; try done; [lia| |].
    + intros s' [= <-]. by constructor.
    + intros i sm Hi. apply (stream_ok_extends a a b); [done|exact Hbb|by eapply xi_streams0].
  - exists b. split; [done|]. constructor; unfold ss_core in *; cbn in *; try done; [lia|].
    intros s E. destruct (xi_snapshot0 s E). by constructor.
Qed.

Lemma preserved_refresh mk a b x :
  SubInv mk a b x ->
  wp (refresh cfg (ss_refresher x)) (fun r' w' =>
    (exists b', Extends b b' /\
       SubInv mk a b' (MkSubSys (with_core x w') r' (ss_service x) (ss_streams x))) /\
    commit_generation w' = commit_generation (ss_core x)) (ss_core x).
Proof using RS.
  intros Hinv. pose proof Hinv as []. destruct x as [[w ws] r e strs]. unfold ss_core in *. cbn in *.
  assert (Hkeep : forall r' w', calm w w' -> refresher_ok mk a b w' r' ->
    (exists b', Extends b b' /\ SubInv mk a b' (MkSubSys (MkSys w' ws) r' e strs)) /\
    commit_generation w' = commit_generation w).
  { intros r' w' Hc Hr. split; [|apply Hc]. exists b. split; [done|].
    apply (SubInv_refresher _ _ _ (MkSubSys (MkSys w' ws) r e strs)); [|done].
    apply (SubInv_advances _ a a b (MkSubSys (MkSys w ws) r e strs) (MkSys w' ws)); [exact Hinv|by apply calm_advances| |done..].
    by apply (SysInv_calm a (MkSys w ws)). }
  destruct r as [|g|g sn|st|]; cbn [refresh].
  - apply wp_bind. unfold wp at 1, get. destruct (_ || _) eqn:E; [|destruct (_ && _)]; apply wp_ret.
    + apply Hkeep; [done|]. by apply orb_true_iff in E.
    + by apply Hkeep.
    + apply Hkeep; [done|]. cbn. lia.
  - apply wp_bind, calm_CreateSnapshot.
    + intros s w' Hc Hs. apply wp_ret, Hkeep; [done|]. pose proof Hc as (_ & _ & Hg & _). cbn in *.
      destruct Hc as (Hv & [? Hs'] & ? & ?). rewrite Hg, Hs'. split; [done|]. exists a. split; [|apply xi_old0].
      eapply shows_now; [exact Hinv|by repeat split|done].
    + intros err w' Hc He. apply wp_ret, Hkeep; [done|]. pose proof Hc as (_ & [_ Hs'] & Hg & _). cbn in *.
      by rewrite Hg, Hs'.
  - apply wp_bind. unfold wp at 1, get. destruct (fatal_error_triggered w) eqn:Ef.
    { apply wp_ret, Hkeep; [done|]. by right. }
    destruct (SubInv_install mk a b _ g sn Hinv xi_refresher0) as (b' & Hbb & Hinv'). cbn in Hinv'.
    apply wp_bind. unfold wp at 1, modify.
    destruct sn as [s|err]; [|destruct (requires_server_exit err)]; apply wp_ret; (split; [exists b'; split; [done|]|done]).
    + exact Hinv'.
    + by apply (SubInv_refresher _ _ _ _ (RFailing err)) in Hinv'.
    + exact Hinv'.
  - apply wp_FatalStorageError, wp_ret, Hkeep; [apply calm_trip|]. right. unfold trip.
    by destruct (fatal_error_triggered w) eqn:Ef.
  - by apply wp_ret, Hkeep.
Qed.

(** *** Every step *)

Definition SubPreserved (mk : AState * Z) (a b : AState) (x x' : SubSys) : Prop :=
  exists a' b', SubInv mk a' b' x' /\ Extends a a' /\ Extends b b' /\ Bounded a a' /\
    commit_generation (ss_core x) <= commit_generation (ss_core x') <= commit_generation (ss_core x) + 1.

(** Streams come, go and change; what is stored does not. *)
Lemma preserved_streams mk a b x w' e' strs :
  SubInv mk a b x -> calm (ss_core x) w' ->
  (forall i sm, strs !! i = Some sm -> stream_ok a b sm) -> dom strs = subscriptions e' ->
  SubPreserved mk a b x (MkSubSys (with_core x w') (ss_refresher x) e' strs).
Proof.
  intros Hinv Hc Hst Hdom. exists a, b. pose proof Hc as (_ & _ & Hg & _). pose proof Hinv as [].
  split_and!; [|done|done|apply Bounded_refl|unfold ss_core in *; cbn; lia..].
  apply (SubInv_advances mk a a b x (with_core x w')); try done; [by apply calm_advances|].
  by apply SysInv_calm.
Qed.

Lemma sub_step_preserved mk a b x x' :
  SubInv mk a b x -> Budget 1 a -> commit_generation (ss_core x) < two64 - 1 ->
  sub_step cfg x x' -> SubPreserved mk a b x x'.
Proof using FS HS PS RS.
  intros Hinv Hb Hg Hstep. pose proof Hinv as [].
  assert (Hcore : forall y, with_core y (ss_core y) = ss_sys y) by (by intros [[] ? ? ?]).
  destruct Hstep as [x sys' Hs|x r' w' Hrun|x i req e' Hreq Hi He|x i sm c wr sm' w' Hi Hrun
    |x i sm st Hi Hph|x|x Hnone].
  - destruct (step_preserved cfg a (ss_sys x) sys') as (a' & Hinv' & Hx & Hbd & _); [done..|].
    destruct (tracked_advances (ss_core x) (sys_core sys')) as [Hadv Hg']; [lia|by eapply step_tracked|].
    exists a', b. split_and!; try done; [|by destruct Hadv as (_ & _ & ? & _)].
    eapply SubInv_advances; try done. intros i sm Hi.
    apply (stream_ok_extends a a' b b); [done|done|by eapply xi_streams0].
  - pose proof (preserved_refresh mk a b x Hinv) as Hw. eapply wp_run in Hw; [|exact Hrun].
    destruct Hw as ((b' & Hbb & Hinv') & Hg'). exists a, b'. unfold ss_core at 2 3. cbn.
    split_and!; try done; [apply Bounded_refl|lia..].
  - rewrite <- (Hcore x). apply preserved_streams; [done|done| |].
    + intros j sm [[<- <-]|[_ Hj]]%lookup_insert_Some; [by split|by eapply xi_streams0].
    + revert He. unfold RegisterSubscription. destruct (subscriptions_stopping _); [done|]. intros [= <-].
      cbn. by rewrite dom_insert_L, xi_registered0.
  - assert (Hw : wp (stream_step cfg c wr sm) (fun sm' w' => calm (ss_core x) w' /\ stream_ok a b sm') (ss_core x)).
    { destruct xi_old0 as [? ?]. pose proof (Extends_max_seq b a ltac:(done)).
      apply stream_step_ok; [done|done|unfold Budget in Hb; lia| |by eapply xi_streams0].
      intros s E. apply (sh_repr _ _ _ _ _ _ (xi_snapshot0 s E)). }
    eapply wp_run in Hw as [Hc Hsm]; [|exact Hrun]. apply preserved_streams; [done|done| |].
    + intros j sm0 [[<- <-]|[_ Hj]]%lookup_insert_Some; [done|by eapply xi_streams0].
    + rewrite <- xi_registered0. apply dom_insert_lookup_L. by eexists.
  - rewrite <- (Hcore x). apply preserved_streams; [done|done| |].
    + intros j sm0 [_ Hj]%lookup_delete_Some. by eapply xi_streams0.
    + cbn. by rewrite dom_delete_L, xi_registered0.
  - rewrite <- (Hcore x). by apply preserved_streams.
  - exists a, b. unfold ss_core. cbn. split_and!; try done; [|apply Bounded_refl|unfold ss_core in *; cbn; lia..].
    constructor; unfold ss_core in *; cbn; try done.
    + destruct xi_sys0. by apply (SysInv_same_objects a a (ss_sys x)).
    + intros s E. destruct (xi_snapshot0 s E). by constructor.
    + destruct (ss_refresher x) as [|g|g [s|e]|st|]; cbn in *; try done; [|by left].
      destruct xi_refresher0 as (? & b' & [] & ?). split; [done|]. exists b'. split; [by constructor|done].
Qed.

Lemma sub_steps_preserved n mk a b x x' :
  SubInv mk a b x -> Budget (Z.of_nat n) a -> commit_generation (ss_core x) + Z.of_nat n < two64 ->
  nsteps (sub_step cfg) n x x' ->
  exists a' b', SubInv mk a' b' x' /\ Extends a a' /\ Extends b b' /\ Budget 0 a'.
Proof using FS HS PS RS.
  intros Hinv Hb Hg Hsteps. revert a b Hinv Hb Hg.
  induction Hsteps as [x|n x1 x2 x3 Hstep _ IH]; intros a b Hinv Hb Hg; [by exists a, b|].
  destruct (sub_step_preserved mk a b x1 x2) as (a1 & b1 & Hinv1 & Hx1 & Hb1 & Hbd & Hg1); [done| |lia|done|].
  { eapply Budget_mono; [|exact Hb]. lia. }
  destruct (IH a1 b1 Hinv1) as (a2 & b2 & Hinv2 & Hx2 & Hb2 & Hroom).
  { eapply Budget_step; [|exact Hbd]. by replace (Z.of_nat n + 1) with (Z.of_nat (S n)) by lia. }
  { lia. }
  exists a2, b2. split; [done|]. split; [by etransitivity|]. split; [by etransitivity|done].
Qed.

(** ** Marks *)

(** A snapshot of the current generation shows the current state. *)
Lemma shows_mark mk a b w s g :
  shows mk a w s g b -> repr (cview w) a -> WF a -> fatal_error_triggered w = false ->
  g <= commit_generation w ->
  shows (a, commit_generation w) a w s g (if decide (g = commit_generation w) then a else b).
Proof.
  intros [] Hr Hwf Hopen Hg. case_decide as Heq; constructor; cbn; try done.
  - by rewrite sh_current0.
  - lia.
Qed.

(** While the server is open, any moment can be the mark. *)
Lemma SubInv_mark mk a b x :
  SubInv mk a b x -> fatal_error_triggered (ss_core x) = false ->
  exists b', Extends b b' /\ SubInv (a, commit_generation (ss_core x)) a b' x.
Proof.
  intros [] Hopen. pose proof xi_sys0 as []. destruct xi_old0 as [Hwfb Hxb]. cbv zeta in xi_generations0.
  set (gen := commit_generation (ss_core x)) in *.
  set (g := subscription_snapshot_generation (c_sub (ss_core x))) in *.
  set (b' := if decide (g = gen) then a else b).
  assert (Hb' : WF b' /\ Extends b b' /\ Extends b' a) by (unfold b'; by case_decide).
  destruct Hb' as (Hwf' & Hbb & Hba). exists b'. split; [done|]. constructor; try done.
  - split; [done|]. cbn. lia.
  - intros s E. apply (shows_mark mk); try done; [by apply xi_snapshot0|lia].
  - revert xi_refresher0. unfold refresher_ok. destruct (ss_refresher x) as [|h|h [s|e]|st|]; try done.
    intros (Hh & c & Hsh & Hbc). split; [done|].
    exists (if decide (h = gen) then a else c). split; [apply (shows_mark mk); try done; lia|].
    unfold b'. repeat case_decide; try done. cbv zeta in Hh. fold g gen in Hh. lia.
  - intros i sm Hi. apply (stream_ok_extends a a b); [done|done|by eapply xi_streams0].
Qed.

(** ** Where runs start *)

(** A core constructed on the storage of a server without writers. *)
Lemma SysInv_unstarted a sys :
  SysInv a sys -> sys_writers sys = ∅ -> SysInv a (MkSys (unstarted (c_storage (sys_core sys))) ∅).
Proof.
  destruct sys as [w ws]. cbn. intros Hinv ->. pose proof Hinv as [].
  by apply (SysInv_same_objects a a (MkSys w ∅)).
Qed.

Lemma SubInv_construct a st :
  SysInv a (MkSys (unstarted st) ∅) ->
  wp (start_subscriptions cfg) (fun r w =>
    SubInv (a, 0) a a (MkSubSys (MkSys w ∅) r (MkEventService ∅ false) ∅) /\
    commit_generation w = 0) (unstarted st).
Proof using RS.
  intros Hsys. pose proof Hsys as [].
  assert (Hstart : forall w r s, calm (unstarted st) w ->
    subscription_snapshot_generation s = 0 -> subscription_snapshot_attempt_generation s = 0 ->
    (forall x, subscription_snapshot s = Some x -> snap_view x = cview w) ->
    refresher_ok (a, 0) a a (set_sub w s) r ->
    SubInv (a, 0) a a (MkSubSys (MkSys (set_sub w s) ∅) r (MkEventService ∅ false) ∅)).
  { intros w r s ([= Hv _] & [Hf Hs] & Hg & Hl) E1 E2 Hx Hr. cbn in Hg.
    constructor; unfold ss_core; cbn; rewrite ?E1, ?E2, ?Hg; try done.
    - apply (SysInv_same_objects a a _ _ Hsys); [|done..|unfold sdir, dir; cbn in *; by rewrite Hf].
      change (repr (cview w) a). by rewrite Hv.
    - intros x E. constructor; try done; [rewrite (Hx x E), Hv; done|]. intros _ _. by apply Hx. }
  unfold start_subscriptions. apply wp_bind, calm_CreateSnapshot.
  - intros s w Hc Hs. pose proof Hc as ([= Hv _] & _ & Hg & _). apply wp_bind. unfold wp at 1, modify.
    apply wp_bind. unfold wp at 1, get. apply wp_ret. cbn. split; [|done].
    apply Hstart; try done; [intros x [= <-]; by rewrite Hs, Hv|].
    destruct (fatal_error_triggered w) eqn:E; [by right|done].
  - intros e w Hc He. pose proof Hc as (Hv & _ & Hg & _). do 2 apply wp_bind. unfold wp at 1, modify.
    destruct (requires_server_exit e).
    + apply wp_FatalStorageError, wp_ret, wp_bind. unfold wp at 1, get. apply wp_ret.
      unfold trip. cbn. destruct (fatal_error_triggered w) eqn:E; cbn; rewrite ?E; (split; [|done]).
      * apply Hstart; try done. by right.
      * apply (Hstart (set_fatal w _)); try done; [|by right].
        split_and!; try done; apply Hc.
    + apply wp_ret, wp_bind. unfold wp at 1, get. apply wp_ret. cbn. split; [|done].
      apply Hstart; try done. destruct (fatal_error_triggered w) eqn:E; [by right|done].
Qed.

End SubInvariant.
