(* ===== verification/Delivery.v ===== *)
(** * What a subscriber receives

    Consequences of [delivered]: the messages come in the order of the log, each
    once; and of the channels everyone may read, none of the requested messages is
    missing.  That the subscriber was entitled to each is in History.v. *)

From stdpp Require Import relations.
From S2P Require Import Prelude Status Encoding Tokens Proto Json Platform Keys World FileStore.
From S2P Require Import Files Storage Core Commands Model Reads Scan Spec SystemMessages Refine.
From S2P Require Import Handlers ChannelHandlers Invariant Queries Pages Startup Objects Services.
From S2P Require Import Effects Requests Concurrency Tracks Subscription SubInvariant.

(** ** Sorted lists *)

Lemma StronglySorted_filter {A} (Rel : A -> A -> Prop) (f : A -> bool) l :
  StronglySorted Rel l -> StronglySorted Rel (List.filter f l).
Proof.
  induction 1 as [|x l _ IH Hx]; cbn; [constructor|]. destruct (f x); [|done]. constructor; [done|].
  rewrite Forall_forall in *. intros y Hy. apply Hx. apply list_elem_of_In in Hy.
  apply filter_In in Hy as [Hy _]. by apply list_elem_of_In.
Qed.

(** Of two parts of a sorted list, what is not beyond the first part is in it. *)
Lemma StronglySorted_app_before {A} (Rel : A -> A -> Prop) l1 l2 x y :
  StronglySorted Rel (l1 ++ l2) -> x ∈ l1 ++ l2 -> y ∈ l1 -> ~ Rel y x -> x ∈ l1.
Proof.
  intros Hs [Hx|Hx]%elem_of_app Hy Hn; [done|]. destruct Hn.
  apply StronglySorted_app in Hs as (Hs & _ & _). by apply Hs.
Qed.

Section Delivery.
Context {R : RocksDB} {P : Protobuf} {F : PosixDir} {H : Host}.
Context {PS : ProtobufSpec}.

Definition seq_lt (m m' : EventMessage) : Prop := em_seq m < em_seq m'.

(** ** Ranges of the log *)

Lemma log_range_elem a from to m :
  WF a -> 0 <= from ->
  m ∈ log_range a from to <-> m ∈ a_log a /\ from <= em_seq m < to.
Proof.
  intros Hwf Hf. unfold log_range. split.
  - intros (i & Hi)%list_elem_of_lookup. apply lookup_take_Some in Hi as [Hi Hlt].
    rewrite lookup_drop in Hi. destruct (wf_log _ Hwf _ _ Hi) as (Hs & _).
    split; [by eapply list_elem_of_lookup_2|lia].
  - intros [(i & Hi)%list_elem_of_lookup Hb]. destruct (wf_log _ Hwf _ _ Hi) as (Hs & _).
    apply list_elem_of_lookup. exists (i - Z.to_nat from)%nat.
    rewrite lookup_take_lt by lia. rewrite lookup_drop. rewrite <- Hi. f_equal. lia.
Qed.

Lemma log_range_sorted a from to : WF a -> 0 <= from -> StronglySorted seq_lt (log_range a from to).
Proof.
  intros Hwf Hf. pose proof (log_dense a from Hwf Hf) as Hd. unfold log_range.
  revert Hd. generalize (drop (Z.to_nat from) (a_log a)). intros l Hd.
  assert (Hd' : forall n, dense from (take n l)).
  { intros n i m Hi. apply lookup_take_Some in Hi as [Hi _]. by apply Hd. }
  specialize (Hd' (Z.to_nat (to - from))). revert Hd'. generalize (take (Z.to_nat (to - from)) l). clear.
  intros l. revert from. induction l as [|m l IH]; intros from Hd; constructor.
  - by eapply IH, dense_tail.
  - apply Forall_forall. intros x (i & Hi)%list_elem_of_lookup. unfold seq_lt.
    rewrite (Hd (S i) x Hi), (Hd 0%nat m eq_refl). lia.
Qed.

(** ** Sent in order, each once *)

Lemma delivered_bounds a req next l :
  delivered a req next l -> WF a -> 0 <= sq_from_seq req ->
  sq_from_seq req <= next /\ forall m, m ∈ l -> m ∈ a_log a /\ sq_from_seq req <= em_seq m < next.
Proof.
  intros Hd Hwf Hf. induction Hd as [|next l b next' _ IH Hwfb Hx _ Hn].
  - split; [done|]. intros m Hm. by apply elem_of_nil in Hm.
  - destruct IH as [Hle Hin]. split; [lia|]. intros m [Hm|Hm]%elem_of_app.
    + destruct (Hin m Hm). split; [done|lia].
    + apply list_elem_of_In in Hm. apply filter_In in Hm as [Hm _]. apply list_elem_of_In in Hm.
      apply log_range_elem in Hm as [Hm Hb]; [|done|lia]. split; [|lia].
      eapply elem_of_prefix; [done|apply (ex_log _ _ Hx)].
Qed.

Lemma delivered_sorted a req next l :
  delivered a req next l -> WF a -> 0 <= sq_from_seq req -> StronglySorted seq_lt l.
Proof.
  intros Hd Hwf Hf. induction Hd as [|next l b next' Hd IH Hwfb Hx _ Hn]; [constructor|].
  destruct (delivered_bounds _ _ _ _ Hd Hwf Hf) as [Hle Hin].
  apply StronglySorted_app. split_and!; [|done|apply StronglySorted_filter, log_range_sorted; [done|lia]].
  intros m m' Hm Hm'. apply list_elem_of_In, filter_In in Hm' as [Hm' _]. apply list_elem_of_In in Hm'.
  apply log_range_elem in Hm' as [_ Hb]; [|done|lia]. destruct (Hin m Hm). unfold seq_lt. lia.
Qed.

(** ** Nothing left out *)

(** A channel everyone may read. *)
Definition open_channel (a : AState) (id : Z) : bool :=
  match spec_channel a id with
  | Some c => (ci_channel_id c =? 0) || bool_decide (ci_visibility c = VISIBILITY_PUBLIC) ||
              bool_decide (ci_visibility c = VISIBILITY_PROTECTED)
  | None => false
  end.

(** A message of such a channel that the request asks for. *)
Definition wanted (a : AState) (req : SubscribeRequest) (m : EventMessage) : bool :=
  (bool_decide (sq_channels req = []) || bool_decide (em_channel_id m ∈ sq_channels req)) &&
  open_channel a (em_channel_id m) &&
  (negb (sq_only_my_recipient req) || HasRecipient m (sq_principal req)).

(** Visibility of a channel never changes, so it was readable on every earlier state. *)
Lemma open_channel_readable a b principal m :
  WF b -> Extends b a -> m ∈ a_log b -> open_channel a (em_channel_id m) = true ->
  readable b principal (em_channel_id m) = true.
Proof.
  intros Hwf Hx Hm Ho. destruct (message_channel b Hwf m Hm) as [_ [c Hc]].
  unfold readable, open_channel in *. rewrite Hc. revert Ho Hc. unfold spec_channel.
  destruct (em_channel_id m =? 0); [by intros _ [= <-]|]. intros Ho Hc.
  destruct (ex_channels _ _ Hx _ _ Hc) as (c' & Hc' & Hk). rewrite Hc' in Ho. unfold channel_kept in Hk.
  rewrite Hk in Ho. cbn in Ho. unfold CanRead.
  destruct (ci_channel_id c =? 0); [done|]. cbn in Ho. by rewrite Ho.
Qed.

Lemma wanted_visible a b req m :
  WF b -> Extends b a -> m ∈ a_log b -> wanted a req m = true -> visible_to b req m = true.
Proof.
  intros Hwf Hx Hm (([Hc|Hc]%orb_true_iff & Ho)%andb_true_iff & Hr)%andb_true_iff;
    unfold visible_to, visible; rewrite Hr, (open_channel_readable a b) by done; rewrite !andb_true_r.
  - apply bool_decide_eq_true in Hc. by rewrite Hc.
  - apply bool_decide_eq_true in Hc. apply orb_true_iff. right. by apply bool_decide_eq_true, elem_of_list_to_set.
Qed.

Lemma delivered_complete a req next l m :
  delivered a req next l -> WF a -> 0 <= sq_from_seq req -> m ∈ a_log a ->
  sq_from_seq req <= em_seq m < next -> wanted a req m = true -> m ∈ l.
Proof.
  intros Hd Hwf Hf Hm Hb Hw. induction Hd as [|next l b next' Hd IH Hwfb Hx Hs Hn]; [lia|].
  apply elem_of_app. destruct (decide (em_seq m < next)) as [|Hge]; [left; apply IH; lia|right].
  destruct (delivered_bounds _ _ _ _ Hd Hwf Hf) as [Hle _].
  assert (Hmb : m ∈ a_log b).
  { apply list_elem_of_lookup in Hm as (i & Hi). destruct (wf_log _ Hwf _ _ Hi) as (Hsq & _).
    apply list_elem_of_lookup. exists i. destruct (ex_log _ _ Hx) as [k Hk]. rewrite Hk in Hi.
    rewrite lookup_app_l in Hi; [done|]. unfold a_max_seq in Hn. lia. }
  apply list_elem_of_In, filter_In. split; [|by apply (wanted_visible a b)].
  apply list_elem_of_In, log_range_elem; [done|lia|]. split; [done|lia].
Qed.

End Delivery.
