(* ===== verification/SubProgress.v ===== *)
(** * Waiting streams are served

    A stream that waits for a snapshot waits for at most five moves of the refresher
    thread, whatever else the server does in between and whether or not the
    database fails: then the snapshot is new enough, or an error stands in its
    place, or the server is closed or stopping. *)

From stdpp Require Import relations.
From S2P Require Import Prelude Status Encoding Tokens Proto Json Platform Keys World FileStore.
From S2P Require Import Files Storage Core Commands Model Reads Scan Spec SystemMessages Refine.
From S2P Require Import Handlers ChannelHandlers Invariant Queries Pages Startup Objects Services.
From S2P Require Import Effects Requests Concurrency Tracks Subscription SubInvariant.

Section SubProgress.
Context {R : RocksDB} {P : Protobuf} {F : PosixDir} {H : Host}.
Context {RS : RocksDBSpec} {PS : ProtobufSpec} {HS : HostSpec} {FS : PosixDirSpec}.
Context (cfg : CoreConfig) (required : Z).

Abbreviation ready w := (acquire_ready required w = true).

Lemma ready_iff w :
  ready w <->
  stop_subscription_snapshot_thread (c_sub w) = true \/ fatal_error_triggered w = true \/
  required <= subscription_snapshot_generation (c_sub w) \/
  (status_ok (subscription_snapshot_status (c_sub w)) = false /\
   required <= subscription_snapshot_attempt_generation (c_sub w)).
Proof.
  unfold acquire_ready. rewrite !orb_true_iff, andb_true_iff, negb_true_iff, !Z.leb_le. tauto.
Qed.

(** ** How many moves are left *)

Definition rank (r : Refresher) : nat :=
  match r with
  | RStopped => 0
  | RFailing _ => 1
  | RWaiting => 3
  | RSnapped g _ => if required <=? g then 1 else 4
  | RSnapping g => if required <=? g then 2 else 5
  end.

Lemma rank_bound r : (rank r <= 5)%nat.
Proof. destruct r; cbn; try lia; case_match; lia. Qed.

(** A step of anything else leaves the refresher where it is, and a waiter ready. *)
Lemma ready_advances w w' : advances w w' -> ready w -> ready w'.
Proof. rewrite !ready_iff. intros (-> & Hf & _). intuition auto. Qed.

(** A move of the refresher keeps a waiter ready. *)
Lemma ready_refresh mk a b w r :
  refresher_ok mk a b w r -> ready w -> wp (refresh cfg r) (fun _ w' => ready w') w.
Proof using RS.
  intros Hok Hr. destruct r as [|g|g sn|st|]; cbn [refresh].
  - apply wp_bind. unfold wp at 1, get. destruct (_ || _); [by apply wp_ret|]. destruct (_ && _); by apply wp_ret.
  - apply wp_bind, (calm_CreateSnapshot cfg); intros; apply wp_ret; by eapply ready_advances, Hr; apply calm_advances.
  - apply wp_bind. unfold wp at 1, get. destruct (fatal_error_triggered w) eqn:Ef; [by apply wp_ret|].
    apply wp_bind. unfold wp at 1, modify.
    assert (Hi : ready (set_sub w (install g sn (c_sub w)))).
    { apply ready_iff in Hr. apply ready_iff. cbn [refresher_ok] in Hok.
      destruct sn as [s|e]; cbn in *; destruct Hok as [Hok He];
        destruct Hr as [?|[?|[?|[? ?]]]]; try (by left); try congruence.
      1,2: right; right; left; lia.
      - right; right; left; lia.
      - right; right; right. split; [done|lia]. }
    destruct sn as [s|e]; [|destruct (requires_server_exit e)]; by apply wp_ret.
  - apply wp_FatalStorageError, wp_ret. by eapply ready_advances, Hr; apply calm_advances, calm_trip.
  - by apply wp_ret.
Qed.

(** A move of the refresher brings a waiter closer. *)
Lemma rank_refresh mk a b w r :
  refresher_ok mk a b w r -> required <= commit_generation w ->
  wp (refresh cfg r) (fun r' w' => ready w' \/ (rank r' < rank r)%nat) w.
Proof using RS.
  intros Hok Hreq. destruct r as [|g|g sn|st|]; cbn [refresh].
  - apply wp_bind. unfold wp at 1, get. destruct (_ || _) eqn:E1.
    { apply wp_ret. left. apply ready_iff. apply orb_true_iff in E1. tauto. }
    destruct (_ && _) eqn:E2; apply wp_ret.
    + left. apply ready_iff. apply andb_true_iff in E2 as [_ E2%Z.eqb_eq]. lia.
    + right. cbn. destruct (Z.leb_spec required (commit_generation w)); lia.
  - apply wp_bind, (calm_CreateSnapshot cfg); intros; apply wp_ret; right; cbn; case_match; lia.
  - apply wp_bind. unfold wp at 1, get. destruct (fatal_error_triggered w) eqn:Ef.
    { apply wp_ret. left. apply ready_iff. auto. }
    apply wp_bind. unfold wp at 1, modify. cbn [rank]. destruct (Z.leb_spec required g) as [Hle|Hgt].
    + assert (Hi : ready (set_sub w (install g sn (c_sub w)))).
      { apply ready_iff. cbn [refresher_ok] in Hok. destruct sn as [s|e]; cbn; [auto|].
        destruct Hok as [_ Hok]. auto. }
      destruct sn as [s|e]; [|destruct (requires_server_exit e)]; apply wp_ret; by left.
    + destruct sn as [s|e]; [|destruct (requires_server_exit e)]; apply wp_ret; right; cbn; lia.
  - apply wp_FatalStorageError, wp_ret. left. apply ready_iff. right; left. unfold trip.
    by destruct (fatal_error_triggered w) eqn:Ef.
  - apply wp_ret. left. apply ready_iff. cbn in Hok. tauto.
Qed.

(** ** Runs *)

(** [paced k n x y]: [n] steps lead from [x] to [y], and [k] of them at least are moves of the
    refresher. *)
Inductive paced : nat -> nat -> SubSys -> SubSys -> Prop :=
  | Paced_nil x : paced 0 0 x x
  | Paced_refresh k n x r' w' y :
      refresh cfg (ss_refresher x) (ss_core x) = (r', w') ->
      paced k n (MkSubSys (with_core x w') r' (ss_service x) (ss_streams x)) y ->
      paced (S k) (S n) x y
  | Paced_step k n x x' y : sub_step cfg x x' -> paced k n x' y -> paced k (S n) x y.

Lemma paced_steps k n x y : paced k n x y -> nsteps (sub_step cfg) n x y.
Proof.
  induction 1 as [x|k n x r' w' y Hrun _ IH|k n x x' y Hstep _ IH]; [constructor|..].
  - econstructor; [by apply X_refresh|exact IH].
  - by econstructor.
Qed.

(** Any step keeps the rank or lowers it, and a ready waiter stays ready. *)
Lemma sub_step_rank mk a b x x' :
  SubInv mk a b x -> Budget 1 a -> commit_generation (ss_core x) < two64 - 1 ->
  required <= commit_generation (ss_core x) -> sub_step cfg x x' ->
  (ready (ss_core x) -> ready (ss_core x')) /\
  (ready (ss_core x') \/ (rank (ss_refresher x') <= rank (ss_refresher x))%nat).
Proof using FS HS PS RS.
  intros Hinv Hb Hg Hreq Hstep. pose proof Hinv as [].
  assert (Hmove : forall w', advances (ss_core x) w' -> (ready (ss_core x) -> ready w') /\
    (ready w' \/ (rank (ss_refresher x) <= rank (ss_refresher x))%nat)).
  { intros w' Hadv. split; [by apply ready_advances|by right]. }
  destruct Hstep as [x sys' Hs|x r' w' Hrun|x i req e' Hreq' Hi He|x i sm c wr sm' w' Hi Hrun
    |x i sm st Hi Hph|x|x Hnone]; unfold ss_core in *; cbn [ss_sys ss_refresher with_core sys_core] in *.
  - apply Hmove. apply tracked_advances; [lia|by eapply step_tracked].
  - split.
    + intros Hr. exact (wp_run _ _ _ _ _ (ready_refresh mk a b _ _ xi_refresher Hr) Hrun).
    + destruct (wp_run _ _ _ _ _ (rank_refresh mk a b _ _ xi_refresher Hreq) Hrun); [by left|right; lia].
  - by apply Hmove, calm_advances.
  - apply Hmove. destruct xi_old as [? ?]. pose proof (Extends_max_seq b a ltac:(done)).
    eapply (wp_run _ (fun sm' w' => advances (sys_core (ss_sys x)) w')); [|exact Hrun].
    eapply wp_mono; [|apply (stream_step_ok cfg a b); [done|done|unfold Budget in Hb; lia| |by eapply xi_streams]].
    + intros ? ? [Hc _]. by apply calm_advances.
    + intros s E. apply (sh_repr _ _ _ _ _ _ (xi_snapshot s E)).
  - by apply Hmove, calm_advances.
  - by apply Hmove, calm_advances.
  - split; [intros _|left]; apply ready_iff; by left.
Qed.

(** One step, and what is known of the rest of the run. *)
Lemma paced_next mk k' d n x x' y a b :
  SubInv mk a b x -> Budget (Z.of_nat (S n)) a ->
  commit_generation (ss_core x) + Z.of_nat (S n) < two64 -> required <= commit_generation (ss_core x) ->
  sub_step cfg x x' ->
  (ready (ss_core x') \/ (rank (ss_refresher x') + d <= rank (ss_refresher x))%nat) ->
  (forall a b, SubInv mk a b x' -> Budget (Z.of_nat n) a ->
     commit_generation (ss_core x') + Z.of_nat n < two64 -> required <= commit_generation (ss_core x') ->
     (ready (ss_core x') -> ready (ss_core y)) /\
     (ready (ss_core y) \/ (rank (ss_refresher y) + k' <= rank (ss_refresher x'))%nat)) ->
  (ready (ss_core x) -> ready (ss_core y)) /\
  (ready (ss_core y) \/ (rank (ss_refresher y) + (d + k') <= rank (ss_refresher x))%nat).
Proof using FS HS PS RS.
  intros Hinv Hb Hg Hreq Hstep Hd IH.
  assert (Hb1 : Budget 1 a) by (eapply Budget_mono; [|exact Hb]; lia).
  destruct (sub_step_preserved cfg mk a b x x') as (a1 & b1 & Hinv1 & _ & _ & Hbd & Hg1); [done|done|lia|done|].
  destruct (sub_step_rank mk a b x x') as [Hr _]; [done|done|lia|done|done|].
  destruct (IH a1 b1 Hinv1) as [Hr' Hk].
  - eapply Budget_step; [|exact Hbd]. by replace (Z.of_nat n + 1) with (Z.of_nat (S n)) by lia.
  - lia.
  - lia.
  - split; [auto|]. destruct Hd as [Hd|Hd]; [left; auto|]. destruct Hk as [|Hk]; [by left|right; lia].
Qed.

Lemma paced_rank k n mk a b x y :
  SubInv mk a b x -> Budget (Z.of_nat n) a -> commit_generation (ss_core x) + Z.of_nat n < two64 ->
  required <= commit_generation (ss_core x) -> paced k n x y ->
  (ready (ss_core x) -> ready (ss_core y)) /\
  (ready (ss_core y) \/ (rank (ss_refresher y) + k <= rank (ss_refresher x))%nat).
Proof using FS HS PS RS.
  intros Hinv Hb Hg Hreq Hp. revert a b Hinv Hb Hg Hreq.
  induction Hp as [x|k n x r' w' y Hrun Hp IH|k n x x' y Hstep Hp IH]; intros a b Hinv Hb Hg Hreq.
  - split; [done|]. right. lia.
  - apply (paced_next mk k 1%nat n x (MkSubSys (with_core x w') r' (ss_service x) (ss_streams x)) y a b);
      [done..|by apply X_refresh| |exact IH].
    destruct (wp_run _ _ _ _ _ (rank_refresh mk a b _ _ (xi_refresher _ _ _ _ Hinv) Hreq) Hrun); [by left|].
    right. cbn. lia.
  - apply (paced_next mk k 0%nat n x x' y a b); [done..| |exact IH].
    destruct (sub_step_rank mk a b x x') as [_ Hk]; [done| |lia|done|done|].
    { eapply Budget_mono; [|exact Hb]. lia. }
    destruct Hk; [by left|right; lia].
Qed.

(** Five moves are enough. *)
Lemma paced_ready k n mk a b x y :
  SubInv mk a b x -> Budget (Z.of_nat n) a -> commit_generation (ss_core x) + Z.of_nat n < two64 ->
  required <= commit_generation (ss_core x) -> paced k n x y -> (5 <= k)%nat -> ready (ss_core y).
Proof using FS HS PS RS.
  intros Hinv Hb Hg Hreq Hp Hk.
  destruct (paced_rank k n mk a b x y) as [_ [?|Hrank]]; [done..|]. pose proof (rank_bound (ss_refresher x)).
  destruct (sub_steps_preserved cfg n mk a b x y) as (a' & b' & Hinv' & _); [done..|by eapply paced_steps|].
  apply ready_iff. pose proof (xi_refresher _ _ _ _ Hinv') as Hr.
  assert (Hz : rank (ss_refresher y) = 0%nat) by lia.
  destruct (ss_refresher y) as [|g|g sn|st|]; cbn [rank] in Hz; try lia; try (destruct (_ <=? _); lia).
  cbn in Hr. destruct Hr; auto.
Qed.

End SubProgress.

(** ** A cancelled stream ends *)

Section Cancelled.
Context {R : RocksDB} {P : Protobuf} {F : PosixDir} {H : Host}.
Context {RS : RocksDBSpec} {PS : ProtobufSpec}.
Context (cfg : CoreConfig).

(** A stream whose call is cancelled, run for a number of steps. *)
Fixpoint run_cancelled (n : nat) (sm : Stream) : M CoreW Stream :=
  match n with
  | O => ret sm
  | S n => let! sm := stream_step cfg true true sm in run_cancelled n sm
  end.

(** The generation a stream waits for, or is about to. *)
Definition awaits (w : CoreW) (sm : Stream) : option Z :=
  match sm_phase sm with
  | PStart => Some (commit_generation w)
  | PStartWait g | PFetchWait g => Some g
  | _ => None
  end.

(** The messages of the batch in hand, and a page and a few steps more. *)
Definition cancel_bound (sm : Stream) : nat :=
  match sm_phase sm with PSend rest _ _ => length rest + 3 | _ => 104 end.

Definition ended (sm : Stream) : Prop := exists g, sm_phase sm = PDone g.

Abbreviation ends n sm w := (wp (run_cancelled n sm) (fun sm' _ => ended sm') w).

Lemma ends_done n sm w : ended sm -> ends n sm w.
Proof.
  revert w. induction n as [|n IH]; intros w Hd; [by apply wp_ret|]. cbn. apply wp_bind.
  destruct Hd as [g Hg]. unfold stream_step. rewrite Hg. apply wp_ret, IH. by exists g.
Qed.

Lemma ends_more n k sm w : (n <= k)%nat -> ends n sm w -> ends k sm w.
Proof.
  revert k sm w. induction n as [|n IH]; intros k sm w Hk; [intros Hd; by apply ends_done|].
  destruct k as [|k]; [lia|]. cbn. unfold wp, bind. destruct (stream_step _ _ _ sm w) as [sm' w'].
  apply IH. lia.
Qed.

Lemma ends_end_stream n sm s w : wp (end_stream cfg sm s) (fun sm' w' => ends n sm' w') w.
Proof.
  unfold end_stream, ToGrpcStatus. apply wp_bind, wp_bind. unfold wp at 1. rewrite run_HandleRpcStatus.
  apply wp_ret, wp_ret, ends_done. by eexists.
Qed.

Lemma ends_step n sm w :
  wp (stream_step cfg true true sm) (fun sm' w' => ends n sm' w') w -> ends (S n) sm w.
Proof. intros Hs. cbn [run_cancelled]. by apply wp_bind. Qed.

Lemma ends_loop sm w : sm_phase sm = PLoop -> ends 1 sm w.
Proof. intros E. apply ends_step. unfold stream_step. rewrite E. apply wp_ret, wp_ret. by eexists. Qed.

Lemma ends_idle sm ver w : sm_phase sm = PIdle ver -> ends 2 sm w.
Proof.
  intros E. apply ends_step. unfold stream_step. rewrite E. apply wp_bind. unfold wp at 1, get. cbn [orb].
  apply wp_ret. by apply ends_loop.
Qed.

Lemma ends_send rest sm batch ver w : sm_phase sm = PSend rest batch ver -> ends (length rest + 3) sm w.
Proof.
  revert sm w. induction rest as [|m rest IH]; intros sm w E; cbn [length Nat.add];
    apply ends_step; unfold stream_step; rewrite E; apply wp_ret; [|by apply IH].
  destruct (_ <? _); [by eapply ends_idle|]. apply (ends_more 1); [lia|]. by apply ends_loop.
Qed.

Lemma log_page_short b from limit vis :
  WF b -> 0 <= from -> 0 < limit ->
  Z.of_nat (length (fs_messages (log_page cfg b from limit vis))) <= limit.
Proof.
  intros Hwf Hf Hl. destruct (Z_lt_le_dec (a_max_seq b) from).
  - unfold log_page. rewrite (proj2 (Z.ltb_lt _ _)) by lia. cbn. lia.
  - by destruct (log_page_ok cfg b from limit vis Hwf) as (_ & _ & _ & ? & _).
Qed.

Lemma run_begin w :
  (do? EnsureAvailable in acquire_begin) w =
  (if fatal_error_triggered w
   then Err (mkStatus UNAVAILABLE "server is shutting down due to a fatal storage error")
   else Ok (commit_generation w), w).
Proof.
  unfold acquire_begin, EnsureAvailable, bind_ok, bind, get.
  by destruct (fatal_error_triggered w) eqn:E; cbn; rewrite ?E.
Qed.

(** A stream that waits for a snapshot that is there. *)
Lemma wp_acquired required sm (k : snap_t * Z -> M CoreW Stream) (Q : Stream -> CoreW -> Prop) w :
  acquire_ready required w = true -> (forall s, wp (end_stream cfg sm s) Q w) ->
  (forall s ver, subscription_snapshot (c_sub w) = Some s -> wp (k (s, ver)) Q w) ->
  wp (let! got := acquire required in
      match got with
      | None => ret sm
      | Some (Err s) => end_stream cfg sm s
      | Some (Ok x) => k x
      end) Q w.
Proof.
  intros Hr He Hk. apply wp_bind. unfold acquire, wp at 1, bind, get. rewrite Hr.
  unfold acquire_end, bind, get. destruct (_ && _); [apply He|].
  destruct (subscription_snapshot (c_sub w)) as [s|]; [by apply Hk|].
  destruct (fatal_error_triggered w); apply He.
Qed.

Section Ends.
Context (a b : AState) (w : CoreW) (Hwf : WF b) (Hmax : a_max_seq b < two64 - 1).
Context (Hsnap : forall s, subscription_snapshot (c_sub w) = Some s -> repr (snap_view s) b).

Lemma ends_start_wait g sm :
  subscribe_request_ok (sm_req sm) -> sm_phase sm = PStartWait g -> acquire_ready g w = true ->
  ends 2 sm w.
Proof using RS Hwf Hsnap.
  intros Hreq E Hg. apply ends_step. unfold stream_step. rewrite E.
  apply wp_acquired; [done|intros s; apply ends_end_stream|]. intros s ver Es. apply wp_bind.
  eapply calm_reads; [apply (CReads_subscription_max_seq cfg s b); [by apply Hsnap|done..]| |]; cbn beta.
  2:{ intros e w' _. apply ends_end_stream. }
  intros w' _. destruct (spec_subscriber b (sm_req sm)) as [[]|e]; [|apply ends_end_stream]. cbn [rbind].
  unfold accept. destruct (_ && _); apply wp_ret; [apply ends_done; by eexists|by apply ends_loop].
Qed.

Lemma ends_fetch_wait g sm :
  subscribe_request_ok (sm_req sm) -> sm_phase sm = PFetchWait g -> acquire_ready g w = true ->
  0 <= sm_next_seq sm -> ends 104 sm w.
Proof using RS Hwf Hmax Hsnap.
  intros Hreq E Hg Hn. apply ends_step. unfold stream_step. rewrite E.
  apply wp_acquired; [done|intros s; apply ends_end_stream|]. intros s ver Es. apply wp_bind.
  eapply calm_reads; [apply (CReads_subscription_batch cfg s b); [by apply Hsnap|done..]| |]; cbn beta.
  2:{ intros e w' _. apply ends_end_stream. }
  intros w' _. destruct (spec_subscriber b (sm_req sm)) as [[]|e]; [|apply ends_end_stream]. cbn [rbind].
  apply wp_ret. eapply ends_more; [|by eapply ends_send].
  pose proof (log_page_short b (sm_next_seq sm) 100 (visible_to b (sm_req sm)) Hwf). lia.
Qed.

Lemma cancelled_ends sm :
  stream_ok a b sm -> (forall g, awaits w sm = Some g -> acquire_ready g w = true) ->
  ends (cancel_bound sm) sm w.
Proof using RS Hwf Hmax Hsnap.
  intros [Hreq Hph] Hready. unfold cancel_bound, awaits in *.
  destruct (sm_phase sm) as [|g| |g|rest batch ver|ver|st] eqn:E.
  - apply (ends_more 3); [lia|]. apply ends_step. unfold stream_step. rewrite E. apply wp_bind.
    unfold wp at 1. rewrite run_begin. destruct (fatal_error_triggered w); [apply ends_end_stream|].
    apply wp_ret. eapply ends_start_wait; [done|done|]. by apply Hready.
  - apply (ends_more 2); [lia|]. eapply ends_start_wait; [done|done|]. by apply Hready.
  - apply (ends_more 1); [lia|]. by apply ends_loop.
  - eapply ends_fetch_wait; [done|done|by apply Hready|lia].
  - by eapply ends_send.
  - apply (ends_more 2); [lia|]. by eapply ends_idle.
  - apply ends_done. by exists st.
Qed.

End Ends.
End Cancelled.
