(* ===== verification/CatchUp.v ===== *)
(** * Streams catch up

    A stream that runs on a snapshot of the current state sends everything the
    request asks for and then waits, in a number of steps that the length of the log
    bounds; unless the request is refused there, or the storage fails and closes the
    server. *)

From stdpp Require Import relations.
From S2P Require Import Prelude Status Encoding Tokens Proto Json Platform Keys World FileStore.
From S2P Require Import Files Storage Core Commands Model Unique Reads Scan Spec SystemMessages Refine.
From S2P Require Import Handlers ChannelHandlers Invariant Queries Pages Startup Objects Services.
From S2P Require Import Effects Requests Concurrency Tracks Subscription SubInvariant Delivery SubProgress.

Section CatchUp.
Context {R : RocksDB} {P : Protobuf} {F : PosixDir} {H : Host}.
Context {RS : RocksDBSpec} {PS : ProtobufSpec}.
Context (cfg : CoreConfig) (Hscan : 0 < max_scan_records cfg).

(** A stream whose call is not cancelled and whose messages are written, for a number of steps. *)
Fixpoint run_stream (n : nat) (sm : Stream) : M CoreW Stream :=
  match n with
  | O => ret sm
  | S n => let! sm := stream_step cfg false true sm in run_stream n sm
  end.

(** The server is open and its snapshot is not older than the last commit. *)
Definition snapshot_current (w : CoreW) : bool :=
  negb (fatal_error_triggered w) && bool_decide (is_Some (subscription_snapshot (c_sub w))) &&
  status_ok (subscription_snapshot_status (c_sub w)) &&
  (commit_generation w <=? subscription_snapshot_generation (c_sub w)).

(** The stream has work to do: it does not wait for a newer snapshot, nor has it ended or a batch
    of an older snapshot in hand. *)
Definition asks (w : CoreW) (sm : Stream) : bool :=
  match sm_phase sm with
  | PStart | PLoop => true
  | PStartWait g | PFetchWait g => acquire_ready g w
  | PIdle version => WaitForSubscriptionSnapshot version w
  | PSend _ _ _ | PDone _ => false
  end.

Section Current.
Context (a : AState) (Hwf : WF a) (Hmax : a_max_seq a < two64 - 1).

Record current (w : CoreW) (s : snap_t) : Prop := {
  cu_current : snapshot_current w = true;
  cu_snapshot : subscription_snapshot (c_sub w) = Some s;
  cu_repr : repr (snap_view s) a
}.

(** How it ends: closed by a storage error, refused, out of range, or all sent. *)
Definition caught_up (sm : Stream) (w : CoreW) : Prop :=
  fatal_error_triggered w = true \/
  (exists e, spec_subscriber a (sm_req sm) = Err e /\ sm_phase sm = PDone (ToGrpc e)) \/
  (sm_phase sm = PDone (OUT_OF_RANGE, "from_seq exceeds max_seq + 1") /\ a_max_seq a + 1 < sq_from_seq (sm_req sm)) \/
  (exists v, sm_phase sm = PIdle v /\ sm_next_seq sm = a_max_seq a + 1).

Definition catches (n : nat) (sm : Stream) (w : CoreW) : Prop :=
  exists k, (k <= n)%nat /\ wp (run_stream k sm) caught_up w.

Lemma catches_now n sm w : caught_up sm w -> catches n sm w.
Proof. intros Hc. exists 0%nat. split; [lia|]. by apply wp_ret. Qed.

Lemma catches_more n m sm w : (n <= m)%nat -> catches n sm w -> catches m sm w.
Proof. intros Hn (k & Hk & Hc). exists k. split; [lia|done]. Qed.

Lemma catches_step n sm w : wp (stream_step cfg false true sm) (catches n) w -> catches (S n) sm w.
Proof.
  unfold wp. destruct (stream_step cfg false true sm w) as [sm' w'] eqn:E. intros (k & Hk & Hc).
  exists (S k). split; [lia|]. cbn [run_stream]. apply wp_bind. unfold wp at 1. by rewrite E.
Qed.

(** Calm steps leave the snapshot current, or the server closed. *)
Lemma current_calm w w' s : current w s -> calm w w' -> fatal_error_triggered w' = true \/ current w' s.
Proof.
  intros [Hc Hs Hr] (_ & [_ Hq] & Hg & _). destruct (fatal_error_triggered w') eqn:Ef; [by left|right].
  constructor; [|congruence|done]. revert Hc. unfold snapshot_current. rewrite Hq, Hg, Ef.
  by destruct (fatal_error_triggered w).
Qed.

Lemma current_open w s : current w s -> fatal_error_triggered w = false.
Proof. intros [Hc _ _]. unfold snapshot_current in Hc. by destruct (fatal_error_triggered w). Qed.

(** A read of a snapshot: its answer, or a storage error. *)
Lemma wp_snapshot_read {A} (m : RM CoreW A) r w (Q : Result A -> CoreW -> Prop) :
  CReads cfg m r -> (forall w', calm w w' -> Q r w') ->
  (forall e w', must_exit e = true -> Q (Err e) w') -> wp m Q w.
Proof.
  intros Hm Hok Herr. eapply wp_mono; [|apply Hm]. intros x w' [(-> & Hu & _)|(s & -> & Hf & Hv)].
  - apply Hok. by apply calm_unchanged.
  - apply Herr. destruct Hf as [Hf _]. unfold must_exit. by rewrite Hf.
Qed.

Lemma catches_failed n sm e w : must_exit e = true -> wp (end_stream cfg sm e) (catches n) w.
Proof.
  intros He. unfold end_stream, ToGrpcStatus. apply wp_bind, wp_bind. unfold wp at 1. rewrite run_HandleRpcStatus, He.
  apply wp_ret, wp_ret, catches_now. left. unfold trip. by destruct (fatal_error_triggered w) eqn:Ef.
Qed.

Lemma catches_refused n sm e w :
  spec_subscriber a (sm_req sm) = Err e -> wp (end_stream cfg sm e) (catches n) w.
Proof.
  intros He. unfold end_stream, ToGrpcStatus. apply wp_bind, wp_bind. unfold wp at 1. rewrite run_HandleRpcStatus.
  apply wp_ret, wp_ret, catches_now. right; left. by exists e.
Qed.

(** A wait that is over. *)
Lemma wp_current required sm (k : snap_t * Z -> M CoreW Stream) (Q : Stream -> CoreW -> Prop) w s :
  current w s -> acquire_ready required w = true -> (forall ver, wp (k (s, ver)) Q w) ->
  wp (let! got := acquire required in
      match got with
      | None => ret sm
      | Some (Err e) => end_stream cfg sm e
      | Some (Ok x) => k x
      end) Q w.
Proof.
  intros [Hc Hs _] Hr Hk. apply wp_bind. unfold acquire, wp at 1, bind, get. rewrite Hr.
  unfold acquire_end, bind, get. unfold snapshot_current in Hc. rewrite !andb_true_iff in Hc.
  destruct Hc as [[_ ->] _]. cbn [negb andb]. rewrite Hs. apply Hk.
Qed.

(** ** Sending a batch *)

Lemma catches_send n rest sm batch ver w :
  sm_phase sm = PSend rest batch ver ->
  (forall sent, catches n (MkStream (sm_req sm) (if fs_last_seq batch <? fs_next_seq batch then PIdle ver else PLoop)
     (fs_next_seq batch) (sm_accepted sm) sent) w) -> catches (length rest + S n) sm w.
Proof.
  revert sm w. induction rest as [|m rest IH]; intros sm w E Hend; cbn [length Nat.add];
    apply catches_step; unfold stream_step; rewrite E; apply wp_ret; [apply Hend|].
  by eapply IH.
Qed.

(** ** A page *)

Lemma page_next from req :
  0 <= from <= a_max_seq a + 1 ->
  let page := log_page cfg a from 100 (visible_to a req) in
  Z.of_nat (length (fs_messages page)) <= 100 /\ fs_last_seq page = a_max_seq a /\
  fs_next_seq page <= a_max_seq a + 1 /\ (fs_next_seq page = a_max_seq a + 1 \/ from < fs_next_seq page).
Proof using Hscan Hwf.
  intros Hf. cbv zeta. destruct (decide (from = a_max_seq a + 1)) as [->|Hne].
  - unfold log_page. rewrite (proj2 (Z.ltb_lt _ _)) by lia. cbn. split_and!; lia.
  - destruct (log_page_ok cfg a from 100 (visible_to a req) Hwf) as (_ & Hb & Hl & Hlen & Hp & _); [lia|done|].
    split_and!; [done|done|lia|right; by apply Hp].
Qed.

Lemma catches_fetch n g sm w s :
  current w s -> acquire_ready g w = true -> sm_phase sm = PFetchWait g -> subscribe_request_ok (sm_req sm) ->
  0 <= sm_next_seq sm <= a_max_seq a + 1 ->
  (forall sm' w', current w' s -> sm_phase sm' = PLoop -> sm_req sm' = sm_req sm ->
     sm_next_seq sm < sm_next_seq sm' <= a_max_seq a -> catches n sm' w') ->
  catches (102 + n) sm w.
Proof using RS Hscan Hwf Hmax.
  intros Hc Hg E Hreq Hn Hnext. apply (catches_step (101 + n)). unfold stream_step. rewrite E.
  apply (wp_current _ _ _ _ _ s); [done|done|]. intros ver. apply wp_bind.
  eapply wp_snapshot_read; [apply (CReads_subscription_batch cfg s a); [by apply Hc|done..|lia]| |]; cbn beta.
  2:{ intros e w' He. by apply catches_failed. }
  intros w' Hcalm. destruct (spec_subscriber a (sm_req sm)) as [[]|e] eqn:Es; cbn [rbind]; [|by apply catches_refused].
  apply wp_ret. destruct (current_calm w w' s Hc Hcalm) as [Hf|Hc']; [apply catches_now; by left|].
  destruct (page_next (sm_next_seq sm) (sm_req sm) Hn) as (Hlen & Hlast & Hle & Hprog).
  set (page := log_page cfg a (sm_next_seq sm) 100 (visible_to a (sm_req sm))) in *.
  eapply (catches_more (length (fs_messages page) + S n)); [lia|]. eapply catches_send; [done|]. intros sent.
  cbn [sm_req at_phase sm_accepted]. rewrite Hlast. destruct (Z.ltb_spec (a_max_seq a) (fs_next_seq page)) as [Hend|Hmore].
  - apply catches_now. right; right; right. exists ver. split; [done|]. cbn. lia.
  - apply Hnext; [done|done|done|]. cbn. lia.
Qed.

(** ** The loop *)

Lemma catches_next n sm w s :
  current w s -> sm_phase sm = PLoop -> subscribe_request_ok (sm_req sm) ->
  0 <= sm_next_seq sm <= a_max_seq a + 1 ->
  (forall sm' w', current w' s -> sm_phase sm' = PLoop -> sm_req sm' = sm_req sm ->
     sm_next_seq sm < sm_next_seq sm' <= a_max_seq a -> catches n sm' w') ->
  catches (103 + n) sm w.
Proof using RS Hscan Hwf Hmax.
  intros Hc E Hreq Hn Hnext. apply (catches_step (102 + n)). unfold stream_step. rewrite E. apply wp_bind.
  unfold wp at 1, acquire_begin, EnsureAvailable, bind_ok, bind, get. rewrite (current_open w s Hc). cbn [negb].
  apply wp_ret. eapply (catches_fetch n _ (at_phase sm _) w s); [done| |done..].
  destruct Hc as [Hcur _ _]. unfold snapshot_current in Hcur. apply andb_true_iff in Hcur as [_ Hge].
  unfold acquire_ready. rewrite Hge. by rewrite !orb_true_r.
Qed.

Lemma catches_loop N sm w s :
  current w s -> sm_phase sm = PLoop -> subscribe_request_ok (sm_req sm) ->
  0 <= sm_next_seq sm <= a_max_seq a + 1 -> (Z.to_nat (a_max_seq a + 1 - sm_next_seq sm) <= N)%nat ->
  catches (103 * (N + 1)) sm w.
Proof using RS Hscan Hwf Hmax.
  revert sm w. induction N as [|N IH]; intros sm w Hc E Hreq Hn HN.
  - apply (catches_next 0 sm w s); try done. intros; lia.
  - apply (catches_more (103 + 103 * (N + 1))); [lia|]. apply (catches_next _ sm w s); try done.
    intros sm' w' Hc' E' Er Hn'. apply IH; [done|done|by rewrite Er|lia|lia].
Qed.

(** ** From where it is *)

Definition first_seq (sm : Stream) : Z :=
  match sm_phase sm with PStart | PStartWait _ => sq_from_seq (sm_req sm) | _ => sm_next_seq sm end.

Definition catch_bound (sm : Stream) : nat := 103 * (Z.to_nat (a_max_seq a + 1 - first_seq sm) + 1) + 2.

Lemma catches_start_wait g sm w s :
  current w s -> acquire_ready g w = true -> sm_phase sm = PStartWait g -> subscribe_request_ok (sm_req sm) ->
  catches (103 * (Z.to_nat (a_max_seq a + 1 - sq_from_seq (sm_req sm)) + 1) + 1) sm w.
Proof using RS Hscan Hwf Hmax.
  intros Hc Hg E Hreq. set (N := Z.to_nat _). replace (103 * (N + 1) + 1)%nat with (S (103 * (N + 1))) by lia.
  apply catches_step. unfold stream_step. rewrite E. apply (wp_current _ _ _ _ _ s); [done|done|]. intros ver. apply wp_bind.
  eapply wp_snapshot_read; [apply (CReads_subscription_max_seq cfg s a); [by apply Hc|done..]| |]; cbn beta.
  2:{ intros e w' He. by apply catches_failed. }
  intros w' Hcalm. destruct (spec_subscriber a (sm_req sm)) as [[]|e] eqn:Es; cbn [rbind]; [|by apply catches_refused].
  destruct (current_calm w w' s Hc Hcalm) as [Hf|Hc'].
  { unfold accept. destruct (_ && _); apply wp_ret, catches_now; by left. }
  unfold accept. destruct (_ && _) eqn:Er; apply wp_ret.
  - apply catches_now. right; right; left. split; [done|]. apply andb_true_iff in Er as [?%Z.ltb_lt ?%Z.ltb_lt]. cbn. lia.
  - apply (catches_loop N _ w' s); try done. cbn.
    destruct Hreq as (_ & [? _] & _). apply andb_false_iff in Er as [?%Z.ltb_ge|?%Z.ltb_ge]; lia.
Qed.

Lemma stream_catches b sm w s :
  current w s -> stream_ok a b sm -> a_max_seq b <= a_max_seq a -> asks w sm = true -> catches (catch_bound sm) sm w.
Proof using RS Hscan Hwf Hmax.
  intros Hc [Hreq Hph] Hb Hask. unfold asks, catch_bound, first_seq in *.
  destruct (sm_phase sm) as [|g| |g|rest batch ver|ver|st] eqn:E; try done.
  - eapply catches_more; [|apply catches_step]. 2:{ unfold stream_step. rewrite E. apply wp_bind.
      unfold wp at 1. rewrite run_begin, (current_open w s Hc). apply wp_ret.
      apply (catches_start_wait (commit_generation w) (at_phase sm _) w s); [done| |done..].
      destruct Hc as [Hcur _ _]. unfold snapshot_current in Hcur. apply andb_true_iff in Hcur as [_ Hge].
      unfold acquire_ready. rewrite Hge. by rewrite !orb_true_r. }
    cbn [sm_req at_phase]. lia.
  - eapply catches_more; [|by eapply catches_start_wait]. lia.
  - eapply catches_more; [|eapply (catches_loop _ sm w s); [done..|lia|reflexivity]]. lia.
  - set (N := Z.to_nat _). apply (catches_more (102 + 103 * N)); [lia|]. apply (catches_fetch _ g sm w s); try done; [lia|].
    intros sm' w' Hc' E' Er Hn'. apply (catches_more (103 * ((N - 1) + 1))); [lia|].
    apply (catches_loop _ sm' w' s); [done|done|by rewrite Er|lia|lia].
  - eapply catches_more; [|apply catches_step]. 2:{ unfold stream_step. rewrite E. apply wp_bind. unfold wp at 1, get.
      rewrite Hask, orb_true_r. apply wp_ret. eapply (catches_loop _ (at_phase sm PLoop) w s); [done..|cbn; lia|reflexivity]. }
    cbn. lia.
Qed.

(** The stream keeps its invariant. *)
Lemma run_stream_ok b n sm w :
  WF b -> Extends b a -> a_max_seq b < two64 - 1 ->
  (forall s, subscription_snapshot (c_sub w) = Some s -> repr (snap_view s) b) -> stream_ok a b sm ->
  wp (run_stream n sm) (fun sm' w' => calm w w' /\ stream_ok a b sm') w.
Proof using RS.
  intros Hwfb Hx Hm. revert sm w. induction n as [|n IH]; intros sm w Hs Hok; cbn [run_stream]; [by apply wp_ret|].
  apply wp_bind. eapply wp_mono; [|by apply (stream_step_ok cfg a b w)]. intros sm' w1 [Hc Hok'].
  eapply wp_mono; [|apply IH; [|done]].
  - intros sm2 w2 [Hc2 Hok2]. split; [by etransitivity|done].
  - destruct Hc as (_ & [_ Hq] & _). by rewrite Hq.
Qed.

End Current.

Lemma end_stream_req sm e w : sm_req (end_stream cfg sm e w).1 = sm_req sm.
Proof. unfold end_stream, ToGrpcStatus, bind. rewrite run_HandleRpcStatus. done. Qed.

Lemma stream_step_req c wr sm w : sm_req (stream_step cfg c wr sm w).1 = sm_req sm.
Proof.
  unfold stream_step, acquire, accept, bind, get. destruct (sm_phase sm) as [|g| |g|[|m rest] batch ver|ver|st].
  all: repeat case_match; simplify_eq/=; try done; apply end_stream_req.
Qed.

Lemma run_stream_req n sm w : sm_req (run_stream n sm w).1 = sm_req sm.
Proof.
  revert sm w. induction n as [|n IH]; intros sm w; [done|]. cbn [run_stream]. unfold bind at 1.
  pose proof (stream_step_req false true sm w) as E. destruct (stream_step cfg false true sm w) as [sm' w'].
  rewrite IH. exact E.
Qed.

(** ** In the server *)

(** A snapshot that is not older than the last commit shows the state of the server. *)
Lemma SubInv_current mk a b x :
  SubInv mk a b x -> snapshot_current (ss_core x) = true -> exists s, current a (ss_core x) s /\ b = a.
Proof.
  intros [] Hc. pose proof xi_sys as []. pose proof Hc as Hc'. unfold snapshot_current in Hc'.
  rewrite !andb_true_iff in Hc'. destruct Hc' as [[[Ho%negb_true_iff Hs] _] Hg%Z.leb_le].
  apply bool_decide_eq_true in Hs as [s Hs]. cbv zeta in xi_generations.
  destruct (xi_snapshot s Hs) as [Hr Hwf _ _ Hcur]. rewrite Hcur in Hr by (done || lia).
  assert (b = a) as -> by (by eapply repr_inj). exists s. split; [|done].
  constructor; [done|done|]. by rewrite Hcur by (done || lia).
Qed.

End CatchUp.
