(* ===== verification/History.v ===== *)
(** * Histories of a run

    What a stream is given was stored at a moment of the run.  A history is the
    list of the states a run passes through; the snapshot the streams read shows
    the state of one of them, of one not older than a commit if its generation is
    not older; and a message a stream has sent was stored at one of them, where the
    subscriber held its credential and could read the channel. *)

From stdpp Require Import relations.
From S2P Require Import Prelude Status Encoding Tokens Proto Json Platform Keys World FileStore.
From S2P Require Import Files Storage Core Commands Model Unique Reads Scan Spec SystemMessages Refine.
From S2P Require Import Handlers ChannelHandlers Invariant Queries Pages Startup Objects Services.
From S2P Require Import Effects Requests Concurrency Tracks Subscription SubInvariant Delivery.

(** ** Who may be sent a message *)

(** A channel that a principal may read: the system channel, or a stored one open to it. *)
Definition may_read (b : AState) (principal channel_id : Z) : Prop :=
  channel_id = 0 \/ exists c, a_channels b !! channel_id = Some c /\ open_to c principal.

(** On the state [b] the message is in the log, the credential of the request is valid, the
    channels it names and the channel of the message may be read, and the message is one of
    those it asks for. *)
Record entitled (b : AState) (req : SubscribeRequest) (m : EventMessage) : Prop := {
  en_logged : m ∈ a_log b;
  en_credential : (sq_principal req, sq_token req) ∈ a_tokens b;
  en_requested : forall id, id ∈ sq_channels req -> may_read b (sq_principal req) id;
  en_readable : may_read b (sq_principal req) (em_channel_id m);
  en_channel : sq_channels req = [] \/ em_channel_id m ∈ sq_channels req;
  en_recipient : sq_only_my_recipient req = true -> sq_principal req ∈ em_recipients m
}.

Section History.
Context {R : RocksDB} {P : Protobuf} {F : PosixDir} {H : Host}.
Context {RS : RocksDBSpec} {PS : ProtobufSpec} {HS : HostSpec} {FS : PosixDirSpec}.
Context (cfg : CoreConfig).

Lemma readable_may_read b principal id : WF b -> readable b principal id = true -> may_read b principal id.
Proof.
  intros Hwf. unfold readable, may_read, spec_channel. destruct (Z.eqb_spec id 0) as [->|Hne]; [by left|].
  destruct (a_channels b !! id) as [c|] eqn:E; [|done]. intros Hc. right. exists c. split; [done|].
  destruct (wf_channel_id b _ _ Hwf E) as [Hid _]. apply CanRead_open in Hc; [done|congruence].
Qed.

(** What the server checks makes the subscriber entitled. *)
Lemma visible_entitled b req m :
  WF b -> m ∈ a_log b -> spec_subscriber b req = Ok tt -> visible_to b req m = true -> entitled b req m.
Proof.
  intros Hwf Hm Hs Hv. apply rbind_ok in Hs as ([] & Ha & Hs).
  apply andb_true_iff in Hv as [[Hc Hr]%andb_true_iff Ho]. constructor.
  - done.
  - clear Hc Hr Ho. unfold spec_authenticate in Ha. destruct (_ =? 0); [done|]. destruct (str_empty _); [done|].
    by case_bool_decide.
  - intros id Hid. apply readable_may_read; [done|]. by eapply spec_readable_channels_ok.
  - by apply readable_may_read.
  - apply orb_true_iff in Hc as [Hc|Hc]; apply bool_decide_eq_true in Hc; [left|right].
    + destruct (sq_channels req) as [|i l]; [done|]. exfalso. assert (Hi : i ∈ (list_to_set (i :: l) : gset Z)) by set_solver.
      rewrite Hc in Hi. by apply elem_of_empty in Hi.
    + by apply elem_of_list_to_set in Hc.
  - intros E. rewrite E in Ho. cbn in Ho. unfold HasRecipient, Contains in Ho. by apply bool_decide_eq_true in Ho.
Qed.

(** A message of a channel open to everyone that the request asks for. *)
Definition asked_for (a : AState) (req : SubscribeRequest) (m : EventMessage) : Prop :=
  (sq_channels req = [] \/ em_channel_id m ∈ sq_channels req) /\
  (em_channel_id m = 0 \/ exists c, a_channels a !! em_channel_id m = Some c /\
     (ci_visibility c = VISIBILITY_PUBLIC \/ ci_visibility c = VISIBILITY_PROTECTED)) /\
  (sq_only_my_recipient req = true -> sq_principal req ∈ em_recipients m).

Lemma asked_wanted a req m : asked_for a req m -> wanted a req m = true.
Proof.
  intros (Hc & Ho & Hr). unfold wanted. rewrite !andb_true_iff, !orb_true_iff, !bool_decide_eq_true.
  split_and!; [done| |].
  - unfold open_channel, spec_channel. destruct Ho as [->|(c & Hch & Hv)]; [done|].
    destruct (em_channel_id m =? 0); [done|]. rewrite Hch, !orb_true_iff, !bool_decide_eq_true. naive_solver.
  - destruct (sq_only_my_recipient req); [right|by left]. unfold HasRecipient, Contains.
    apply bool_decide_eq_true. auto.
Qed.

(** ** Histories *)

(** The states a run passes through, first and last included. *)
Inductive history : list SubSys -> SubSys -> SubSys -> Prop :=
  | History_start x : history [x] x x
  | History_step tr x y z : history tr x y -> sub_step cfg y z -> history (tr ++ [z]) x z.

(** Every run has one. *)
Lemma history_cons tr x y z : sub_step cfg x y -> history tr y z -> history (x :: tr) x z.
Proof.
  intros Hs Hh. induction Hh as [y|tr y u v _ IH Hv].
  - apply (History_step [x] x x y); [constructor|done].
  - apply (History_step (x :: tr) x u v); [by apply IH|done].
Qed.

Lemma history_of_steps n x y :
  nsteps (sub_step cfg) n x y -> exists tr, history tr x y /\ length tr = S n.
Proof.
  induction 1 as [x|n x y z Hs _ (tr & Hh & Hl)]; [exists [x]; split; [constructor|done]|].
  exists (x :: tr). split; [by apply (history_cons tr x y z)|cbn; lia].
Qed.

(** A state the server was in at a moment of the history, not before the state [a]. *)
Definition during (a : AState) (tr : list SubSys) (b : AState) : Prop :=
  exists z, z ∈ tr /\ SysInv b (ss_sys z) /\ Extends a b.

Lemma during_app_l a tr tr' b : during a tr b -> during a (tr ++ tr') b.
Proof. intros (z & Hz & ?). exists z. split; [|done]. apply elem_of_app. by left. Qed.

Lemma during_app_r a tr tr' b : during a tr' b -> during a (tr ++ tr') b.
Proof. intros (z & Hz & ?). exists z. split; [|done]. apply elem_of_app. by right. Qed.

Lemma during_extends a a' tr b : Extends a a' -> during a' tr b -> during a tr b.
Proof. intros Hx (z & Hz & Hs & Hb). exists z. split_and!; [done|done|by etransitivity]. Qed.

(** ** Where snapshots come from *)

Section Taken.
Context (g0 : Z).

(** The snapshot shows one of the states [V]. *)
Definition recorded (V : AState -> Prop) (s : snap_t) : Prop :=
  exists b, V b /\ WF b /\ repr (snap_view s) b.

(** So do the snapshot in place and the one the refresher holds, if they were taken for the
    generation [g0] or a later one. *)
Record Taken (V : AState -> Prop) (x : SubSys) : Prop := {
  tk_snapshot : forall s, subscription_snapshot (c_sub (ss_core x)) = Some s ->
    g0 <= subscription_snapshot_generation (c_sub (ss_core x)) -> recorded V s;
  tk_refresher : forall g s, ss_refresher x = RSnapped g (Ok s) -> g0 <= g -> recorded V s
}.

Lemma recorded_mono (V V' : AState -> Prop) s : (forall b, V b -> V' b) -> recorded V s -> recorded V' s.
Proof. intros HV (b & Hb & ?). exists b. split; [by apply HV|done]. Qed.

Lemma Taken_mono (V V' : AState -> Prop) x : (forall b, V b -> V' b) -> Taken V x -> Taken V' x.
Proof.
  intros HV []. constructor; intros; eapply recorded_mono; eauto.
Qed.

Lemma Taken_same (V : AState -> Prop) x y :
  Taken V x -> ss_refresher y = ss_refresher x ->
  subscription_snapshot (c_sub (ss_core y)) = subscription_snapshot (c_sub (ss_core x)) ->
  subscription_snapshot_generation (c_sub (ss_core y)) = subscription_snapshot_generation (c_sub (ss_core x)) ->
  Taken V y.
Proof. intros [] E1 E2 E3. constructor; rewrite ?E1, ?E2, ?E3; done. Qed.

(** The refresher takes its snapshots of the current state. *)
Lemma taken_refresh (V : AState -> Prop) a x :
  SysInv a (ss_sys x) -> V a -> Taken V x ->
  wp (refresh cfg (ss_refresher x)) (fun r' w' =>
    Taken V (MkSubSys (with_core x w') r' (ss_service x) (ss_streams x))) (ss_core x).
Proof using RS.
  intros Hsys HV [Hs Hr]. destruct x as [[w ws] r e strs]. unfold ss_core in *. cbn in *.
  assert (Hkeep : forall r' w', c_sub w' = c_sub w -> (forall g s, r' <> RSnapped g (Ok s)) ->
    Taken V (MkSubSys (MkSys w' ws) r' e strs)).
  { intros r' w' E Hn. constructor; unfold ss_core; cbn; [rewrite E; exact Hs|]. intros g s Eg. by destruct (Hn g s). }
  destruct r as [|g|g sn|st|]; cbn [refresh].
  - apply wp_bind. unfold wp at 1, get. destruct (_ || _); [|destruct (_ && _)]; apply wp_ret; by apply Hkeep.
  - apply wp_bind, (calm_CreateSnapshot cfg).
    + intros s w' (_ & [_ E] & _) Hv. apply wp_ret. constructor; unfold ss_core; cbn; [rewrite E; exact Hs|].
      intros g' s' [= <- <-] _. destruct Hsys. exists a. rewrite Hv. by split_and!.
    + intros err w' (_ & [_ E] & _) _. apply wp_ret. by apply Hkeep.
  - apply wp_bind. unfold wp at 1, get. destruct (fatal_error_triggered w); [by apply wp_ret, Hkeep|].
    apply wp_bind. unfold wp at 1, modify. destruct sn as [s|err]; cbn.
    + apply wp_ret. constructor; unfold ss_core; cbn; [|done]. intros s' [= <-] Hg. by eapply Hr.
    + destruct (requires_server_exit err); apply wp_ret; (constructor; unfold ss_core; cbn; [exact Hs|done]).
  - apply wp_FatalStorageError, wp_ret, Hkeep; [|done]. by destruct (trip_quiet cfg st w) as ([_ E] & _).
  - by apply wp_ret, Hkeep.
Qed.

(** Every step. *)
Lemma taken_step (V : AState -> Prop) mk a b x x' :
  SubInv mk a b x -> Budget 1 a -> commit_generation (ss_core x) < two64 - 1 -> sub_step cfg x x' ->
  V a -> Taken V x -> Taken V x'.
Proof using FS HS PS RS.
  intros Hinv Hb Hg Hstep HV Ht. pose proof Hinv as [].
  destruct Hstep as [x sys' Hs|x r' w' Hrun|x i req e' Hreq Hi He|x i sm c wr sm' w' Hi Hrun
    |x i sm st Hi Hph|x|x Hnone]; try (by apply (Taken_same V x)).
  - destruct (tracked_advances (ss_core x) (sys_core sys')) as [(E & _) _]; [lia|by eapply step_tracked|].
    apply (Taken_same V x); unfold ss_core in *; cbn; by rewrite ?E.
  - eapply wp_run in Hrun; [|by apply (taken_refresh V a x)]. exact Hrun.
  - assert (Hw : wp (stream_step cfg c wr sm) (fun sm' w' => calm (ss_core x) w' /\ stream_ok a b sm') (ss_core x)).
    { destruct xi_old as [? ?]. pose proof (Extends_max_seq b a ltac:(done)).
      apply stream_step_ok; [done|done|unfold Budget in Hb; lia| |by eapply xi_streams].
      intros s E. apply (sh_repr _ _ _ _ _ _ (xi_snapshot s E)). }
    eapply wp_run in Hw as [(_ & [_ E] & _) _]; [|exact Hrun].
    apply (Taken_same V x); unfold ss_core in *; cbn; by rewrite ?E.
Qed.

End Taken.
(** ** What was sent *)

(** The messages of the batch in hand that are still to be sent. *)
Definition unsent (sm : Stream) : list EventMessage :=
  match sm_phase sm with PSend rest _ _ => rest | _ => [] end.

Definition sent_ok (V : AState -> Prop) (sm : Stream) : Prop :=
  forall m, m ∈ sm_sent sm ++ unsent sm -> exists b, V b /\ entitled b (sm_req sm) m.

Definition Sent (V : AState -> Prop) (x : SubSys) : Prop :=
  forall i sm, ss_streams x !! i = Some sm -> sent_ok V sm.

Lemma sent_mono (V V' : AState -> Prop) sm : (forall b, V b -> V' b) -> sent_ok V sm -> sent_ok V' sm.
Proof. intros HV Hs m Hm. destruct (Hs m Hm) as (b & Hb & ?). exists b. split; [by apply HV|done]. Qed.

(** A stream that sends nothing, whether or not it drops its batch. *)
Lemma sent_less (V : AState -> Prop) sm sm' :
  sent_ok V sm -> sm_req sm' = sm_req sm -> sm_sent sm' = sm_sent sm -> unsent sm' = [] -> sent_ok V sm'.
Proof.
  intros Hs Er Es Eu m Hm. rewrite Er. apply Hs. rewrite Es, Eu, app_nil_r in Hm. apply elem_of_app. by left.
Qed.

Lemma wp_end_sent (V : AState -> Prop) sm s w :
  sent_ok V sm -> wp (end_stream cfg sm s) (fun sm' _ => sent_ok V sm') w.
Proof.
  intros Hs. unfold end_stream, ToGrpcStatus. apply wp_bind, wp_bind. unfold wp at 1.
  rewrite run_HandleRpcStatus. apply wp_ret, wp_ret. by apply (sent_less V sm).
Qed.

(** A page holds messages of the log that are visible. *)
Lemma page_entitled b req next m :
  WF b -> 0 <= next -> spec_subscriber b req = Ok tt ->
  m ∈ fs_messages (log_page cfg b next 100 (visible_to b req)) -> entitled b req m.
Proof.
  intros Hwf H0 Hs Hm. destruct (decide (a_max_seq b < next)) as [Hlt|Hge].
  - unfold log_page in Hm. rewrite (proj2 (Z.ltb_lt _ _)) in Hm by done. cbn in Hm. by apply elem_of_nil in Hm.
  - destruct (log_page_ok cfg b next 100 (visible_to b req) Hwf) as (E & _); [lia|done|]. rewrite E in Hm.
    apply list_elem_of_In, filter_In in Hm as [Hm Hv]. apply list_elem_of_In in Hm.
    apply log_range_elem in Hm as [Hm _]; [|done|done]. by apply visible_entitled.
Qed.

Section SentStep.
Context (V : AState -> Prop) (w : CoreW).
Context (Hsnap : forall s, subscription_snapshot (c_sub w) = Some s ->
  exists b, V b /\ WF b /\ a_max_seq b < two64 - 1 /\ repr (snap_view s) b).

Lemma wp_acquire_sent sm required (k : snap_t * Z -> M CoreW Stream) :
  sent_ok V sm ->
  (forall s ver b, V b -> WF b -> a_max_seq b < two64 - 1 -> repr (snap_view s) b ->
     wp (k (s, ver)) (fun sm' _ => sent_ok V sm') w) ->
  wp (let! got := acquire required in
      match got with
      | None => ret sm
      | Some (Err s) => end_stream cfg sm s
      | Some (Ok x) => k x
      end) (fun sm' _ => sent_ok V sm') w.
Proof using Hsnap.
  intros Hsm Hk. apply wp_bind. unfold acquire, wp at 1, bind, get.
  destruct (acquire_ready required w); [|by apply wp_ret].
  unfold acquire_end, bind, get. destruct (_ && _); [by apply wp_end_sent|].
  destruct (subscription_snapshot (c_sub w)) as [s|] eqn:E.
  - destruct (Hsnap s eq_refl) as (b & ? & ? & ? & ?). by eapply Hk.
  - destruct (fatal_error_triggered w); by apply wp_end_sent.
Qed.

(** A step sends a message of the batch in hand, or reads a new batch from the snapshot. *)
Lemma sent_stream_step cancelled written sm :
  subscribe_request_ok (sm_req sm) ->
  (forall g, sm_phase sm = PFetchWait g -> 0 <= sm_next_seq sm) ->
  sent_ok V sm -> wp (stream_step cfg cancelled written sm) (fun sm' _ => sent_ok V sm') w.
Proof using FS HS PS RS Hsnap.
  intros Hreq Hnext Hsm. unfold stream_step. destruct sm as [req ph next acc sent]. cbn in Hreq, Hnext.
  cbn [sm_req sm_phase sm_next_seq sm_accepted sm_sent].
  assert (Hbegin : forall k : Z -> Stream, (forall g, sent_ok V (k g)) ->
    wp (let! required := acquire_begin in
        match required with Err s => end_stream cfg (MkStream req ph next acc sent) s | Ok g => ret (k g) end)
       (fun sm' _ => sent_ok V sm') w).
  { intros k Hk. apply wp_bind. unfold acquire_begin, EnsureAvailable, bind_ok, bind, get, wp at 1.
    destruct (fatal_error_triggered w); [by apply wp_end_sent|]. by apply wp_ret. }
  destruct ph as [|g| |g|[|m rest] batch ver|ver|st].
  - specialize (Hbegin (fun g => at_phase (MkStream req PStart next acc sent) (PStartWait g))
      ltac:(intros g; by apply (sent_less V _ _ Hsm))).
    unfold acquire_begin, EnsureAvailable, wp, bind_ok, bind, get in *.
    destruct (fatal_error_triggered w) eqn:E; cbn in *; [|rewrite E in *]; exact Hbegin.
  - apply wp_acquire_sent; [done|]. intros s ver b HV Hwf Hmax Hr. apply wp_bind.
    eapply calm_reads; [by apply (CReads_subscription_max_seq cfg s b)| |]; cbn beta.
    2:{ intros e w' _. by apply wp_end_sent. }
    intros w' _. destruct (spec_subscriber b req) as [[]|e]; cbn; [|by apply wp_end_sent].
    unfold accept. destruct (_ && _); apply wp_ret; by apply (sent_less V _ _ Hsm).
  - destruct cancelled; [apply wp_ret; by apply (sent_less V _ _ Hsm)|].
    apply Hbegin. intros g. by apply (sent_less V _ _ Hsm).
  - apply wp_acquire_sent; [done|]. intros s ver b HV Hwf Hmax Hr. apply wp_bind.
    eapply calm_reads; [apply (CReads_subscription_batch cfg s b); [done..|by eapply Hnext]| |]; cbn beta.
    2:{ intros e w' _. by apply wp_end_sent. }
    intros w' _. destruct (spec_subscriber b req) as [[]|e] eqn:E; cbn; [|by apply wp_end_sent].
    apply wp_ret. intros m [Hm|Hm]%elem_of_app.
    + apply Hsm. apply elem_of_app. by left.
    + exists b. split; [done|]. eapply page_entitled; [done| |done|exact Hm]. by eapply Hnext.
  - apply wp_ret. apply (sent_less V _ _ Hsm); [done|done|]. unfold unsent. cbn. by destruct (_ <? _).
  - destruct written; apply wp_ret; [|by apply (sent_less V _ _ Hsm)].
    intros m' Hm'. apply Hsm. cbn in *. by rewrite <- app_assoc in Hm'.
  - apply wp_bind. unfold wp at 1, get. destruct (_ || _); apply wp_ret; [by apply (sent_less V _ _ Hsm)|done].
  - by apply wp_ret.
Qed.

End SentStep.

(** The snapshot in place, in terms of the invariant of the streams. *)
Lemma taken_shown (V : AState -> Prop) mk a b x s :
  SubInv mk a b x -> Budget 1 a -> Taken 0 V x -> subscription_snapshot (c_sub (ss_core x)) = Some s ->
  exists c, V c /\ WF c /\ a_max_seq c < two64 - 1 /\ repr (snap_view s) c.
Proof.
  intros [] Hb [Hs _] E. cbv zeta in xi_generations. destruct (Hs s E) as (c & HV & Hwf & Hr); [lia|].
  destruct (xi_snapshot s E) as [Hr' Hwf' Hx _ _]. pose proof (repr_inj _ _ _ Hr Hr' Hwf Hwf') as ->.
  apply Extends_max_seq in Hx. exists b. split_and!; try done. unfold Budget in Hb. lia.
Qed.

Lemma sent_step (V : AState -> Prop) mk a b x x' :
  SubInv mk a b x -> Budget 1 a -> sub_step cfg x x' -> Taken 0 V x -> Sent V x -> Sent V x'.
Proof using FS HS PS RS.
  intros Hinv Hb Hstep Ht Hsent. pose proof Hinv as [].
  destruct Hstep as [x sys' Hs|x r' w' Hrun|x i req e' Hreq Hi He|x i sm c wr sm' w' Hi Hrun
    |x i sm st Hi Hph|x|x Hnone]; try done.
  - intros j sm. cbn. intros [[<- <-]|[_ Hj]]%lookup_insert_Some; [|by eapply Hsent]. by intros m ?%elem_of_nil.
  - destruct (xi_streams i sm Hi) as [Hreq Hph].
    eapply wp_run in Hrun; [|apply (sent_stream_step V (ss_core x)); [|done| |by eapply Hsent]].
    + intros j sm0. cbn. intros [[<- <-]|[_ Hj]]%lookup_insert_Some; [done|by eapply Hsent].
    + intros s E. by eapply taken_shown.
    + intros g E. rewrite E in Hph. by apply Hph.
  - intros j sm0. cbn. intros [_ Hj]%lookup_delete_Some. by eapply Hsent.
Qed.

(** ** Through a history *)

Lemma history_states tr x y : history tr x y -> exists tr', tr = tr' ++ [y].
Proof. destruct 1 as [x|tr x y z _ _]; [by exists []|by exists tr]. Qed.

Lemma history_first tr x y : history tr x y -> exists tr', tr = x :: tr'.
Proof. induction 1 as [x|tr x y z _ [tr' ->] _]; [by exists []|]. by exists (tr' ++ [z]). Qed.

(** What the sent messages of a stream are a part of. *)
Lemma sent_delivered a b sm :
  stream_ok a b sm -> exists next rest, delivered a (sm_req sm) next (sm_sent sm ++ rest).
Proof.
  intros [_ Hph]. destruct (sm_phase sm) as [| | | |rest batch ver| |]; try done.
  1,2: destruct Hph as [-> _]; exists (sq_from_seq (sm_req sm)), []; constructor.
  1,2,4: destruct Hph as [Hd _]; eexists _, []; rewrite app_nil_r; exact Hd.
  destruct Hph as [Hd _]. by eexists _, rest.
Qed.

(** Every state of a run is a moment of its history. *)
Lemma history_invariant k tr mk a b x y :
  0 <= k -> SubInv mk a b x -> Budget (Z.of_nat (length tr) + k) a ->
  commit_generation (ss_core x) + Z.of_nat (length tr) + k < two64 -> history tr x y ->
  exists a' b', SubInv mk a' b' y /\ Extends a a' /\ Budget k a' /\
    commit_generation (ss_core x) <= commit_generation (ss_core y) /\
    commit_generation (ss_core y) + k < two64 /\
    forall g0 (V0 V : AState -> Prop), (forall c, V0 c \/ during a tr c -> V c) ->
      Taken g0 V0 x -> Taken g0 V y /\ (g0 = 0 -> Sent V0 x -> Sent V y).
Proof using FS HS PS RS.
  intros Hk Hinv Hb Hg Hh. revert k Hk Hb Hg.
  induction Hh as [x|tr x y z Hh IH Hstep]; intros k Hk Hb Hg.
  { exists a, b. cbn in Hb, Hg. split_and!; try done; [eapply Budget_mono; [|exact Hb]; lia|lia|].
    intros g0 V0 V HV Ht. split; [eapply Taken_mono; [|exact Ht]; auto|].
    intros -> Hs i sm Hi. eapply sent_mono; [|by eapply Hs]. auto. }
  rewrite length_app in Hb, Hg. cbn in Hb, Hg.
  destruct (IH Hinv (k + 1)) as (a1 & b1 & Hinv1 & Hx1 & Hb1 & Hle1 & Hg1 & Hall); [lia| |lia|].
  { eapply Budget_mono; [|exact Hb]. lia. }
  assert (Hone : Budget 1 a1) by (eapply Budget_mono; [|exact Hb1]; lia).
  destruct (sub_step_preserved cfg mk a1 b1 y z) as (a2 & b2 & Hinv2 & Hx2 & _ & Hbd & Hg2); [done|done|lia|done|].
  exists a2, b2. split_and!; [done|by etransitivity| |lia|lia|].
  { eapply Budget_step; [|exact Hbd]. done. }
  intros g0 V0 V HV Ht.
  assert (HV' : forall c, V0 c \/ during a tr c -> V c).
  { intros c [?|?]; apply HV; [by left|right; by apply during_app_l]. }
  destruct (Hall g0 V0 V HV' Ht) as [Ht1 Hs1].
  assert (Ha1 : V a1).
  { apply HV. right. apply during_app_l. exists y. split_and!; [|apply Hinv1|done].
    destruct (history_states _ _ _ Hh) as [tr' ->]. apply elem_of_app. right. by left. }
  split; [by eapply taken_step; [exact Hinv1|done|lia|done|..]|].
  intros -> Hs. eapply sent_step; [exact Hinv1|done|done|done|by apply Hs1].
Qed.

(** ** The start, and the moment of a request *)

Lemma construct_refresher st : (construct cfg st).1 ∈ [RWaiting; RStopped].
Proof.
  assert (Hend : forall (m : M CoreW unit) w,
    (bind m (fun _ => let! w := get in ret (if fatal_error_triggered w then RStopped else RWaiting)) w).1
      ∈ [RWaiting; RStopped]).
  { intros m w. unfold bind, get, ret. destruct (m w) as [[] w']. cbn.
    destruct (fatal_error_triggered w'); [apply list_elem_of_further|]; apply list_elem_of_here. }
  unfold construct, start_subscriptions. unfold bind at 1.
  destruct (storage CreateSnapshot (unstarted st)) as [sn w1]. apply Hend.
Qed.

(** The first snapshot shows the state the core was constructed on. *)
Lemma Taken_construct a st r0 w0 :
  SysInv a (MkSys (unstarted st) ∅) -> construct cfg st = (r0, w0) ->
  let x := MkSubSys (MkSys w0 ∅) r0 (MkEventService ∅ false) ∅ in
  SubInv (a, 0) a a x /\ commit_generation w0 = 0 /\ Taken 0 (eq a) x /\ Sent (eq a) x.
Proof using RS.
  intros Hsys Hc x. destruct (wp_run _ _ _ _ _ (SubInv_construct cfg a st Hsys) Hc) as [Hinv Hg].
  pose proof (construct_refresher st) as Hr. rewrite Hc in Hr. cbn in Hr.
  split_and!; [done|done| |]; [|intros i sm; cbn; by intros ?%lookup_empty_Some].
  constructor.
  - intros s E _. destruct Hinv. destruct (xi_snapshot s E). by exists a.
  - intros g s E. cbn in E. rewrite E in Hr. by apply elem_of_cons in Hr as [?|?%list_elem_of_singleton].
Qed.

(** While the server is open, a snapshot of the current generation shows the current state. *)
Lemma Taken_now mk a b x :
  SubInv mk a b x -> fatal_error_triggered (ss_core x) = false ->
  Taken (commit_generation (ss_core x)) (eq a) x.
Proof.
  intros [] Hopen. cbv zeta in xi_generations. pose proof (si_repr _ _ xi_sys) as Hr.
  pose proof (si_wf _ _ xi_sys) as Hwf. constructor.
  - intros s E Hg. destruct (xi_snapshot s E). exists a. split_and!; [done|done|].
    rewrite sh_current; [done|done|lia].
  - intros g s E Hg. rewrite E in xi_refresher. destruct xi_refresher as (Hb & b' & [] & _). cbv zeta in Hb.
    exists a. split_and!; [done|done|]. rewrite sh_current; [done|done|lia].
Qed.

End History.
