(* ===== verification/Snapshots.v ===== *)
(** * Ownership of snapshots (class ReadSnapshot of src/storage/unified_storage.cpp)

    RocksDB keeps a snapshot until it is released.  A [ReadSnapshot] owns one: it is
    moved from object to object and releases the snapshot when it is reset,
    overwritten or destroyed.  The model is the store of the living objects, by
    address; a snapshot is known by the call that made it. *)

From stdpp Require Import relations.
From S2P Require Import Prelude.

(** A null pointer is [None]. *)
Record ReadSnapshot := MkReadSnapshot { owner_ : option Z; snapshot_ : option nat }.

Definition empty_snapshot : ReadSnapshot := MkReadSnapshot None None.

(** [sh_made] has the storage of every snapshot RocksDB made, [sh_held] those it still keeps,
    [sh_released] the calls of [ReleaseSnapshot] in order. *)
Record SnapStore := MkSnapStore {
  sh_objects : gmap Z ReadSnapshot;
  sh_made : list Z;
  sh_held : gset nat;
  sh_released : list (Z * nat)
}.

Definition set_object (a : Z) (r : ReadSnapshot) (h : SnapStore) : SnapStore :=
  MkSnapStore (<[a := r]> (sh_objects h)) (sh_made h) (sh_held h) (sh_released h).

Definition ReleaseSnapshot (owner : Z) (s : nat) (h : SnapStore) : SnapStore :=
  MkSnapStore (sh_objects h) (sh_made h) (sh_held h ∖ {[s]}) (sh_released h ++ [(owner, s)]).

Definition object (a : Z) (h : SnapStore) : ReadSnapshot :=
  default empty_snapshot (sh_objects h !! a).

Definition Reset (this : Z) (h : SnapStore) : SnapStore :=
  let h := match owner_ (object this h), snapshot_ (object this h) with
           | Some owner, Some s => ReleaseSnapshot owner s h
           | _, _ => h
           end in
  set_object this empty_snapshot h.

(** [CreateSnapshot] of a storage, its result constructed at [this]. *)
Definition make_snapshot (owner : Z) (this : Z) (h : SnapStore) : SnapStore :=
  let s := length (sh_made h) in
  MkSnapStore (<[this := MkReadSnapshot (Some owner) (Some s)]> (sh_objects h))
    (sh_made h ++ [owner]) ({[s]} ∪ sh_held h) (sh_released h).

(** Both fields are exchanged with null. *)
Definition exchange (this other : Z) (h : SnapStore) : SnapStore :=
  set_object other empty_snapshot (set_object this (object other h) h).

Definition move_construct (this other : Z) (h : SnapStore) : SnapStore := exchange this other h.

Definition move_assign (this other : Z) (h : SnapStore) : SnapStore :=
  if bool_decide (this = other) then h else exchange this other (Reset this h).

Definition destroy (this : Z) (h : SnapStore) : SnapStore :=
  let h := Reset this h in
  MkSnapStore (delete this (sh_objects h)) (sh_made h) (sh_held h) (sh_released h).

Definition living (a : Z) (h : SnapStore) : Prop := is_Some (sh_objects h !! a).

Inductive snap_step : SnapStore -> SnapStore -> Prop :=
  | N_default a h : ~ living a h -> snap_step h (set_object a empty_snapshot h)
  | N_make owner a h : ~ living a h -> snap_step h (make_snapshot owner a h)
  | N_move a b h : ~ living a h -> living b h -> snap_step h (move_construct a b h)
  | N_assign a b h : living a h -> living b h -> snap_step h (move_assign a b h)
  | N_destroy a h : living a h -> snap_step h (destroy a h).

Definition no_snapshots : SnapStore := MkSnapStore ∅ [] ∅ [].

(** ** The invariant *)

(** An object at [a] owns the snapshot. *)
Definition owns (h : SnapStore) (a : Z) (s : nat) : Prop := snapshot_ (object a h) = Some s.

Record snap_ok (h : SnapStore) : Prop := {
  (** Owner and snapshot are null together; the owner is the storage that made it. *)
  sn_paired a : match snapshot_ (object a h) with
                | Some s => owner_ (object a h) = sh_made h !! s /\ s ∈ sh_held h
                | None => owner_ (object a h) = None
                end;
  sn_unique a b s : owns h a s -> owns h b s -> a = b;
  sn_kept s : s ∈ sh_held h -> exists a, owns h a s;
  sn_range s : s ∈ sh_held h -> (s < length (sh_made h))%nat;
  sn_log owner s : (owner, s) ∈ sh_released h -> sh_made h !! s = Some owner /\ s ∉ sh_held h;
  sn_once : NoDup (snd <$> sh_released h);
  sn_all s : (s < length (sh_made h))%nat -> s ∈ sh_held h \/ s ∈ snd <$> sh_released h
}.

Lemma object_set a b r h : object a (set_object b r h) = if decide (a = b) then r else object a h.
Proof.
  unfold object, set_object. cbn. case_decide as E; [by rewrite E, lookup_insert_eq|].
  by rewrite lookup_insert_ne.
Qed.

(** A step that moves no snapshot. *)
Lemma snap_ok_ext h h' :
  snap_ok h -> (forall a, object a h' = object a h) -> sh_made h' = sh_made h -> sh_held h' = sh_held h ->
  sh_released h' = sh_released h -> snap_ok h'.
Proof.
  intros [] Ho Em Eh Er. assert (Hw : forall a s, owns h' a s <-> owns h a s) by (intros; unfold owns; by rewrite Ho).
  constructor; rewrite ?Em, ?Eh, ?Er; try done.
  - intros a. rewrite Ho. apply sn_paired0.
  - intros a b s. rewrite !Hw. apply sn_unique0.
  - intros s Hs. destruct (sn_kept0 s Hs) as [a Ha]. exists a. by apply Hw.
Qed.

Lemma snap_ok_reset a h : snap_ok h -> snap_ok (Reset a h).
Proof.
  intros Hok. pose proof Hok as []. unfold Reset. pose proof (sn_paired0 a) as Hp.
  destruct (snapshot_ (object a h)) as [s|] eqn:Es.
  2:{ rewrite Hp. apply (snap_ok_ext h); try done. intros b. rewrite object_set. case_decide as Eb; [|done]. subst b.
      destruct (object a h). cbn in *. by subst. }
  destruct Hp as [Ho Hs]. destruct (lookup_lt_is_Some_2 _ _ (sn_range0 s Hs)) as [o Em]. rewrite Ho, Em.
  set (h' := set_object _ _ _).
  assert (Hobj : forall b, object b h' = if decide (b = a) then empty_snapshot else object b h).
  { intros b. unfold h'. by rewrite object_set. }
  assert (Hown : forall b t, owns h' b t <-> b <> a /\ owns h b t).
  { intros b t. unfold owns. rewrite Hobj. case_decide; cbn; naive_solver. }
  constructor; cbn.
  - intros b. rewrite Hobj. case_decide as Eb; [done|]. specialize (sn_paired0 b).
    destruct (snapshot_ (object b h)) as [t|] eqn:Et; [|done]. destruct sn_paired0 as [? Ht]. split; [done|].
    apply elem_of_difference. split; [done|]. intros ->%elem_of_singleton. by apply Eb, (sn_unique0 _ _ s).
  - intros b c t [_ Hb]%Hown [_ Hc]%Hown. by eapply sn_unique0.
  - intros t [Ht Hne]%elem_of_difference. destruct (sn_kept0 t Ht) as [b Hb]. exists b. apply Hown. split; [|done].
    intros ->. unfold owns in Hb. rewrite Es in Hb. injection Hb as ->. by apply Hne, elem_of_singleton.
  - intros t [Ht _]%elem_of_difference. by apply sn_range0.
  - intros o' t [Hin|[= -> ->]%list_elem_of_singleton]%elem_of_app.
    + destruct (sn_log0 o' t Hin). split; [done|]. by intros [? _]%elem_of_difference.
    + split; [done|]. intros [_ Hne]%elem_of_difference. by apply Hne, elem_of_singleton.
  - rewrite fmap_app. apply NoDup_app. split_and!; [done| |apply NoDup_singleton].
    intros t ([o' t'] & E & Hin)%list_elem_of_fmap ->%list_elem_of_singleton. cbn in E. subst t'.
    by destruct (sn_log0 o' s Hin).
  - intros t Ht. rewrite fmap_app, elem_of_app. destruct (decide (t = s)) as [->|Hne].
    { right; right. by apply list_elem_of_singleton. }
    destruct (sn_all0 t Ht) as [Hh|Hr]; [left|by right; left]. apply elem_of_difference. split; [done|].
    by intros ?%elem_of_singleton.
Qed.

(** The snapshot of one object goes to an empty one. *)
Lemma snap_ok_exchange a b h :
  snap_ok h -> object a h = empty_snapshot -> a <> b -> snap_ok (exchange a b h).
Proof.
  intros [] Ha Hne. unfold exchange. set (h' := set_object b _ _).
  assert (Hobj : forall c, object c h' =
    if decide (c = b) then empty_snapshot else if decide (c = a) then object b h else object c h).
  { intros c. unfold h'. by rewrite !object_set. }
  assert (Hown : forall c s, owns h' c s <-> (c = a /\ owns h b s) \/ (c <> a /\ c <> b /\ owns h c s)).
  { intros c s. unfold owns. rewrite Hobj. repeat case_decide; cbn; naive_solver. }
  constructor; cbn; try done.
  - intros c. rewrite Hobj. repeat case_decide; [done|apply sn_paired0..].
  - intros c d s Hc Hd. apply Hown in Hc, Hd. pose proof (sn_unique0 b c s). pose proof (sn_unique0 b d s).
    pose proof (sn_unique0 c d s). naive_solver.
  - intros s Hs. destruct (sn_kept0 s Hs) as [c Hc]. destruct (decide (c = b)) as [->|Hcb].
    + exists a. apply Hown. by left.
    + exists c. apply Hown. right. split_and!; [|done|done]. intros ->. unfold owns in Hc. by rewrite Ha in Hc.
Qed.

Lemma dead_object a h : ~ living a h -> object a h = empty_snapshot.
Proof. unfold living, object. intros Hn. by apply eq_None_not_Some in Hn as ->. Qed.

Lemma snap_ok_make o a h : snap_ok h -> object a h = empty_snapshot -> snap_ok (make_snapshot o a h).
Proof.
  intros [] Ha. unfold make_snapshot. set (s := length (sh_made h)). set (h' := MkSnapStore _ _ _ _).
  assert (Hobj : forall c, object c h' = if decide (c = a) then MkReadSnapshot (Some o) (Some s) else object c h).
  { intros c. unfold object, h'. cbn. case_decide as Ec; [by rewrite Ec, lookup_insert_eq|by rewrite lookup_insert_ne]. }
  assert (Hold : forall t, t ∈ sh_held h -> t <> s) by (intros t Ht%sn_range0 ->; unfold s in Ht; lia).
  assert (Hheld : forall c t, owns h c t -> t ∈ sh_held h).
  { intros c t Hc. specialize (sn_paired0 c). rewrite Hc in sn_paired0. apply sn_paired0. }
  assert (Hown : forall c t, owns h' c t <-> (c = a /\ t = s) \/ (c <> a /\ owns h c t)).
  { intros c t. unfold owns. rewrite Hobj. case_decide; cbn; naive_solver. }
  assert (Hmade : forall t, (t < s)%nat -> (sh_made h ++ [o]) !! t = sh_made h !! t).
  { intros t Ht. by apply lookup_app_l. }
  constructor; cbn; fold s.
  - intros c. rewrite Hobj. case_decide; cbn.
    + split; [by rewrite list_lookup_middle|]. by apply elem_of_union_l, elem_of_singleton.
    + specialize (sn_paired0 c). destruct (snapshot_ (object c h)) as [t|] eqn:Et; [|done].
      destruct sn_paired0 as [Ho Ht]. split; [|by apply elem_of_union_r]. by rewrite Hmade by (by apply sn_range0).
  - intros c d t Hc Hd. apply Hown in Hc, Hd.
    destruct Hc as [[-> ->]|[Hca Hc]], Hd as [[-> E]|[Hda Hd]]; [done| | |by eapply sn_unique0].
    + by destruct (Hold s (Hheld _ _ Hd)).
    + subst t. by destruct (Hold s (Hheld _ _ Hc)).
  - intros t [->%elem_of_singleton|Ht]%elem_of_union; [exists a; apply Hown; by left|].
    destruct (sn_kept0 t Ht) as [c Hc]. exists c. apply Hown. right. split; [|done]. intros ->.
    unfold owns in Hc. by rewrite Ha in Hc.
  - rewrite length_app. cbn. fold s. intros t [->%elem_of_singleton|Ht%sn_range0]%elem_of_union; [lia|fold s in Ht; lia].
  - intros o' t Hin. destruct (sn_log0 o' t Hin) as [Hm Hn]. pose proof (lookup_lt_Some _ _ _ Hm) as Hlt. fold s in Hlt.
    split; [by rewrite Hmade|]. intros [->%elem_of_singleton|?]%elem_of_union; [lia|done].
  - done.
  - rewrite length_app. cbn. fold s. intros t Ht. destruct (decide (t = s)) as [->|Hne].
    { left. by apply elem_of_union_l, elem_of_singleton. }
    destruct (sn_all0 t) as [?|?]; [fold s; lia|left; by apply elem_of_union_r|by right].
Qed.

Lemma object_reset a h : object a (Reset a h) = empty_snapshot.
Proof. unfold Reset. rewrite object_set. by rewrite decide_True. Qed.

Lemma snap_step_ok h h' : snap_step h h' -> snap_ok h -> snap_ok h'.
Proof.
  intros Hs Hok. destruct Hs as [a h Hn|o a h Hn|a b h Hn Hb|a b h Ha Hb|a h Ha].
  - apply (snap_ok_ext h); try done. intros c. rewrite object_set. case_decide as E; [|done]. subst c.
    by rewrite dead_object.
  - by apply snap_ok_make; [|apply dead_object].
  - apply snap_ok_exchange; [done|by apply dead_object|]. by intros ->.
  - unfold move_assign. case_bool_decide as E; [done|].
    apply snap_ok_exchange; [by apply snap_ok_reset|apply object_reset|done].
  - apply (snap_ok_ext (Reset a h)); try done; [by apply snap_ok_reset|]. intros c. unfold destroy, object at 1. cbn.
    destruct (decide (c = a)) as [->|Hne]; [rewrite lookup_delete_eq; by rewrite object_reset|].
    by rewrite lookup_delete_ne.
Qed.

Lemma snap_ok_start : snap_ok no_snapshots.
Proof.
  assert (Ho : forall a, object a no_snapshots = empty_snapshot).
  { intros a. apply dead_object. by intros [r Hr]. }
  constructor; cbn.
  - intros a. by rewrite Ho.
  - intros a b s. unfold owns. by rewrite Ho.
  - by intros s ?%elem_of_empty.
  - by intros s ?%elem_of_empty.
  - by intros o s ?%elem_of_nil.
  - constructor.
  - lia.
Qed.

Lemma snap_steps_ok h : rtc snap_step no_snapshots h -> snap_ok h.
Proof.
  intros Hr. assert (Hgen : forall h0, rtc snap_step h0 h -> snap_ok h0 -> snap_ok h).
  { clear. intros h0 Hr. induction Hr as [|h1 h2 h3 Hs _ IH]; [done|]. intros Hok. by eapply IH, snap_step_ok. }
  by apply (Hgen no_snapshots); [|apply snap_ok_start].
Qed.

(** ** Theorem *)

(** C39. In any program that uses snapshots only through their objects, however they are made,
    moved, overwritten and destroyed: a living object never holds a snapshot that was released;
    no snapshot is released twice, and each only through the storage that made it; and one that
    was not released belongs to exactly one object, so that when no object lives all are
    released. *)
Theorem snapshots_released_once h :
  rtc snap_step no_snapshots h ->
  (forall a s, owns h a s -> s ∈ sh_held h /\ s ∉ snd <$> sh_released h) /\
  NoDup (snd <$> sh_released h) /\
  (forall owner s, (owner, s) ∈ sh_released h -> sh_made h !! s = Some owner) /\
  (forall s, (s < length (sh_made h))%nat -> s ∈ snd <$> sh_released h \/
     exists a, owns h a s /\ forall b, owns h b s -> b = a) /\
  (sh_objects h = ∅ -> forall s, (s < length (sh_made h))%nat -> s ∈ snd <$> sh_released h).
Proof.
  intros [Hp Hu Hk Hr Hl Hn Ha]%snap_steps_ok. split_and!; [|done| | |].
  - intros a s Hs. specialize (Hp a). rewrite Hs in Hp. destruct Hp as [_ Hh]. split; [done|].
    intros ([o t] & E & Hin)%list_elem_of_fmap. cbn in E. subst t. by destruct (Hl o s Hin).
  - intros o s Hin. by apply Hl.
  - intros s Hs. destruct (Ha s Hs) as [Hh|?]; [right|by left]. destruct (Hk s Hh) as [a Hs'].
    exists a. split; [done|]. intros b Hb. by eapply Hu.
  - intros He s Hs. destruct (Ha s Hs) as [Hh|?]; [|done]. destruct (Hk s Hh) as [a Hs'].
    unfold owns, object in Hs'. by rewrite He, lookup_empty in Hs'.
Qed.

(** A snapshot is made, moved into the result, assigned over another one, and destroyed. *)
Definition snap_demo : SnapStore :=
  destroy 3 (destroy 2 (move_assign 3 2 (move_construct 2 1 (make_snapshot 7 3 (make_snapshot 7 1 no_snapshots))))).

Lemma snapshots_released_once_witness : sh_released snap_demo = [(7, 1%nat); (7, 0%nat)] /\ NoDup [1%nat; 0%nat].
Proof.
  split; [reflexivity|]. change [1%nat; 0%nat] with (snd <$> sh_released snap_demo).
  assert (Hd : forall (a : Z) h, bool_decide (sh_objects h !! a = None) = true -> ~ living a h).
  { intros a h Hb. apply bool_decide_eq_true in Hb. unfold living. rewrite Hb. by intros [? ?]. }
  apply (snapshots_released_once snap_demo). unfold snap_demo.
  eapply rtc_l; [by apply (N_make 7 1), Hd|]. eapply rtc_l; [by apply (N_make 7 3), Hd|].
  eapply rtc_l; [apply (N_move 2 1); [by apply Hd|by eexists]|].
  eapply rtc_l; [apply (N_assign 3 2); by eexists|].
  eapply rtc_l; [apply (N_destroy 2); by eexists|].
  eapply rtc_l; [apply (N_destroy 3); by eexists|]. apply rtc_refl.
Defined.
