(* ===== verification/ServerConfig.v ===== *)
(** * Server configuration (src/server/server_config.cpp, src/server/server_config.h)

    The file named on the command line is read as YAML, fields that are present
    replace the defaults, and the result is checked.  The YAML library and the file
    system are parameters. *)

From S2P Require Import Prelude Status.

(** What the loader uses of yaml-cpp; a call that throws returns the exception's text. *)
Class Yaml := {
  yaml_node : Type;
  yaml_LoadFile : string -> string + yaml_node;
  (** [node[key]]: a node that may be undefined. *)
  yaml_index : yaml_node -> string -> string + yaml_node;
  yaml_defined : yaml_node -> bool;
  yaml_as_string : yaml_node -> string + string;
  yaml_as_size : yaml_node -> string + Z
}.

(** [std::filesystem::exists] and [is_regular_file]: an error's text, or the answer. *)
Class FileStatus := {
  file_exists : string -> string + bool;
  file_is_regular : string -> string + bool
}.

Definition kMaxPayloadBytesLimit : Z := 62914560.

Record ServerConfig := MkServerConfig {
  grpc_listen_addr : string;
  admin_listen_addr : string;
  storage_path : string;
  config_max_payload_bytes : Z
}.

Definition default_config : ServerConfig :=
  MkServerConfig "0.0.0.0:9527" "127.0.0.1:9528" "" 16777216.

Definition ValidateServerConfig (config : ServerConfig) : Result unit :=
  if str_empty (grpc_listen_addr config)
  then Err (mkStatus INVALID_ARGUMENT "grpc.listen_addr must not be empty")
  else if str_empty (admin_listen_addr config)
  then Err (mkStatus INVALID_ARGUMENT "admin.listen_addr must not be empty")
  else if bool_decide (grpc_listen_addr config = admin_listen_addr config)
  then Err (mkStatus INVALID_ARGUMENT "grpc.listen_addr and admin.listen_addr must be different")
  else if str_empty (storage_path config)
  then Err (mkStatus INVALID_ARGUMENT "storage.path must not be empty")
  else if config_max_payload_bytes config =? 0
  then Err (mkStatus INVALID_ARGUMENT "limits.max_payload_bytes must be greater than 0")
  else if kMaxPayloadBytesLimit <? config_max_payload_bytes config
  then Err (mkStatus INVALID_ARGUMENT "limits.max_payload_bytes must not exceed 62914560 (60 MiB)")
  else Ok tt.

Section Load.
Context {Y : Yaml} {D : FileStatus}.

(** A throwing call followed by another. *)
Definition ybind {A B} (x : string + A) (k : A -> string + B) : string + B :=
  match x with inl e => inl e | inr v => k v end.

(** [AssignIfPresent(root[section], key, &field)] with the conversion of the field's type. *)
Definition AssignIfPresent {A} (as_type : yaml_node -> string + A) (root : yaml_node)
    (section key : string) (current : A) : string + A :=
  ybind (yaml_index root section) (fun node =>
  if yaml_defined node then
    ybind (yaml_index node key) (fun value =>
    if yaml_defined value
    then ybind (yaml_index node key) as_type
    else inr current)
  else inr current).

(** The body of the [try] block. *)
Definition read_config (path : string) : string + ServerConfig :=
  ybind (yaml_LoadFile path) (fun root =>
  ybind (AssignIfPresent yaml_as_string root "grpc" "listen_addr" (grpc_listen_addr default_config)) (fun grpc =>
  ybind (AssignIfPresent yaml_as_string root "admin" "listen_addr" (admin_listen_addr default_config)) (fun admin =>
  ybind (AssignIfPresent yaml_as_string root "storage" "path" (storage_path default_config)) (fun storage =>
  ybind (AssignIfPresent yaml_as_size root "limits" "max_payload_bytes"
           (config_max_payload_bytes default_config)) (fun payload =>
  inr (MkServerConfig grpc admin storage payload)))))).

Definition LoadServerConfig (path : string) : Result ServerConfig :=
  if str_empty path then Err (mkStatus INVALID_ARGUMENT "config path must be provided")
  else
    match file_exists path with
    | inl e => Err (mkStatus INVALID_ARGUMENT ("stat config file: " +:+ e))
    | inr false => Err (mkStatus INVALID_ARGUMENT ("config file does not exist: " +:+ path))
    | inr true =>
        match file_is_regular path with
        | inl e => Err (mkStatus INVALID_ARGUMENT ("stat config file: " +:+ e))
        | inr false => Err (mkStatus INVALID_ARGUMENT ("config path is not a regular file: " +:+ path))
        | inr true =>
            match read_config path with
            | inl e => Err (mkStatus INVALID_ARGUMENT ("load config file: " +:+ e))
            | inr config => rdo ValidateServerConfig config in Ok config
            end
        end
    end.

(** What the file says of a field: its value, or nothing. *)
Definition field_of {A} (as_type : yaml_node -> string + A) (root : yaml_node) (section key : string)
    : option A :=
  match yaml_index root section with
  | inr node =>
      if yaml_defined node then
        match yaml_index node key with
        | inr value => if yaml_defined value then
                         match as_type value with inr v => Some v | inl _ => None end
                       else None
        | inl _ => None
        end
      else None
  | inl _ => None
  end.

(** A configuration the server accepts. *)
Definition config_ok (c : ServerConfig) : Prop :=
  grpc_listen_addr c <> "" /\ admin_listen_addr c <> "" /\
  grpc_listen_addr c <> admin_listen_addr c /\ storage_path c <> "" /\
  config_max_payload_bytes c <> 0 /\ config_max_payload_bytes c <= kMaxPayloadBytesLimit.

Lemma ValidateServerConfig_ok c : ValidateServerConfig c = Ok tt <-> config_ok c.
Proof.
  unfold ValidateServerConfig, config_ok.
  destruct (str_empty (grpc_listen_addr c)) eqn:E1; [apply str_empty_spec in E1; by split; [|intros [? _]]|].
  destruct (str_empty (admin_listen_addr c)) eqn:E2; [apply str_empty_spec in E2; by split; [|intros (_ & ? & _)]|].
  case_bool_decide as E3; [by split; [|intros (_ & _ & ? & _)]|].
  destruct (str_empty (storage_path c)) eqn:E4; [apply str_empty_spec in E4; by split; [|intros (_ & _ & _ & ? & _)]|].
  assert (Hne : forall s, str_empty s = false -> s <> "") by (by intros [] ?).
  destruct (Z.eqb_spec (config_max_payload_bytes c) 0); [by split; [|intros (_ & _ & _ & _ & ? & _)]|].
  destruct (Z.ltb_spec kMaxPayloadBytesLimit (config_max_payload_bytes c)); split; try done.
  - intros (_ & _ & _ & _ & _ & ?). lia.
  - intros _. split_and!; auto.
Qed.

Lemma ValidateServerConfig_code c s : ValidateServerConfig c = Err s -> code s = INVALID_ARGUMENT.
Proof. unfold ValidateServerConfig. intros Hv. by repeat case_match; simplify_eq. Qed.

Lemma AssignIfPresent_value {A} (as_type : yaml_node -> string + A) root section key current v :
  AssignIfPresent as_type root section key current = inr v ->
  v = from_option id current (field_of as_type root section key).
Proof.
  unfold AssignIfPresent, field_of, ybind. destruct (yaml_index root section) as [|node]; [done|].
  destruct (yaml_defined node); [|by intros [= <-]].
  destruct (yaml_index node key) as [|value]; [done|]. destruct (yaml_defined value); [|by intros [= <-]].
  destruct (as_type value); [done|]. by intros [= <-].
Qed.

Lemma ybind_ok {A B} (x : string + A) (k : A -> string + B) v :
  ybind x k = inr v -> exists y, x = inr y /\ k y = inr v.
Proof. destruct x as [|y]; [done|]. intros E. by exists y. Qed.

Lemma read_config_value path c :
  read_config path = inr c -> exists root, yaml_LoadFile path = inr root /\
    c = MkServerConfig
          (from_option id (grpc_listen_addr default_config) (field_of yaml_as_string root "grpc" "listen_addr"))
          (from_option id (admin_listen_addr default_config) (field_of yaml_as_string root "admin" "listen_addr"))
          (from_option id (storage_path default_config) (field_of yaml_as_string root "storage" "path"))
          (from_option id (config_max_payload_bytes default_config)
             (field_of yaml_as_size root "limits" "max_payload_bytes")).
Proof.
  intros (root & Hroot & (g & Hg & (ad & Ha & (st & Hs & (p & Hp & [= <-])%ybind_ok)%ybind_ok)%ybind_ok)%ybind_ok)%ybind_ok.
  exists root. split; [done|]. apply AssignIfPresent_value in Hg, Ha, Hs, Hp. by subst.
Qed.

End Load.
