(* ===== verification/Endpoints.v ===== *)
(** * The two servers

    [main] builds two gRPC servers: what they are given (src/server/main.cpp), which
    requests their services answer (src/service/grpc_services.h), and what clients of
    the one or of the other can change. *)

From S2P Require Import Prelude Status Encoding Tokens Proto Json Platform Keys World FileStore.
From S2P Require Import Files Durability Storage Core Commands Model Unique Reads Scan Spec.
From S2P Require Import SystemMessages Refine Handlers ChannelHandlers Invariant Queries Pages.
From S2P Require Import Startup Objects Services Effects Requests Concurrency Service ServerConfig.

(** ** Services *)

Inductive GrpcService := EventServiceImpl | ObjectStorageServiceImpl | ChannelServiceImpl | AdminServiceImpl.

#[export] Instance GrpcService_eq_dec : EqDecision GrpcService.
Proof. solve_decision. Defined.

(** What the server is asked for: a unary request, an object to be written, a stream. *)
Inductive Call := CUnary (r : Request) | CWriteObject (req : WriteObjectRequest) | CSubscribe.

Definition EventServiceImpl_methods (c : Call) : bool :=
  match c with
  | CUnary (RGetStatus _ _ | RAllocateUuids _ | RGetSeqByUuid _ | RPublish _ _ | RPublishAutoSeq _ _ | RFetch _) => true
  | CSubscribe => true
  | _ => false
  end.

Definition ObjectStorageServiceImpl_methods (c : Call) : bool :=
  match c with
  | CWriteObject _ => true
  | CUnary (RGetObjectMetadata _ _ | RBatchGetObjectMetadata _ | RReadObject _ _ _ _) => true
  | _ => false
  end.

Definition ChannelServiceImpl_methods (c : Call) : bool :=
  match c with
  | CUnary (RCreateChannel _ | RGetChannel _ _ _ | RListChannels _ _ _ | RAddMember _ | RRemoveMember _) => true
  | _ => false
  end.

Definition AdminServiceImpl_methods (c : Call) : bool :=
  match c with
  | CUnary (RAddToken _ | RDeleteToken _ _ | RListMessages _ _) => true
  | _ => false
  end.

Definition methods (s : GrpcService) : Call -> bool :=
  match s with
  | EventServiceImpl => EventServiceImpl_methods
  | ObjectStorageServiceImpl => ObjectStorageServiceImpl_methods
  | ChannelServiceImpl => ChannelServiceImpl_methods
  | AdminServiceImpl => AdminServiceImpl_methods
  end.

(** ** Builders *)

(** [grpc::ServerBuilder]: what it was given, in order; [None] is a limit that was not set.  All
    ports are given [InsecureServerCredentials]. *)
Record ServerBuilder := MkServerBuilder {
  MaxReceiveMessageSize : option Z;
  MaxSendMessageSize : option Z;
  ChannelArguments : list (string * Z);
  ListeningPorts : list string;
  RegisteredServices : list GrpcService
}.

Definition new_builder : ServerBuilder := MkServerBuilder None None [] [] [].

Definition SetMaxReceiveMessageSize (n : Z) (b : ServerBuilder) : ServerBuilder :=
  MkServerBuilder (Some n) (MaxSendMessageSize b) (ChannelArguments b) (ListeningPorts b) (RegisteredServices b).

Definition SetMaxSendMessageSize (n : Z) (b : ServerBuilder) : ServerBuilder :=
  MkServerBuilder (MaxReceiveMessageSize b) (Some n) (ChannelArguments b) (ListeningPorts b) (RegisteredServices b).

Definition AddChannelArgument (k : string) (v : Z) (b : ServerBuilder) : ServerBuilder :=
  MkServerBuilder (MaxReceiveMessageSize b) (MaxSendMessageSize b) (ChannelArguments b ++ [(k, v)])
    (ListeningPorts b) (RegisteredServices b).

Definition AddListeningPort (addr : string) (b : ServerBuilder) : ServerBuilder :=
  MkServerBuilder (MaxReceiveMessageSize b) (MaxSendMessageSize b) (ChannelArguments b)
    (ListeningPorts b ++ [addr]) (RegisteredServices b).

Definition RegisterService (s : GrpcService) (b : ServerBuilder) : ServerBuilder :=
  MkServerBuilder (MaxReceiveMessageSize b) (MaxSendMessageSize b) (ChannelArguments b)
    (ListeningPorts b) (RegisteredServices b ++ [s]).

Definition kSubscribeKeepaliveTimeMs : Z := 30 * 1000.
Definition kSubscribeKeepaliveTimeoutMs : Z := 10 * 1000.
Definition kMinimumClientPingIntervalMs : Z := 20 * 1000.

Definition ConfigurePublicServerKeepalive (b : ServerBuilder) : ServerBuilder :=
  let b := AddChannelArgument "grpc.keepalive_time_ms" kSubscribeKeepaliveTimeMs b in
  let b := AddChannelArgument "grpc.keepalive_timeout_ms" kSubscribeKeepaliveTimeoutMs b in
  let b := AddChannelArgument "grpc.http2.ping_timeout_ms" kSubscribeKeepaliveTimeoutMs b in
  let b := AddChannelArgument "grpc.keepalive_permit_without_calls" 1 b in
  let b := AddChannelArgument "grpc.http2.min_ping_interval_without_data_ms" kMinimumClientPingIntervalMs b in
  let b := AddChannelArgument "grpc.http2.max_pings_without_data" 0 b in
  AddChannelArgument "grpc.http2.max_ping_strikes" 2 b.

Definition admin_builder (config : ServerConfig) : ServerBuilder :=
  let b := SetMaxReceiveMessageSize kGrpcMessageBytes new_builder in
  let b := SetMaxSendMessageSize kGrpcMessageBytes b in
  let b := AddListeningPort (admin_listen_addr config) b in
  RegisterService AdminServiceImpl b.

Definition public_builder (config : ServerConfig) : ServerBuilder :=
  let b := SetMaxReceiveMessageSize kGrpcMessageBytes new_builder in
  let b := SetMaxSendMessageSize kGrpcMessageBytes b in
  let b := ConfigurePublicServerKeepalive b in
  let b := AddListeningPort (grpc_listen_addr config) b in
  let b := RegisterService EventServiceImpl b in
  let b := RegisterService ObjectStorageServiceImpl b in
  RegisterService ChannelServiceImpl b.

(** A server answers the calls of the services registered with it. *)
Definition reaches (b : ServerBuilder) (c : Call) : bool :=
  existsb (fun s => methods s c) (RegisteredServices b).

Definition event_call (e : Event) : Call :=
  match e with ECall r _ => CUnary r | EWrite req _ => CWriteObject req end.

(** What is seen comes from clients of the one server. *)
Definition seen_at (b : ServerBuilder) (e : option Event) : Prop :=
  match e with Some e => reaches b (event_call e) = true | None => True end.

(** Every call is answered by one of the two servers and by one service. *)
Lemma reaches_one config c : reaches (public_builder config) c = negb (reaches (admin_builder config) c).
Proof. by destruct c as [[]| |]. Qed.

(** ** What clients of a server can change *)

Section Endpoints.
Context {R : RocksDB} {P : Protobuf} {F : PosixDir} {H : Host}.
Context (cfg : CoreConfig) (config : ServerConfig).

Lemma post_tokens a m a' : spec_post a m = Ok a' -> a_tokens a' = a_tokens a.
Proof. intros (c & _ & _ & _ & _ & _ & _ & _ & ->)%spec_post_ok. done. Qed.

Lemma mutation_tokens a c payload ts a' : spec_mutation a c payload ts = Ok a' -> a_tokens a' = a_tokens a.
Proof. unfold spec_mutation. cbv zeta. repeat case_match; try done; by intros [= <-]. Qed.

Lemma changed_tokens {B} a c payload ts (x y : B) a' :
  (rlet a1 := spec_mutation a c payload ts in Ok (x, a1)) = Ok (y, a') -> a_tokens a' = a_tokens a.
Proof. intros (b & Hb & [= _ <-])%rbind_ok. by eapply mutation_tokens. Qed.

Lemma publish_tokens p t ch u rs pl ks ex ts a seq a' :
  spec_publish cfg p t ch u rs pl ks ex ts a = Ok (seq, a') -> a_tokens a' = a_tokens a.
Proof. intros (_ & _ & _ & _ & _ & _ & _ & _ & _ & Hp)%spec_publish_ok. by eapply post_tokens. Qed.

Lemma command_ok {B} (f : B -> Response) spec v a' :
  command f spec = Ok (v, a') -> exists x, spec = Ok (x, a').
Proof. destruct spec as [[x b]|]; [|done]. intros [= _ <-]. by exists x. Qed.

Lemma query_ok {B} (f : B -> Response) a spec v a' : query a f spec = Ok (v, a') -> a' = a.
Proof. destruct spec; [|done]. by intros [= _ <-]. Qed.

(** A request of the public server leaves the credentials alone; one of the admin server
    everything else. *)
Lemma public_tokens ch data r a v a' :
  reaches (public_builder config) (CUnary r) = true -> request_spec cfg ch data r a = Ok (v, a') ->
  a_tokens a' = a_tokens a.
Proof.
  destruct r; cbn [request_spec]; try done; intros _ Hs; try (by apply query_ok in Hs as ->);
    apply command_ok in Hs as [x Hs].
  - revert Hs. unfold spec_allocate. cbv zeta. repeat case_match; try done. by intros [= _ <-].
  - by eapply publish_tokens.
  - by eapply publish_tokens.
  - revert Hs. unfold spec_create_channel. case_match; [done|].
    intros ([] & _ & ([] & _ & Hs)%rbind_ok)%rbind_ok. revert Hs. cbv zeta. case_match; [done|].
    intros (b & Hb & [= _ <-])%rbind_ok. by apply mutation_tokens in Hb.
  - apply rbind_ok in Hs as (c & _ & Hs). revert Hs. repeat case_match; try done; (by intros [= _ <-]) || apply changed_tokens.
  - apply rbind_ok in Hs as (c & _ & Hs). revert Hs. repeat case_match; try done; (by intros [= _ <-]) || apply changed_tokens.
Qed.

Lemma admin_tokens ch data r a v a' :
  reaches (admin_builder config) (CUnary r) = true -> request_spec cfg ch data r a = Ok (v, a') ->
  a' = a_set_tokens a (a_tokens a').
Proof.
  destruct r; cbn [request_spec]; try done; intros _ Hs; [apply command_ok in Hs as [x Hs]; revert Hs..|].
  - unfold spec_add_token. case_match; [done|]. by intros [= _ <-].
  - unfold spec_delete_token. case_match; [done|]. by intros [= _ <-].
  - apply query_ok in Hs as ->. by destruct a.
Qed.

(** The same of the service. *)
Lemma public_step s e s' :
  service cfg s e s' -> seen_at (public_builder config) e -> a_tokens (sv_state s') = a_tokens (sv_state s).
Proof.
  destruct 1 as [ch r s v a' _ Hs| | |ch r s x a' _ _ [->|[v Hs]]| | | | |]; cbn [sv_state seen_at]; intros He; try done;
    by eapply public_tokens.
Qed.

Lemma admin_step s e s' :
  service cfg s e s' -> seen_at (admin_builder config) e ->
  sv_state s' = a_set_tokens (sv_state s) (a_tokens (sv_state s')) /\ sv_data s' = sv_data s.
Proof.
  destruct 1 as [ch r s v a' _ Hs| | |ch r s x a' _ _ [->|[v Hs]]| | | | |]; cbn [sv_state sv_data seen_at]; intros He; try done;
    (split; [|done]); try (by destruct (sv_state s)); by eapply admin_tokens.
Qed.

Lemma public_run s tr s' :
  service_run cfg s tr s' -> Forall (seen_at (public_builder config)) tr ->
  a_tokens (sv_state s') = a_tokens (sv_state s).
Proof.
  induction 1 as [|s e s1 tr s2 Hs _ IH]; [done|]. intros [He Htr]%Forall_cons.
  rewrite (IH Htr). by eapply public_step.
Qed.

Lemma admin_run s tr s' :
  service_run cfg s tr s' -> Forall (seen_at (admin_builder config)) tr ->
  sv_state s' = a_set_tokens (sv_state s) (a_tokens (sv_state s')) /\ sv_data s' = sv_data s.
Proof.
  induction 1 as [s|s e s1 tr s2 Hs _ IH]; [by destruct (sv_state s)|]. intros [He Htr]%Forall_cons.
  destruct (IH Htr) as [-> ->]. destruct (admin_step _ _ _ Hs He) as [-> ->]. done.
Qed.

End Endpoints.
