(* ===== verification/Root.v ===== *)
(** * Creating and opening a storage root (src/storage/unified_storage.cpp)

    A root is a directory with the database in [db] and the object files in
    [objects].  An absent or empty root is created; anything else must have exactly
    that layout and exactly the column families the server knows.  The file system
    above the object directory and the opening and closing of databases are
    parameters, with the laws the theorems use. *)

From S2P Require Import Prelude Status Encoding Tokens Proto Json Platform Keys World FileStore.
From S2P Require Import Storage.

(** ** Directories *)

(** [std::filesystem] with an [error_code], and the calls of [SyncDirectory]: an error number,
    or the answer. Paths are normal: no trailing separator. *)
Class RootFs := {
  tree_t : Type;
  (** The paths that exist, and whether they are directories; those whose entry is on disk. *)
  tr_view : tree_t -> gmap string bool;
  tr_durable : tree_t -> gset string;
  (** The directory a descriptor was opened on. *)
  tr_fd : tree_t -> Z -> option string;
  path_parent : string -> string;
  path_join : string -> string -> string;
  ec_message : Z -> string;
  tr_exists : string -> tree_t -> (Z + bool) * tree_t;
  tr_is_directory : string -> tree_t -> (Z + bool) * tree_t;
  (** A [directory_iterator]: it cannot be made, or the names it visits and the error of an
      increment that ends it early. *)
  tr_iterate : string -> tree_t -> (Z + (list string * option Z)) * tree_t;
  tr_absolute : string -> tree_t -> (Z + string) * tree_t;
  tr_create_directory : string -> tree_t -> (Z + bool) * tree_t;
  (** [O_RDONLY | O_DIRECTORY | O_CLOEXEC | O_NOFOLLOW]. *)
  tr_open : string -> tree_t -> (Z + Z) * tree_t;
  tr_fsync : Z -> tree_t -> option Z * tree_t;
  tr_close : Z -> tree_t -> option Z * tree_t
}.

(** What can be the name of an entry: no path, and not the directory or its parent. *)
Fixpoint no_slash (s : string) : bool :=
  match s with
  | EmptyString => true
  | String c s => negb (Ascii.eqb c "/") && no_slash s
  end.

Definition is_name (s : string) : bool :=
  no_slash s && negb (bool_decide (s = "" \/ s = "." \/ s = "..")).

Definition tr_same `{RootFs} (t t' : tree_t) : Prop :=
  tr_view t' = tr_view t /\ tr_durable t' = tr_durable t.

Class RootFsSpec `{RootFs} : Prop := {
  exists_spec p t : let '(r, t') := tr_exists p t in
    tr_same t t' /\ (forall b, r = inr b -> b = bool_decide (is_Some (tr_view t !! p)));
  is_directory_spec p t : let '(r, t') := tr_is_directory p t in
    tr_same t t' /\ (forall b, r = inr b -> b = bool_decide (tr_view t !! p = Some true));
  (** A complete iteration visits every entry; the first entry is there when it is made. *)
  iterate_spec p t : let '(r, t') := tr_iterate p t in
    tr_same t t' /\
    forall l e, r = inr (l, e) ->
      (forall n, n ∈ l -> is_name n = true /\ is_Some (tr_view t !! path_join p n)) /\
      (e = None \/ l = [] -> forall n, is_name n = true -> is_Some (tr_view t !! path_join p n) -> n ∈ l);
  absolute_spec p t : let '(_, t') := tr_absolute p t in tr_same t t';
  create_directory_spec p t : let '(r, t') := tr_create_directory p t in
    match r with
    | inr true => tr_view t !! p = None /\ tr_view t' = <[p := true]> (tr_view t) /\
                  tr_durable t' = tr_durable t
    | _ => tr_same t t'
    end;
  open_directory_spec p t : let '(r, t') := tr_open p t in
    tr_same t t' /\ (forall fd, r = inr fd -> tr_fd t' fd = Some p);
  (** [fsync] of a directory puts its entries on disk. *)
  fsync_directory_spec fd p t : tr_fd t fd = Some p -> let '(r, t') := tr_fsync fd t in
    tr_view t' = tr_view t /\ tr_durable t ⊆ tr_durable t' /\ tr_fd t' fd = Some p /\
    (r = None -> forall q, is_Some (tr_view t !! q) -> path_parent q = p -> q ∈ tr_durable t');
  close_directory_spec fd t : let '(_, t') := tr_close fd t in tr_same t t';
  path_parent_shorter p :
    path_parent p = p \/ (String.length (path_parent p) < String.length p)%nat
}.

(** ** Databases on disk *)

(** Families are named; a closed database is the families and contents at its path. *)
Class RocksEnv `{RocksDB} := {
  env_t : Type;
  env_view : env_t -> string -> option (gset string * Db);
  db_families : db_t -> gset string;
  env_ListColumnFamilies : string -> env_t -> (RocksStatus * list string) * env_t;
  (** [DB::Open] with [create_if_missing]. *)
  env_Create : string -> env_t -> (RocksStatus + db_t) * env_t;
  env_CreateColumnFamily : string -> db_t -> RocksStatus * db_t;
  env_DestroyHandle : string -> db_t -> RocksStatus * db_t;
  (** [DB::Open] with descriptors: the number of handles, and the database. *)
  env_Open : string -> list string -> env_t -> (RocksStatus + (Z * db_t)) * env_t;
  env_Close : string -> db_t -> env_t -> env_t
}.

Class RocksEnvSpec `{RocksEnv} : Prop := {
  ListColumnFamilies_spec p e : let '((st, l), e') := env_ListColumnFamilies p e in
    env_view e' = env_view e /\
    (rocks_ok st = true -> exists d, env_view e p = Some (list_to_set l, d));
  (** A new database is empty. *)
  Create_spec p e : let '(r, e') := env_Create p e in
    match r with
    | inl st => rocks_ok st = false
    | inr d => (env_view e p = None -> db_view d = ∅ /\ db_families d = {["default"]})
    end;
  CreateColumnFamily_spec n d : let '(st, d') := env_CreateColumnFamily n d in
    db_data d' = db_data d /\
    (rocks_ok st = true -> db_families d' = {[n]} ∪ db_families d);
  DestroyHandle_spec n d : let '(st, d') := env_DestroyHandle n d in
    db_data d' = db_data d /\ db_families d' = db_families d;
  (** What an opened database holds was on disk. *)
  Open_spec p ns e : let '(r, e') := env_Open p ns e in
    match r with
    | inl st => rocks_ok st = false /\ env_view e' = env_view e
    | inr (n, d) => n = Z.of_nat (length ns) /\ env_view e p = Some (db_families d, db_view d) /\
                    (forall x, db_disk d x -> x = db_view d)
    end;
  (** A database that is closed leaves its contents, or, if a write has failed, what a crash
      could leave. *)
  Close_spec p d e : exists x, (x = db_view d \/ db_disk d x) /\
    env_view (env_Close p d e) p = Some (db_families d, x)
}.

Definition kMessagesColumnFamily : string := "messages".
Definition kObjectsColumnFamily : string := "objects".
Definition kDefaultColumnFamilyName : string := "default".

(** The families of a database the server made. *)
Definition known_families : gset string :=
  {[kDefaultColumnFamilyName; kMessagesColumnFamily; kObjectsColumnFamily]}.

Section Root.
Context {R : RocksDB} {P : Protobuf} {F : PosixDir} {H : Host} {T : RootFs} {E : RocksEnv}.

(** Everything a root is made of; [rw_objects] is the directory of object files. *)
Record RootW := MkRootW { rw_tree : tree_t; rw_env : env_t; rw_objects : fs_t; rw_os : os_t }.

Definition on_tree {A} (m : M tree_t A) : M RootW A :=
  fun w => let '(a, t) := m (rw_tree w) in (a, MkRootW t (rw_env w) (rw_objects w) (rw_os w)).

Definition on_env {A} (m : M env_t A) : M RootW A :=
  fun w => let '(a, e) := m (rw_env w) in (a, MkRootW (rw_tree w) e (rw_objects w) (rw_os w)).

Definition DatabasePath (root_path : string) : string := path_join root_path "db".
Definition ObjectsPath (root_path : string) : string := path_join root_path "objects".

Definition IsEmptyDirectory (path : string) : M RootW bool :=
  let! there := on_tree (tr_exists path) in
  match there with
  | inl _ => ret false
  | inr false => ret true
  | inr true =>
      let! directory := on_tree (tr_is_directory path) in
      match directory with
      | inr true =>
          let! it := on_tree (tr_iterate path) in
          match it with
          | inr ([], _) => ret true
          | _ => ret false
          end
      | _ => ret false
      end
  end.

Definition IsNewStorageRoot (path : string) : M RootW bool := IsEmptyDirectory path.

Definition unavailable {A} (message : string) : RM RootW A := fail UNAVAILABLE message.

Definition wrong_layout : RM RootW unit :=
  fail INTERNAL "storage root must contain only db and objects directories".

Definition ValidateStorageRootLayout (root : string) : RM RootW unit :=
  let! it := on_tree (tr_iterate root) in
  match it with
  | inl e => unavailable ("inspect storage root: " +:+ ec_message e)
  | inr (_, Some e) => unavailable ("inspect storage root: " +:+ ec_message e)
  | inr (names, None) =>
      if negb (bool_decide ((list_to_set names : gset string) = {["db"; "objects"]})) then wrong_layout
      else
        let! db := on_tree (tr_is_directory (path_join root "db")) in
        match db with
        | inr true =>
            let! objects := on_tree (tr_is_directory (path_join root "objects")) in
            match objects with inr true => ok tt | _ => wrong_layout end
        | _ => wrong_layout
        end
  end.

Definition SyncDirectory (path : string) : RM RootW unit :=
  let! fd := on_tree (tr_open path) in
  match fd with
  | inl e => unavailable ("open directory for fsync: " +:+ strerror e)
  | inr fd =>
      let! synced := on_tree (tr_fsync fd) in
      match synced with
      | Some e =>
          do! on_tree (tr_close fd) in unavailable ("fsync directory: " +:+ strerror e)
      | None =>
          let! closed := on_tree (tr_close fd) in
          match closed with
          | Some e => unavailable ("close directory after fsync: " +:+ strerror e)
          | None => ok tt
          end
      end
  end.

Definition CreateDirectoryAndSyncParent (path : string) : RM RootW unit :=
  let! created := on_tree (tr_create_directory path) in
  match created with
  | inl e => unavailable ("create storage directory " +:+ path +:+ ": " +:+ ec_message e)
  | inr true => SyncDirectory (path_parent path)
  | inr false =>
      let! directory := on_tree (tr_is_directory path) in
      match directory with
      | inr true => ok tt
      | _ => unavailable ("storage path component is not a directory: " +:+ path)
      end
  end.

(** The loop up to the nearest ancestor that exists, and the paths it passed. *)
Fixpoint find_ancestor (fuel : nat) (root current : string) (missing : list string)
    : RM RootW (string * list string) :=
  match fuel with
  | O => ret (Err out_of_fuel)
  | S fuel =>
      let! there := on_tree (tr_exists current) in
      match there with
      | inl e => unavailable ("inspect storage directory " +:+ current +:+ ": " +:+ ec_message e)
      | inr true => ok (current, missing)
      | inr false =>
          let missing := missing ++ [current] in
          let parent := path_parent current in
          if str_empty parent || bool_decide (parent = current)
          then unavailable ("storage path has no existing directory ancestor: " +:+ root)
          else find_ancestor fuel root parent missing
      end
  end.

Fixpoint create_all (paths : list string) : RM RootW unit :=
  match paths with
  | [] => ok tt
  | p :: paths => do? CreateDirectoryAndSyncParent p in create_all paths
  end.

(** A parent is shorter than its path, so its length bounds the loop. *)
Definition CreateDirectoryTreeDurably (root : string) : RM RootW unit :=
  let? found := find_ancestor (S (String.length root)) root root [] in
  let '(current, missing) := found in
  let! directory := on_tree (tr_is_directory current) in
  match directory with
  | inr true => create_all (rev missing)
  | _ => unavailable ("storage path ancestor is not a directory: " +:+ current)
  end.

Definition CreateStorageDirectories (root_path : string) : RM RootW unit :=
  let! root := on_tree (tr_absolute root_path) in
  match root with
  | inl e => unavailable ("resolve storage root: " +:+ ec_message e)
  | inr root =>
      do? CreateDirectoryTreeDurably root in
      do? CreateDirectoryAndSyncParent (path_join root "db") in
      CreateDirectoryAndSyncParent (path_join root "objects")
  end.

(** Run an operation of an open database that is closed afterwards, whatever it returns. *)
Definition closing {A} (path : string) (d : db_t) (m : RM StorageW A) : RM RootW A :=
  fun w =>
    let '(r, s) := m (MkStorageW d (rw_objects w) (rw_os w)) in
    (r, MkRootW (rw_tree w) (env_Close path (st_db s) (rw_env w)) (st_fs s) (st_os s)).

Definition DestroyHandle (name operation : string) : RM StorageW unit :=
  let! st := on_db (env_DestroyHandle name) in ret (check_status (RocksToStatus st operation)).

(** [InitializeNew] on the new database: the families, the first batch, the handles. *)
Definition initialize_database : RM StorageW unit :=
  let! st := on_db (env_CreateColumnFamily kMessagesColumnFamily) in
  do? ret (check_status (RocksToStatus st "create messages column family")) in
  let! st := on_db (env_CreateColumnFamily kObjectsColumnFamily) in
  match check_status (RocksToStatus st "create objects column family") with
  | Err status => do! on_db (env_DestroyHandle kMessagesColumnFamily) in ret (Err status)
  | Ok _ =>
      let! init_status := InitializeNew_commit in
      let! objects_destroy := DestroyHandle kObjectsColumnFamily "destroy objects column family handle" in
      let! messages_destroy :=
        DestroyHandle kMessagesColumnFamily "destroy messages column family handle" in
      do? ret init_status in
      do? ret objects_destroy in
      ret messages_destroy
  end.

Definition InitializeNew (path : string) : RM RootW unit :=
  do? CreateStorageDirectories path in
  let! db := on_env (env_Create (DatabasePath path)) in
  match db with
  | inl st => ret (Err (RocksToStatus st "create storage"))
  | inr d => closing (DatabasePath path) d initialize_database
  end.

(** [DestroyHandles]: it stops at the first handle that fails. *)
Fixpoint DestroyHandles (names : list string) : RM StorageW unit :=
  match names with
  | [] => ok tt
  | n :: names => do? DestroyHandle n "destroy column family handle" in DestroyHandles names
  end.

Definition descriptors : list string :=
  [kDefaultColumnFamilyName; kMessagesColumnFamily; kObjectsColumnFamily].

(** [ObjectFileStore::Open]. *)
Definition OpenObjects (path : string) : RM RootW Z :=
  let! fd := on_tree (tr_open path) in
  match fd with
  | inl e => ret (Err (ObjectIoStatus "open object directory" e))
  | inr fd => ok fd
  end.

(** [~UnifiedStorage]: the handles, and then the database. *)
Definition ReleaseHandles : RM StorageW unit :=
  do! on_db (env_DestroyHandle kObjectsColumnFamily) in
  do! on_db (env_DestroyHandle kMessagesColumnFamily) in
  do! on_db (env_DestroyHandle kDefaultColumnFamilyName) in ok tt.

Definition close_storage (path : string) (s : StorageW) (w : RootW) : RootW :=
  (closing path (st_db s) ReleaseHandles (MkRootW (rw_tree w) (rw_env w) (st_fs s) (st_os s))).2.

(** The storage is used, or closed with an error. *)
Definition OpenExisting (root_path : string) : RM RootW StorageW :=
  let path := DatabasePath root_path in
  let! db := on_env (env_Open path descriptors) in
  match db with
  | inl st => ret (Err (RocksToStatus st "open unified storage"))
  | inr (handles, d) =>
      if negb (handles =? 3)
      then closing path d (do! DestroyHandles descriptors in
                           fail INTERNAL "unified storage column family count mismatch")
      else
        let! files := OpenObjects (ObjectsPath root_path) in
        match files with
        | Err status => closing path d (do! DestroyHandles descriptors in ret (Err status))
        | Ok _ => fun w =>
            let '(r, s) := OpenExisting_checks (MkStorageW d (rw_objects w) (rw_os w)) in
            match r with
            | Ok _ => (Ok s, MkRootW (rw_tree w) (rw_env w) (st_fs s) (st_os s))
            | Err status => (Err status, close_storage path s w)
            end
        end
  end.

(** [Open] once the root is not new: the layout, the families, the storage. *)
Definition OpenChecked (path : string) : RM RootW StorageW :=
  do? ValidateStorageRootLayout path in
  let! listed := on_env (env_ListColumnFamilies (DatabasePath path)) in
  let '(st, column_families) := listed in
  do? ret (check_status (RocksToStatus st "list storage column families")) in
  if negb (bool_decide ((list_to_set column_families : gset string) = known_families))
  then fail INTERNAL "unsupported storage column family layout"
  else OpenExisting path.

Definition Open (path : string) : RM RootW StorageW :=
  if str_empty path then fail INVALID_ARGUMENT "storage path must not be empty"
  else
    let! new := IsNewStorageRoot path in
    do? (if new then InitializeNew path else ok tt) in
    OpenChecked path.

End Root.
