(* ===== verification/Process.v ===== *)
(** * The server process (src/server/main.cpp)

    [main] loads the configuration, opens the storage, constructs the core and
    starts two servers; then four threads decide together when to stop.  The
    shutdown protocol is a transition system: its program counters and its shared
    flags are the ones of the code, [Shutdown()] of a server waits for the handlers
    that run, and what comes from outside (calls, streams, a signal, a fatal
    storage error) is a step of the environment. *)

From S2P Require Import Prelude Status Encoding Tokens Proto Json Platform Keys World FileStore.
From S2P Require Import Storage Core Commands Services Concurrency Subscription ServerConfig Endpoints Root.

(** ** Starting *)

Section Start.
Context {R : RocksDB} {P : Protobuf} {F : PosixDir} {H : Host} {T : RootFs} {E : RocksEnv}.
Context {Y : Yaml} {D : FileStatus}.

(** What [main] uses of the system: the name it was called by, blocking the signals, and
    [BuildAndStart] of a server. *)
Record Launch := MkLaunch {
  la_program : string;
  la_block_signals : bool;
  la_BuildAndStart : ServerBuilder -> bool
}.

(** A running server, or an exit code and what was written to the standard error. *)
Inductive Started :=
  | Exit (exit_code : Z) (stderr : string)
  | Running (config : ServerConfig) (cfg : CoreConfig) (refresher : Refresher) (core : CoreW).

Definition line (s : string) : string := s +:+ String "010" "".

Definition PrintUsage (program : string) : string := line ("usage: " +:+ program +:+ " <config.yaml>").

(** The parameters [main] gives to the core. *)
Definition main_config (config : ServerConfig) : CoreConfig :=
  MakeCoreConfig (config_max_payload_bytes config) 10000 0 true.

(** What the fatal-error handler has written. *)
Definition fatal_log (core : CoreW) : string :=
  fold_right (fun s text => line (FatalLogMessage s) +:+ text) "" (fatal_calls core).

(** Leaving with a core: its destructor, and the one of the storage it owns. *)
Definition leave (path : string) (core : CoreW) (stderr : string) : M RootW Started :=
  fun w => (Exit 1 stderr, close_storage (DatabasePath path) (c_storage (drop_snapshot (stop_thread core))) w).

Definition main_start (launch : Launch) (args : list string) : M RootW Started :=
  match args with
  | [path] =>
      match LoadServerConfig path with
      | Err s => ret (Exit 1 (line (message s)))
      | Ok config =>
          if negb (la_block_signals launch) then ret (Exit 1 (line "failed to block shutdown signals"))
          else
            let! st := Open (storage_path config) in
            match st with
            | Err s => ret (Exit 1 (line (message s)))
            | Ok st =>
                let cfg := main_config config in
                let '(refresher, core) := construct cfg st in
                (* fatal_storage_error is what the handler set *)
                if negb (bool_decide (fatal_calls core = [])) then leave (storage_path config) core (fatal_log core)
                else if negb (la_BuildAndStart launch (admin_builder config))
                then leave (storage_path config) core (line ("failed to start admin server at " +:+ admin_listen_addr config))
                else if negb (la_BuildAndStart launch (public_builder config))
                then leave (storage_path config) core (line ("failed to start public server at " +:+ grpc_listen_addr config))
                else ret (Running config cfg refresher core)
            end
      end
  | _ => ret (Exit 1 (PrintUsage (la_program launch)))
  end.

End Start.

(** ** Stopping *)

(** A [grpc::Server]: serving; in [Shutdown()], when it takes no new calls and waits for the
    handlers that run; and shut down, when [Shutdown()] and [Wait()] return. *)
Inductive GrpcServer := Serving | Closing | Down.

Definition is_down (s : GrpcServer) : bool := match s with Down => true | _ => false end.

(** The first part of [Shutdown()]; the caller then waits for [Down]. *)
Definition close (s : GrpcServer) : GrpcServer := match s with Serving => Closing | _ => s end.

(** [shutdown_servers]: streams first, then [Shutdown()] of both servers, each called by a
    thread of its own, and waiting for both. *)
Inductive ServersPc := VStop | VServers (public_called admin_called : bool).

Inductive MainPc :=
  | MWaiting                 (** in [public_server->Wait()] *)
  | MDecide                  (** about to read [shutdown_initiated] *)
  | MStopSubscriptions
  | MAdminShutdown | MAdminClosing  (** before and in [admin_server->Shutdown()] *)
  | MSetStop                 (** about to set [stop_shutdown_threads] *)
  | MKill                    (** about to read [shutdown_signal_received] *)
  | MJoinAdmin | MJoinShutdown | MJoinFatal
  | MExited (failed : bool).

Inductive SignalPc :=
  | SWaiting                 (** in [sigwait] *)
  | SStore                   (** about to set [shutdown_signal_received] *)
  | SExchange                (** about to exchange [shutdown_initiated] *)
  | SServers (v : ServersPc) | SDone.

Inductive FatalPc :=
  | FWaiting                 (** on the condition variable *)
  | FExchange | FServers (v : ServersPc) | FDone.

(** The flags of [main], its threads and its two servers. *)
Record Proc := MkProc {
  fatal_storage_error : bool;
  shutdown_initiated : bool;
  shutdown_signal_received : bool;
  stop_shutdown_threads : bool;
  signal_pending : bool;
  streams_stopped : bool;    (** [StopSubscriptions] was called: streams are cancelled, new ones refused *)
  public_server : GrpcServer;
  admin_server : GrpcServer;
  main_pc : MainPc;
  signal_pc : SignalPc;
  fatal_pc : FatalPc;
  admin_joined : bool        (** the thread that waits for the admin server has ended *)
}.

Definition proc_start : Proc :=
  MkProc false false false false false false Serving Serving MWaiting SWaiting FWaiting false.

Definition set_main (p : Proc) (pc : MainPc) : Proc :=
  MkProc (fatal_storage_error p) (shutdown_initiated p) (shutdown_signal_received p)
    (stop_shutdown_threads p) (signal_pending p) (streams_stopped p) (public_server p) (admin_server p)
    pc (signal_pc p) (fatal_pc p) (admin_joined p).

Definition set_signal (p : Proc) (pc : SignalPc) : Proc :=
  MkProc (fatal_storage_error p) (shutdown_initiated p) (shutdown_signal_received p)
    (stop_shutdown_threads p) (signal_pending p) (streams_stopped p) (public_server p) (admin_server p)
    (main_pc p) pc (fatal_pc p) (admin_joined p).

Definition set_fatal_pc (p : Proc) (pc : FatalPc) : Proc :=
  MkProc (fatal_storage_error p) (shutdown_initiated p) (shutdown_signal_received p)
    (stop_shutdown_threads p) (signal_pending p) (streams_stopped p) (public_server p) (admin_server p)
    (main_pc p) (signal_pc p) pc (admin_joined p).

(** The flags one statement sets. *)
Definition with_initiated (p : Proc) : Proc :=
  MkProc (fatal_storage_error p) true (shutdown_signal_received p) (stop_shutdown_threads p)
    (signal_pending p) (streams_stopped p) (public_server p) (admin_server p) (main_pc p) (signal_pc p)
    (fatal_pc p) (admin_joined p).

Definition with_received (p : Proc) : Proc :=
  MkProc (fatal_storage_error p) (shutdown_initiated p) true (stop_shutdown_threads p)
    (signal_pending p) (streams_stopped p) (public_server p) (admin_server p) (main_pc p) (signal_pc p)
    (fatal_pc p) (admin_joined p).

Definition with_stop (p : Proc) : Proc :=
  MkProc (fatal_storage_error p) (shutdown_initiated p) (shutdown_signal_received p) true
    (signal_pending p) (streams_stopped p) (public_server p) (admin_server p) (main_pc p) (signal_pc p)
    (fatal_pc p) (admin_joined p).

Definition with_pending (b : bool) (p : Proc) : Proc :=
  MkProc (fatal_storage_error p) (shutdown_initiated p) (shutdown_signal_received p)
    (stop_shutdown_threads p) b (streams_stopped p) (public_server p) (admin_server p) (main_pc p)
    (signal_pc p) (fatal_pc p) (admin_joined p).

Definition with_streams (p : Proc) : Proc :=
  MkProc (fatal_storage_error p) (shutdown_initiated p) (shutdown_signal_received p)
    (stop_shutdown_threads p) (signal_pending p) true (public_server p) (admin_server p) (main_pc p)
    (signal_pc p) (fatal_pc p) (admin_joined p).

Definition with_public (s : GrpcServer) (p : Proc) : Proc :=
  MkProc (fatal_storage_error p) (shutdown_initiated p) (shutdown_signal_received p)
    (stop_shutdown_threads p) (signal_pending p) (streams_stopped p) s (admin_server p) (main_pc p)
    (signal_pc p) (fatal_pc p) (admin_joined p).

Definition with_admin (s : GrpcServer) (p : Proc) : Proc :=
  MkProc (fatal_storage_error p) (shutdown_initiated p) (shutdown_signal_received p)
    (stop_shutdown_threads p) (signal_pending p) (streams_stopped p) (public_server p) s (main_pc p)
    (signal_pc p) (fatal_pc p) (admin_joined p).

Definition with_fatal (p : Proc) : Proc :=
  MkProc true (shutdown_initiated p) (shutdown_signal_received p) (stop_shutdown_threads p)
    (signal_pending p) (streams_stopped p) (public_server p) (admin_server p) (main_pc p) (signal_pc p)
    (fatal_pc p) (admin_joined p).

Definition with_joined (p : Proc) : Proc :=
  MkProc (fatal_storage_error p) (shutdown_initiated p) (shutdown_signal_received p)
    (stop_shutdown_threads p) (signal_pending p) (streams_stopped p) (public_server p) (admin_server p)
    (main_pc p) (signal_pc p) (fatal_pc p) true.

(** One move of the thread that runs [shutdown_servers]; [back] puts it at its next place,
    [None] when it is through, which is when both calls of [Shutdown()] have returned. *)
Definition servers_moves (p : Proc) (v : ServersPc) (back : Proc -> option ServersPc -> Proc)
    : list Proc :=
  match v with
  | VStop => [back (with_streams p) (Some (VServers false false))]
  | VServers public_called admin_called =>
      (if public_called then []
       else [back (with_public (close (public_server p)) p) (Some (VServers true admin_called))]) ++
      (if admin_called then []
       else [back (with_admin (close (admin_server p)) p) (Some (VServers public_called true))]) ++
      (if public_called && admin_called && is_down (public_server p) && is_down (admin_server p)
       then [back p None] else [])
  end.

Definition signal_back (p : Proc) (v : option ServersPc) : Proc :=
  set_signal p (match v with Some v => SServers v | None => SDone end).

Definition fatal_back (p : Proc) (v : option ServersPc) : Proc :=
  set_fatal_pc p (match v with Some v => FServers v | None => FDone end).

(** The thread that waits for a signal. *)
Definition signal_moves (p : Proc) : list Proc :=
  match signal_pc p with
  | SWaiting => if signal_pending p then [set_signal (with_pending false p) SStore] else []
  | SStore => [set_signal (with_received p) SExchange]
  | SExchange =>
      [set_signal (with_initiated p) (if shutdown_initiated p then SDone else SServers VStop)]
  | SServers v => servers_moves p v signal_back
  | SDone => []
  end.

(** The thread that waits for a fatal error. *)
Definition fatal_moves (p : Proc) : list Proc :=
  match fatal_pc p with
  | FWaiting =>
      if fatal_storage_error p then [set_fatal_pc p FExchange]
      else if stop_shutdown_threads p then [set_fatal_pc p FDone] else []
  | FExchange =>
      [set_fatal_pc (with_initiated p) (if shutdown_initiated p then FDone else FServers VStop)]
  | FServers v => servers_moves p v fatal_back
  | FDone => []
  end.

(** The thread in [admin_server->Wait()]. *)
Definition admin_moves (p : Proc) : list Proc :=
  if is_down (admin_server p) && negb (admin_joined p) then [with_joined p] else [].

Definition main_moves (p : Proc) : list Proc :=
  match main_pc p with
  | MWaiting => if is_down (public_server p) then [set_main p MDecide] else []
  | MDecide => [set_main p (if shutdown_initiated p then MSetStop else MStopSubscriptions)]
  | MStopSubscriptions => [set_main (with_streams p) MAdminShutdown]
  | MAdminShutdown => [set_main (with_admin (close (admin_server p)) p) MAdminClosing]
  | MAdminClosing => if is_down (admin_server p) then [set_main p MSetStop] else []
  | MSetStop => [set_main (with_stop p) MKill]
  | MKill =>
      [set_main (if shutdown_signal_received p then p else with_pending true p) MJoinAdmin]
  | MJoinAdmin => if admin_joined p then [set_main p MJoinShutdown] else []
  | MJoinShutdown => match signal_pc p with SDone => [set_main p MJoinFatal] | _ => [] end
  | MJoinFatal =>
      match fatal_pc p with FDone => [set_main p (MExited (fatal_storage_error p))] | _ => [] end
  | MExited _ => []
  end.

Definition thread_moves (p : Proc) : list Proc :=
  main_moves p ++ signal_moves p ++ fatal_moves p ++ admin_moves p.

(** A server that is closing is down when none of its handlers runs. *)
Definition grpc_moves (public_idle admin_idle : bool) (p : Proc) : list Proc :=
  (match public_server p with Closing => if public_idle then [with_public Down p] else [] | _ => [] end) ++
  (match admin_server p with Closing => if admin_idle then [with_admin Down p] else [] | _ => [] end).

(** The handlers that run: streams of Subscribe, other calls of the public server, calls of
    the admin server. *)
Record InFlight := MkInFlight { streams : nat; public_calls : nat; admin_calls : nat }.

Record Process := MkProcess { threads : Proc; in_flight : InFlight }.

Definition process_start : Process := MkProcess proc_start (MkInFlight 0 0 0).

Definition public_idle (h : InFlight) : bool := Nat.eqb (streams h) 0 && Nat.eqb (public_calls h) 0.
Definition admin_idle (h : InFlight) : bool := Nat.eqb (admin_calls h) 0.

(** A handler ends: a call when it returns, a stream because it was cancelled. *)
Definition handler_moves (stopped : bool) (h : InFlight) : list InFlight :=
  (match streams h with
   | S n => if stopped then [MkInFlight n (public_calls h) (admin_calls h)] else []
   | O => []
   end) ++
  (match public_calls h with S n => [MkInFlight (streams h) n (admin_calls h)] | O => [] end) ++
  (match admin_calls h with S n => [MkInFlight (streams h) (public_calls h) n] | O => [] end).

(** What the process does by itself. *)
Definition prog_moves (x : Process) : list Process :=
  ((fun p => MkProcess p (in_flight x)) <$>
     thread_moves (threads x) ++
     grpc_moves (public_idle (in_flight x)) (admin_idle (in_flight x)) (threads x)) ++
  (MkProcess (threads x) <$> handler_moves (streams_stopped (threads x)) (in_flight x)).

(** What happens to it: calls arrive at a server that is serving, and streams before they are
    stopped; ... *)
Definition arrivals (x : Process) : list Process :=
  let p := threads x in let h := in_flight x in
  MkProcess p <$>
    (match public_server p with
     | Serving =>
         MkInFlight (streams h) (S (public_calls h)) (admin_calls h) ::
         (if streams_stopped p then [] else [MkInFlight (S (streams h)) (public_calls h) (admin_calls h)])
     | _ => []
     end) ++
    (match admin_server p with
     | Serving => [MkInFlight (streams h) (public_calls h) (S (admin_calls h))]
     | _ => []
     end).

(** ... a client ends its stream, a signal arrives, the storage fails. *)
Definition incidents (x : Process) : list Process :=
  let p := threads x in let h := in_flight x in
  (match streams h with S n => [MkProcess p (MkInFlight n (public_calls h) (admin_calls h))] | O => [] end) ++
  [MkProcess (with_pending true p) h; MkProcess (with_fatal p) h].

Definition exited (p : Proc) : bool := match main_pc p with MExited _ => true | _ => false end.

Definition env_moves (x : Process) : list Process :=
  if exited (threads x) then [] else arrivals x ++ incidents x.

(** [sigwait] returns an error, which ends its thread. *)
Definition sigwait_fails (p : Proc) : list Proc :=
  match signal_pc p with SWaiting => [set_signal p SDone] | _ => [] end.

Inductive reachable : Process -> Prop :=
  | Reach_start : reachable process_start
  | Reach_move x y : reachable x -> y ∈ prog_moves x ++ env_moves x -> reachable y
  | Reach_sigwait x p : reachable x -> exited (threads x) = false -> p ∈ sigwait_fails (threads x) ->
      reachable (MkProcess p (in_flight x)).

(** ** Termination *)

Definition servers_rank (v : ServersPc) : nat :=
  match v with
  | VStop => 4
  | VServers a b => 1 + (if a then 0 else 1) + (if b then 0 else 1)
  end.

Definition main_rank (pc : MainPc) : nat :=
  match pc with
  | MWaiting => 10 | MDecide => 9 | MStopSubscriptions => 8 | MAdminShutdown => 7 | MAdminClosing => 6
  | MSetStop => 5 | MKill => 4 | MJoinAdmin => 3 | MJoinShutdown => 2 | MJoinFatal => 1 | MExited _ => 0
  end.

Definition signal_rank (pc : SignalPc) : nat :=
  match pc with
  | SWaiting => 7 | SStore => 6 | SExchange => 5 | SServers v => servers_rank v | SDone => 0
  end.

Definition fatal_rank (pc : FatalPc) : nat :=
  match pc with FWaiting => 6 | FExchange => 5 | FServers v => servers_rank v | FDone => 0 end.

Definition grpc_rank (s : GrpcServer) : nat := match s with Down => 0 | _ => 1 end.

Definition proc_measure (p : Proc) : nat :=
  main_rank (main_pc p) + signal_rank (signal_pc p) + fatal_rank (fatal_pc p) +
  grpc_rank (public_server p) + grpc_rank (admin_server p) + (if admin_joined p then 0 else 1).

Definition measure (x : Process) : nat :=
  proc_measure (threads x) + streams (in_flight x) + public_calls (in_flight x) + admin_calls (in_flight x).

(** The elements of an explicit list, one by one. *)
Ltac each_move :=
  repeat match goal with
         | H : _ ∈ [] |- _ => by apply elem_of_nil in H
         | H : _ ∈ _ :: _ |- _ => apply elem_of_cons in H as [->|H]
         | H : _ ∈ (if ?b then _ else _) |- _ => destruct b eqn:?
         | H : _ ∈ (match ?b with _ => _ end) |- _ => destruct b eqn:?
         | H : _ ∈ _ ++ _ |- _ => apply elem_of_app in H as [H|H]
         end.

Lemma close_rank s : grpc_rank (close s) = grpc_rank s.
Proof. by destruct s. Qed.

Lemma threads_decrease p p' pi ai :
  p' ∈ thread_moves p ++ grpc_moves pi ai p -> (proc_measure p' < proc_measure p)%nat.
Proof.
  destruct p as [fe si sr st pe ss ps as' mp sp fp aj].
  unfold thread_moves, main_moves, signal_moves, fatal_moves, admin_moves, servers_moves, grpc_moves.
  cbn. intros Hm. unfold proc_measure. each_move; subst; cbn; rewrite ?close_rank; repeat case_match;
    cbn in *; try lia; try done.
Qed.

Lemma handlers_decrease b h h' :
  h' ∈ handler_moves b h ->
  (streams h' + public_calls h' + admin_calls h' < streams h + public_calls h + admin_calls h)%nat.
Proof. destruct h as [s c a]. unfold handler_moves. cbn. intros Hm. each_move; cbn; lia. Qed.

Lemma prog_moves_cases x y :
  y ∈ prog_moves x ->
  (exists p, y = MkProcess p (in_flight x) /\
     p ∈ thread_moves (threads x) ++ grpc_moves (public_idle (in_flight x)) (admin_idle (in_flight x)) (threads x)) \/
  (exists h, y = MkProcess (threads x) h /\ h ∈ handler_moves (streams_stopped (threads x)) (in_flight x)).
Proof. intros [(p & -> & Hp)%list_elem_of_fmap|(h & -> & Hh)%list_elem_of_fmap]%elem_of_app; [left|right]; eauto. Qed.

(** Every move of the program brings some thread or some handler closer to its end. *)
Lemma prog_decreases x y : y ∈ prog_moves x -> (measure y < measure x)%nat.
Proof.
  intros [(p & -> & Hp)|(h & -> & Hh)]%prog_moves_cases; unfold measure; cbn.
  - apply threads_decrease in Hp. lia.
  - apply handlers_decrease in Hh. lia.
Qed.

(** What happens to it adds at most a handler. *)
Lemma env_increases x y : y ∈ env_moves x -> (measure y <= S (measure x))%nat.
Proof.
  destruct x as [[fe si sr st pe ss ps as' mp sp fp aj] [s c a]].
  unfold env_moves, arrivals, incidents, measure, proc_measure. cbn. intros Hm.
  destruct (exited _); [by apply elem_of_nil in Hm|].
  apply elem_of_app in Hm as [(h & -> & Hh)%list_elem_of_fmap|Hm]; cbn; each_move; cbn; lia.
Qed.

(** ** What holds in every reachable state *)

(** The control state is finite, so a boolean invariant is checked on every case. *)
Class Enum (A : Type) := { enum : list A; enum_all : forall x : A, x ∈ enum }.

Definition holds_all {A} `{Enum A} (f : A -> bool) : bool := forallb f enum.

Lemma holds_all_elim {A} `{Enum A} (f : A -> bool) : holds_all f = true -> forall x, f x = true.
Proof. intros Hf x. unfold holds_all in Hf. rewrite forallb_forall in Hf. apply Hf, list_elem_of_In, enum_all. Qed.

#[export] Instance bool_enum : Enum bool.
Proof. exists [true; false]. intros []; set_solver. Defined.

#[export] Instance GrpcServer_enum : Enum GrpcServer.
Proof. exists [Serving; Closing; Down]. intros []; set_solver. Defined.

#[export] Instance ServersPc_enum : Enum ServersPc.
Proof.
  exists [VStop; VServers true true; VServers true false; VServers false true; VServers false false].
  intros [|[] []]; set_solver.
Defined.

#[export] Instance MainPc_enum : Enum MainPc.
Proof.
  exists [MWaiting; MDecide; MStopSubscriptions; MAdminShutdown; MAdminClosing; MSetStop; MKill;
          MJoinAdmin; MJoinShutdown; MJoinFatal; MExited true; MExited false].
  intros [| | | | | | | | | |[]]; set_solver.
Defined.

#[export] Instance SignalPc_enum : Enum SignalPc.
Proof.
  exists (SDone :: SWaiting :: SStore :: SExchange :: (SServers <$> enum)).
  intros [| | |v|]; rewrite ?elem_of_cons; auto 6. right; right; right; right.
  apply list_elem_of_fmap. exists v. split; [done|apply enum_all].
Defined.

#[export] Instance FatalPc_enum : Enum FatalPc.
Proof.
  exists (FDone :: FWaiting :: FExchange :: (FServers <$> enum)).
  intros [| |v|]; rewrite ?elem_of_cons; auto 6. right; right; right.
  apply list_elem_of_fmap. exists v. split; [done|apply enum_all].
Defined.

Definition is_serving (s : GrpcServer) : bool := match s with Serving => true | _ => false end.

(** A thread that runs [shutdown_servers] did the parts that are done. *)
Definition servers_ok (p : Proc) (v : ServersPc) : bool :=
  match v with
  | VStop => is_serving (public_server p) && is_serving (admin_server p)
  | VServers a b => streams_stopped p && eqb (is_serving (public_server p)) (negb a) &&
                    eqb (is_serving (admin_server p)) (negb b)
  end.

Definition all_down (p : Proc) : bool :=
  streams_stopped p && is_down (public_server p) && is_down (admin_server p).

(** At most one thread runs [shutdown_servers], and if none does it has not begun or it is
    over. *)
Definition exclusive (p : Proc) : bool :=
  match signal_pc p, fatal_pc p with
  | SServers _, FServers _ => false
  | SServers v, _ | _, FServers v => shutdown_initiated p && servers_ok p v
  | _, _ => if shutdown_initiated p then all_down p
            else is_serving (public_server p) && is_serving (admin_server p)
  end.

Definition main_ok (p : Proc) : bool :=
  let waking := match signal_pc p with SWaiting => signal_pending p | _ => true end in
  let signalled := match signal_pc p with SDone => true | _ => false end in
  let woken := match fatal_pc p with FDone => true | _ => false end in
  match main_pc p with
  | MWaiting => negb (stop_shutdown_threads p)
  | MDecide | MSetStop =>
      shutdown_initiated p && is_down (public_server p) && negb (stop_shutdown_threads p)
  | MStopSubscriptions | MAdminShutdown | MAdminClosing => false
  | MKill => shutdown_initiated p && stop_shutdown_threads p
  | MJoinAdmin => shutdown_initiated p && stop_shutdown_threads p && waking
  | MJoinShutdown => shutdown_initiated p && stop_shutdown_threads p && waking && admin_joined p
  | MJoinFatal => shutdown_initiated p && stop_shutdown_threads p && admin_joined p && signalled
  | MExited failed =>
      shutdown_initiated p && admin_joined p && signalled && woken &&
      eqb failed (fatal_storage_error p)
  end.

Definition signal_ok (p : Proc) : bool :=
  match signal_pc p with
  | SWaiting | SStore => negb (shutdown_signal_received p)
  | _ => true
  end.

Definition fatal_ok (p : Proc) : bool :=
  match fatal_pc p with
  | FWaiting => true
  | FExchange | FServers _ => fatal_storage_error p
  | FDone => shutdown_initiated p
  end.

Definition proc_ok (p : Proc) : bool :=
  if exclusive p then if main_ok p then
    signal_ok p && fatal_ok p && implb (admin_joined p) (is_down (admin_server p))
  else false else false.

(** A reason to stop: a fatal error, a signal that was received or will be, or a shutdown
    under way. *)
Definition triggered (p : Proc) : bool :=
  fatal_storage_error p || shutdown_initiated p ||
  match signal_pc p with
  | SWaiting => signal_pending p
  | SStore | SExchange => true
  | _ => false
  end.

Definition nonempty {A} (l : list A) : bool := match l with [] => false | _ => true end.

(** The moves of the threads and of what can befall them keep the invariant; a process with
    a reason to stop keeps it and is never stuck once its handlers have ended, and it waits
    for handlers only after it has cancelled the streams. *)
Definition all_moves_ok (p : Proc) : bool :=
  if proc_ok p then
    let moves := thread_moves p ++ grpc_moves true true p in
    forallb proc_ok moves &&
    (if exited p then true
     else forallb proc_ok ([with_pending true p; with_fatal p] ++ sigwait_fails p)) &&
    (if triggered p then
       forallb triggered moves && triggered (with_pending true p) && triggered (with_fatal p) &&
       (if exited p then true
        else nonempty moves && (nonempty (thread_moves p) || streams_stopped p))
     else true)
  else true.

Lemma every_case : forall p, all_moves_ok p = true.
Proof.
  assert (Hall : holds_all (fun mp => holds_all (fun sp => holds_all (fun fp =>
    holds_all (fun fe => holds_all (fun si => holds_all (fun sr => holds_all (fun st =>
    holds_all (fun pe => holds_all (fun ss => holds_all (fun ps => holds_all (fun as' =>
    holds_all (fun aj => all_moves_ok (MkProc fe si sr st pe ss ps as' mp sp fp aj))))))))))))) = true)
    by (vm_compute; reflexivity).
  intros [fe si sr st pe ss ps as' mp sp fp aj].
  apply (holds_all_elim _) with (x := mp) in Hall. apply holds_all_elim with (x := sp) in Hall.
  apply holds_all_elim with (x := fp) in Hall. apply holds_all_elim with (x := fe) in Hall.
  apply holds_all_elim with (x := si) in Hall. apply holds_all_elim with (x := sr) in Hall.
  apply holds_all_elim with (x := st) in Hall. apply holds_all_elim with (x := pe) in Hall.
  apply holds_all_elim with (x := ss) in Hall. apply holds_all_elim with (x := ps) in Hall.
  apply holds_all_elim with (x := as') in Hall. by apply holds_all_elim with (x := aj) in Hall.
Qed.

(** The cases, as facts. *)
Lemma checked p :
  proc_ok p = true ->
  (forall q, q ∈ thread_moves p ++ grpc_moves true true p ->
     proc_ok q = true /\ (triggered p = true -> triggered q = true)) /\
  (exited p = false -> proc_ok (with_pending true p) = true /\ proc_ok (with_fatal p) = true /\
     forall q, q ∈ sigwait_fails p -> proc_ok q = true) /\
  (triggered p = true ->
     triggered (with_pending true p) = true /\ triggered (with_fatal p) = true /\
     (exited p = false -> thread_moves p ++ grpc_moves true true p <> [] /\
        (thread_moves p = [] -> streams_stopped p = true))).
Proof.
  intros Hok. pose proof (every_case p) as Hc. unfold all_moves_ok in Hc. rewrite Hok in Hc.
  cbv zeta in Hc. set (moves := thread_moves p ++ grpc_moves true true p) in *.
  apply andb_true_iff in Hc as [[H1 H2]%andb_true_iff H3]. rewrite forallb_forall in H1. split_and!.
  - intros q Hq%list_elem_of_In. split; [by apply H1|]. intros Ht. rewrite Ht in H3.
    rewrite !andb_true_iff, forallb_forall in H3. by apply H3.
  - intros He. rewrite He in H2. rewrite forallb_forall in H2. split_and!; [apply H2; by left|apply H2; by right; left|].
    intros q Hq%list_elem_of_In. apply H2. right. right. exact Hq.
  - intros Ht. rewrite Ht in H3. rewrite !andb_true_iff in H3. destruct H3 as (((_ & Hp) & Hf) & Hm).
    split_and!; [done|done|]. intros He. rewrite He in Hm. apply andb_true_iff in Hm as [Hm Hs].
    split; [by intros E; rewrite E in Hm|]. intros E. by rewrite E in Hs.
Qed.

Lemma grpc_moves_all pi ai p q : q ∈ grpc_moves pi ai p -> q ∈ grpc_moves true true p.
Proof.
  unfold grpc_moves. rewrite !elem_of_app.
  intros [Hq|Hq]; [left|right]; case_match; try done; (case_match; [done|by apply elem_of_nil in Hq]).
Qed.

Lemma thread_moves_all x q :
  q ∈ thread_moves (threads x) ++ grpc_moves (public_idle (in_flight x)) (admin_idle (in_flight x)) (threads x) ->
  q ∈ thread_moves (threads x) ++ grpc_moves true true (threads x).
Proof. rewrite !elem_of_app. intros [?|?%grpc_moves_all]; auto. Qed.

(** Handlers run only while their server is not down. *)
Definition flights_ok (p : Proc) (h : InFlight) : Prop :=
  (is_down (public_server p) = true -> public_idle h = true) /\
  (is_down (admin_server p) = true -> admin_idle h = true).

(** The threads close servers; only their idleness takes them down. *)
Lemma thread_moves_down p q :
  q ∈ thread_moves p ->
  is_down (public_server q) = is_down (public_server p) /\ is_down (admin_server q) = is_down (admin_server p).
Proof.
  assert (Hc : forall s, is_down (close s) = is_down s) by (by intros []).
  destruct p as [fe si sr st pe ss ps as' mp sp fp aj].
  unfold thread_moves, main_moves, signal_moves, fatal_moves, admin_moves, servers_moves. cbn. intros Hm.
  each_move; subst; cbn; rewrite ?Hc; repeat case_match; done.
Qed.

Lemma grpc_moves_idle h p q :
  q ∈ grpc_moves (public_idle h) (admin_idle h) p -> flights_ok p h -> flights_ok q h.
Proof.
  unfold grpc_moves. intros [Hq|Hq]%elem_of_app [H1 H2]; case_match; try by apply elem_of_nil in Hq.
  all: destruct (_ h) eqn:E in Hq; [|by apply elem_of_nil in Hq]; apply list_elem_of_singleton in Hq as ->.
  all: by split.
Qed.

Lemma idle_keeps b h h' :
  h' ∈ handler_moves b h ->
  (public_idle h = true -> public_idle h' = true) /\ (admin_idle h = true -> admin_idle h' = true).
Proof.
  destruct h as [s c a]. unfold handler_moves, public_idle, admin_idle. cbn. intros Hm.
  each_move; subst; cbn; rewrite ?andb_false_r; by split.
Qed.

Record process_ok (x : Process) : Prop := {
  po_threads : proc_ok (threads x) = true;
  po_flights : flights_ok (threads x) (in_flight x)
}.

Lemma prog_ok x y : process_ok x -> y ∈ prog_moves x -> process_ok y.
Proof.
  intros [Hok Hfl] [(p & -> & Hp)|(h & -> & Hh)]%prog_moves_cases; constructor; cbn; [..|done|].
  - destruct (checked _ Hok) as [Hth _]. by apply Hth, thread_moves_all.
  - apply elem_of_app in Hp as [[E1 E2]%thread_moves_down|Hp]; [|by eapply grpc_moves_idle].
    unfold flights_ok. by rewrite E1, E2.
  - apply idle_keeps in Hh as [H1 H2]. split; intros Hd; [apply H1|apply H2]; by apply Hfl.
Qed.

Lemma env_ok x y : process_ok x -> y ∈ env_moves x -> process_ok y.
Proof.
  intros [Hok Hfl] Hm. unfold env_moves in Hm. destruct (exited (threads x)) eqn:He; [by apply elem_of_nil in Hm|].
  destruct (checked _ Hok) as (_ & Hi & _). destruct (Hi He) as (Hp & Hf & _). clear Hi.
  apply elem_of_app in Hm as [(h & -> & Hh)%list_elem_of_fmap|Hm]; constructor.
  - done.
  - destruct Hfl as [H1 H2]. cbn. unfold public_idle, admin_idle in *. each_move; split; cbn; intros Hd;
      try (by apply H1); try (by apply H2); by destruct (public_server _), (admin_server _).
  - unfold incidents in Hm. each_move; done.
  - destruct Hfl as [H1 H2]. unfold incidents in Hm. each_move; [|by split..].
    split; cbn; [|done]. intros Hd%H1. unfold public_idle in *. cbn in *. by destruct (streams (in_flight x)).
Qed.

(** Every reachable state satisfies the invariant. *)
Lemma reachable_ok x : reachable x -> process_ok x.
Proof.
  induction 1 as [|x y _ IH [Hm|Hm]%elem_of_app|x p _ [Hok Hfl] He Hp].
  - constructor; [reflexivity|by split].
  - by eapply prog_ok.
  - by eapply env_ok.
  - destruct (checked _ Hok) as (_ & Hi & _). constructor; cbn; [by apply Hi|].
    unfold sigwait_fails in Hp. each_move; exact Hfl.
Qed.

(** A process with a reason to stop is never stuck: a thread can go on, or a server can go
    down, or a handler can end that is not a stream left running. *)
Lemma reachable_moves x :
  process_ok x -> triggered (threads x) = true -> exited (threads x) = false -> prog_moves x <> [].
Proof.
  intros [Hok _] Ht He Hno. destruct (checked _ Hok) as (_ & _ & Hc).
  destruct (Hc Ht) as (_ & _ & Hm). destruct (Hm He) as [Hne Hs]. clear Hc Hm.
  unfold prog_moves in Hno. apply app_eq_nil in Hno as [Hno%fmap_nil_inv Hh%fmap_nil_inv].
  apply app_eq_nil in Hno as [Hth Hg]. rewrite (Hs Hth) in Hh. unfold handler_moves in Hh.
  destruct (in_flight x) as [s c a]. cbn in *.
  destruct s; [|done]. destruct c; [|done]. destruct a; [|done].
  apply Hne. by rewrite Hth.
Qed.

(** What is left when the process has exited. *)
Lemma exited_state x b :
  process_ok x -> main_pc (threads x) = MExited b ->
  all_down (threads x) = true /\ signal_pc (threads x) = SDone /\ fatal_pc (threads x) = FDone /\
  admin_joined (threads x) = true /\ b = fatal_storage_error (threads x) /\ in_flight x = MkInFlight 0 0 0.
Proof.
  intros [Hok [H1 H2]] E. destruct x as [p h]. cbn in *. unfold proc_ok in Hok.
  destruct (exclusive p) eqn:Ex; [|done]. destruct (main_ok p) eqn:Em; [|done]. clear Hok.
  unfold main_ok in Em. rewrite E, !andb_true_iff in Em. destruct Em as ((((Hi & Hj) & Hs) & Hf) & Hb).
  unfold exclusive in Ex. destruct (signal_pc p); try done. destruct (fatal_pc p); try done. rewrite Hi in Ex.
  apply eqb_prop in Hb. pose proof Ex as Hd. unfold all_down in Hd. rewrite !andb_true_iff in Hd.
  destruct Hd as ((_ & Hp%H1) & Ha%H2). unfold public_idle, admin_idle in *.
  apply andb_true_iff in Hp as [Hst%Nat.eqb_eq Hc%Nat.eqb_eq]. apply Nat.eqb_eq in Ha.
  split_and!; try done. destruct h. cbn in *. by subst.
Qed.

(** Runs of the process: [n] moves of its own and [k] things that happen to it. *)
Inductive mixed_run : nat -> nat -> Process -> Process -> Prop :=
  | Run_nil x : mixed_run 0 0 x x
  | Run_prog n k x y z : y ∈ prog_moves x -> mixed_run n k y z -> mixed_run (S n) k x z
  | Run_env n k x y z : y ∈ env_moves x -> mixed_run n k y z -> mixed_run n (S k) x z.

Lemma mixed_run_bound n k x y : mixed_run n k x y -> (n + measure y <= measure x + k)%nat.
Proof.
  induction 1 as [|n k x y z Hm _ IH|n k x y z Hm _ IH]; [lia|apply prog_decreases in Hm; lia|].
  apply env_increases in Hm. lia.
Qed.

Lemma mixed_run_ok n k x y : process_ok x -> mixed_run n k x y -> process_ok y.
Proof.
  intros Hx Hrun. revert Hx. induction Hrun as [|n k x y z Hm _ IH|n k x y z Hm _ IH]; intros Hx; [done|..];
    apply IH; [by eapply prog_ok|by eapply env_ok].
Qed.

(** The reason to stop does not go away. *)
Lemma triggered_env x y :
  process_ok x -> y ∈ env_moves x -> triggered (threads x) = true -> triggered (threads y) = true.
Proof.
  intros [Hok _] Hm Ht. destruct (checked _ Hok) as (_ & _ & Hc). destruct (Hc Ht) as (Hp & Hf & _).
  unfold env_moves in Hm. destruct (exited _); [by apply elem_of_nil in Hm|].
  apply elem_of_app in Hm as [(h & -> & _)%list_elem_of_fmap|Hm]; [done|]. unfold incidents in Hm. each_move; done.
Qed.

Lemma triggered_prog x y :
  process_ok x -> y ∈ prog_moves x -> triggered (threads x) = true -> triggered (threads y) = true.
Proof.
  intros [Hok _] [(p & -> & Hp)|(h & -> & _)]%prog_moves_cases Ht; [|done].
  destruct (checked _ Hok) as (Hth & _). by apply (Hth p (thread_moves_all x p Hp)).
Qed.

Lemma triggered_run n k x y :
  process_ok x -> mixed_run n k x y -> triggered (threads x) = true -> triggered (threads y) = true.
Proof.
  intros Hx Hrun. revert Hx. induction Hrun as [|n k x y z Hm _ IH|n k x y z Hm _ IH]; intros Hx Ht; [done|..].
  - apply IH; [by eapply prog_ok|by eapply triggered_prog].
  - apply IH; [by eapply env_ok|by eapply triggered_env].
Qed.

(** Left to itself, the process goes on until nothing of it can move. *)
Lemma prog_run_ends x : exists n y, mixed_run n 0 x y /\ prog_moves y = [].
Proof.
  remember (measure x) as k eqn:Ek. revert x Ek. induction (lt_wf k) as [k _ IH]. intros x ->.
  destruct (prog_moves x) as [|y l] eqn:Em; [exists 0%nat, x; split; [constructor|done]|].
  assert (Hy : y ∈ prog_moves x) by (rewrite Em; by left).
  destruct (IH (measure y) (prog_decreases x y Hy) y eq_refl) as (n & z & Hrun & Hend).
  exists (S n), z. split; [by econstructor|done].
Qed.

(** At most one thread runs [shutdown_servers]. *)
Lemma one_shutdown p v1 v2 : proc_ok p = true -> signal_pc p = SServers v1 -> fatal_pc p = FServers v2 -> False.
Proof.
  unfold proc_ok, exclusive. intros Hok E1 E2. by rewrite E1, E2 in Hok.
Qed.

(** The process does not set the storage error by itself. *)
Lemma prog_moves_fatal x y :
  y ∈ prog_moves x -> fatal_storage_error (threads y) = fatal_storage_error (threads x).
Proof.
  intros [(p & -> & Hp)|(h & -> & _)]%prog_moves_cases; [|done]. cbn. revert Hp.
  destruct (threads x) as [fe si sr st pe ss ps as' mp sp fp aj].
  unfold thread_moves, main_moves, signal_moves, fatal_moves, admin_moves, servers_moves, grpc_moves.
  cbn. intros Hm. each_move; subst; cbn; repeat case_match; done.
Qed.
