(* ===== verification/RootOpen.v ===== *)
(** * What opening a root does

    Lemmas on the operations of Root.v: which calls only look, which layouts are
    accepted, that directories are on disk when they are used, and what the storage
    that is opened holds. *)

From S2P Require Import Prelude Status Encoding Tokens Proto Json Platform Keys World FileStore.
From S2P Require Import Files Durability Storage Core Commands Model Reads Scan Spec SystemMessages Refine.
From S2P Require Import Handlers ChannelHandlers Invariant Queries Pages Startup Objects Services.
From S2P Require Import Effects Requests Concurrency Root.

Section RootOpen.
Context {R : RocksDB} {P : Protobuf} {F : PosixDir} {H : Host} {T : RootFs} {E : RocksEnv}.
Context {RS : RocksDBSpec} {PS : ProtobufSpec} {FS : PosixDirSpec} {TS : RootFsSpec} {ES : RocksEnvSpec}.

(** ** Operations that only look *)

Definition same_root (w w' : RootW) : Prop :=
  tr_same (rw_tree w) (rw_tree w') /\ rw_env w' = rw_env w /\ rw_objects w' = rw_objects w /\
  rw_os w' = rw_os w.

#[export] Instance same_root_refl : Reflexive same_root.
Proof. intros w. by repeat split. Qed.

#[export] Instance same_root_trans : Transitive same_root.
Proof. intros x y z ([? ?] & ? & ? & ?) ([? ?] & ? & ? & ?). repeat split; congruence. Qed.

Lemma wp_on_tree {A} (m : M tree_t A) (Q : A -> RootW -> Prop) w :
  wp m (fun a t => Q a (MkRootW t (rw_env w) (rw_objects w) (rw_os w))) (rw_tree w) -> wp (on_tree m) Q w.
Proof. unfold wp, on_tree. by destruct (m (rw_tree w)). Qed.

(** A call that only looks. *)
Lemma wp_look {A} (m : M tree_t A) (ans : A -> Prop) (Q : A -> RootW -> Prop) w0 w :
  (let '(r, t') := m (rw_tree w) in tr_same (rw_tree w) t' /\ ans r) -> same_root w0 w ->
  (forall r w', ans r -> same_root w0 w' -> tr_view (rw_tree w') = tr_view (rw_tree w) -> Q r w') ->
  wp (on_tree m) Q w.
Proof.
  intros Hm Hs HQ. unfold wp, on_tree. destruct (m (rw_tree w)) as [r t']. destruct Hm as [[Hv Hd] Ha].
  apply HQ; [done| |done]. destruct Hs as ([? ?] & ? & ? & ?). repeat split; cbn; congruence.
Qed.

Lemma wp_exists p (Q : Z + bool -> RootW -> Prop) w0 w :
  same_root w0 w ->
  (forall e w', same_root w0 w' -> Q (inl e) w') ->
  (forall w', same_root w0 w' -> Q (inr (bool_decide (is_Some (tr_view (rw_tree w0) !! p)))) w') ->
  wp (on_tree (tr_exists p)) Q w.
Proof using TS.
  intros Hs He Hok. eapply wp_look; [apply exists_spec|done|]. intros [e|b] w' Ha Hs' _; [by apply He|].
  rewrite (Ha b eq_refl). destruct Hs as ([-> _] & _). by apply Hok.
Qed.

Lemma wp_is_directory p (Q : Z + bool -> RootW -> Prop) w0 w :
  same_root w0 w ->
  (forall e w', same_root w0 w' -> Q (inl e) w') ->
  (forall w', same_root w0 w' -> Q (inr (bool_decide (tr_view (rw_tree w0) !! p = Some true))) w') ->
  wp (on_tree (tr_is_directory p)) Q w.
Proof using TS.
  intros Hs He Hok. eapply wp_look; [apply is_directory_spec|done|]. intros [e|b] w' Ha Hs' _; [by apply He|].
  rewrite (Ha b eq_refl). destruct Hs as ([-> _] & _). by apply Hok.
Qed.

(** ** New and foreign roots *)

Definition empty_root (v : gmap string bool) (path : string) : Prop :=
  v !! path = None \/
  (v !! path = Some true /\ forall n, is_name n = true -> v !! path_join path n = None).

Definition root_layout (v : gmap string bool) (path : string) : Prop :=
  (forall n, is_name n = true -> is_Some (v !! path_join path n) -> n = "db" \/ n = "objects") /\
  v !! path_join path "db" = Some true /\ v !! path_join path "objects" = Some true.

Lemma IsNewStorageRoot_ok path w :
  wp (IsNewStorageRoot path) (fun b w' =>
    same_root w w' /\ (b = true -> empty_root (tr_view (rw_tree w)) path)) w.
Proof using TS.
  unfold IsNewStorageRoot, IsEmptyDirectory. apply wp_bind, (wp_exists path _ w); [done| |].
  { intros e w' Hs. by apply wp_ret. }
  intros w1 H1. case_bool_decide as He; [|apply wp_ret; split; [done|]; intros _; left; by apply eq_None_not_Some].
  apply wp_bind, (wp_is_directory path _ w); [done|intros e w' Hs; by apply wp_ret|].
  intros w2 H2. case_bool_decide as Hd; [|by apply wp_ret].
  apply wp_bind. eapply (wp_look _ _ _ w); [apply iterate_spec|done|].
  intros [e|[l e]] w3 Ha H3 _; [by apply wp_ret|]. destruct l as [|x l]; apply wp_ret; [|done].
  split; [done|]. intros _. right. split; [done|]. intros n Hname. apply eq_None_not_Some. intros Hn.
  destruct (Ha [] e eq_refl) as [_ Hall]. destruct H2 as ([Hv _] & _). rewrite Hv in Hall.
  by apply (elem_of_nil n), Hall; [right| |].
Qed.

Lemma ValidateStorageRootLayout_ok path w :
  wp (ValidateStorageRootLayout path) (fun r w' => same_root w w' /\
    match r with Ok _ => root_layout (tr_view (rw_tree w)) path | Err s => code s <> OK end) w.
Proof using TS.
  unfold ValidateStorageRootLayout. apply wp_bind.
  eapply (wp_look _ _ _ w); [apply iterate_spec|done|].
  intros [e|[l [e|]]] w1 Ha H1 _; [by apply wp_ret..|]. case_bool_decide as Hl; cbn [negb]; [|by apply wp_ret].
  destruct (Ha l None eq_refl) as [Hin Hall].
  apply wp_bind, (wp_is_directory _ _ w); [done|intros e w' Hs; by apply wp_ret|].
  intros w2 H2. case_bool_decide as Hdb; [|by apply wp_ret].
  apply wp_bind, (wp_is_directory _ _ w); [done|intros e w' Hs; by apply wp_ret|].
  intros w3 H3. case_bool_decide as Hob; apply wp_ret; [|done]. split; [done|]. split_and!; [|done|done].
  intros n Hname Hn. apply (Hall (or_introl eq_refl) n Hname) in Hn.
  by rewrite <- (elem_of_list_to_set (C := gset string)), Hl, elem_of_union, !elem_of_singleton in Hn.
Qed.

(** ** Directories on disk *)

(** Every path that was not there before is on disk. *)
Definition new_durable (w0 w : RootW) : Prop :=
  forall q, is_Some (tr_view (rw_tree w) !! q) -> tr_view (rw_tree w0) !! q = None ->
    q ∈ tr_durable (rw_tree w).

(** Directories are only added. *)
Definition grows (w0 w : RootW) : Prop :=
  tr_view (rw_tree w0) ⊆ tr_view (rw_tree w) /\ tr_durable (rw_tree w0) ⊆ tr_durable (rw_tree w) /\
  rw_env w = rw_env w0 /\ rw_objects w = rw_objects w0 /\ rw_os w = rw_os w0.

#[export] Instance grows_refl : Reflexive grows.
Proof. intros w. by repeat split. Qed.

#[export] Instance grows_trans : Transitive grows.
Proof.
  intros x y z (? & ? & ? & ? & ?) (? & ? & ? & ? & ?). split_and!; [by etransitivity|by etransitivity|congruence..].
Qed.

Lemma same_root_grows w w' : same_root w w' -> grows w w'.
Proof. intros ([Hv Hd] & ? & ? & ?). unfold grows. by rewrite Hv, Hd. Qed.

(** A directory of the tree, made or found, whose creation is on disk. *)
Definition settled (w0 : RootW) (path : string) (r : Result unit) (w' : RootW) : Prop :=
  grows w0 w' /\
  match r with
  | Ok _ => tr_view (rw_tree w') !! path = Some true /\ new_durable w0 w'
  | Err s => code s = UNAVAILABLE
  end.

Lemma SyncDirectory_ok path w :
  wp (SyncDirectory path) (fun r w' => grows w w' /\ tr_view (rw_tree w') = tr_view (rw_tree w) /\
    match r with
    | Ok _ => forall q, is_Some (tr_view (rw_tree w) !! q) -> path_parent q = path ->
                q ∈ tr_durable (rw_tree w')
    | Err s => code s = UNAVAILABLE
    end) w.
Proof using TS.
  unfold SyncDirectory. apply wp_bind, wp_on_tree. unfold wp at 1.
  pose proof (open_directory_spec path (rw_tree w)) as Ho. destruct (tr_open path (rw_tree w)) as [[e|fd] t1].
  all: destruct Ho as [[Hv Hd] Hfd].
  { apply wp_ret. split_and!; [|done|done]. apply same_root_grows. by repeat split. }
  specialize (Hfd fd eq_refl). apply wp_bind, wp_on_tree. unfold wp at 1. cbn [rw_tree rw_env rw_objects rw_os].
  pose proof (fsync_directory_spec fd path t1 Hfd) as Hf. destruct (tr_fsync fd t1) as [r t2].
  destruct Hf as (Hv2 & Hd2 & _ & Hsync).
  assert (Hgrow : forall t3, tr_same t2 t3 -> grows w (MkRootW t3 (rw_env w) (rw_objects w) (rw_os w)) /\ tr_view t3 = tr_view (rw_tree w)).
  { intros t3 [Hv3 Hd3]. unfold grows. cbn. rewrite Hv3, Hv2, Hv, Hd3. split_and!; try done. by rewrite <- Hd. }
  destruct r as [e|]; apply wp_bind, wp_on_tree; unfold wp at 1; cbn [rw_tree rw_env rw_objects rw_os];
    pose proof (close_directory_spec fd t2) as Hc; destruct (tr_close fd t2) as [c t3];
    destruct (Hgrow t3 Hc) as [Hg Hv3].
  - by apply wp_ret.
  - destruct c as [e|]; apply wp_ret; [done|]. split_and!; [done|done|]. intros q Hq Hp. cbn.
    destruct Hc as [_ ->]. apply Hsync; [done| |done]. by rewrite Hv.
Qed.

Lemma CreateDirectoryAndSyncParent_ok path w0 w :
  grows w0 w -> new_durable w0 w -> wp (CreateDirectoryAndSyncParent path) (settled w0 path) w.
Proof using TS.
  intros Hg Hnew. unfold CreateDirectoryAndSyncParent. apply wp_bind, wp_on_tree. unfold wp at 1.
  pose proof (create_directory_spec path (rw_tree w)) as Hc.
  destruct (tr_create_directory path (rw_tree w)) as [[e|[]] t1].
  - assert (Hs : same_root w (MkRootW t1 (rw_env w) (rw_objects w) (rw_os w))) by (by split_and!; try apply Hc).
    apply wp_ret. split; [|done]. etransitivity; [exact Hg|by apply same_root_grows].
  - destruct Hc as (Hnone & Hv & Hd). set (w1 := MkRootW t1 _ _ _).
    assert (Hg1 : grows w0 w1).
    { etransitivity; [exact Hg|]. unfold grows. cbn. rewrite Hv, Hd. split_and!; try done. by apply insert_subseteq. }
    eapply wp_mono; [|apply SyncDirectory_ok]. intros r w2 (Hg2 & Hv2 & Hr).
    split; [by etransitivity|]. destruct r as [[]|s]; [|done].
    assert (Hvq : tr_view (rw_tree w2) = <[path := true]> (tr_view (rw_tree w))) by (by rewrite Hv2).
    split; [rewrite Hvq; apply lookup_insert_eq|]. intros q Hq Hq0. rewrite Hvq in Hq.
    destruct (decide (q = path)) as [->|Hne].
    + apply Hr; [|done]. cbn. rewrite Hv. by rewrite lookup_insert_eq.
    + rewrite lookup_insert_ne in Hq by done. destruct Hg2 as (_ & Hsub & _). apply Hsub. cbn. rewrite Hd.
      by apply Hnew.
  - assert (Hs : same_root w (MkRootW t1 (rw_env w) (rw_objects w) (rw_os w))) by (by split_and!; try apply Hc).
    apply wp_bind, (wp_is_directory path _ w); [done| |].
    + intros e w' Hs'. apply wp_ret. split; [|done]. etransitivity; [exact Hg|by apply same_root_grows].
    + intros w' Hs'. case_bool_decide as Hd; apply wp_ret; (split; [etransitivity; [exact Hg|by apply same_root_grows]|]); [|done].
      destruct Hs' as ([Hv' Hd'] & _). rewrite Hv'. split; [done|]. unfold new_durable. rewrite Hv', Hd'. done.
Qed.

Lemma create_all_ok paths w0 w :
  grows w0 w -> new_durable w0 w ->
  wp (create_all paths) (fun r w' => grows w w' /\
    match r with
    | Ok _ => (forall p, p ∈ paths -> tr_view (rw_tree w') !! p = Some true) /\ new_durable w0 w'
    | Err s => code s = UNAVAILABLE
    end) w.
Proof using TS.
  revert w. induction paths as [|p paths IH]; intros w Hg Hnew; cbn [create_all].
  { apply wp_ret. split_and!; [done| |done]. by intros p ?%elem_of_nil. }
  unfold bind_ok. apply wp_bind.
  eapply wp_mono; [|by apply (CreateDirectoryAndSyncParent_ok p w w); [|intros q [? ?] ?; congruence]].
  intros r w1 [Hg1 Hr]. destruct r as [[]|s]; [|by apply wp_ret]. destruct Hr as [Hp Hnew1].
  assert (Hnew' : new_durable w0 w1).
  { intros q Hq Hq0. destruct (tr_view (rw_tree w) !! q) eqn:Eq; [|by apply Hnew1].
    destruct Hg1 as (_ & Hsub & _). apply Hsub, Hnew; [by eexists|done]. }
  eapply wp_mono; [|apply (IH w1); [by etransitivity|exact Hnew']]. intros r w2 [Hg2 Hr].
  split; [by etransitivity|]. destruct r as [[]|s]; [|done]. destruct Hr as [Hall Hd]. split; [|done].
  intros q [->|Hq]%elem_of_cons; [|by apply Hall]. destruct Hg2 as (Hsub & _). by eapply lookup_weaken.
Qed.

Lemma find_ancestor_ok fuel root current missing w0 w :
  same_root w0 w -> (String.length current < fuel)%nat ->
  (missing = [] /\ current = root) \/ root ∈ missing ->
  wp (find_ancestor fuel root current missing) (fun r w' => same_root w0 w' /\
    match r with
    | Ok (c, l) => (l = [] /\ c = root) \/ root ∈ l
    | Err s => code s = UNAVAILABLE
    end) w.
Proof using TS.
  revert current missing w. induction fuel as [|fuel IH]; intros current missing w Hs Hlen Hm; [lia|].
  cbn [find_ancestor]. apply wp_bind, (wp_exists current _ w0); [done|by intros e w' Hs'; apply wp_ret|].
  intros w1 H1. case_bool_decide; [by apply wp_ret|]. destruct (str_empty _); [by apply wp_ret|].
  case_bool_decide as Hp; [by apply wp_ret|]. cbn [orb]. apply IH; [done| |].
  - destruct (path_parent_shorter current); [done|lia].
  - right. destruct Hm as [[-> ->]|Hm]; [by apply list_elem_of_singleton|]. apply elem_of_app. by left.
Qed.

(** What the directories of a root are when [CreateStorageDirectories] succeeds. *)
Lemma CreateDirectoryTreeDurably_ok root w :
  wp (CreateDirectoryTreeDurably root) (settled w root) w.
Proof using TS.
  unfold CreateDirectoryTreeDurably, bind_ok. apply wp_bind.
  eapply wp_mono; [|apply (find_ancestor_ok _ root root [] w w); [done|lia|by left]].
  intros [[c l]|s] w1 [H1 Hr]; [|apply wp_ret; by split; [apply same_root_grows|]].
  apply wp_bind, (wp_is_directory c _ w); [done| |].
  { intros e w' Hs. apply wp_ret. split; [by apply same_root_grows|done]. }
  intros w2 H2. case_bool_decide as Hd; [|apply wp_ret; split; [by apply same_root_grows|done]].
  assert (Hn : new_durable w w2).
  { intros q Hq Hq0. destruct H2 as ([Hv _] & _). rewrite Hv, Hq0 in Hq. by destruct Hq. }
  eapply wp_mono; [|by apply (create_all_ok (rev l) w w2); [apply same_root_grows|]].
  intros r w3 [Hg Hr3]. split; [etransitivity; [by apply same_root_grows|done]|].
  destruct r as [[]|s]; [|done]. destruct Hr3 as [Hall Hdur]. split; [|done].
  destruct Hr as [[_ <-]|Hin]; [|by apply Hall, list_elem_of_In; rewrite <- in_rev; apply list_elem_of_In].
  destruct Hg as (Hsub & _). eapply lookup_weaken; [|exact Hsub]. by destruct H2 as ([-> _] & _).
Qed.

Lemma settled_then path path' w0 (m : RM RootW unit) w :
  wp m (settled w0 path) w ->
  wp (do? m in CreateDirectoryAndSyncParent path') (fun r w' =>
    settled w0 path' r w' /\ forall u, r = Ok u -> tr_view (rw_tree w') !! path = Some true) w.
Proof using TS.
  intros Hm. unfold bind_ok. apply wp_bind. eapply wp_mono; [|exact Hm]. intros [[]|s] w1 [Hg Hr].
  2:{ apply wp_ret. by split. }
  destruct Hr as [Hp Hn].
  pose proof (CreateDirectoryAndSyncParent_ok path' w1 w1 ltac:(done)
    ltac:(intros q [x Hx] ?; congruence)) as H1.
  pose proof (CreateDirectoryAndSyncParent_ok path' w0 w1 Hg Hn) as H2. unfold wp in *.
  destruct (CreateDirectoryAndSyncParent path' w1) as [r w2]. split; [done|]. intros u ->.
  destruct H1 as [(Hsub & _) _]. by eapply lookup_weaken.
Qed.

Lemma CreateStorageDirectories_ok path w :
  wp (CreateStorageDirectories path) (fun r w' => grows w w' /\
    match r with
    | Ok _ => exists root t, tr_absolute path (rw_tree w) = (inr root, t) /\
        (forall p, p = root \/ p = path_join root "db" \/ p = path_join root "objects" ->
           tr_view (rw_tree w') !! p = Some true) /\ new_durable w w'
    | Err s => code s = UNAVAILABLE
    end) w.
Proof using TS.
  unfold CreateStorageDirectories. apply wp_bind, wp_on_tree. unfold wp at 1.
  pose proof (absolute_spec path (rw_tree w)) as Ha. destruct (tr_absolute path (rw_tree w)) as [[e|root] t].
  all: set (w1 := MkRootW t _ _ _).
  all: assert (H1 : same_root w w1) by (by split_and!; try apply Ha).
  { apply wp_ret. split; [by apply same_root_grows|done]. }
  assert (Hback : forall w', new_durable w1 w' -> new_durable w w').
  { intros w' Hn q Hq Hq0. apply Hn; [done|]. by destruct H1 as ([-> _] & _). }
  apply wp_bind_ok_assoc'.
  pose proof (settled_then root (path_join root "db") w1 _ w1 (CreateDirectoryTreeDurably_ok root w1)) as H2.
  unfold bind_ok at 1. apply wp_bind. eapply wp_mono; [|exact H2].
  intros [[]|s] w2 [[Hg2 Hr2] Hroot].
  2:{ apply wp_ret. split; [|done]. etransitivity; [by apply same_root_grows|exact Hg2]. }
  destruct Hr2 as [Hdb Hn2]. specialize (Hroot tt eq_refl).
  pose proof (CreateDirectoryAndSyncParent_ok (path_join root "objects") w2 w2 ltac:(done)
    ltac:(intros q [x Hx] ?; congruence)) as H3.
  pose proof (CreateDirectoryAndSyncParent_ok (path_join root "objects") w1 w2 Hg2 Hn2) as H4.
  unfold wp in *. destruct (CreateDirectoryAndSyncParent _ w2) as [r w3]. destruct H4 as [Hg4 Hr4].
  split; [etransitivity; [by apply same_root_grows|exact Hg4]|]. destruct r as [[]|s]; [|done].
  destruct Hr4 as [Hob Hn4]. destruct H3 as [(Hsub & _) _]. exists root, t. split_and!; [done| |by apply Hback].
  intros p [->|[->| ->]]; [by eapply lookup_weaken..|done].
Qed.

(** ** The database *)

Lemma wp_closing {A} path d (m : RM StorageW A) (Q : Result A -> RootW -> Prop) w :
  wp m (fun r s => Q r (MkRootW (rw_tree w) (env_Close path (st_db s) (rw_env w)) (st_fs s) (st_os s)))
    (MkStorageW d (rw_objects w) (rw_os w)) -> wp (closing path d m) Q w.
Proof. unfold wp, closing. by destruct (m _). Qed.

Lemma wp_on_env {A} (m : M env_t A) (Q : A -> RootW -> Prop) w :
  wp m (fun a e => Q a (MkRootW (rw_tree w) e (rw_objects w) (rw_os w))) (rw_env w) -> wp (on_env m) Q w.
Proof. unfold wp, on_env. by destruct (m (rw_env w)). Qed.

(** Creating a family or giving up a handle leaves the contents alone. *)
Lemma wp_family (m : M db_t RocksStatus) (Q : RocksStatus -> StorageW -> Prop) s0 s :
  (let '(_, d') := m (st_db s) in db_data d' = db_data (st_db s)) -> same_store s0 s ->
  (forall st s', same_store s0 s' -> Q st s') -> wp (on_db m) Q s.
Proof.
  intros Hm (Hv & Hf & Ho) HQ. apply wp_on_db. unfold wp. destruct (m (st_db s)) as [st d']. apply HQ.
  unfold same_store, view, disk in *. cbn. split_and!; congruence.
Qed.

Lemma family_view n d : let '(_, d') := env_CreateColumnFamily n d in db_data d' = db_data d.
Proof using ES. pose proof (CreateColumnFamily_spec n d) as Hs. destruct (env_CreateColumnFamily n d). apply Hs. Qed.

Lemma handle_view n d : let '(_, d') := env_DestroyHandle n d in db_data d' = db_data d.
Proof using ES. pose proof (DestroyHandle_spec n d) as Hs. destruct (env_DestroyHandle n d). apply Hs. Qed.

Lemma check_status_failed s e : check_status s = Err e -> code e <> OK.
Proof. by intros [<- ?]%check_status_err. Qed.

Lemma DestroyHandle_ok n op s0 s :
  same_store s0 s -> wp (DestroyHandle n op) (fun r s' => same_store s0 s' /\
    match r with Ok _ => True | Err e => code e <> OK end) s.
Proof using ES.
  intros Hs. unfold DestroyHandle. apply wp_bind. eapply wp_family; [apply handle_view|done|].
  intros st s' Hs'. apply wp_ret. split; [done|]. destruct (check_status _) eqn:Ec; [done|]. by eapply check_status_failed.
Qed.

Lemma DestroyHandles_ok ns s0 s : same_store s0 s -> wp (DestroyHandles ns) (fun _ s' => same_store s0 s') s.
Proof using ES.
  revert s. induction ns as [|n ns IH]; intros s Hs; cbn [DestroyHandles]; [by apply wp_ret|].
  unfold bind_ok. apply wp_bind. eapply wp_mono; [|by apply (DestroyHandle_ok _ _ s0)].
  intros [[]|e] s1 [H1 _]; [by apply IH|by apply wp_ret].
Qed.

Lemma InitializeNew_commit_fs s : wp InitializeNew_commit (fun _ s' => st_fs s' = st_fs s) s.
Proof.
  unfold InitializeNew_commit. apply wp_bind, wp_on_os. intros now o. apply wp_bind, wp_on_os. intros i o1.
  destruct (negb _); [by apply wp_ret|]. apply wp_bind, wp_on_db. unfold wp at 1. cbn.
  destruct (db_Write _ _ (st_db s)) as [st d]. unfold bind_ok. apply wp_bind, wp_ret.
  destruct (check_status _); [|by apply wp_ret]. unfold inject. apply wp_bind, wp_on_os. intros i2 o2. by apply wp_ret.
Qed.

(** A crash now loses nothing. *)
Definition disk_now (s : StorageW) : Prop := forall x, disk s x -> x = view s.

Lemma disk_now_same s s' : st_contents s' = st_contents s -> disk_now s -> disk_now s'.
Proof. intros [= Hv Hd]. unfold disk_now. by rewrite Hv, Hd. Qed.

Lemma initialize_database_ok s :
  view s = ∅ ->
  let ms := Z.quot (os_system_clock (st_os s)).1 1000000 in
  is_Some (SerializeMessage (InitializationMessage ms)) ->
  wp initialize_database (fun r s' => st_fs s' = st_fs s /\
    match r with Ok _ => repr (view s') (initial_state ms) /\ disk_now s' | Err e => code e <> OK end) s.
Proof using ES PS RS.
  intros Hv ms Hser. unfold initialize_database. apply wp_bind.
  eapply wp_family; [apply family_view|done|]. intros st1 s1 H1. unfold bind_ok. apply wp_bind, wp_ret.
  destruct (check_status _) eqn:E1; [|apply wp_ret; split; [apply H1|by eapply check_status_failed]].
  apply wp_bind. eapply wp_family; [apply family_view|exact H1|]. intros st2 s2 H2.
  destruct (check_status (RocksToStatus st2 _)) eqn:E2.
  2:{ apply wp_bind. eapply wp_family; [apply handle_view|exact H2|]. intros st3 s3 H3.
      apply wp_ret. split; [apply H3|by eapply check_status_failed]. }
  apply wp_bind. destruct H2 as (Hv2 & Hf2 & Ho2).
  injection Hv2 as Hv2 _. pose proof (InitializeNew_outcome s2 ltac:(by rewrite Hv2)) as Hout. rewrite Ho2 in Hout. specialize (Hout Hser).
  pose proof (InitializeNew_commit_fs s2) as Hfs. unfold wp in Hout, Hfs. unfold wp at 1.
  destruct (InitializeNew_commit s2) as [r3 s3]. rewrite Hf2 in Hfs.
  assert (Hend : forall (r : Result unit) s', same_store s3 s' -> (forall u, r = Ok u -> r3 = Ok tt) ->
    match r with Ok _ => True | Err e => code e <> OK end ->
    st_fs s' = st_fs s /\
    match r with Ok _ => repr (view s') (initial_state ms) /\ disk_now s' | Err e => code e <> OK end).
  { intros r s' (Hv' & Hf' & _) Hok Hr. split; [congruence|]. destruct r as [u|e]; [|done].
    rewrite (Hok u eq_refl) in Hout. destruct Hout as [Hr3 Hd3]. split; [by injection Hv' as -> _|].
    by eapply disk_now_same. }
  apply wp_bind. eapply wp_mono; [|by apply (DestroyHandle_ok _ _ s3)]. intros r4 s4 [H4 Hr4].
  apply wp_bind. eapply wp_mono; [|by apply (DestroyHandle_ok _ _ s3)]. intros r5 s5 [H5 Hr5].
  apply wp_bind, wp_ret. destruct r3 as [[]|e]; [|apply wp_ret; apply (Hend (Err e)); [done|done|apply Hout]].
  apply wp_bind, wp_ret. destruct r4 as [[]|e]; apply wp_ret.
  - apply Hend; auto.
  - by apply (Hend (Err e)).
Qed.

(** ** Opening *)

(** What a root that held [a] holds when it could not be opened, or was closed again. *)
Definition holds_still (a : AState) (x : Db) : Prop := repr x a \/ repr x (a_recovered a).

(** Only names of unfinished objects were touched; the directories are as they were. *)
Definition root_kept (a : AState) (w : RootW) (f : fs_t) (w' : RootW) : Prop :=
  touched (recovery_names a) (fs_view (rw_objects w)) (fs_view f) /\
  fs_keeps (recovery_names a) (rw_objects w) f /\ tr_same (rw_tree w) (rw_tree w').

(** What is on disk when a root with the contents of [a] could not be opened. *)
Definition left_behind (a : AState) (path : string) (w w' : RootW) : Prop :=
  (exists fams d, env_view (rw_env w') (DatabasePath path) = Some (fams, d) /\ holds_still a d) /\
  root_kept a w (rw_objects w') w'.

Definition opened (a : AState) (path : string) (w : RootW) (r : Result StorageW) (w' : RootW) : Prop :=
  match r with
  | Ok st => repr (view st) (a_recovered a) /\ disk_now st /\
             dir st = without (so_object_id <$> preparing_objects a) (fs_view (rw_objects w)) /\
             fs_keeps (recovery_names a) (rw_objects w) (st_fs st) /\ tr_same (rw_tree w) (rw_tree w')
  | Err s => code s <> OK /\ left_behind a path w w'
  end.

Lemma root_kept_same a w f w' :
  f = rw_objects w -> tr_same (rw_tree w) (rw_tree w') -> root_kept a w f w'.
Proof. intros -> Ht. split; [by apply touched_same|]. split; [apply fs_keeps_refl|done]. Qed.

(** Closing leaves the contents, or what a crash could leave. *)
Lemma Close_holds (P' : Db -> Prop) p s e :
  P' (view s) -> (forall x, disk s x -> P' x) ->
  exists fams d, env_view (env_Close p (st_db s) e) p = Some (fams, d) /\ P' d.
Proof using ES.
  intros Hv Hd. destruct (Close_spec p (st_db s) e) as (x & Hx & He).
  exists (db_families (st_db s)), x. split; [done|]. destruct Hx as [->|Hx]; [exact Hv|by apply Hd].
Qed.

(** A database that was only read is left as it was. *)
Lemma closed_unread a path w d (s : StorageW) t o :
  repr (db_view d) a -> (forall x, db_disk d x -> x = db_view d) ->
  same_store (MkStorageW d (rw_objects w) o) s -> tr_same (rw_tree w) t ->
  left_behind a path w (MkRootW t (env_Close (DatabasePath path) (st_db s) (rw_env w)) (st_fs s) (st_os s)).
Proof using ES.
  intros Hr Hx (Hv & Hf & _) Ht. split; [|by apply root_kept_same]. injection Hv as Hv Hd. cbn [rw_env].
  apply Close_holds; [left; by rewrite Hv|]. rewrite Hd. intros x Hdx%Hx. left. by subst x.
Qed.

(** The destructor leaves what the database held. *)
Lemma close_storage_ok (P' : Db -> Prop) path s w :
  P' (view s) -> (forall x, disk s x -> P' x) ->
  let w' := close_storage path s w in
  rw_tree w' = rw_tree w /\ rw_objects w' = st_fs s /\
  exists fams d, env_view (rw_env w') path = Some (fams, d) /\ P' d.
Proof using ES.
  intros HP Hd. unfold close_storage. set (w0 := MkRootW _ _ _ _).
  assert (Hw : wp (closing path (st_db s) ReleaseHandles) (fun _ w' => rw_tree w' = rw_tree w /\
    rw_objects w' = st_fs s /\ exists fams d, env_view (rw_env w') path = Some (fams, d) /\ P' d) w0).
  2:{ unfold wp in Hw. by destruct (closing _ _ _ w0). }
  apply wp_closing. unfold ReleaseHandles. set (s0 := MkStorageW _ _ _).
  apply wp_bind. eapply (wp_family _ _ s0); [apply handle_view|done|]. intros st1 s1 H1.
  apply wp_bind. eapply (wp_family _ _ s0); [apply handle_view|done|]. intros st2 s2 H2.
  apply wp_bind. eapply (wp_family _ _ s0); [apply handle_view|done|]. intros st3 s3 (Hv & Hf & _).
  injection Hv as Hv Hx. apply wp_ret. cbn. split_and!; [done|by rewrite Hf|].
  apply Close_holds; [by rewrite Hv|by rewrite Hx].
Qed.

(** A storage that could not be used is closed with what it held. *)
Lemma closed_left a path w s w1 :
  holds_still a (view s) -> (forall x, disk s x -> holds_still a x) ->
  root_kept a w (st_fs s) w1 -> left_behind a path w (close_storage (DatabasePath path) s w1).
Proof using ES.
  intros Hr Hd Hk. destruct (close_storage_ok (holds_still a) (DatabasePath path) s w1 Hr Hd) as (Ht & Ho & He).
  split; [done|]. unfold root_kept in *. by rewrite Ho, Ht.
Qed.

Lemma recover_opened d w w1 a path :
  repr (db_view d) a -> (forall x, db_disk d x -> x = db_view d) -> WF a ->
  tr_same (rw_tree w) (rw_tree w1) ->
  wp OpenExisting_checks (fun r s => opened a path w (match r with Ok _ => Ok s | Err e => Err e end)
      (match r with Ok _ => w1 | Err _ => close_storage (DatabasePath path) s w1 end))
    (MkStorageW d (rw_objects w) (rw_os w)).
Proof using ES FS RS.
  intros Hr Hx Hwf Ht. set (s0 := MkStorageW d _ _). unfold OpenExisting_checks, bind_ok. apply wp_bind.
  eapply wp_mono; [|by apply (Validate_ok s0 a)]. intros r s1 [(Hv1 & Hf1 & _) Hv]. pose proof Hv1 as Hc1.
  injection Hv1 as Hv1 Hd1.
  assert (Hx1 : forall x, disk s1 x -> holds_still a x).
  { rewrite Hd1. intros x Hdx%Hx. left. by subst x. }
  destruct Hv as [->|(e & -> & Hf & Hc & _)].
  2:{ apply wp_ret. split; [done|]. apply closed_left; [left; by rewrite Hv1|done|]. by apply root_kept_same. }
  eapply wp_mono; [|apply (RecoverPreparingObjects_outcome s1 a); [by rewrite Hv1|done]].
  unfold recovery_post, keeping, dir. rewrite Hf1. cbn [st_fs s0].
  intros [[]|e] s2 (Hd2 & Hk2 & Hr2); cbn in *.
  - destruct Hr2 as [Hr2 Hf2]. split_and!; [done| |done|done|apply Ht..].
    destruct Hd2 as [Hd2|Hd2]; [done|]. eapply disk_now_same; [exact Hd2|]. by eapply disk_now_same.
  - destruct Hr2 as (Hc & Hr2 & Ht2). split; [done|]. apply closed_left; [done| |done].
    intros x Hdx. destruct (Hd2 x Hdx) as [?|?]; [by apply Hx1|done].
Qed.

Lemma OpenExisting_ok path w a fams d :
  env_view (rw_env w) (DatabasePath path) = Some (fams, d) -> repr d a -> WF a ->
  wp (OpenExisting path) (opened a path w) w.
Proof using ES FS RS TS.
  intros Hd Hr Hwf. unfold OpenExisting. apply wp_bind, wp_on_env. unfold wp at 1.
  pose proof (Open_spec (DatabasePath path) descriptors (rw_env w)) as Ho.
  destruct (env_Open _ descriptors (rw_env w)) as [[st|[n d']] e'].
  { destruct Ho as [Hst Hv]. apply wp_ret. destruct (RocksToStatus_fatal st "open unified storage" Hst) as [_ Hc].
    split; [done|]. split; [|by apply root_kept_same]. exists fams, d. cbn. rewrite Hv. by split; [|left]. }
  destruct Ho as (-> & Hv & Hx). rewrite Hd in Hv. injection Hv as _ ->. cbn [length descriptors Z.of_nat].
  change (negb (_ =? 3)) with false. cbv iota. set (w1 := MkRootW (rw_tree w) e' _ _).
  apply wp_bind. unfold OpenObjects. apply wp_bind, wp_on_tree. unfold wp at 1.
  pose proof (open_directory_spec (ObjectsPath path) (rw_tree w)) as Ht.
  change (rw_tree w1) with (rw_tree w).
  destruct (tr_open _ (rw_tree w)) as [[er|fd] t2]; destruct Ht as [Ht _]; apply wp_ret; cbn [rw_env rw_objects rw_os w1].
  - apply wp_closing. apply wp_bind. cbn [rw_objects rw_os rw_env rw_tree w1].
    eapply wp_mono; [|apply (DestroyHandles_ok _ (MkStorageW d' (rw_objects w) (rw_os w))); done].
    intros r0 s Hs. apply wp_ret. split.
    + unfold ObjectIoStatus. by destruct (_ || _).
    + exact (closed_unread a path (MkRootW (rw_tree w) e' (rw_objects w) (rw_os w)) d' s t2 _ Hr Hx Hs Ht).
  - pose proof (recover_opened d' w (MkRootW t2 e' (rw_objects w) (rw_os w)) a path Hr Hx Hwf Ht) as Hrec.
    unfold wp in *. cbn [rw_objects rw_os rw_env rw_tree w1] in *.
    destruct (OpenExisting_checks _) as [[[]|e] s]; exact Hrec.
Qed.

(** A root whose files were only looked at. *)
Lemma left_unread a path w w' fams d :
  env_view (rw_env w') (DatabasePath path) = Some (fams, d) -> repr d a ->
  rw_objects w' = rw_objects w -> tr_same (rw_tree w) (rw_tree w') -> left_behind a path w w'.
Proof.
  intros Hd Hr Ho Ht. split; [|by apply root_kept_same]. exists fams, d. by split; [|left].
Qed.

(** Looking at a root first makes no difference. *)
Lemma opened_from a path w w1 r w' :
  rw_objects w1 = rw_objects w -> tr_same (rw_tree w) (rw_tree w1) -> opened a path w1 r w' ->
  opened a path w r w'.
Proof.
  unfold opened, left_behind, root_kept, tr_same. intros Ho [Hv Hd]. rewrite Ho, Hv, Hd. done.
Qed.

Lemma wp_ListColumnFamilies p (Q : RocksStatus * list string -> RootW -> Prop) w :
  (forall st l w', env_view (rw_env w') = env_view (rw_env w) -> rw_objects w' = rw_objects w ->
     rw_tree w' = rw_tree w ->
     (check_status (RocksToStatus st "list storage column families") = Ok tt ->
      is_Some (env_view (rw_env w) p)) -> Q (st, l) w') ->
  wp (on_env (env_ListColumnFamilies p)) Q w.
Proof using ES.
  intros HQ. apply wp_on_env. unfold wp. pose proof (ListColumnFamilies_spec p (rw_env w)) as Hl.
  destruct (env_ListColumnFamilies p (rw_env w)) as [[st l] e']. destruct Hl as [Hv Hl].
  apply HQ; [done..|]. intros Ec. destruct (rocks_ok st) eqn:Ek.
  - destruct (Hl eq_refl) as [d Hd]. by eexists.
  - destruct (RocksToStatus_fatal st "list storage column families" Ek) as [_ Hc].
    unfold check_status, status_ok in Ec. by rewrite bool_decide_eq_false_2 in Ec.
Qed.

Lemma OpenChecked_ok path w a fams d :
  env_view (rw_env w) (DatabasePath path) = Some (fams, d) -> repr d a -> WF a ->
  wp (OpenChecked path) (opened a path w) w.
Proof using ES FS RS TS.
  intros Hd Hr Hwf. unfold OpenChecked, bind_ok. apply wp_bind.
  eapply wp_mono; [|apply ValidateStorageRootLayout_ok]. intros [[]|s] w1 [(Ht & He & Ho & _) Hlay].
  2:{ apply wp_ret. split; [done|]. apply (left_unread a path w w1 fams d); [by rewrite He|done..]. }
  apply wp_bind, wp_ListColumnFamilies. intros st l w2 Hv2 Ho2 Ht2 _. rewrite Ho in Ho2. rewrite <- Ht2 in Ht.
  assert (Hd2 : env_view (rw_env w2) (DatabasePath path) = Some (fams, d)) by (by rewrite Hv2, He).
  apply wp_bind, wp_ret. destruct (check_status _) eqn:Ec.
  2:{ apply wp_ret. split; [by eapply check_status_failed|]. by eapply left_unread. }
  destruct (negb _); [apply wp_ret; split; [done|by eapply left_unread]|].
  eapply wp_mono; [|by apply (OpenExisting_ok path w2 a fams d)]. intros r w3. by apply opened_from.
Qed.

(** A root with a database is not taken for a new one. *)
Lemma not_new path w (b : bool) :
  is_Some (tr_view (rw_tree w) !! path) -> is_Some (tr_view (rw_tree w) !! DatabasePath path) ->
  (b = true -> empty_root (tr_view (rw_tree w)) path) -> b = false.
Proof.
  intros Hex Hdb Hb. destruct b; [|done]. destruct (Hb eq_refl) as [Hn|[_ Hn]]; [rewrite Hn in Hex; by destruct Hex|].
  unfold DatabasePath in Hdb. rewrite Hn in Hdb by done. by destruct Hdb.
Qed.

Lemma Open_existing path w a fams d :
  is_Some (tr_view (rw_tree w) !! path) -> is_Some (tr_view (rw_tree w) !! DatabasePath path) ->
  env_view (rw_env w) (DatabasePath path) = Some (fams, d) -> repr d a -> WF a ->
  wp (Open path) (opened a path w) w.
Proof using ES FS RS TS.
  intros Hex Hdb Hd Hr Hwf. unfold Open. destruct (str_empty path).
  { apply wp_ret. split; [done|]. by eapply left_unread. }
  apply wp_bind. eapply wp_mono; [|apply IsNewStorageRoot_ok]. intros b w1 [(Ht & He & Ho & _) Hb].
  rewrite (not_new path w b Hex Hdb Hb). unfold bind_ok. apply wp_bind, wp_ret.
  eapply wp_mono; [|apply (OpenChecked_ok path w1 a fams d); [by rewrite He|done..]].
  intros r w2. by apply opened_from.
Qed.

(** A root that could not be opened, the object files untouched. *)
Definition not_opened (w : RootW) (r : Result StorageW) (w' : RootW) : Prop :=
  rw_objects w' = rw_objects w /\ exists s, r = Err s /\ code s <> OK.

(** Without a database nothing is opened. *)
Lemma OpenChecked_none path w :
  env_view (rw_env w) (DatabasePath path) = None ->
  wp (OpenChecked path) (not_opened w) w.
Proof using ES TS.
  intros Hn. unfold OpenChecked, bind_ok. apply wp_bind.
  eapply wp_mono; [|apply ValidateStorageRootLayout_ok]. intros [[]|s] w1 [(_ & He & Ho & _) Hlay].
  2:{ apply wp_ret. split; [done|]. by eexists. }
  apply wp_bind, wp_ListColumnFamilies. intros st l w2 _ Ho2 _ Hok. apply wp_bind, wp_ret.
  destruct (check_status _) as [[]|e] eqn:Ec.
  - destruct (Hok eq_refl) as [x Hx]. by rewrite He, Hn in Hx.
  - apply wp_ret. split; [congruence|]. exists e. split; [done|]. by eapply check_status_failed.
Qed.

(** The directories of a root that was made. *)
Definition made (path : string) (w w' : RootW) : Prop :=
  tr_view (rw_tree w) ⊆ tr_view (rw_tree w') /\ tr_durable (rw_tree w) ⊆ tr_durable (rw_tree w') /\
  new_durable w w' /\
  exists root t, (tr_absolute path t).1 = inr root /\
    forall p, p = root \/ p = path_join root "db" \/ p = path_join root "objects" ->
      tr_view (rw_tree w') !! p = Some true.

(** A database made by [InitializeNew] holds the initial state. *)
Lemma InitializeNew_ok path w :
  env_view (rw_env w) (DatabasePath path) = None ->
  let ms := Z.quot (os_system_clock (rw_os w)).1 1000000 in
  is_Some (SerializeMessage (InitializationMessage ms)) ->
  wp (InitializeNew path) (fun r w' => rw_objects w' = rw_objects w /\
    match r with
    | Ok _ => made path w w' /\ exists fams d,
        env_view (rw_env w') (DatabasePath path) = Some (fams, d) /\ repr d (initial_state ms)
    | Err s => code s <> OK
    end) w.
Proof using ES PS RS TS.
  intros Hn ms Hser. unfold InitializeNew, bind_ok. apply wp_bind.
  eapply wp_mono; [|apply CreateStorageDirectories_ok].
  intros [[]|s] w1 [(Hv & Hdur & He & Ho & Hos) Hr]; [|apply wp_ret; split; [done|by rewrite Hr]].
  apply wp_bind, wp_on_env. unfold wp at 1. pose proof (Create_spec (DatabasePath path) (rw_env w1)) as Hc.
  destruct (env_Create _ (rw_env w1)) as [[st|d] e2].
  { apply wp_ret. split; [done|]. by destruct (RocksToStatus_fatal st "create storage" Hc). }
  destruct Hc as [Hempty _]; [by rewrite He|]. apply wp_closing. cbn [rw_objects rw_os rw_env rw_tree].
  eapply wp_mono; [|apply initialize_database_ok; [done|cbn; by rewrite Hos]]. cbn [st_os st_fs].
  rewrite Hos. intros [[]|s] s' [Hf Hr']; cbn; rewrite Hf, Ho; [|done]. split_and!; [done| |].
  - destruct Hr as (root & t & Ht & Hdirs & Hnew). split_and!; [done|done|done|].
    exists root, (rw_tree w). by rewrite Ht.
  - destruct Hr' as [Hr' Hd']. apply Close_holds; [exact Hr'|]. by intros x ->%Hd'.
Qed.

Lemma initial_untouched ms d d' : touched (recovery_names (initial_state ms)) d d' -> d' = d.
Proof. intros Ht. apply map_eq. intros n. apply Ht. by intros ?%elem_of_nil. Qed.

(** A path with no database is opened by making one. *)
Lemma Open_new path w :
  env_view (rw_env w) (DatabasePath path) = None ->
  let ms := Z.quot (os_system_clock (rw_os w)).1 1000000 in
  is_Some (SerializeMessage (InitializationMessage ms)) ->
  wp (Open path) (fun r w' =>
    match r with
    | Ok st => exists w1, rw_objects w1 = rw_objects w /\ made path w w1 /\
        opened (initial_state ms) path w1 (Ok st) w'
    | Err s => code s <> OK /\ fs_view (rw_objects w') = fs_view (rw_objects w)
    end) w.
Proof using ES FS PS RS TS.
  intros Hnone ms Hser. unfold Open. destruct (str_empty path); [by apply wp_ret|].
  apply wp_bind. eapply wp_mono; [|apply IsNewStorageRoot_ok]. intros b w1 [([Hv1 Hd1] & He1 & Ho1 & Hos1) _].
  unfold bind_ok. apply wp_bind. destruct b.
  2:{ apply wp_ret. eapply wp_mono; [|apply OpenChecked_none; by rewrite He1]. intros r w' (Ho & s & -> & Hc). by rewrite Ho, Ho1. }
  eapply wp_mono; [|apply (InitializeNew_ok path w1); [by rewrite He1|by rewrite Hos1]].
  rewrite Hos1. fold ms. intros [[]|s] w2 [Ho2 Hr2]; [|apply wp_ret; by rewrite Ho2, Ho1].
  destruct Hr2 as ((M1 & M2 & M3 & M4) & fams & d & Hd & Hr). eapply wp_mono; [|by eapply OpenChecked_ok, WF_initial].
  intros [s|s] w3; cbn.
  - intros Hop. exists w2. split; [by rewrite Ho2|]. split; [|exact Hop].
    rewrite Hv1, Hd1 in *. split_and!; [done|done| |done]. intros q Hq Hq0. apply M3; [done|by rewrite Hv1].
  - intros (Hc & _ & Ht & _). split; [done|]. rewrite (initial_untouched _ _ _ Ht). congruence.
Qed.

(** A database in which nothing was written yet is not opened either. *)
Lemma Validate_empty s :
  view s = ∅ -> wp Validate (fun r s' => same_store s s' /\ exists e, r = Err e /\ code e <> OK) s.
Proof using RS.
  intros Hv. unfold Validate. apply wp_with_snapshot.
  2:{ intros e s' Hs _ [Hc _]. split; [done|]. by exists e. }
  intros sn s1 Hsn H1. rewrite Hv in Hsn.
  assert (HR : Reads (GetRequiredUint64 sn kSchemaVersionKey) (Err (StorageCorruption ("read " +:+ kSchemaVersionKey)
    ("missing required storage key: " +:+ kSchemaVersionKey)))).
  { unfold GetRequiredUint64. apply wp_Get.
    - intros g _ E1 E2. rewrite E1, E2. by eexists.
    - intros g [Hok Hnf] Hst. destruct (IsNotFound g.1); [apply Reads_ret|]. rewrite orb_false_r in Hst.
      specialize (Hok Hst). rewrite Hsn in Hok. by rewrite lookup_empty in Hok. }
  unfold bind_ok at 1. apply wp_bind. eapply wp_mono; [|apply HR]. intros r s2 [H2 Hr].
  assert (Hs2 : same_store s s2) by (by etransitivity).
  destruct Hr as [->|(e & -> & _ & [Hc _])]; apply wp_ret; (split; [done|]); by eexists.
Qed.

Lemma OpenExisting_blank path w fams :
  env_view (rw_env w) (DatabasePath path) = Some (fams, ∅) -> wp (OpenExisting path) (not_opened w) w.
Proof using ES RS TS.
  intros Hd. unfold OpenExisting. apply wp_bind, wp_on_env. unfold wp at 1.
  pose proof (Open_spec (DatabasePath path) descriptors (rw_env w)) as Ho.
  destruct (env_Open _ descriptors (rw_env w)) as [[st|[n d]] e'].
  { apply wp_ret. split; [done|]. eexists. split; [done|]. destruct Ho as [Hst _].
    by destruct (RocksToStatus_fatal st "open unified storage" Hst). }
  destruct Ho as (-> & Hv & _). rewrite Hd in Hv. injection Hv as _ Hv.
  change (negb (_ =? 3)) with false. cbv iota. apply wp_bind. unfold OpenObjects. apply wp_bind, wp_on_tree. unfold wp at 1.
  cbn [rw_tree]. destruct (tr_open _ (rw_tree w)) as [[er|fd] t2]; apply wp_ret; cbn [rw_env rw_objects rw_os].
  - apply wp_closing, wp_bind. cbn [rw_objects rw_os rw_env rw_tree].
    eapply wp_mono; [|apply (DestroyHandles_ok _ (MkStorageW d (rw_objects w) (rw_os w))); done].
    intros r0 s (_ & Hf & _). apply wp_ret. split; [done|]. eexists. split; [done|].
    unfold ObjectIoStatus. by destruct (_ || _).
  - pose proof (Validate_empty (MkStorageW d (rw_objects w) (rw_os w)) (eq_sym Hv)) as Hval.
    unfold wp in *. cbn [rw_objects rw_os rw_env rw_tree]. unfold OpenExisting_checks, bind_ok, bind.
    destruct (Validate _) as [r s]. destruct Hval as [(_ & Hf & _) (e & -> & Hc)]. cbn.
    destruct (close_storage_ok (fun _ => True) (DatabasePath path) s (MkRootW t2 e' (rw_objects w) (rw_os w)))
      as (_ & Ho & _); [done..|]. split; [by rewrite Ho|by eexists].
Qed.

Lemma Open_blank path w fams :
  is_Some (tr_view (rw_tree w) !! path) -> is_Some (tr_view (rw_tree w) !! DatabasePath path) ->
  env_view (rw_env w) (DatabasePath path) = Some (fams, ∅) -> wp (Open path) (not_opened w) w.
Proof using ES RS TS.
  intros Hex Hdb Hd. unfold Open. destruct (str_empty path); [apply wp_ret; split; [done|by eexists]|].
  apply wp_bind. eapply wp_mono; [|apply IsNewStorageRoot_ok]. intros b w1 [(_ & He & Ho & _) Hb].
  rewrite (not_new path w b Hex Hdb Hb). unfold bind_ok at 1. apply wp_bind, wp_ret.
  unfold OpenChecked, bind_ok. apply wp_bind.
  eapply wp_mono; [|apply ValidateStorageRootLayout_ok]. intros [[]|s] w2 [(_ & He2 & Ho2 & _) Hlay].
  2:{ apply wp_ret. split; [congruence|by eexists]. }
  apply wp_bind, wp_ListColumnFamilies. intros st l w3 He3 Ho3 _ _. apply wp_bind, wp_ret.
  destruct (check_status _) as [[]|e] eqn:Ec.
  2:{ apply wp_ret. split; [congruence|]. exists e. split; [done|]. by eapply check_status_failed. }
  destruct (negb _); [apply wp_ret; split; [congruence|by eexists]|].
  eapply wp_mono; [|apply (OpenExisting_blank path w3 fams); by rewrite He3, He2, He].
  intros r w4 [Ho4 Hr]. split; [congruence|done].
Qed.

End RootOpen.
