(* ===== verification/Lives.v ===== *)
(** * A storage root through crashes and restarts

    A life of the server begins with [main] on a root, goes through any number of
    steps, and ends with a crash, in which only what is on disk is left, or with the
    destructor of the storage; a start that fails, or in which the power fails, is a
    life too.  What was on disk when it was acknowledged is there in every later
    life. *)

From stdpp Require Import relations.
From S2P Require Import Prelude Status Encoding Tokens Proto Json Platform Keys World FileStore.
From S2P Require Import Files Durability Storage Core Commands Model Unique Reads Scan Spec.
From S2P Require Import SystemMessages Refine Handlers ChannelHandlers Invariant Queries Pages.
From S2P Require Import Startup Objects Services Effects Requests Concurrency Tracks Crash Subscription.
From S2P Require Import SubInvariant ServerConfig Endpoints Root Process RootOpen.

(** ** Running *)

Section Running.
Context {R : RocksDB} {P : Protobuf} {F : PosixDir} {H : Host}.
Context {RS : RocksDBSpec} {PS : ProtobufSpec} {HS : HostSpec} {FS : PosixDirSpec}.
Context (cfg : CoreConfig).

Lemma CrashInv_mono m m' b a sys : m <= m' -> CrashInv m' b a sys -> CrashInv m b a sys.
Proof.
  intros Hm [Hs (H1 & H2 & H3) Hd Hw]. constructor; [done| | |done].
  - split_and!; [done|done|by eapply Budget_mono].
  - intros x (c & ? & ? & ? & ? & ?)%Hd. exists c. split_and!; try done. by eapply Budget_mono.
Qed.

Lemma SysInv_unique a c sys : SysInv a sys -> SysInv c sys -> a = c.
Proof. intros [] []. by eapply repr_inj. Qed.

(** A step of the streams or of their thread writes nothing. *)
Lemma sub_step_reads mk a b x x' :
  SubInv mk a b x -> Budget 1 a -> sub_step cfg x x' ->
  (step cfg (ss_sys x) (ss_sys x')) \/
  (c_contents (ss_core x') = c_contents (ss_core x) /\
   st_fs (c_storage (ss_core x')) = st_fs (c_storage (ss_core x)) /\
   sys_writers (ss_sys x') = sys_writers (ss_sys x) /\
   (fatal_error_triggered (ss_core x) = true -> fatal_error_triggered (ss_core x') = true)).
Proof using RS.
  intros Hinv Hb Hstep. pose proof Hinv as [].
  destruct Hstep as [x sys' Hs|x r' w' Hrun|x i req e' Hreq Hi He|x i sm c wr sm' w' Hi Hrun
    |x i sm st Hi Hph|x|x Hnone]; [by left|right..]; try done.
  - assert (Hw : wp (refresh cfg (ss_refresher x)) (fun _ w' => c_contents w' = c_contents (ss_core x) /\
      st_fs (c_storage w') = st_fs (c_storage (ss_core x)) /\
      (fatal_error_triggered (ss_core x) = true -> fatal_error_triggered w' = true)) (ss_core x)).
    { destruct (ss_refresher x) as [|g|g sn|st|]; cbn [refresh].
      - apply wp_bind. unfold wp at 1, get. repeat case_match; by apply wp_ret.
      - apply wp_bind, (calm_CreateSnapshot cfg); intros ? w1 (? & [? _] & _ & ?) _; by apply wp_ret.
      - apply wp_bind. unfold wp at 1, get. case_match; [by apply wp_ret|]. apply wp_bind.
        unfold wp at 1, modify. repeat case_match; by apply wp_ret.
      - apply wp_FatalStorageError, wp_ret. by destruct (calm_trip cfg st (ss_core x)) as (? & [? _] & _ & ?).
      - by apply wp_ret. }
    eapply wp_run in Hw; [|exact Hrun]. destruct Hw as (? & ? & ?). by split_and!.
  - assert (Hw : wp (stream_step cfg c wr sm) (fun sm' w' => calm (ss_core x) w' /\ stream_ok a b sm') (ss_core x)).
    { destruct xi_old as [? ?]. pose proof (Extends_max_seq b a ltac:(done)).
      apply stream_step_ok; [done|done|unfold Budget in Hb; lia| |by eapply xi_streams].
      intros s E. apply (sh_repr _ _ _ _ _ _ (xi_snapshot s E)). }
    eapply wp_run in Hw as [(Hc & [Hf _] & _ & ?) _]; [|exact Hrun]. by split_and!.
Qed.

Lemma sub_step_crash mk m s a b x x' :
  0 <= m -> SubInv mk a b x -> CrashInv (m + 1) s a (ss_sys x) ->
  commit_generation (ss_core x) < two64 - 1 -> sub_step cfg x x' ->
  exists a' b', SubInv mk a' b' x' /\ CrashInv m s a' (ss_sys x') /\ Extends a a' /\
    Keeps a (sdir (ss_sys x)) (sdir (ss_sys x')) /\
    commit_generation (ss_core x') <= commit_generation (ss_core x) + 1.
Proof using FS HS PS RS.
  intros Hm Hinv Hcr Hg Hstep. pose proof Hcr as [Hs (_ & _ & Hb) _ _].
  apply (Budget_0 m) in Hb as Hb1; [|done].
  destruct (sub_step_preserved cfg mk a b x x' Hinv Hb1 Hg Hstep) as (a' & b' & Hinv' & Hx & _ & _ & Hg').
  exists a', b'. split; [done|]. pose proof (xi_sys _ _ _ _ Hinv') as Hs'.
  destruct (sub_step_reads mk a b x x' Hinv Hb1 Hstep) as [Hst|(Hc & Hf & Hw & _)].
  - destruct (step_crash cfg m s a (ss_sys x) (ss_sys x') Hm Hcr Hst) as (a1 & Hcr1 & _ & Hk).
    assert (a1 = a') as -> by (eapply SysInv_unique; [apply Hcr1|exact Hs']). by split_and!; try apply Hg'.
  - destruct x' as [[w' ws'] r' e' strs']. unfold ss_core in *. cbn in *. subst ws'.
    assert (a' = a) as ->.
    { pose proof Hs as []. pose proof Hs' as [Hr' Hwf' _ _ _ _]. cbn in Hr'. injection Hc as Hc _.
      rewrite Hc in Hr'. by eapply repr_inj. }
    split_and!; [|done| |lia].
    + apply CrashInv_calm; [|done|done|done]. eapply CrashInv_mono; [|exact Hcr]. lia.
    + intros id _. unfold sdir, dir. cbn. by rewrite Hf.
Qed.

(** While the server is open, everything it shows is on disk. *)
Definition disk_if_open (w : CoreW) : Prop := fatal_error_triggered w = false -> on_disk_now w.

Lemma step_on_disk sys sys' :
  step cfg sys sys' -> disk_if_open (sys_core sys) -> disk_if_open (sys_core sys').
Proof using RS.
  intros Hstep Hd Hopen. destruct (step_tracked cfg sys sys' Hstep) as (_ & Hf & Hm).
  destruct Hm as [[[= Hv Hx] _]|[[_ Hx]|[_ Hc]]]; [|done|congruence].
  unfold on_disk_now. rewrite Hv, Hx. apply Hd. destruct (fatal_error_triggered (sys_core sys)); [|done].
  by rewrite Hf in Hopen.
Qed.

Lemma sub_step_on_disk mk a b x x' :
  SubInv mk a b x -> Budget 1 a -> sub_step cfg x x' ->
  disk_if_open (ss_core x) -> disk_if_open (ss_core x').
Proof using RS.
  intros Hinv Hb Hstep Hd. destruct (sub_step_reads mk a b x x' Hinv Hb Hstep) as [Hs|([= Hv Hx] & _ & _ & Hf)].
  - by apply (step_on_disk (ss_sys x)).
  - intros Hopen. unfold on_disk_now. rewrite Hv, Hx. apply Hd.
    destruct (fatal_error_triggered (ss_core x)); [|done]. by rewrite Hf in Hopen.
Qed.

End Running.

(** ** Roots *)

Section Lives.
Context {R : RocksDB} {P : Protobuf} {F : PosixDir} {H : Host} {T : RootFs} {E : RocksEnv}.
Context {Y : Yaml} {D : FileStatus}.
Context {RS : RocksDBSpec} {PS : ProtobufSpec} {HS : HostSpec} {FS : PosixDirSpec}.
Context {TS : RootFsSpec} {ES : RocksEnvSpec}.

(** The directories of a root, on disk. *)
Definition root_there (path : string) (t : tree_t) : Prop :=
  forall p, p = path \/ p = DatabasePath path -> is_Some (tr_view t !! p) /\ p ∈ tr_durable t.

(** A root that holds a state with the files of its objects; [b] is what was safe, with the
    files [d], and there is room for [m] more requests. *)
Definition Rooted (m : Z) (b : AState) (d : gmap string Node) (path : string) (w : RootW) : Prop :=
  root_there path (rw_tree w) /\ Keeps b d (fs_view (rw_objects w)) /\
  exists fams x c, env_view (rw_env w) (DatabasePath path) = Some (fams, x) /\ repr x c /\
    Stored c (rw_objects w) /\ Extends b c /\ Budget m c.

(** Recovery leaves a stored state stored. *)
Lemma Stored_recovering c f f' :
  Stored c f -> touched (recovery_names c) (fs_view f) (fs_view f') -> fs_keeps (recovery_names c) f f' ->
  Stored c f'.
Proof.
  intros Hc Ht Hk. eapply Stored_changes; [exact Hc|exact Ht|exact Hk|].
  intros n (id & Hin & (o & -> & Ho)%list_elem_of_fmap)%list_elem_of_bind.
  exists (so_object_id o). split; [|done]. apply preparing_object in Ho as [-> _]; [by eexists|apply Hc].
Qed.

Lemma Stored_recovered c f : Stored c f -> Stored (a_recovered c) f.
Proof. intros []. constructor; try done. by apply WF_recovered. Qed.

Lemma Extends_committed b a id : Extends b a -> is_Some (a_committed b !! id) -> is_Some (a_committed a !! id).
Proof. intros Hx [o Ho]. exists o. by eapply lookup_weaken, ex_committed. Qed.

Lemma recovered_extends c : Extends c (a_recovered c).
Proof. constructor; cbn; try done; auto with oe; lia. Qed.

Lemma Keeps_touched b d c f f' :
  Keeps b d (fs_view f) -> Extends b c -> WF c -> touched (recovery_names c) (fs_view f) (fs_view f') ->
  Keeps b d (fs_view f').
Proof.
  intros Hk Hx Hwf Ht id Hid. rewrite <- Hk by done. apply Ht, committed_kept; [done|].
  by eapply Extends_committed.
Qed.

(** A root that could not be opened can be opened later. *)
Lemma left_behind_rooted m b d path w w' c :
  root_there path (rw_tree w) -> Keeps b d (fs_view (rw_objects w)) -> Stored c (rw_objects w) ->
  Extends b c -> Budget m c -> left_behind c path w w' -> Rooted m b d path w'.
Proof.
  intros Hthere Hk Hs Hx Hb ((fams & x & He & Hh) & Ht & Hf & Hv & Hd). split_and!.
  - unfold root_there. by rewrite Hv, Hd.
  - eapply Keeps_touched; [done..|apply Hs|done].
  - pose proof (Stored_recovering c _ _ Hs Ht Hf) as Hs'. destruct Hh as [Hr|Hr].
    + by exists fams, x, c.
    + exists fams, x, (a_recovered c). split_and!; [done|done|by apply Stored_recovered| |done].
      etransitivity; [exact Hx|apply recovered_extends].
Qed.

(** ** The start of a life *)

(** The constructor only reads; with a handler, a server that is closed has called it. *)
Lemma construct_shape cfg st :
  let '(_, w) := construct cfg st in
  st_contents (c_storage w) = st_contents st /\ st_fs (c_storage w) = st_fs st /\
  (has_fatal_error_handler cfg = true -> fatal_calls w = [] -> fatal_error_triggered w = false).
Proof using RS.
  assert (Hw : wp (start_subscriptions cfg) (fun _ w =>
    st_contents (c_storage w) = st_contents st /\ st_fs (c_storage w) = st_fs st /\
    (has_fatal_error_handler cfg = true -> fatal_calls w = [] -> fatal_error_triggered w = false))
    (unstarted st)).
  2:{ unfold construct. unfold wp in Hw. by destruct (start_subscriptions cfg (unstarted st)). }
  unfold start_subscriptions. apply wp_bind. unfold wp at 1, storage, CreateSnapshot, bind at 1, on_db.
  pose proof (GetSnapshot_spec (st_db (c_storage (unstarted st)))) as Hspec. cbn in Hspec |- *.
  destruct (db_GetSnapshot (st_db st)) as [[s|] d']; destruct Hspec as [Hd _]; cbn.
  all: unfold wp, bind, modify, get, ret, FatalStorageError; cbn.
  - by split_and!.
  - split_and!; [done|done|]. unfold bind, modify, get, ret. cbn. by intros ->.
Qed.

Lemma SysInv_Stored a w : repr (cview w) a -> Stored a (st_fs (c_storage w)) -> SysInv a (MkSys w ∅).
Proof.
  intros Hr []. constructor; cbn; try done. intros id n Hid Hn. by apply (sd_fresh id n).
Qed.

(** A storage that was opened, ready to be used or closed. *)
Lemma opened_stored a path w st w' :
  Stored a (rw_objects w) -> opened a path w (Ok st) w' ->
  repr (view st) (a_recovered a) /\ disk_now st /\ Stored (a_recovered a) (st_fs st) /\
  root_kept a w (st_fs st) w'.
Proof.
  intros Hs (Hr & Hx & Hd & Hk & Ht).
  assert (Hto : touched (recovery_names a) (fs_view (rw_objects w)) (fs_view (st_fs st))).
  { intros n Hn. change (fs_view (st_fs st)) with (dir st). rewrite Hd. by rewrite without_lookup, decide_False. }
  split_and!; [done|done|by eapply Stored_recovered, Stored_recovering|done..].
Qed.

(** The server a life begins with. *)
Definition newborn (refresher : Refresher) (core : CoreW) : SubSys :=
  MkSubSys (MkSys core ∅) refresher (MkEventService ∅ false) ∅.

Definition born (m : Z) (b : AState) (d : gmap string Node) (refresher : Refresher) (core : CoreW)
    (a : AState) : Prop :=
  SubInv (a, 0) a a (newborn refresher core) /\
  CrashInv m a a (MkSys core ∅) /\ fatal_error_triggered core = false /\ commit_generation core = 0 /\
  on_disk_now core /\ a_preparing a = ∅ /\ Extends b a /\ Keeps b d (dir (c_storage core)).

Lemma construct_born m b d cfg a w st w1 path :
  has_fatal_error_handler cfg = true ->
  Stored a (rw_objects w) -> Keeps b d (fs_view (rw_objects w)) -> Extends b a -> Budget m a ->
  opened a path w (Ok st) w1 ->
  let '(refresher, core) := construct cfg st in
  (fatal_calls core = [] -> born m b d refresher core (a_recovered a)) /\
  touched (recovery_names a) (fs_view (rw_objects w)) (fs_view (st_fs (c_storage core))) /\
  left_behind a path w (close_storage (DatabasePath path) (c_storage core) w1).
Proof using ES RS.
  intros Hh Hs Hk Hx Hb Hop. destruct (opened_stored a path w st w1 Hs Hop) as (Hr & Hnow & Hst & Hroot).
  assert (Hsys : SysInv (a_recovered a) (MkSys (unstarted st) ∅)) by (by apply SysInv_Stored).
  pose proof (construct_shape cfg st) as Hsh. pose proof (SubInv_construct cfg (a_recovered a) st Hsys) as Hsub.
  unfold wp in Hsub. fold (construct cfg st) in Hsub. destruct (construct cfg st) as [rf core].
  destruct Hsh as ([= Hv Hd] & Hf & Hlatch), Hsub as [Hsub Hg].
  assert (Hnow' : on_disk_now core).
  { unfold on_disk_now, cdisk, cview. rewrite Hv, Hd. exact Hnow. }
  split.
  - intros Hcalls. split_and!; [done| |by apply Hlatch|done|done|done| |].
    + apply CrashInv_start; [apply (xi_sys _ _ _ _ Hsub)|by rewrite Hf|exact Hb|done].
    + etransitivity; [exact Hx|apply recovered_extends].
    + unfold dir. rewrite Hf. eapply Keeps_touched; [exact Hk|exact Hx|apply Hs|apply Hroot].
  - split; [rewrite Hf; apply Hroot|].
    apply closed_left; [right; by rewrite Hv| |by rewrite Hf]. rewrite Hd. intros x ->%Hnow. by right.
Qed.

(** What a start leaves: the object directory, and the contents the database can have. *)
Definition start_objects (r : Started) (w' : RootW) : fs_t :=
  match r with Running _ _ _ core => st_fs (c_storage core) | Exit _ _ => rw_objects w' end.

Definition start_disk (path : string) (r : Started) (w' : RootW) (x : Db) : Prop :=
  match r with
  | Running _ _ _ core => cdisk core x
  | Exit _ _ => exists fams, env_view (rw_env w') (DatabasePath path) = Some (fams, x)
  end.

(** A start writes only what recovery writes. *)
Definition start_writes (a : AState) (path : string) (w : RootW) (r : Started) (w' : RootW) : Prop :=
  touched (recovery_names a) (fs_view (rw_objects w)) (fs_view (start_objects r w')) /\
  forall x, start_disk path r w' x -> holds_still a x.

Lemma left_behind_writes a path w w' n text :
  left_behind a path w w' -> start_writes a path w (Exit n text) w'.
Proof.
  intros ((fams & x & He & Hh) & Ht & _). split; [done|]. intros y [fams' Hy]. cbn in Hy. by simplify_eq.
Qed.

(** What [main] does with a storage it could open. *)
Lemma main_start_opened launch path c m b d a w0 w st w1 :
  LoadServerConfig path = Ok c -> la_block_signals launch = true ->
  Open (storage_path c) w0 = (Ok st, w1) -> opened a (storage_path c) w (Ok st) w1 ->
  root_there (storage_path c) (rw_tree w) -> Keeps b d (fs_view (rw_objects w)) ->
  Stored a (rw_objects w) -> Extends b a -> Budget m a ->
  let '(r, w') := main_start launch [path] w0 in
  start_writes a (storage_path c) w r w' /\
  match r with
  | Running config cfg refresher core =>
      config = c /\ cfg = main_config c /\ born m b d refresher core (a_recovered a) /\
      root_there (storage_path c) (rw_tree w')
  | Exit n _ => n = 1 /\ Rooted m b d (storage_path c) w'
  end.
Proof using ES FS RS.
  intros Hc Hb0 Eo Hop Hthere Hk Hs Hx Hb. unfold main_start. rewrite Hc, Hb0. cbn [negb].
  unfold bind at 1. rewrite Eo.
  pose proof (construct_born m b d (main_config c) a w st w1 (storage_path c) eq_refl Hs Hk Hx Hb Hop) as Hb'.
  destruct (construct (main_config c) st) as [rf core]. destruct Hb' as (Hborn & Ht & Hleft).
  assert (Hlv : forall text, let '(r, w') := leave (storage_path c) core text w1 in start_writes a (storage_path c) w r w' /\
    match r with Exit n _ => n = 1 /\ Rooted m b d (storage_path c) w' | _ => False end).
  { intros text. unfold leave. split; [by apply left_behind_writes|]. split; [done|]. by eapply left_behind_rooted. }
  assert (Hlv' : forall Q text, (let '(r, w') := leave (storage_path c) core text w1 in start_writes a (storage_path c) w r w' /\
    match r with Exit n _ => n = 1 /\ Rooted m b d (storage_path c) w' | Running c' f r' k => Q c' f r' k w' end)).
  { intros Q text. specialize (Hlv text). by destruct (leave _ core text w1) as [[] ?]; [|destruct Hlv]. }
  case_bool_decide as Ef; cbn [negb]; [|apply Hlv'].
  destruct (la_BuildAndStart launch (admin_builder c)); cbn [negb]; [|apply Hlv'].
  destruct (la_BuildAndStart launch (public_builder c)); cbn [negb]; [|apply Hlv'].
  specialize (Hborn Ef). pose proof Hborn as (Hsub & _ & _ & _ & Hnow & _). unfold ret. split.
  - split; [done|]. intros x ->%Hnow. right. apply (xi_sys _ _ _ _ Hsub).
  - split_and!; [done..|]. destruct Hop as (_ & _ & _ & _ & Hv & Hd). unfold root_there. by rewrite Hv, Hd.
Qed.

(** What [main] does with a root. *)
Lemma main_start_existing launch path c m b d fams x a w :
  LoadServerConfig path = Ok c ->
  root_there (storage_path c) (rw_tree w) -> Keeps b d (fs_view (rw_objects w)) ->
  env_view (rw_env w) (DatabasePath (storage_path c)) = Some (fams, x) -> repr x a ->
  Stored a (rw_objects w) -> Extends b a -> Budget m a ->
  let '(r, w') := main_start launch [path] w in
  start_writes a (storage_path c) w r w' /\
  match r with
  | Running config cfg refresher core =>
      config = c /\ cfg = main_config c /\ born m b d refresher core (a_recovered a) /\
      root_there (storage_path c) (rw_tree w')
  | Exit n _ => n = 1 /\ Rooted m b d (storage_path c) w'
  end.
Proof using ES FS RS TS.
  intros Hc Hthere Hk Henv Hr Hs Hx Hb.
  assert (Hexit : forall text w', left_behind a (storage_path c) w w' ->
    start_writes a (storage_path c) w (Exit 1 text) w' /\ 1 = 1 /\ Rooted m b d (storage_path c) w').
  { intros text w' Hl. split_and!; [by apply left_behind_writes..|done|by eapply left_behind_rooted]. }
  pose proof (Open_existing (storage_path c) w a fams x (proj1 (Hthere _ (or_introl eq_refl)))
    (proj1 (Hthere _ (or_intror eq_refl))) Henv Hr (sd_wf _ _ Hs)) as Hopen. unfold wp in Hopen.
  destruct (la_block_signals launch) eqn:Eb.
  2:{ unfold main_start. rewrite Hc, Eb. apply Hexit. by eapply left_unread. }
  destruct (Open (storage_path c) w) as [[st|s] w1] eqn:Eo.
  - by apply (main_start_opened launch path c m b d a w w st w1).
  - unfold main_start. rewrite Hc, Eb. cbn [negb]. unfold bind at 1. rewrite Eo. apply Hexit, Hopen.
Qed.

Lemma main_start_born launch path c m b d w :
  LoadServerConfig path = Ok c -> Rooted m b d (storage_path c) w ->
  let '(r, w') := main_start launch [path] w in
  match r with
  | Running config cfg refresher core =>
      config = c /\ cfg = main_config c /\ (exists a, born m b d refresher core a) /\
      root_there (storage_path c) (rw_tree w')
  | Exit n _ => n = 1 /\ Rooted m b d (storage_path c) w'
  end.
Proof using ES FS RS TS.
  intros Hc (Hthere & Hk & fams & x & a & Henv & Hr & Hs & Hx & Hb).
  pose proof (main_start_existing launch path c m b d fams x a w Hc Hthere Hk Henv Hr Hs Hx Hb) as Hm.
  destruct (main_start launch [path] w) as [[n text|config cfg rf core] w']; destruct Hm as [_ Hm]; [done|].
  destruct Hm as (? & ? & ? & ?). split_and!; [done|done|by eexists|done].
Qed.

(** A root that was just made holds the initial state. *)
Lemma made_there path w w' :
  (forall t, (tr_absolute path t).1 = inr path) -> made path w w' ->
  (forall p, p = path \/ p = DatabasePath path -> tr_view (rw_tree w) !! p = None \/ p ∈ tr_durable (rw_tree w)) ->
  root_there path (rw_tree w').
Proof.
  intros Habs (_ & Hdur & Hnew & root & t & Hr & Hdirs) Hfree p Hp. rewrite Habs in Hr. injection Hr as <-.
  assert (Hin : is_Some (tr_view (rw_tree w') !! p)).
  { eexists. apply Hdirs. destruct Hp as [->| ->]; [by left|by right; left]. }
  split; [done|]. destruct (Hfree p Hp) as [Hn|Hd]; [by apply Hnew|by apply Hdur].
Qed.

Lemma Stored_initial ms f : fs_view f = ∅ -> (forall n, fs_durable f n) -> Stored (initial_state ms) f.
Proof. intros Hv Hd. constructor; [apply WF_initial|done..|]. intros id n _ _. by rewrite Hv, lookup_empty. Qed.

Lemma main_start_new launch path c m w :
  LoadServerConfig path = Ok c -> (forall t, (tr_absolute (storage_path c) t).1 = inr (storage_path c)) ->
  (forall p, p = storage_path c \/ p = DatabasePath (storage_path c) ->
     tr_view (rw_tree w) !! p = None \/ p ∈ tr_durable (rw_tree w)) ->
  env_view (rw_env w) (DatabasePath (storage_path c)) = None ->
  fs_view (rw_objects w) = ∅ -> (forall n, fs_durable (rw_objects w) n) ->
  let ms := Z.quot (os_system_clock (rw_os w)).1 1000000 in
  is_Some (SerializeMessage (InitializationMessage ms)) -> Budget m (initial_state ms) ->
  let '(r, w') := main_start launch [path] w in
  fs_view (start_objects r w') = ∅ /\
  match r with
  | Running config cfg refresher core =>
      config = c /\ cfg = main_config c /\ born m (initial_state ms) ∅ refresher core (initial_state ms) /\
      root_there (storage_path c) (rw_tree w')
  | Exit n _ => n = 1
  end.
Proof using ES FS PS RS TS.
  intros Hc Habs Hfree Henv Hobj Hdur ms Hser Hb.
  pose proof (Open_new (storage_path c) w Henv Hser) as Hopen. unfold wp in Hopen. fold ms in Hopen.
  destruct (la_block_signals launch) eqn:Eb.
  2:{ unfold main_start. rewrite Hc, Eb. by split. }
  destruct (Open (storage_path c) w) as [[st|s] w1] eqn:Eo.
  2:{ unfold main_start. rewrite Hc, Eb. cbn [negb]. unfold bind at 1. rewrite Eo. destruct Hopen as [_ Hv]. split; [by rewrite <- Hobj|done]. }
  destruct Hopen as (w2 & Ho & Hmade & Hop).
  assert (Hs : Stored (initial_state ms) (rw_objects w2)) by (rewrite Ho; by apply Stored_initial).
  assert (Hk : Keeps (initial_state ms) ∅ (fs_view (rw_objects w2))).
  { intros id [o Ho']. cbn in Ho'. by rewrite lookup_empty in Ho'. }
  pose proof (main_start_opened launch path c m (initial_state ms) ∅ (initial_state ms) w w2 st w1 Hc Eb Eo Hop
    (made_there _ w w2 Habs Hmade Hfree) Hk Hs ltac:(done) Hb) as Hm.
  destruct (main_start launch [path] w) as [r w']. destruct Hm as [[Ht%initial_untouched _] Hm].
  split; [by rewrite Ht, Ho|]. by destruct r; [destruct Hm|].
Qed.

(** ** The end of a life *)

Definition tree_survives (t t' : tree_t) : Prop := forall p, p ∈ tr_durable t ->
  tr_view t' !! p = tr_view t !! p /\ p ∈ tr_durable t'.

Definition dir_survives (f f' : fs_t) : Prop := forall n, fs_durable f n ->
  fs_view f' !! n = fs_view f !! n /\ fs_durable f' n.

(** A crash: of the open database one of the contents it can leave is found, of the directories
    what is on disk. *)
Definition crashed (path : string) (core : CoreW) (w w' : RootW) : Prop :=
  tree_survives (rw_tree w) (rw_tree w') /\
  dir_survives (st_fs (c_storage core)) (rw_objects w') /\
  exists fams x, env_view (rw_env w') (DatabasePath path) = Some (fams, x) /\ cdisk core x.

(** The power fails during a step: the database has what a crash before it or after it could
    leave, or what it showed; files that were not being written are as they were on disk. *)
Definition interrupted (path : string) (sys sys' : Sys) (w w' : RootW) : Prop :=
  tree_survives (rw_tree w) (rw_tree w') /\
  (forall n, fs_durable (sfs sys) n -> idle_name sys n ->
     fs_view (rw_objects w') !! n = sdir sys !! n /\ fs_durable (rw_objects w') n) /\
  exists fams x, env_view (rw_env w') (DatabasePath path) = Some (fams, x) /\
    (cdisk (sys_core sys) x \/ x = cview (sys_core sys) \/
     cdisk (sys_core sys') x \/ x = cview (sys_core sys')).

(** The power fails during a start: the database has what it had before, or what the start can
    leave; directory entries the start does not change are as they were on disk. *)
Definition start_interrupted (path : string) (r : Started) (w w' w'' : RootW) : Prop :=
  tree_survives (rw_tree w) (rw_tree w'') /\
  (forall n, fs_durable (rw_objects w) n ->
     fs_view (start_objects r w') !! n = fs_view (rw_objects w) !! n ->
     fs_view (rw_objects w'') !! n = fs_view (rw_objects w) !! n /\ fs_durable (rw_objects w'') n) /\
  exists fams x, env_view (rw_env w'') (DatabasePath path) = Some (fams, x) /\
    ((exists fams0, env_view (rw_env w) (DatabasePath path) = Some (fams0, x)) \/ start_disk path r w' x).

(** A state is stored when the names that matter to it are as they were on disk. *)
Lemma Stored_kept c f f' (keep : string -> Prop) :
  Stored c f ->
  (forall n, keep n -> fs_durable f n -> fs_view f' !! n = fs_view f !! n /\ fs_durable f' n) ->
  (forall id, is_Some (a_committed c !! id) -> keep (FinalName id)) ->
  (forall id n, a_next_object c <= id < two64 -> n ∈ object_names id -> keep n) -> Stored c f'.
Proof.
  intros [] Hsv Hc Hf. constructor; [done| | |].
  - intros id o Ho. destruct (sd_files id o Ho) as (data & Hd & Hsz). exists data. split; [|done].
    destruct (Hsv (FinalName id)) as [-> _]; [apply Hc; by eexists|apply sd_durable; by eexists|done].
  - intros id Hid. apply Hsv; auto.
  - intros id n Hid Hn. destruct (sd_fresh id n Hid Hn) as [Hv Hd].
    destruct (Hsv n) as [-> ?]; [by eapply Hf|done|done].
Qed.

Lemma there_survives path t t' : root_there path t -> tree_survives t t' -> root_there path t'.
Proof. intros Hthere Ht p Hp. destruct (Hthere p Hp) as [Hsome Hdur]. destruct (Ht p Hdur) as [-> ?]. done. Qed.

Lemma crashed_rooted m s b d a sys path w w' :
  CrashInv m s a sys -> Extends b s -> Keeps b d (sdir sys) -> root_there path (rw_tree w) ->
  crashed path (sys_core sys) w w' -> Rooted m b d path w'.
Proof.
  intros [Hs (Hst & Hsa & Hb) Hdisk Hw] Hx Hk Hthere (Ht & Hd & fams & x & He & Hc). split_and!.
  - by eapply there_survives.
  - intros id Hid. destruct (Hd (FinalName id)) as [-> _]; [|by apply Hk].
    apply (sd_durable _ _ Hst). eapply Extends_committed; [exact Hsa|]. by eapply Extends_committed.
  - destruct (Hdisk x Hc) as (c & Hr & Hsc & _ & Hxc & Hbc). exists fams, x, c.
    split_and!; [done|done| |by etransitivity|done].
    apply (Stored_kept c (sfs sys) _ (fun _ => True)); [done| |done|done]. intros n _. apply Hd.
Qed.

Lemma interrupted_rooted cfg m s b d a sys sys' path w w' :
  0 <= m -> CrashInv (m + 1) s a sys -> step cfg sys sys' -> Extends b s -> Keeps b d (sdir sys) ->
  root_there path (rw_tree w) -> interrupted path sys sys' w w' -> Rooted m b d path w'.
Proof using FS HS PS RS.
  intros Hm Hcr Hstep Hx Hk Hthere (Ht & Hd & fams & x & He & Hc). pose proof Hcr as [Hs (Hst & Hsa & Hb) _ _].
  destruct (Settled_registered a sys Hst (SysInv_Registered a sys Hs)) as (_ & Ha & _).
  assert (Hcommitted : forall id, is_Some (a_committed b !! id) -> is_Some (a_committed a !! id)).
  { intros id Hid. eapply Extends_committed; [exact Hsa|]. by eapply Extends_committed. }
  split_and!.
  - by eapply there_survives.
  - intros id Hid. destruct (Hd (FinalName id)) as [-> _]; [apply (sd_durable _ _ Hst)|apply Ha|]; auto.
  - destruct (survivor_during cfg m s a sys sys' x Hm Hcr Hstep Hc) as (c & Hr & (Hsc & Hidle & Hfree) & Hxc & Hbc).
    exists fams, x, c. split_and!; [done|done| |by etransitivity|done].
    apply (Stored_kept c (sfs sys) _ (idle_name sys)); [done| |done|done]. intros n Hi Hn. by apply Hd.
Qed.

Lemma start_interrupted_rooted launch config_file c m b d w r w' w'' :
  LoadServerConfig config_file = Ok c -> Rooted m b d (storage_path c) w ->
  main_start launch [config_file] w = (r, w') -> start_interrupted (storage_path c) r w w' w'' ->
  Rooted m b d (storage_path c) w''.
Proof using ES FS RS TS.
  intros Hc (Hthere & Hk & fams & x & a & Henv & Hr & Hs & Hx & Hb) E1 (Ht & Hd & fams' & y & Hy & Hfrom).
  pose proof (main_start_existing launch config_file c m b d fams x a w Hc Hthere Hk Henv Hr Hs Hx Hb) as Hm.
  rewrite E1 in Hm. destruct Hm as [[Hto Hdisk] _]. pose proof (sd_wf _ _ Hs) as Hwf.
  assert (Hsv : forall n, n ∉ recovery_names a -> fs_durable (rw_objects w) n ->
    fs_view (rw_objects w'') !! n = fs_view (rw_objects w) !! n /\ fs_durable (rw_objects w'') n).
  { intros n Hn Hdur. apply Hd; [done|by apply Hto]. }
  assert (Hs' : Stored a (rw_objects w'')).
  { apply (Stored_kept a (rw_objects w) _ (fun n => n ∉ recovery_names a)); [done|done|..].
    - intros id Hid. by apply committed_kept.
    - intros id n Hid Hn. by eapply fresh_kept. }
  split_and!.
  - by eapply there_survives.
  - intros id Hid. destruct (Hsv (FinalName id)) as [-> _]; [| |by apply Hk].
    + apply committed_kept; [done|by eapply Extends_committed].
    + apply (sd_durable _ _ Hs). by eapply Extends_committed.
  - assert (Hh : holds_still a y).
    { destruct Hfrom as [[fams0 E0]|E0]; [|by apply Hdisk]. left. by simplify_eq. }
    destruct Hh as [Hy'|Hy']; [by exists fams', y, a|]. exists fams', y, (a_recovered a).
    split_and!; [done|done|by apply Stored_recovered| |done]. etransitivity; [exact Hx|apply recovered_extends].
Qed.

(** The destructors of the core and of the storage. *)
Lemma closed_rooted m s b d a sys path w :
  CrashInv m s a sys -> Extends b s -> Keeps b d (sdir sys) -> root_there path (rw_tree w) ->
  Rooted m b d path (close_storage (DatabasePath path) (c_storage (sys_core sys)) w).
Proof using ES.
  intros Hcr Hx Hk Hthere.
  destruct (close_storage_ok (survivor m s sys) (DatabasePath path) (c_storage (sys_core sys)) w)
    as (Ht & Ho & fams & x & He & c & Hr & Hsc & _ & Hxc & Hbc).
  { by eapply cr_survivor. }
  { apply Hcr. }
  split_and!; [by rewrite Ht|by rewrite Ho|]. exists fams, x, c. rewrite Ho.
  split_and!; [done|done|done|by etransitivity|done].
Qed.

(** The ways a server ends, with the number of steps that were under way. *)
Inductive ended (cfg : CoreConfig) (path : string) (x : SubSys) (w : RootW) : nat -> RootW -> Prop :=
  | Ended_crashed w' : crashed path (ss_core x) w w' -> ended cfg path x w 0 w'
  | Ended_interrupted sys' w' :
      step cfg (ss_sys x) sys' -> interrupted path (ss_sys x) sys' w w' -> ended cfg path x w 1 w'
  | Ended_closed : ended cfg path x w 0 (close_storage (DatabasePath path) (c_storage (ss_core x)) w).

(** ** A running server *)

(** The server [x] runs on a root; [b] is safe with the files [d], and there is room for [m] more
    requests. *)
Definition Live (m : Z) (b : AState) (d : gmap string Node) (path : string) (x : SubSys) (w : RootW) : Prop :=
  root_there path (rw_tree w) /\ Keeps b d (sdir (ss_sys x)) /\
  commit_generation (ss_core x) + m < two64 /\ disk_if_open (ss_core x) /\
  exists mk a p, SubInv mk a p x /\ CrashInv m b a (ss_sys x).

Lemma Keeps_trans b a d d1 d2 : Extends b a -> Keeps b d d1 -> Keeps a d1 d2 -> Keeps b d d2.
Proof.
  intros Hx H1 H2 id Hid. rewrite H2; [by apply H1|]. by eapply Extends_committed.
Qed.

Lemma CrashInv_weaken m b s a sys : Extends b s -> CrashInv m s a sys -> CrashInv m b a sys.
Proof.
  intros Hx [Hs (H1 & H2 & H3) Hd Hw]. constructor; [done|split_and!; [done|by etransitivity|done]| |done].
  intros x (c & ? & ? & ? & ? & ?)%Hd. exists c. split_and!; try done. by etransitivity.
Qed.

Lemma Live_start launch config_file c m b d w config cfg refresher core w1 :
  LoadServerConfig config_file = Ok c -> m < two64 -> Rooted m b d (storage_path c) w ->
  main_start launch [config_file] w = (Running config cfg refresher core, w1) ->
  Live m b d (storage_path c) (newborn refresher core) w1.
Proof using ES FS RS TS.
  intros Hc Hm Hroot E1. pose proof (main_start_born launch config_file c m b d w Hc Hroot) as Hborn.
  rewrite E1 in Hborn. destruct Hborn as (_ & _ & (a & Hsub & Hcr & _ & Hg & Hnow & _ & Hx & Hk) & Hthere).
  split_and!; [done|done|unfold ss_core; cbn; lia|by intros _|].
  exists (a, 0), a, a. split; [done|]. by eapply CrashInv_weaken.
Qed.

Lemma Live_step cfg m b d path x x' w :
  0 <= m -> Live (m + 1) b d path x w -> sub_step cfg x x' -> Live m b d path x' w.
Proof using FS HS PS RS.
  intros Hm (Hthere & Hk & Hg & Hd & mk & a & p & Hinv & Hcr) Hstep.
  destruct (sub_step_crash cfg mk m b a p x x') as (a' & p' & Hinv' & Hcr' & _ & Hk' & Hg'); [done|done|done|lia|done|].
  pose proof Hcr as [_ (_ & Hx & Hb) _ _]. apply (Budget_0 m) in Hb as Hb1; [|done].
  split_and!; [done|by eapply Keeps_trans|lia|by eapply (sub_step_on_disk cfg mk a p x)|by exists mk, a', p'].
Qed.

Lemma Live_steps cfg n m b d path x x' w :
  0 <= m -> Live (Z.of_nat n + m) b d path x w -> nsteps (sub_step cfg) n x x' -> Live m b d path x' w.
Proof using FS HS PS RS.
  intros Hm Hl Hsteps. revert Hl. induction Hsteps as [x|n x1 x2 x3 Hstep _ IH]; intros Hl; [done|].
  apply IH. eapply Live_step; [lia| |exact Hstep]. by replace (Z.of_nat n + m + 1) with (Z.of_nat (S n) + m) by lia.
Qed.

Lemma Live_bound m b d path x w : Live m b d path x w -> m < two64.
Proof. intros (_ & _ & Hg & _ & mk & a & p & Hinv & _). pose proof (xi_mark _ _ _ _ Hinv) as [_ ?]. lia. Qed.

(** What is on disk is safe. *)
Lemma Live_safe m b d path x w a :
  Live m b d path x w -> on_disk_now (ss_core x) -> SysInv a (ss_sys x) ->
  Live m a (sdir (ss_sys x)) path x w.
Proof.
  intros (Hthere & _ & Hg & Hd & mk & a' & p & Hinv & Hcr) Hnow Hs.
  assert (a' = a) as -> by (by eapply SysInv_unique; [apply Hcr|]).
  split_and!; try done. exists mk, a, p. split; [done|]. by eapply CrashInv_now.
Qed.

(** A request or the phase of a writer that ends well. *)
Definition served (x : SubSys) (w : CoreW) (writers : gmap nat Writer) : SubSys :=
  MkSubSys (MkSys w writers) (ss_refresher x) (ss_service x) (ss_streams x).

Lemma Live_request cfg m b d path x w r v w' :
  0 <= m -> Live (m + 1) b d path x w -> request_ok r -> handle cfg r (ss_core x) = (Ok v, w') ->
  Live m b d path (served x w' (sys_writers (ss_sys x))) w.
Proof using FS HS PS RS.
  intros Hm Hl Hr Eh. eapply Live_step; [done|exact Hl|]. unfold served. apply (X_server cfg).
  replace w' with (serve cfg r (ss_core x)).2; [by apply S_serve|].
  unfold serve, rpc, bind. rewrite Eh. unfold ToGrpcStatus, bind. cbn. by rewrite run_HandleRpcStatus.
Qed.

Lemma Live_writer cfg m b d path x w i wt v w' :
  0 <= m -> Live (m + 1) b d path x w -> sys_writers (ss_sys x) !! i = Some wt ->
  writer_step cfg wt (ss_core x) = (inr (Ok v), w') ->
  Live m b d path (served x w' (delete i (sys_writers (ss_sys x)))) w.
Proof using FS HS PS RS.
  intros Hm Hl Hi Ew. eapply Live_step; [done|exact Hl|]. unfold served. apply (X_server cfg).
  replace w' with (closed cfg (result_status (Ok v)) w'); [by eapply S_writer_ends|].
  unfold closed. by rewrite run_HandleRpcStatus.
Qed.

Lemma Live_ended cfg k m b d path x w w' :
  0 <= m -> Live (Z.of_nat k + m) b d path x w -> ended cfg path x w k w' -> Rooted m b d path w'.
Proof using ES FS HS PS RS.
  intros Hm (Hthere & Hk & _ & _ & mk & a & p & _ & Hcr) Hend.
  destruct Hend as [w' Hc|sys' w' Hstep Hc|].
  - by eapply crashed_rooted.
  - eapply interrupted_rooted; [done| |done..]. by replace (m + 1) with (Z.of_nat 1 + m) by lia.
  - by eapply closed_rooted.
Qed.

(** ** Lives *)

Inductive life (config_file : string) (path : string) : nat -> RootW -> RootW -> Prop :=
  | Life_fails launch n text w w' :
      main_start launch [config_file] w = (Exit n text, w') -> life config_file path 0 w w'
  | Life_start_interrupted launch r w w' w'' :
      main_start launch [config_file] w = (r, w') -> start_interrupted path r w w' w'' ->
      life config_file path 0 w w''
  | Life_runs launch config cfg refresher core w w1 n x k w' :
      main_start launch [config_file] w = (Running config cfg refresher core, w1) ->
      nsteps (sub_step cfg) n (newborn refresher core) x ->
      ended cfg path x w1 k w' -> life config_file path (n + k) w w'.

Inductive lives (config_file : string) (path : string) : nat -> RootW -> RootW -> Prop :=
  | Lives_none w : lives config_file path 0 w w
  | Lives_more n m w w1 w' :
      life config_file path n w w1 -> lives config_file path m w1 w' ->
      lives config_file path (n + m) w w'.

Lemma life_rooted config_file c m b d n w w' :
  LoadServerConfig config_file = Ok c -> 0 <= m -> Z.of_nat n + m < two64 ->
  Rooted (Z.of_nat n + m) b d (storage_path c) w -> life config_file (storage_path c) n w w' ->
  Rooted m b d (storage_path c) w'.
Proof using ES FS HS PS RS TS.
  intros Hc Hm Hn Hroot Hlife.
  destruct Hlife as [launch k text w w' E1|launch r w w' w'' E1 Hint|launch config cfg rf core w w1 n x k w' E1 Hsteps Hend].
  - pose proof (main_start_born launch config_file c _ b d w Hc Hroot) as Hborn. rewrite E1 in Hborn. apply Hborn.
  - by eapply start_interrupted_rooted.
  - eapply Live_ended; [exact Hm| |exact Hend]. eapply Live_steps; [lia| |exact Hsteps].
    eapply Live_start; [done|lia| |exact E1]. by replace (Z.of_nat n + (Z.of_nat k + m)) with (Z.of_nat (n + k) + m) by lia.
Qed.

Lemma lives_rooted config_file c m b d n w w' :
  LoadServerConfig config_file = Ok c -> 0 <= m -> Z.of_nat n + m < two64 ->
  Rooted (Z.of_nat n + m) b d (storage_path c) w -> lives config_file (storage_path c) n w w' ->
  Rooted m b d (storage_path c) w'.
Proof using ES FS HS PS RS TS.
  intros Hc Hm Hn Hroot Hl. revert Hn Hroot. induction Hl as [w|n k w w1 w' Hlife _ IH]; intros Hn Hroot; [done|].
  apply IH; [lia|]. eapply life_rooted; [done| | | |exact Hlife]; [lia|lia|].
  by replace (Z.of_nat n + (Z.of_nat k + m)) with (Z.of_nat (n + k) + m) by lia.
Qed.

End Lives.
