(* ===== verification/FirstStart.v ===== *)
(** * Making a root, interrupted

    The power fails while [main] makes a storage root for the first time, any number
    of times: what is left is no database, one without the first batch, or one with
    it.  A later start serves the initial state, or nothing. *)

From stdpp Require Import relations.
From S2P Require Import Prelude Status Encoding Tokens Proto Json Platform Keys World FileStore.
From S2P Require Import Files Durability Storage Core Commands Model Unique Reads Scan Spec.
From S2P Require Import SystemMessages Refine Handlers ChannelHandlers Invariant Queries Pages.
From S2P Require Import Startup Objects Services Effects Requests Concurrency Tracks Crash Subscription.
From S2P Require Import SubInvariant ServerConfig Endpoints Root Process RootOpen Lives.

Section FirstStart.
Context {R : RocksDB} {P : Protobuf} {F : PosixDir} {H : Host} {T : RootFs} {E : RocksEnv}.
Context {Y : Yaml} {D : FileStatus}.
Context {RS : RocksDBSpec} {PS : ProtobufSpec} {FS : PosixDirSpec} {TS : RootFsSpec}.
Context {ES : RocksEnvSpec}.

(** A database that was created, with the first batch or without. *)
Definition early (x : Db) : Prop := x = ∅ \/ exists ms, repr x (initial_state ms).

Definition root_path (path p : string) : Prop := p = path \/ p = DatabasePath path.

(** A path at which no server has served yet: there is no object, what there is of the directories
    is on disk, and a database is only found where its directory is. *)
Record Unborn (path : string) (w : RootW) : Prop := {
  ub_objects : fs_view (rw_objects w) = ∅;
  ub_durable : forall n, fs_durable (rw_objects w) n;
  ub_tree : forall p, root_path path p -> tr_view (rw_tree w) !! p = None \/ p ∈ tr_durable (rw_tree w);
  ub_database : forall fams x, env_view (rw_env w) (DatabasePath path) = Some (fams, x) ->
    early x /\ forall p, root_path path p -> is_Some (tr_view (rw_tree w) !! p)
}.

(** The clock as the start reads it. *)
Definition clock_ms (w : RootW) : Z := Z.quot (os_system_clock (rw_os w)).1 1000000.

(** The power fails during a start at which there is no server yet. After the reboot every directory
    that is found was on disk; the database is the one that was there, or it is being made: nothing is
    in it yet, or the first batch; entries of the object directory that the start does not change are
    as they were. *)
Definition creation_interrupted (path : string) (r : Started) (w w' w'' : RootW) : Prop :=
  tree_survives (rw_tree w) (rw_tree w'') /\
  (forall p, is_Some (tr_view (rw_tree w'') !! p) -> p ∈ tr_durable (rw_tree w'')) /\
  (forall n, fs_durable (rw_objects w) n ->
     fs_view (start_objects r w') !! n = fs_view (rw_objects w) !! n ->
     fs_view (rw_objects w'') !! n = fs_view (rw_objects w) !! n /\ fs_durable (rw_objects w'') n) /\
  forall fams x, env_view (rw_env w'') (DatabasePath path) = Some (fams, x) ->
    (forall p, root_path path p -> is_Some (tr_view (rw_tree w'') !! p)) /\
    ((exists fams0, env_view (rw_env w) (DatabasePath path) = Some (fams0, x)) \/
     env_view (rw_env w) (DatabasePath path) = None /\
     (x = ∅ \/ x = apply_batch (InitializationBatch (clock_ms w)) ∅)).

Context (config_file : string) (c : ServerConfig) (Hc : LoadServerConfig config_file = Ok c).
Context (Habs : forall t, (tr_absolute (storage_path c) t).1 = inr (storage_path c)).
Context (Hser : forall ms, is_Some (SerializeMessage (InitializationMessage ms))).

Definition serves_initial (m : Z) (r : Started) (w' : RootW) : Prop :=
  match r with
  | Running config cfg refresher core =>
      config = c /\ cfg = main_config c /\ exists ms,
      born m (initial_state ms) ∅ refresher core (initial_state ms) /\ root_there (storage_path c) (rw_tree w')
  | Exit n _ => n = 1
  end.

Lemma initial_budget m ms : 0 <= m < 2 ^ 53 -> Budget m (initial_state ms).
Proof. intros Hm. unfold Budget, kMaxUuidBatch, two64, a_max_seq. cbn. lia. Qed.

(** A database without the first batch is not served. *)
Lemma main_start_blank launch fams w :
  (forall p, root_path (storage_path c) p -> is_Some (tr_view (rw_tree w) !! p)) ->
  env_view (rw_env w) (DatabasePath (storage_path c)) = Some (fams, ∅) ->
  exists text w', main_start launch [config_file] w = (Exit 1 text, w') /\ rw_objects w' = rw_objects w.
Proof using Hc ES RS TS.
  intros Hthere He. unfold main_start. rewrite Hc. destruct (la_block_signals launch); cbn [negb].
  2:{ by eexists _, w. }
  pose proof (Open_blank (storage_path c) w fams (Hthere _ (or_introl eq_refl)) (Hthere _ (or_intror eq_refl)) He) as Ho.
  unfold wp in Ho. unfold bind at 1. destruct (Open (storage_path c) w) as [r w']. destruct Ho as (Ho & s & -> & _).
  by eexists _, w'.
Qed.

Lemma unborn_start launch m w :
  0 <= m < 2 ^ 53 -> Unborn (storage_path c) w ->
  let '(r, w') := main_start launch [config_file] w in
  fs_view (start_objects r w') = ∅ /\ serves_initial m r w'.
Proof using Hc Habs Hser ES FS PS RS TS.
  intros Hm [Hobj Hdur Htree Hdb].
  destruct (env_view (rw_env w) (DatabasePath (storage_path c))) as [[fams x]|] eqn:He.
  2:{ pose proof (main_start_new launch config_file c m w Hc Habs Htree He Hobj Hdur (Hser _)
        (initial_budget m _ Hm)) as Hs.
      destruct (main_start launch [config_file] w) as [[n text|config cfg rf core] w']; [done|].
      destruct Hs as (Ho & Hc' & Hf & Hb & Hw). split; [done|]. split; [done|]. split; [done|]. by eexists. }
  destruct (Hdb fams x eq_refl) as [[->|[ms Hr]] Hthere].
  - destruct (main_start_blank launch fams w Hthere He) as (text & w' & -> & Ho).
    cbn. by rewrite Ho.
  - assert (Hroot : root_there (storage_path c) (rw_tree w)).
    { intros p Hp. destruct (Hthere p Hp) as [b Hb]. destruct (Htree p Hp) as [Hn|?]; [congruence|]. by split; [eexists|]. }
    assert (Hs : Stored (initial_state ms) (rw_objects w)) by (by apply Stored_initial).
    assert (Hk : Keeps (initial_state ms) ∅ (fs_view (rw_objects w))).
    { intros id [o Ho']. cbn in Ho'. by rewrite lookup_empty in Ho'. }
    pose proof (main_start_existing launch config_file c m (initial_state ms) ∅ fams x (initial_state ms) w Hc Hroot
      Hk He Hr Hs ltac:(done) (initial_budget m ms Hm)) as Hst.
    destruct (main_start launch [config_file] w) as [r w']. destruct Hst as [[Ht%initial_untouched _] Hst].
    split; [by rewrite Ht|]. destruct r as [n text|config cfg rf core]; [by destruct Hst|].
    destruct Hst as (-> & -> & Hb & Hw). split; [done|]. split; [done|]. by exists ms.
Qed.

(** What an interrupted creation leaves is as before: still unborn. *)
Lemma unborn_interrupted launch r w w' w'' :
  Unborn (storage_path c) w -> main_start launch [config_file] w = (r, w') ->
  creation_interrupted (storage_path c) r w w' w'' -> Unborn (storage_path c) w''.
Proof using Hc Habs Hser ES FS PS RS TS.
  intros Hub Erun (Ht & Hfound & Hd & Hx). pose proof (unborn_start launch 0 w ltac:(lia) Hub) as Hs.
  rewrite Erun in Hs. destruct Hs as [Ho _]. destruct Hub as [Hobj Hdur Htree Hdb].
  assert (Hn : forall n, fs_view (rw_objects w'') !! n = None /\ fs_durable (rw_objects w'') n).
  { intros n. destruct (Hd n (Hdur n)) as [Hv Hn]; [by rewrite Ho, Hobj|]. split; [|done]. by rewrite Hv, Hobj. }
  constructor.
  - apply map_eq. intros n. rewrite lookup_empty. apply Hn.
  - intros n. apply Hn.
  - intros p _. destruct (tr_view (rw_tree w'') !! p) eqn:E1; [right|by left]. apply Hfound. by eexists.
  - intros fams x He. destruct (Hx fams x He) as [Hthere Hfrom]. split; [|done].
    destruct Hfrom as [[fams0 E0]|[_ [->| ->]]]; [by eapply Hdb|by left|]. right. eexists. by apply init_repr.
Qed.

(** Any number of interrupted creations. *)
Inductive creations : RootW -> RootW -> Prop :=
  | Creations_none w : creations w w
  | Creations_more launch r w w' w1 w2 :
      main_start launch [config_file] w = (r, w') -> creation_interrupted (storage_path c) r w w' w1 ->
      creations w1 w2 -> creations w w2.

Lemma unborn_creations w w' : Unborn (storage_path c) w -> creations w w' -> Unborn (storage_path c) w'.
Proof using Hc Habs Hser ES FS PS RS TS. intros Hub Hcr. induction Hcr; [done|]. by eapply IHHcr, unborn_interrupted. Qed.

End FirstStart.
