(* ===== verification/Reference.v ===== *)
(** * A reference platform

    Instances of the classes of Platform.v and World.v that satisfy their laws: a
    database in memory whose calls fail when a fault tape says so, a codec, a
    directory in memory, and a deterministic host.  They show that the laws are
    consistent and let the theorems be run on concrete inputs. *)

From S2P Require Import Prelude Status Encoding Tokens Proto Json Platform Keys World.

(** ** Database *)

(** [mem_uncertain]: what a crash can leave because a write has failed. *)
Record MemDb := MkMemDb {
  mem : Db; mem_faults : list bool; mem_families : gset string; mem_uncertain : list Db
}.

(** The next call's fate, and the tape after it. *)
Definition mem_next (d : MemDb) : bool * MemDb :=
  match mem_faults d with
  | [] => (false, d)
  | b :: faults => (b, MkMemDb (mem d) faults (mem_families d) (mem_uncertain d))
  end.

Definition mem_ok : RocksStatus := MkRocksStatus kOk 0 0 "".
Definition mem_not_found : RocksStatus := MkRocksStatus kNotFound 0 0 "".
Definition mem_io_error : RocksStatus := MkRocksStatus (kOtherCode 5) 0 0 "disk".

Definition mem_get (s : Db) (cf : ColumnFamily) (k : string) : RocksStatus * string :=
  match s !! (cf, k) with Some v => (mem_ok, v) | None => (mem_not_found, "") end.

Definition fst_str_le (x y : string * string) : Prop := str_le x.1 y.1.

#[export] Instance fst_str_le_dec x y : Decision (fst_str_le x y).
Proof. unfold fst_str_le. apply _. Defined.

Definition mem_entries (s : Db) (cf : ColumnFamily) (target : string) : list (string * string) :=
  merge_sort fst_str_le
    (omap (fun e : (ColumnFamily * string) * string =>
       if decide (e.1.1 = cf /\ str_le target e.1.2) then Some (e.1.2, e.2) else None)
       (map_to_list s)).

#[export] Instance MemRocks : RocksDB := {|
  rocks_ToString := fun s => "code " +:+ to_string (rs_subcode s) +:+ rs_state s;
  db_t := MemDb;
  snap_t := Db;
  db_view := mem;
  db_disk := fun d x => x = mem d \/ x ∈ mem_uncertain d;
  snap_view := fun s => s;
  db_GetSnapshot := fun d =>
    let '(fails, d') := mem_next d in (if fails then None else Some (mem d), d');
  db_Get := fun s cf k d =>
    let '(fails, d') := mem_next d in (if fails then (mem_io_error, "") else mem_get s cf k, d');
  db_MultiGet := fun s cf ks d =>
    let '(fails, d') := mem_next d in
    ((fun k => if fails : bool then (mem_io_error, "") else mem_get s cf k) <$> ks, d');
  db_Iterate := fun o cf target d =>
    let '(fails, d') := mem_next d in
    let entries := mem_entries (from_option (fun s => s) (mem d) o) cf target in
    (if fails then (take 1 entries, mem_io_error) else (entries, mem_ok), d');
  db_Write := fun o b d =>
    let '(fails, d') := mem_next d in
    if fails
    then (mem_io_error, MkMemDb (mem d) (mem_faults d') (mem_families d)
                          (apply_batch b (mem d) :: mem_uncertain d))
    else (mem_ok, MkMemDb (apply_batch b (mem d)) (mem_faults d') (mem_families d)
                     (if wo_sync o && negb (wo_disableWAL o) then [] else mem d :: mem_uncertain d))
|}.

#[export] Instance fst_str_le_total : Total fst_str_le.
Proof.
  intros x y. unfold fst_str_le. rewrite !str_le_lteq.
  destruct (str_lt_total x.1 y.1) as [?|[->|?]]; auto.
Qed.

#[export] Instance fst_str_le_trans : Transitive fst_str_le.
Proof.
  intros x y z. unfold fst_str_le. rewrite !str_le_lteq. intros [H1| ->] [H2|E]; auto.
  - left. by transitivity y.1.
  - rewrite <- E. by left.
Qed.

Lemma mem_entries_elem s cf target k v :
  (k, v) ∈ mem_entries s cf target <-> s !! (cf, k) = Some v /\ str_le target k.
Proof.
  unfold mem_entries. rewrite merge_sort_Permutation, list_elem_of_omap. split.
  - intros ([[cf' k'] v'] & Hin & E). cbn in E. case_decide as Hd; [|done]. simplify_eq.
    destruct Hd as [-> ?]. split; [by apply elem_of_map_to_list|done].
  - intros [Hs Ht]. exists ((cf, k), v). split; [by apply elem_of_map_to_list|]. cbn.
    by rewrite decide_True.
Qed.

Lemma NoDup_omap_inj {A B} (f : A -> option B) (l : list A) :
  (forall x y z, f x = Some z -> f y = Some z -> x = y) -> NoDup l -> NoDup (omap f l).
Proof.
  intros Hinj. induction 1 as [|x l Hx Hnd IH]; cbn; [constructor|].
  destruct (f x) as [z|] eqn:E; [|done]. constructor; [|done].
  intros (y & Hy & Ey)%list_elem_of_omap. by rewrite (Hinj x y z) in Hx.
Qed.

Lemma mem_entries_iteration s cf target : is_iteration s cf target (mem_entries s cf target).
Proof.
  split; [|apply mem_entries_elem].
  assert (Hs : StronglySorted fst_str_le (mem_entries s cf target))
    by apply (StronglySorted_merge_sort _).
  assert (Hnd : NoDup (mem_entries s cf target)).
  { unfold mem_entries. rewrite merge_sort_Permutation.
    apply NoDup_omap_inj; [|apply NoDup_map_to_list].
    intros [[c1 k1] v1] [[c2 k2] v2] [x y]. cbn. repeat case_decide; intros; simplify_eq; naive_solver. }
  assert (Hf : forall k v v', (k, v) ∈ mem_entries s cf target ->
    (k, v') ∈ mem_entries s cf target -> v = v').
  { intros k v v'. rewrite !mem_entries_elem. naive_solver. }
  revert Hs Hnd Hf. generalize (mem_entries s cf target). intros l.
  induction 1 as [|[k v] l Hl IH Hx]; intros Hnd Hf; constructor.
  - apply IH; [by inversion Hnd|]. intros. eapply Hf; by right.
  - apply NoDup_cons in Hnd as [Hni _]. rewrite Forall_forall in Hx |- *.
    intros [k' v'] Hin. unfold key_lt. cbn. specialize (Hx _ Hin). unfold fst_str_le in Hx.
    apply str_le_lteq in Hx as [?|E]; [done|]. cbn in E. subst k'.
    assert (v = v') as -> by (eapply Hf; [by left|by right]). done.
Qed.

Lemma mem_next_mem d b d' : mem_next d = (b, d') -> db_data d' = db_data d.
Proof. unfold mem_next. destruct (mem_faults d); by intros [= <- <-]. Qed.

#[export] Instance MemRocksSpec : RocksDBSpec.
Proof.
  assert (Hget : forall s cf k, get_agrees s cf k (mem_get s cf k)).
  { intros s cf k. unfold mem_get, get_agrees. destruct (s !! (cf, k)); by split. }
  assert (Hbad : forall s cf k, get_agrees s cf k (mem_io_error, "")) by (intros; by split).
  constructor.
  - intros d. cbn. destruct (mem_next d) as [b d'] eqn:E. apply mem_next_mem in E.
    split; [done|]. destruct b; naive_solver.
  - intros s cf k d. cbn. destruct (mem_next d) as [b d'] eqn:E. apply mem_next_mem in E.
    split; [done|]. destruct b; auto.
  - intros s cf ks d. cbn. destruct (mem_next d) as [b d'] eqn:E. apply mem_next_mem in E.
    split; [done|]. apply Forall2_fmap_r, Forall_Forall2_diag, Forall_forall. intros k _. destruct b; auto.
  - intros o cf t d. cbn. destruct (mem_next d) as [b d'] eqn:E. apply mem_next_mem in E.
    assert (Hs : from_option (λ s : Db, s) (mem d) o = from_option snap_view (db_view d) o) by done.
    destruct b; (split; [done|]); eexists; (split; [apply mem_entries_iteration|]).
    + split; [|done]. apply prefix_take.
    + done.
  - intros o b d. cbn. destruct (mem_next d) as [f d'] eqn:E. apply mem_next_mem in E.
    destruct f; cbn.
    + split; [by left|]. intros x [->|[->|Hx]%elem_of_cons]; auto.
    + split; [done|]. intros -> ->. by intros x [->|?%elem_of_nil].
Qed.

(** *** A database that never fails *)

Definition SafeRocks : RocksDB := {|
  rocks_ToString := fun s => rs_state s;
  db_t := Db;
  snap_t := Db;
  db_view := fun d => d;
  db_disk := fun d x => x = d;
  snap_view := fun s => s;
  db_GetSnapshot := fun d => (Some d, d);
  db_Get := fun s cf k d => (mem_get s cf k, d);
  db_MultiGet := fun s cf ks d => (mem_get s cf <$> ks, d);
  db_Iterate := fun o cf target d =>
    ((mem_entries (from_option (fun s => s) d o) cf target, mem_ok), d);
  db_Write := fun _ b d => (mem_ok, apply_batch b d)
|}.

Lemma mem_get_agrees s cf k : get_agrees s cf k (mem_get s cf k).
Proof. unfold mem_get, get_agrees. destruct (s !! (cf, k)); by split. Qed.

Lemma SafeRocksSpec : @RocksDBSpec SafeRocks.
Proof.
  constructor.
  - intros d. cbn. naive_solver.
  - intros s cf k d. cbn. split; [done|apply mem_get_agrees].
  - intros s cf ks d. cbn. split; [done|].
    apply Forall2_fmap_r, Forall_Forall2_diag, Forall_forall. intros k _. apply mem_get_agrees.
  - intros o cf t d. cbn. split; [done|]. eexists. split; [|done].
    by destruct o; apply mem_entries_iteration.
  - intros o b d. done.
Qed.

(** ** Codec *)

Fixpoint pos_text (p : positive) : string :=
  match p with
  | xH => ""
  | xO p => String "0" (pos_text p)
  | xI p => String "1" (pos_text p)
  end.

Fixpoint text_pos (s : string) : positive :=
  match s with
  | EmptyString => xH
  | String c s => if Ascii.eqb c "1" then xI (text_pos s) else xO (text_pos s)
  end.

Lemma text_pos_text p : text_pos (pos_text p) = p.
Proof. induction p as [p IH|p IH|]; cbn; rewrite ?IH; done. Qed.

#[export] Instance ObjectKey_countable : Countable ObjectKey.
Proof.
  apply (inj_countable' (fun k => (ok_object_id k, ok_object_token k))
    (fun p => MkObjectKey p.1 p.2)). by intros [].
Defined.

#[export] Instance EventMessage_countable : Countable EventMessage.
Proof.
  apply (inj_countable'
    (fun m => (em_seq m, em_channel_id m, em_principal m, em_recipients m, em_payload m, em_ts_ms m,
               em_uuid m, em_object_keys m))
    (fun '(a, b, c, d, e, f, g, h) => MkEventMessage a b c d e f g h)). by intros [].
Defined.

#[export] Instance Visibility_countable : Countable Visibility.
Proof.
  apply (inj_countable'
    (fun v => match v with VISIBILITY_PUBLIC => (0, 0) | VISIBILITY_PROTECTED => (1, 0)
              | VISIBILITY_PRIVATE => (2, 0) | Visibility_other n => (3, n) end)
    (fun p : Z * Z => if p.1 =? 0 then VISIBILITY_PUBLIC else if p.1 =? 1 then VISIBILITY_PROTECTED
              else if p.1 =? 2 then VISIBILITY_PRIVATE else Visibility_other p.2)). by intros [].
Defined.

#[export] Instance ChannelInfo_countable : Countable ChannelInfo.
Proof.
  apply (inj_countable'
    (fun c => (ci_channel_id c, ci_name c, ci_visibility c, ci_protocol c, ci_description c,
               ci_creator c, ci_members c))
    (fun '(a, b, c, d, e, f, g) => MkChannelInfo a b c d e f g)). by intros [].
Defined.

#[export] Instance ObjectRecord_countable : Countable ObjectRecord.
Proof.
  apply (inj_countable'
    (fun r => (or_object_id r, or_object_token r, or_creator_principal r, or_name r, or_type r,
               or_description r, or_nbytes r))
    (fun '(a, b, c, d, e, f, g) => MkObjectRecord a b c d e f g)). by intros [].
Defined.

Definition bits {A} `{Countable A} (x : A) : string := pos_text (encode x).
Definition unbits {A} `{Countable A} (s : string) : option A := decode (text_pos s).

Lemma unbits_bits {A} `{Countable A} (x : A) : unbits (bits x) = Some x.
Proof. unfold unbits, bits. by rewrite text_pos_text, decode_encode. Qed.

#[export] Instance BitsProtobuf : Protobuf := {|
  SerializeMessage := fun m => Some (bits m);
  ParseMessage := unbits;
  MessageByteSize := fun m => Z.min (16 + str_size (em_payload m)) (2 ^ 31 - 1);
  SerializeChannel := fun c => Some (bits c);
  ParseChannel := unbits;
  SerializeRecord := fun r => Some (bits r);
  ParseRecord := unbits;
  payload_text_ok := utf8_valid;
  Visibility_IsValid := fun v => match v with Visibility_other _ => false | _ => true end;
  JsonStringToMessage := read_struct
|}.

#[export] Instance BitsProtobufSpec : ProtobufSpec.
Proof.
  constructor; cbn; try done.
  - intros m s _ [= <-]. apply unbits_bits.
  - intros c s _ [= <-]. apply unbits_bits.
  - intros r s _ [= <-]. apply unbits_bits.
  - intros m. pose proof (str_size_nonneg (em_payload m)). lia.
  - intros [] Hv; try done. by destruct (Hv n).
Qed.

(** ** Object directory *)

(** [md_volatile]: the names whose entry is not on disk as it is; [md_unsynced]: those whose
    data is not. *)
Record MemDir := MkMemDir {
  md_view : gmap string Node; md_fds : gmap Z string; md_next : Z;
  md_volatile : gset string; md_unsynced : gset string
}.

Definition mem_dir : MemDir := MkMemDir ∅ ∅ 3 ∅ ∅.

(** The entry and the data of a name changed. *)
Definition md_dirty (n : string) (f : MemDir) (view : gmap string Node) : MemDir :=
  MkMemDir view (md_fds f) (md_next f) ({[n]} ∪ md_volatile f) ({[n]} ∪ md_unsynced f).

Definition node_size (n : Node) : Z := match n with NFile d => str_size d | NOther => 0 end.

#[export] Instance MemPosix : PosixDir := {|
  fs_t := MemDir;
  fs_view := md_view;
  fs_interrupts := fun _ => 0%nat;
  fs_fd := fun f fd => md_fds f !! fd;
  fs_durable := fun f n => n ∉ md_volatile f;
  fs_synced := fun f n => n ∉ md_unsynced f;
  sys_create := fun name f =>
    match md_view f !! name with
    | Some _ => (inl EEXIST, f)
    | None => (inr (md_next f), MkMemDir (<[name := NFile ""]> (md_view f))
                 (<[md_next f := name]> (md_fds f)) (md_next f + 1)
                 ({[name]} ∪ md_volatile f) ({[name]} ∪ md_unsynced f))
    end;
  sys_write := fun fd data f =>
    match md_fds f !! fd with
    | Some name =>
        match md_view f !! name with
        | Some (NFile old) =>
            (inr (Z.min 3 (str_size data)), md_dirty name f
               (<[name := NFile (old +:+ take_bytes (Z.to_nat (Z.min 3 (str_size data))) data)]> (md_view f)))
        | _ => (inl EPERM, f)
        end
    | None => (inl 9, f)
    end;
  sys_fsync := fun fd f =>
    match md_fds f !! fd with
    | Some name => (None, MkMemDir (md_view f) (md_fds f) (md_next f) (md_volatile f) (md_unsynced f ∖ {[name]}))
    | None => (Some 9, f)
    end;
  sys_close := fun fd f =>
    (None, MkMemDir (md_view f) (delete fd (md_fds f)) (md_next f) (md_volatile f) (md_unsynced f));
  sys_rename_noreplace := fun a b f =>
    match md_view f !! a, md_view f !! b with
    | None, _ => (Some ENOENT, f)
    | _, Some _ => (Some EEXIST, f)
    | Some node, None =>
        (None, MkMemDir (<[b := node]> (delete a (md_view f))) (md_fds f) (md_next f)
                 ({[a; b]} ∪ md_volatile f)
                 (if bool_decide (a ∈ md_unsynced f) then {[b]} ∪ md_unsynced f else md_unsynced f ∖ {[b]}))
    end;
  sys_fsync_dir := fun f =>
    (None, MkMemDir (md_view f) (md_fds f) (md_next f)
             (md_volatile f ∩ (md_unsynced f ∩ dom (md_view f))) (md_unsynced f));
  sys_unlink := fun name f =>
    match md_view f !! name with
    | None => (Some ENOENT, f)
    | Some NOther => (Some EISDIR, f)
    | Some (NFile _) => (None, md_dirty name f (delete name (md_view f)))
    end;
  sys_open := fun name f =>
    match md_view f !! name with
    | None => (inl ENOENT, f)
    | Some _ => (inr (md_next f), MkMemDir (md_view f) (<[md_next f := name]> (md_fds f)) (md_next f + 1)
                   (md_volatile f) (md_unsynced f))
    end;
  sys_fstat := fun fd f =>
    match md_fds f !! fd ≫= fun n => md_view f !! n with
    | Some (NFile d) => (inr (true, str_size d), f)
    | Some NOther => (inr (false, 0), f)
    | None => (inl 9, f)
    end;
  sys_pread := fun fd count offset f =>
    match md_fds f !! fd ≫= fun n => md_view f !! n with
    | Some (NFile d) => (inr (take_bytes (Z.to_nat (Z.min 5 count)) (drop_bytes (Z.to_nat offset) d)), f)
    | _ => (inl 9, f)
    end
|}.

(** A step that makes some names uncertain. *)
Lemma md_keeps names (f f' : MemDir) :
  (forall n, n ∉ names -> n ∈ md_volatile f' -> n ∈ md_volatile f) ->
  (forall n, n ∉ names -> n ∈ md_unsynced f' -> n ∈ md_unsynced f) -> fs_keeps names f f'.
Proof. intros Hv Hs n Hn. cbn. split; intros Hnot Hin; eauto. Qed.

Lemma str_size_take n s : str_size (take_bytes n s) <= Z.of_nat n.
Proof. unfold str_size. rewrite take_bytes_length. lia. Qed.

Lemma take_bytes_self n s : take_bytes (String.length (take_bytes n s)) s = take_bytes n s.
Proof. revert s. induction n as [|n IH]; intros [|c s]; cbn; try done. by rewrite IH. Qed.

#[export] Instance MemPosixSpec : PosixDirSpec.
Proof.
  constructor; cbn.
  - intros name f. destruct (md_view f !! name) eqn:E; cbn; [done|].
    split_and!; [lia|done|done|]. apply lookup_insert_eq.
  - intros fd data name old f Hfd Hv. rewrite Hfd, Hv. cbn. pose proof (str_size_nonneg data).
    split_and!; [done|lia|lia|lia|done].
  - intros fd f. destruct (md_fds f !! fd) eqn:E; cbn; (split; [done|]); congruence.
  - done.
  - intros a b f. destruct (md_view f !! a) eqn:E1; [|by split]. destruct (md_view f !! b) eqn:E2; [by split|].
    by eexists.
  - done.
  - intros name f. destruct (md_view f !! name) as [[]|] eqn:E; [by split| |].
    + split_and!; [done|done|]. intros _ data. congruence.
    + split_and!; [done|done|]. by intros [|].
  - intros name f. destruct (md_view f !! name) eqn:E; cbn.
    + split_and!; [done|lia|done|]. apply lookup_insert_eq.
    + split_and!; [done|lia|done|]. intros _ data. congruence.
  - intros fd name node f Hfd E. rewrite Hfd. cbn. rewrite E. destruct node; split_and!; try done; naive_solver.
  - intros fd count offset name data f Hfd E Hc Ho. rewrite Hfd. cbn. rewrite E. split_and!; [done|done|lia| | |].
    + pose proof (str_size_take (Z.to_nat (Z.min 5 count)) (drop_bytes (Z.to_nat offset) data)). lia.
    + by rewrite take_bytes_self.
    + intros Hnil. apply (f_equal String.length) in Hnil.
      rewrite take_bytes_length, drop_bytes_length in Hnil. cbn in Hnil. unfold str_size. lia.
  - intros name f. destruct (md_view f !! name); apply md_keeps; cbn; set_solver.
  - intros fd data name f Hfd. rewrite Hfd. destruct (md_view f !! name) as [[]|]; cbn;
      (split; [apply md_keeps; cbn; set_solver|done]).
  - intros fd f. destruct (md_fds f !! fd) as [name|] eqn:E; (split; [apply md_keeps; cbn; set_solver|]); [|done].
    intros _ name' [= <-]. cbn. set_solver.
  - intros fd f. by apply md_keeps.
  - intros a b f. destruct (md_view f !! a) eqn:E1; [|split; [by apply md_keeps|done]].
    destruct (md_view f !! b) eqn:E2; [split; [by apply md_keeps|done]|].
    case_bool_decide; (split; [apply md_keeps; cbn; set_solver|]); intros _; cbn; set_solver.
  - intros f. split; [apply md_keeps; cbn; set_solver|]. intros _ n. cbn. rewrite <- not_elem_of_dom. set_solver.
  - intros name f. destruct (md_view f !! name) as [[]|]; apply md_keeps; cbn; set_solver.
  - intros name f. destruct (md_view f !! name); by apply md_keeps.
  - intros fd f. destruct (md_fds f !! fd ≫= _) as [[]|]; by apply md_keeps.
  - intros fd c o f. destruct (md_fds f !! fd ≫= _) as [[]|]; by apply md_keeps.
Qed.

(** ** Host *)

(** Nanoseconds, and a counter that stands for the entropy pool. *)
Record MemOs := MkMemOs { mo_clock : Z; mo_seed : Z }.

#[export] Instance MemHost : Host := {|
  os_t := MemOs;
  os_system_clock := fun o => (mo_clock o, MkMemOs (mo_clock o + 1000000) (mo_seed o));
  os_IsCancelled := fun _ o => (false, o);
  os_getrandom := fun n o =>
    (inr ((fun i => (mo_seed o + Z.of_nat i) mod 256) <$> seq 0 n), MkMemOs (mo_clock o) (mo_seed o + 1));
  os_getrandom_tries := fun _ => 0%nat;
  os_injector := None;
  strerror := to_string;
  CRYPTO_memcmp := fun a b => if decide (a = b) then 0 else 1
|}.

#[export] Instance MemHostSpec : HostSpec.
Proof.
  constructor; cbn.
  - intros a b _. by case_decide.
  - intros n o Hn. rewrite length_fmap, length_seq. split_and!; [lia..| |lia].
    apply Forall_fmap, Forall_forall. intros i _. unfold is_byte. cbn. apply Z.mod_pos_bound. lia.
Qed.

Lemma SafeRocks_healthy : ~ @fallible SafeRocks MemHost.
Proof.
  assert (Hget : forall s cf k, rocks_ok (mem_get s cf k).1 = false ->
    IsNotFound (mem_get s cf k).1 = false -> False).
  { intros s cf k. unfold mem_get. by destruct (s !! (cf, k)). }
  intros []; cbn in *; try done.
  - by eapply Hget.
  - match goal with E : _ ∈ _ <$> _ |- _ => apply list_elem_of_fmap in E as (k & -> & _) end. by eapply Hget.
Qed.
