(* ===== verification/Demo.v ===== *)
(** * A server run on the reference platform

    A storage root is created; a credential, a channel and uuids are added by the
    handlers themselves.  The theorems are applied to the state this reaches. *)

From S2P Require Import Prelude Status Encoding Tokens Proto Json Platform Keys World FileStore.
From S2P Require Import Files Storage Core Commands Model Reads Scan Spec SystemMessages Refine.
From S2P Require Import Handlers ChannelHandlers Invariant Queries Pages Startup Objects Services.
From S2P Require Import Effects Requests Concurrency Reference.

Definition demo_cfg : CoreConfig := MkCoreConfig 64 100 1000 true.

Definition demo_sub : SubState := MkSubState None 0 0 0 StatusOk false.

Definition demo_storage : StorageW :=
  MkStorageW (MkMemDb ∅ [] {["default"]} []) mem_dir (MkMemOs 1700000000000000000 7).

Definition demo_ms : Z := 1700000000000.

Definition demo_w0 : CoreW :=
  MkCoreW (InitializeNew_commit demo_storage).2 0 false [] demo_sub.

Definition demo_token : string := format_token [7; 8; 9; 10; 11; 12; 13; 14; 15; 16; 17; 18; 19; 20; 21; 22].

Definition demo_create : CreateChannelRequest :=
  {| cr_principal := 5; cr_token := demo_token; cr_name := "news"; cr_visibility := VISIBILITY_PRIVATE;
     cr_protocol := "p1"; cr_description := ""; cr_members := [6; 5; 6] |}.

Definition demo_w1 : CoreW := (AddToken demo_cfg 5 demo_w0).2.
Definition demo_w2 : CoreW := (CreateChannel demo_cfg demo_create demo_w1).2.
Definition demo_w3 : CoreW := (AllocateUuids demo_cfg 3 demo_w2).2.

(** The state a specification leads to. *)
Definition next_state {B} (r : Result (B * AState)) (a : AState) : AState :=
  match r with Ok (_, a') => a' | Err _ => a end.

Definition demo_a0 : AState := initial_state demo_ms.
Definition demo_a1 : AState := next_state (spec_add_token 5 demo_token demo_a0) demo_a0.
Definition demo_a2 : AState := next_state (spec_create_channel demo_create (now_ms demo_w1) demo_a1) demo_a1.
Definition demo_a3 : AState := next_state (spec_allocate 3 demo_a2) demo_a2.

(** A handler that succeeds leads where its specification says. *)
Lemma Outcome_run `{R : RocksDB, P : Protobuf, F : PosixDir, H : Host} {B} cfg (m : RM CoreW B) Rej w a spec v :
  wp m (Outcome cfg Rej w a spec) w -> (m w).1 = Ok v ->
  repr (cview (m w).2) (next_state spec a) /\ exists a', spec = Ok (v, a').
Proof.
  unfold wp. destruct (m w) as [r w']. cbn. intros Hout ->.
  inversion Hout as [v' a' w1 -> Hr|e w1|s w1|s w1]; subst. cbn. split; [done|by exists a'].
Qed.

Lemma demo0 : repr (cview demo_w0) demo_a0 /\ WF demo_a0.
Proof.
  split; [|apply WF_initial].
  pose proof (InitializeNew_outcome demo_storage eq_refl ltac:(by eexists)) as Hw. unfold wp in Hw.
  destruct (InitializeNew_commit demo_storage) as [r w'] eqn:E.
  assert (Er : r = Ok tt) by (change r with (r, w').1; rewrite <- E; vm_compute; reflexivity).
  subst r. unfold cview, demo_w0. rewrite E. exact (proj1 Hw).
Qed.

(** Three requests on any database of the reference host: their effect is the specified one. *)
Section Growth.
Context {R : RocksDB} {RS : RocksDBSpec}.
Context (w : CoreW) (a : AState) (Hav : fatal_error_triggered w = false).
Context (Hr : repr (cview w) a) (Hwf : WF a).

Lemma grow_token :
  (AddToken demo_cfg 5 w).1 = Ok demo_token ->
  let a' := next_state (spec_add_token 5 demo_token a) a in
  repr (cview (AddToken demo_cfg 5 w).2) a' /\ WF a'.
Proof using All.
  intros Er. pose proof (AddToken_outcome demo_cfg 5 w a Hav Hr Hwf ltac:(done)) as Hw.
  unfold wp in Hw. destruct (AddToken demo_cfg 5 w) as [r w']. cbn [fst] in Er. subst r.
  destruct Hw as (bytes & Hlen & _ & Hout).
  inversion Hout as [v' a' w1 Hs Hr' _ _ _ E1 E2|e w1|s w1|s w1].
  assert (Hs' : spec_add_token 5 demo_token a = Ok (demo_token, a')).
  { revert Hs. unfold spec_add_token. change (5 =? 0) with false. cbv iota. intros Hs.
    assert (Et : format_token bytes = demo_token) by congruence. by rewrite Et in Hs. }
  rewrite Hs'. split; [exact Hr'|].
  eapply (WF_add_token 5 _ a); [done|done| |exact Hs']. vm_compute. discriminate.
Qed.

Lemma grow_channel c :
  Room a -> (CreateChannel demo_cfg demo_create w).1 = Ok c ->
  let a' := next_state (spec_create_channel demo_create (now_ms w) a) a in
  repr (cview (CreateChannel demo_cfg demo_create w).2) a' /\ WF a'.
Proof using All.
  intros Hroom Er.
  assert (Hreq : create_request_ok demo_create) by (split_and!; [done|repeat constructor; done|reflexivity..]).
  pose proof (CreateChannel_outcome demo_cfg demo_create w a Hav Hr Hwf Hreq) as Hw.
  destruct (Outcome_run demo_cfg _ _ _ _ _ _ Hw Er) as [Hr2 [a' Hs]]. split; [exact Hr2|].
  rewrite Hs. by eapply WF_create_channel.
Qed.

Lemma grow_uuids us :
  Room a -> (AllocateUuids demo_cfg 3 w).1 = Ok us ->
  let a' := next_state (spec_allocate 3 a) a in
  repr (cview (AllocateUuids demo_cfg 3 w).2) a' /\ WF a'.
Proof using All.
  intros Hroom Er. pose proof (AllocateUuids_outcome demo_cfg 3 w a Hav Hr Hwf) as Hw.
  destruct (Outcome_run demo_cfg _ _ _ _ _ _ Hw Er) as [Hr2 [a' Hs]]. split; [exact Hr2|].
  rewrite Hs. by eapply (WF_allocate 3).
Qed.
End Growth.

Lemma demo1 : repr (cview demo_w1) demo_a1 /\ WF demo_a1.
Proof.
  apply (grow_token demo_w0 demo_a0 eq_refl (proj1 demo0) (proj2 demo0)). vm_compute. reflexivity.
Qed.

Lemma demo2 : repr (cview demo_w2) demo_a2 /\ WF demo_a2.
Proof.
  eapply (grow_channel demo_w1 demo_a1 eq_refl (proj1 demo1) (proj2 demo1));
    [split_and!; vm_compute; reflexivity|vm_compute; reflexivity].
Qed.

Lemma demo3 : repr (cview demo_w3) demo_a3 /\ WF demo_a3.
Proof.
  eapply (grow_uuids demo_w2 demo_a2 ltac:(vm_compute; reflexivity) (proj1 demo2) (proj2 demo2));
    [split_and!; vm_compute; reflexivity|vm_compute; reflexivity].
Qed.

Definition demo_sys : Sys := MkSys demo_w3 ∅.

Lemma demo_sys_inv : SysInv demo_a3 demo_sys.
Proof.
  destruct demo3 as [Hr Hwf]. constructor; cbn [sys_core sys_writers demo_sys]; try done.
Qed.

Lemma demo_budget : Budget 1000 demo_a3.
Proof. split_and!; vm_compute; reflexivity. Qed.

(** The new root on the database that never fails. *)
Definition safe_storage : @StorageW SafeRocks _ _ :=
  @MkStorageW SafeRocks _ _ (∅ : Db) mem_dir (MkMemOs 1700000000000000000 7).

Definition safe_w : @CoreW SafeRocks _ _ :=
  @MkCoreW SafeRocks _ _ (@InitializeNew_commit SafeRocks _ _ _ safe_storage).2 0 false []
    (@MkSubState SafeRocks None 0 0 0 StatusOk false).

Lemma safe0 : @repr _ (@cview SafeRocks _ _ safe_w) demo_a0 /\ WF demo_a0.
Proof.
  split; [|apply WF_initial].
  pose proof (@InitializeNew_outcome SafeRocks _ _ _ SafeRocksSpec _ safe_storage eq_refl
    ltac:(by eexists)) as Hw. unfold wp in Hw.
  destruct (InitializeNew_commit safe_storage) as [r w'] eqn:E.
  assert (Er : r = Ok tt) by (change r with (r, w').1; rewrite <- E; vm_compute; reflexivity).
  subst r. unfold cview, safe_w. rewrite E. exact (proj1 Hw).
Qed.

Definition safe_w1 : @CoreW SafeRocks _ _ := (@AddToken SafeRocks _ _ demo_cfg 5 safe_w).2.
Definition safe_w2 : @CoreW SafeRocks _ _ := (@CreateChannel SafeRocks _ _ _ demo_cfg demo_create safe_w1).2.
Definition safe_w3 : @CoreW SafeRocks _ _ := (@AllocateUuids SafeRocks _ _ demo_cfg 3 safe_w2).2.

Lemma safe3 : @repr _ (@cview SafeRocks _ _ safe_w3) demo_a3 /\ WF demo_a3.
Proof.
  assert (H1 : repr (cview safe_w1) demo_a1 /\ WF demo_a1).
  { apply (@grow_token SafeRocks SafeRocksSpec safe_w demo_a0 eq_refl (proj1 safe0) (proj2 safe0)).
    vm_compute. reflexivity. }
  assert (H2 : repr (cview safe_w2) demo_a2 /\ WF demo_a2).
  { assert (Et : now_ms demo_w1 = now_ms safe_w1) by (vm_compute; reflexivity).
    unfold demo_a2. rewrite Et.
    eapply (@grow_channel SafeRocks SafeRocksSpec safe_w1 demo_a1 eq_refl (proj1 H1) (proj2 H1));
      [split_and!; vm_compute; reflexivity|vm_compute; reflexivity]. }
  eapply (@grow_uuids SafeRocks SafeRocksSpec safe_w2 demo_a2 ltac:(vm_compute; reflexivity) (proj1 H2) (proj2 H2));
    [split_and!; vm_compute; reflexivity|vm_compute; reflexivity].
Qed.

Lemma run_split {A B} (x : A * B) (Q : A -> B -> Prop) : (let '(r, w) := x in Q r w) -> Q x.1 x.2.
Proof. by destruct x. Qed.

Lemma run_eq {S A} (m : M S A) w v : (m w).1 = v -> m w = (v, (m w).2).
Proof. intros <-. apply surjective_pairing. Qed.
