(* ===== verification/RootReference.v ===== *)
(** * A reference disk

    Instances of the classes of Root.v that satisfy their laws: a tree of directories
    and a table of closed databases, both in memory, and two roots on them, one not
    made yet and one with the state of Demo.v. *)

From S2P Require Import Prelude Status Encoding Tokens Proto Json Platform Keys World FileStore.
From S2P Require Import Files Durability Storage Core Commands Model Reads Scan Spec SystemMessages.
From S2P Require Import Refine Handlers ChannelHandlers Invariant Queries Pages Startup Objects.
From S2P Require Import Services Effects Requests Concurrency Tracks Crash Subscription SubInvariant.
From S2P Require Import ServerConfig Endpoints Root Process RootOpen Lives Reference Demo.

(** ** Paths *)

(** The text before the last separator. *)
Fixpoint before_slash (s : string) : option string :=
  match s with
  | EmptyString => None
  | String c s =>
      match before_slash s with
      | Some r => Some (String c r)
      | None => if Ascii.eqb c "/" then Some "" else None
      end
  end.

Definition mem_parent (p : string) : string := from_option id "" (before_slash p).
Definition mem_join (p n : string) : string := p +:+ "/" +:+ n.

Lemma before_slash_shorter s r : before_slash s = Some r -> (String.length r < String.length s)%nat.
Proof.
  revert r. induction s as [|c s IH]; intros r; cbn; [done|]. destruct (before_slash s) as [q|].
  - intros [= <-]. cbn. specialize (IH q eq_refl). lia.
  - destruct (Ascii.eqb c "/"); [|done]. intros [= <-]. cbn. lia.
Qed.

Fixpoint strip (pre s : string) : option string :=
  match pre, s with
  | EmptyString, s => Some s
  | String a pre, String b s => if Ascii.eqb a b then strip pre s else None
  | String _ _, EmptyString => None
  end.

Lemma strip_spec pre s r : strip pre s = Some r <-> s = pre +:+ r.
Proof.
  revert s. induction pre as [|a pre IH]; intros s; cbn; [by split; [intros [= ->]|intros ->]|].
  destruct s as [|b s]; [done|]. destruct (Ascii.eqb_spec a b) as [->|Hne].
  - rewrite IH. split; [by intros ->|by intros [= ->]].
  - split; [done|]. intros [= <- _]. done.
Qed.

(** ** Directories *)

Record MemTree := MkMemTree {
  mt_view : gmap string bool; mt_durable : gset string; mt_fds : gmap Z string; mt_next : Z
}.

Definition mem_names (p : string) (t : MemTree) : list string :=
  omap (fun q => match strip (p +:+ "/") q with
                 | Some n => if is_name n then Some n else None
                 | None => None
                 end) (elements (dom (mt_view t))).

Lemma mem_names_elem p t n :
  n ∈ mem_names p t <-> is_name n = true /\ is_Some (mt_view t !! mem_join p n).
Proof.
  unfold mem_names, mem_join. rewrite list_elem_of_omap. split.
  - intros (q & Hq%elem_of_elements%elem_of_dom & E). destruct (strip _ q) as [m|] eqn:Es; [|done].
    destruct (is_name m) eqn:En; [|done]. injection E as ->. apply strip_spec in Es as ->.
    by rewrite str_app_assoc in Hq.
  - intros [Hn Hs]. exists (p +:+ "/" +:+ n). split; [by apply elem_of_elements, elem_of_dom|].
    rewrite <- str_app_assoc. assert (Es : strip (p +:+ "/") ((p +:+ "/") +:+ n) = Some n) by (by apply strip_spec).
    by rewrite Es, Hn.
Qed.

#[export] Instance MemRootFs : RootFs := {|
  tree_t := MemTree;
  tr_view := mt_view;
  tr_durable := mt_durable;
  tr_fd := fun t fd => mt_fds t !! fd;
  path_parent := mem_parent;
  path_join := mem_join;
  ec_message := to_string;
  tr_exists := fun p t => (inr (bool_decide (is_Some (mt_view t !! p))), t);
  tr_is_directory := fun p t => (inr (bool_decide (mt_view t !! p = Some true)), t);
  tr_iterate := fun p t =>
    (if bool_decide (mt_view t !! p = Some true) then inr (mem_names p t, None) else inl 20, t);
  tr_absolute := fun p t => (inr p, t);
  tr_create_directory := fun p t =>
    match mt_view t !! p with
    | Some _ => (inr false, t)
    | None =>
        if bool_decide (mt_view t !! mem_parent p = Some true)
        then (inr true, MkMemTree (<[p := true]> (mt_view t)) (mt_durable t) (mt_fds t) (mt_next t))
        else (inl ENOENT, t)
    end;
  tr_open := fun p t =>
    if bool_decide (mt_view t !! p = Some true)
    then (inr (mt_next t), MkMemTree (mt_view t) (mt_durable t) (<[mt_next t := p]> (mt_fds t)) (mt_next t + 1))
    else (inl ENOENT, t);
  tr_fsync := fun fd t =>
    match mt_fds t !! fd with
    | Some p => (None, MkMemTree (mt_view t)
        (mt_durable t ∪ list_to_set (filter (fun q => mem_parent q = p) (elements (dom (mt_view t)))))
        (mt_fds t) (mt_next t))
    | None => (Some 9, t)
    end;
  tr_close := fun fd t =>
    (None, MkMemTree (mt_view t) (mt_durable t) (delete fd (mt_fds t)) (mt_next t))
|}.

#[export] Instance MemRootFsSpec : RootFsSpec.
Proof.
  constructor; cbn.
  - intros p t. split; [done|]. by intros b [= <-].
  - intros p t. split; [done|]. by intros b [= <-].
  - intros p t. split; [done|]. case_bool_decide; intros l e E; [|done]. injection E as <- <-. split.
    + intros n. apply mem_names_elem.
    + intros _ n Hn Hs. by apply mem_names_elem.
  - done.
  - intros p t. destruct (mt_view t !! p) eqn:E; [done|]. by case_bool_decide.
  - intros p t. case_bool_decide; (split; [done|]); [|done]. intros fd [= <-]. apply lookup_insert_eq.
  - intros fd p t E. rewrite E. cbn. split_and!; [done|apply union_subseteq_l|done|].
    intros _ q Hq Hp. apply elem_of_union_r, elem_of_list_to_set, list_elem_of_filter.
    split; [done|]. by apply elem_of_elements, elem_of_dom.
  - done.
  - intros p. unfold mem_parent. destruct (before_slash p) as [q|] eqn:E.
    + right. by apply before_slash_shorter.
    + destruct p; [by left|]. right. cbn. lia.
Qed.

(** ** Databases *)

Definition MemEnv : Type := gmap string (gset string * Db).

#[export] Instance MemRocksEnv : RocksEnv := {|
  env_t := MemEnv;
  env_view := fun e p => e !! p;
  db_families := mem_families;
  env_ListColumnFamilies := fun p e =>
    (match e !! p with Some (fams, _) => (mem_ok, elements fams) | None => (mem_io_error, []) end, e);
  env_Create := fun p e =>
    (inr match e !! p with
         | Some (fams, d) => MkMemDb d [] fams []
         | None => MkMemDb ∅ [] {["default"]} []
         end, e);
  env_CreateColumnFamily := fun n d =>
    (mem_ok, MkMemDb (mem d) (mem_faults d) ({[n]} ∪ mem_families d) (mem_uncertain d));
  env_DestroyHandle := fun _ d => (mem_ok, d);
  env_Open := fun p ns e =>
    (match e !! p with
     | Some (fams, d) =>
         if bool_decide (list_to_set ns = fams) then inr (Z.of_nat (length ns), MkMemDb d [] fams [])
         else inl mem_io_error
     | None => inl mem_io_error
     end, e);
  env_Close := fun p d e => <[p := (mem_families d, mem d)]> e
|}.

#[export] Instance MemRocksEnvSpec : RocksEnvSpec.
Proof.
  constructor; cbn.
  - intros p e. destruct (e !! p) as [[fams d]|] eqn:E; (split; [done|]); [|done]. intros _. exists d.
    by rewrite list_to_set_elements_L.
  - intros p e. intros ->. done.
  - done.
  - done.
  - intros p ns e. destruct (e !! p) as [[fams d]|] eqn:E; [|done]. case_bool_decide; [|done].
    split_and!; [done|done|]. by intros x [->|?%elem_of_nil].
  - intros p d e. exists (mem d). split; [by left|apply lookup_insert_eq].
Qed.

(** ** Two roots *)

Definition demo_tree (paths : list string) : MemTree :=
  MkMemTree (list_to_map ((fun p => (p, true)) <$> paths)) (list_to_set paths) ∅ 3.

(** The directory above the root is there. *)
Definition demo_new_root : RootW :=
  MkRootW (demo_tree ["/srv"]) (∅ : MemEnv) mem_dir (MkMemOs 1700000000000000000 7).

Definition demo_old_root : RootW :=
  MkRootW (demo_tree ["/srv"; "/srv/oe"; "/srv/oe/db"; "/srv/oe/objects"])
    ({["/srv/oe/db" := (known_families, cview demo_w3)]} : MemEnv)
    (st_fs (c_storage demo_w3)) (MkMemOs 1800000000000000000 7).

(** A directory with something else in it. *)
Definition demo_foreign_root : RootW :=
  MkRootW (demo_tree ["/srv"; "/srv/db"; "/srv/objects"; "/srv/www"]) (∅ : MemEnv)
    mem_dir (MkMemOs 1700000000000000000 7).

(** The second root is one a server can be started on. *)
Lemma demo_rooted : Rooted 1000 demo_a3 (sdir demo_sys) "/srv/oe" demo_old_root.
Proof.
  assert (Hdur : forall n, fs_durable (st_fs (c_storage demo_w3)) n).
  { intros n. cbn. assert (E : md_volatile (st_fs (c_storage demo_w3)) = ∅) by (vm_compute; reflexivity).
    rewrite E. apply not_elem_of_empty. }
  split_and!.
  - intros p [->| ->]; (split; [by exists true|]); by apply (bool_decide_unpack _); vm_compute.
  - by intros id _.
  - destruct demo3 as [Hr Hwf]. pose proof demo_sys_inv as [].
    exists known_families, (cview demo_w3), demo_a3. split_and!; [apply lookup_singleton_eq|done| |done|exact demo_budget].
    constructor; [done|done|by intros id _; apply Hdur|]. intros id n Hid Hn. split; [by apply (si_fresh id)|apply Hdur].
Qed.
