(* ===== verification/HandlerTheorems.v ===== *)
(** * Theorems: the request handlers

    Each handler against its specification on the abstract state, every way it can
    end included, and what a successful answer means.  A theorem with hypotheses
    is followed by a witness on the reference platform. *)

From S2P Require Import Prelude Status Encoding Tokens Proto Json Platform Keys World FileStore.
From S2P Require Import Files Storage Core Commands Model Reads Scan Spec SystemMessages Refine.
From S2P Require Import Handlers ChannelHandlers Invariant Queries Pages Startup Objects Services.
From S2P Require Import Effects Requests Concurrency Reference Demo.

Section HandlerTheorems.
Context {R : RocksDB} {P : Protobuf} {F : PosixDir} {H : Host}.
Context {RS : RocksDBSpec} {PS : ProtobufSpec} {HS : HostSpec} {FS : PosixDirSpec}.
Context (cfg : CoreConfig).

(** ** Publishing *)

(** C2. Publishing with a server-chosen sequence number implements its specification: it
    answers what the specification answers and the database then holds the specified state,
    with the commit announced; or it is refused before anything is written; or the storage
    failed, and then nothing or all of the change is stored and the server is closed. *)
Theorem publish_auto_seq_refines req context w a :
  fatal_error_triggered w = false -> repr (cview w) a -> WF a ->
  post_request_ok (pa_principal req) (pa_channel_id req) (pa_uuid req) (pa_payload req)
    (pa_object_keys req) ->
  let '(r, w') := PublishAutoSeq cfg req context w in
  Outcome cfg publish_rejection w a
    (spec_publish cfg (pa_principal req) (pa_token req) (pa_channel_id req) (pa_uuid req)
       (pa_recipients req) (pa_payload req) (pa_object_keys req) None (now_ms w) a) r w'.
Proof using PS RS HS. intros ????. by apply (PublishAutoSeq_outcome cfg). Qed.






(** What a successful answer says about the specification. *)
Lemma served {B} (m : RM CoreW B) Rej w a spec v w' :
  wp m (Outcome cfg Rej w a spec) w -> m w = (Ok v, w') ->
  exists a', spec = Ok (v, a') /\ repr (cview w') a' /\ latch w' = latch w.
Proof.
  unfold wp. intros Hout E. rewrite E in Hout.
  inversion Hout as [v' a' w1 Hs Hr _ Hl|e w1|s w1|s w1]; subst. by exists a'.
Qed.

(** C7. An acknowledged post is in the log: the sequence number returned is the one after the
    last, the message stored there is the one requested, stamped with the server's clock, and
    nothing else changed but that its uuid is now used. The poster holds a credential and may
    write to the channel, every recipient may receive there, and every object named is
    committed and named with its token. *)
Theorem publish_effect req context w a seq w' :
  fatal_error_triggered w = false -> repr (cview w) a -> WF a ->
  post_request_ok (pa_principal req) (pa_channel_id req) (pa_uuid req) (pa_payload req)
    (pa_object_keys req) ->
  PublishAutoSeq cfg req context w = (Ok seq, w') ->
  let m := MkEventMessage seq (pa_channel_id req) (pa_principal req) (pa_recipients req)
             (pa_payload req) (now_ms w) (pa_uuid req) (pa_object_keys req) in
  seq = a_max_seq a + 1 /\ repr (cview w') (a_append a m) /\ WF (a_append a m) /\
  a_uuids a !! pa_uuid req = None /\ 0 < pa_uuid req < a_next_uuid a /\
  (pa_principal req, pa_token req) ∈ a_tokens a /\
  (exists c, a_channels a !! pa_channel_id req = Some c /\ CanWrite c (pa_principal req) = true /\
     ValidateRecipients c (pa_recipients req) = Ok tt) /\
  (forall k, k ∈ pa_object_keys req ->
     exists o, a_committed a !! ok_object_id k = Some o /\ so_object_token o = ok_object_token k).
Proof using PS RS HS.
  intros Hav Hr Hwf Hreq E m. assert (Hu : is_u64 (pa_uuid req)) by apply Hreq.
  destruct (served _ _ _ _ _ _ _ (PublishAutoSeq_outcome cfg req context w a Hav Hr Hwf Hreq) E)
    as (a' & Hs & Hr' & _).
  pose proof (WF_publish cfg _ _ _ _ _ _ _ _ _ _ _ _ Hwf Hu Hs) as Hwf'.
  destruct (spec_publish_ok cfg _ _ _ _ _ _ _ _ _ _ _ _ Hs)
    as (_ & _ & Hcred & _ & Huuid & _ & _ & Hseq & _ & Hpost).
  apply spec_post_ok in Hpost as (c & Hc & _ & Hcan & Hrec & Hcap & Hu0 & Hs0 & ->).
  apply spec_available_uuid_ok in Huuid as (_ & Hlt & Hnone).
  pose proof (wf_max_seq _ Hwf) as Hmax. unfold is_u64 in Hmax, Hu. cbn in Hu0, Hs0.
  split_and!; try done; try lia.
  - rewrite Hseq in Hs0 |- *. rewrite u64_succ_zero in Hs0 by done. apply u64_add_small. lia.
  - by exists c.
  - intros k Hk. rewrite forallb_forall in Hcap. apply list_elem_of_In in Hk. apply Hcap in Hk.
    unfold holds_capability in Hk. destruct (a_committed a !! _) as [o|]; [|done].
    exists o. split; [done|]. by apply bool_decide_eq_true in Hk.
Qed.

(** ** Channels *)

Lemma mutation_ok a c payload ts a' :
  spec_mutation a c payload ts = Ok a' ->
  a' = mutated a c (system_message a c payload ts) /\ a_next_uuid a <> 0.
Proof.
  unfold spec_mutation, mutated. cbn [em_uuid em_seq system_message].
  destruct (Z.eqb_spec (a_next_uuid a) 0); cbn [orb]; [done|].
  destruct (u64_add (a_max_seq a) 1 =? 0); [done|].
  destruct (u64_add (a_next_uuid a) 1 =? 0); [done|]. by intros [= <-].
Qed.

(** C25. Creating a channel implements its specification, and a channel that was created has a
    fresh id, its creator and the requested members once each, and is announced in the log by
    a system message that carries its description. *)
Theorem create_channel_refines req w a :
  fatal_error_triggered w = false -> repr (cview w) a -> WF a -> create_request_ok req ->
  let '(r, w') := CreateChannel cfg req w in
  Outcome cfg serialize_rejection w a (spec_create_channel req (now_ms w) a) r w' /\
  forall c, r = Ok c ->
    a_channels a !! ci_channel_id c = None /\ NoDup (ci_members c) /\
    (forall p, p ∈ ci_members c <-> p = cr_principal req \/ p ∈ cr_members req) /\
    exists a' m, repr (cview w') a' /\ a_log a' = a_log a ++ [m] /\
      a_channels a' = <[ci_channel_id c := c]> (a_channels a) /\
      em_channel_id m = ci_channel_id c /\ em_principal m = 0 /\
      read_struct (em_payload m) = Some (channel_initialized_struct c).
Proof using PS RS HS.
  intros Hav Hr Hwf Hreq. pose proof (CreateChannel_outcome cfg req w a Hav Hr Hwf Hreq) as Hout.
  unfold wp in Hout. destruct (CreateChannel cfg req w) as [r w'] eqn:E. split; [done|].
  intros c ->. destruct (served _ _ _ _ _ _ _ (CreateChannel_outcome cfg req w a Hav Hr Hwf Hreq) E)
    as (a' & Hs & Hr' & _). clear Hout.
  revert Hs. unfold spec_create_channel. destruct (invalid_channel_parameters req) eqn:Einv; [done|].
  intros ([] & _ & ([] & _ & Hs)%rbind_ok)%rbind_ok. cbv zeta in Hs.
  destruct (kMaxChannelMembers <? _); [done|].
  apply rbind_ok in Hs as (a1 & Hmut & [= <- <-]). apply mutation_ok in Hmut as [-> _].
  set (c := created_channel req (a_next_channel a)) in *.
  pose proof (created_channel_values req (a_next_channel a) Hreq Einv) as ((T1 & T2 & T3) & Hcr & Hne & Hm).
  split_and!.
  - destruct (a_channels a !! ci_channel_id c) eqn:Ec; [|done].
    destruct (wf_channels _ Hwf _ _ Ec) as [_ ?]. cbn in *. lia.
  - apply add_new_members_nodup; [|apply NoDup_singleton].
    intros x ->%list_elem_of_singleton. by apply elem_of_singleton.
  - intros p. apply add_new_members_elem.
  - eexists _, (system_message a c (ChannelInitializedPayload c) (now_ms w)).
    split; [exact Hr'|]. split_and!; try done.
    cbn [em_payload system_message]. by apply read_ChannelInitializedPayload.
Qed.

(** C26. Adding a member implements its specification: only the channel's creator can do it.
    Afterwards the channel has exactly one member more, nothing else about it changed, and
    the log announces the new member. *)
Theorem add_member_refines req w a :
  fatal_error_triggered w = false -> repr (cview w) a -> WF a -> member_request_ok req ->
  let '(r, w') := AddMember cfg req w in
  Outcome cfg serialize_rejection w a (spec_add_member req (now_ms w) a) r w' /\
  (r = Ok tt -> exists c c' a' m,
     a_channels a !! mr_channel_id req = Some c /\ creator c = mr_principal req /\
     (mr_principal req, mr_token req) ∈ a_tokens a /\ (mr_target_principal req ∉ ci_members c) /\
     repr (cview w') a' /\ a_log a' = a_log a ++ [m] /\
     c' = with_members c (ci_members c ++ [mr_target_principal req]) /\
     a_channels a' = <[mr_channel_id req := c']> (a_channels a) /\
     em_channel_id m = mr_channel_id req /\
     read_struct (em_payload m) =
       Some (member_changed_struct "system.member_added" (mr_target_principal req))).
Proof using PS RS HS.
  intros Hav Hr Hwf Hreq. pose proof (AddMember_outcome cfg req w a Hav Hr Hwf Hreq) as Hout.
  unfold wp in Hout. destruct (AddMember cfg req w) as [r w'] eqn:E. split; [done|].
  intros ->. destruct (served _ _ _ _ _ _ _ (AddMember_outcome cfg req w a Hav Hr Hwf Hreq) E)
    as (a' & Hs & Hr' & _). clear Hout.
  revert Hs. unfold spec_add_member. intros (c & Hc & Hs)%rbind_ok.
  apply spec_owned_channel_ok in Hc as (Hc & Hcr & _ & Ht & _ & Hcred).
  destruct (IsMember c _) eqn:Em; [done|]. destruct (kMaxChannelMembers <=? _); [done|].
  apply rbind_ok in Hs as (a1 & Hmut & [= <-]). apply mutation_ok in Hmut as [-> _].
  destruct (wf_channel_id a _ _ Hwf Hc) as [Hid _].
  assert (Hm : mr_target_principal req ∉ ci_members c).
  { unfold IsMember, Contains in Em. by apply bool_decide_eq_false in Em. }
  destruct Hreq as (_ & _ & Hu). unfold is_u64 in Hu.
  eexists c, _, _, (system_message _ _ _ _). split_and!; [done..|exact Hr'|done|done| |done|].
  - cbn. by rewrite Hid.
  - cbn [em_payload system_message]. apply read_MemberChangedPayload; [by left|lia].
Qed.

(** C27. Removing a member implements its specification: only the channel's creator can do it,
    and never to the creator. Afterwards the member is gone and all others remain; removing
    somebody who is not a member changes nothing. *)
Theorem remove_member_refines req w a :
  fatal_error_triggered w = false -> repr (cview w) a -> WF a -> member_request_ok req ->
  let '(r, w') := RemoveMember cfg req w in
  Outcome cfg serialize_rejection w a (spec_remove_member req (now_ms w) a) r w' /\
  (r = Ok tt -> exists c c' a',
     a_channels a !! mr_channel_id req = Some c /\ creator c = mr_principal req /\
     mr_target_principal req <> creator c /\ repr (cview w') a' /\
     a_channels a' !! mr_channel_id req = Some c' /\ creator c' ∈ ci_members c' /\
     (forall p, p ∈ ci_members c' <-> p ∈ ci_members c /\ p <> mr_target_principal req) /\
     (mr_target_principal req ∉ ci_members c -> a' = a)).
Proof using PS RS HS.
  intros Hav Hr Hwf Hreq. pose proof (RemoveMember_outcome cfg req w a Hav Hr Hwf Hreq) as Hout.
  unfold wp in Hout. destruct (RemoveMember cfg req w) as [r w'] eqn:E. split; [done|].
  intros ->. destruct (served _ _ _ _ _ _ _ (RemoveMember_outcome cfg req w a Hav Hr Hwf Hreq) E)
    as (a' & Hs & Hr' & _). clear Hout.
  revert Hs. unfold spec_remove_member. intros (c & Hc & Hs)%rbind_ok.
  apply spec_owned_channel_ok in Hc as (Hc & Hcr & _ & Ht & _ & Hcred).
  destruct (Z.eqb_spec (mr_target_principal req) (creator c)) as [|Hne]; [done|].
  destruct (wf_members a _ _ Hwf Hc) as (_ & Hcin & Hnd & _).
  destruct (wf_channel_id a _ _ Hwf Hc) as [Hid _].
  unfold Contains in Hs. case_bool_decide as Hin; cbn [negb] in Hs.
  - apply rbind_ok in Hs as (a1 & Hmut & [= <-]). apply mutation_ok in Hmut as [-> _].
    eexists c, _, _. split_and!; [done..|exact Hr'| | | |done].
    + cbn. rewrite Hid. apply lookup_insert_eq.
    + cbn. by apply remove_first_keeps.
    + intros p. cbn. split.
      * intros Hp. split; [by eapply elem_of_sublist, remove_first_sublist|].
        intros ->. by eapply remove_first_gone.
      * intros [Hp Hpne]. by apply remove_first_keeps.
  - injection Hs as <-. exists c, c, a. split_and!; [done..| |done].
    intros p. split; [|by intros [? _]]. intros Hp. split; [done|]. by intros ->.
Qed.

(** ** Uuids and credentials *)

(** Allocating uuids implements its specification: between 1 and 1024 of them, consecutive,
    distinct, none used by a logged message, and the counter has moved past all of them. *)
Theorem allocate_uuids_refines count w a :
  fatal_error_triggered w = false -> repr (cview w) a -> WF a -> Room a -> 0 <= count ->
  let '(r, w') := AllocateUuids cfg count w in
  Outcome cfg (fun _ => False) w a (spec_allocate count a) r w' /\
  forall uuids, r = Ok uuids ->
    1 <= count <= 1024 /\ uuids = seqZ (a_next_uuid a) count /\ NoDup uuids /\
    (forall u, u ∈ uuids -> a_uuids a !! u = None) /\
    repr (cview w') (a_set_next_uuid a (a_next_uuid a + count)).
Proof using RS.
  intros Hav Hr Hwf [Hroom _] Hc. pose proof (AllocateUuids_outcome cfg count w a Hav Hr Hwf) as Hout.
  unfold wp in Hout. destruct (AllocateUuids cfg count w) as [r w'] eqn:E. split; [done|].
  intros uuids ->.
  destruct (served _ _ _ _ _ _ _ (AllocateUuids_outcome cfg count w a Hav Hr Hwf) E) as (a' & Hs & Hr' & _).
  pose proof (wf_next_uuid _ Hwf). revert Hs. unfold spec_allocate, kMaxUuidBatch in *.
  destruct (Z.eqb_spec count 0); [done|]. destruct (Z.ltb_spec 1024 count); cbn [orb]; [done|].
  rewrite u64_add_small by lia. rewrite (proj2 (Z.eqb_neq _ _)) by lia. intros [= <- <-].
  assert (E' : (fun i => u64_add (a_next_uuid a) i) <$> seqZ 0 count = seqZ (a_next_uuid a) count).
  { replace (seqZ (a_next_uuid a) count) with (seqZ (a_next_uuid a + 0) count) by (by rewrite Z.add_0_r).
    rewrite <- fmap_add_seqZ.
    apply list_fmap_ext. intros i x [-> Hi]%lookup_seqZ. rewrite u64_add_small; lia. }
  rewrite E'. split_and!; [lia..|done|apply NoDup_seqZ| |done].
  intros u [Hu _]%elem_of_seqZ. by apply wf_uuid_fresh.
Qed.

(** A credential authenticates. *)
Lemma authenticated a principal token :
  WF a -> (principal, token) ∈ a_tokens a -> spec_authenticate a principal token = Ok tt.
Proof.
  intros Hwf Hin. destruct (wf_tokens _ Hwf _ _ Hin) as [Hp Ht]. unfold spec_authenticate.
  rewrite (proj2 (Z.eqb_neq _ _)) by lia. destruct token; [done|]. cbn [str_empty].
  by rewrite bool_decide_eq_true_2.
Qed.

(** A handler run on [w] gives this answer and changes nothing, or reports a storage fault. *)
Definition answers_at {B} (w : CoreW) (m : RM CoreW B) (r : Result B) : Prop :=
  let '(x, w') := m w in
  (x = r /\ unchanged w w') \/ exists s, x = Err s /\ fault cfg w s w' /\ c_contents w' = c_contents w.

(** The credentials as the code sees them: on [w] the pairs of [tokens] are served and all
    others are refused. *)
Definition credentials_at (w : CoreW) (tokens : gset (Z * string)) (max_seq : Z) : Prop :=
  forall p k, is_u64 p ->
    ((p, k) ∈ tokens -> answers_at w (GetStatus p k) (Ok max_seq)) /\
    (((p, k) ∉ tokens) -> exists s, answers_at w (GetStatus p k) (Err s) /\
       s = if p =? 0 then mkStatus INVALID_ARGUMENT "principal must be greater than 0"
           else if str_empty k then mkStatus UNAUTHENTICATED "token is required"
           else mkStatus UNAUTHENTICATED "invalid token").

Lemma credentials_checked w a :
  fatal_error_triggered w = false -> repr (cview w) a -> WF a ->
  credentials_at w (a_tokens a) (a_max_seq a).
Proof using RS HS.
  intros Hav Hr Hwf p k Hp. pose proof (GetStatus_answers cfg a p k Hwf Hp w Hav Hr) as Hans.
  change (answers_at w (GetStatus p k) (spec_get_status a p k)) in Hans.
  unfold spec_get_status in Hans. split.
  - intros Hin. by rewrite (authenticated a p k Hwf Hin) in Hans.
  - intros Hno. eexists. split; [|done]. revert Hans. unfold spec_authenticate.
    destruct (p =? 0); [done|]. destruct (str_empty k); [done|]. by rewrite bool_decide_eq_false_2.
Qed.

(** C28. The life of a credential, as the credential check of the server sees it before and
    after. When a credential is added, exactly that pair of principal and token is accepted
    in addition; when one is deleted, exactly it is refused afterwards; every other pair is
    accepted or refused as before. Each check is a run of the code, which may also report
    a storage fault, and the log is not touched. *)
Theorem credential_life principal token w a :
  fatal_error_triggered w = false -> repr (cview w) a -> WF a -> is_u64 principal ->
  credentials_at w (a_tokens a) (a_max_seq a) /\
  (let '(r, w') := AddToken cfg principal w in
   forall t, r = Ok t -> principal <> 0 /\ t <> "" /\
     credentials_at w' ({[(principal, t)]} ∪ a_tokens a) (a_max_seq a)) /\
  (let '(r, w') := CoreDeleteToken cfg principal token w in
   r = Ok tt -> credentials_at w' (a_tokens a ∖ {[(principal, token)]}) (a_max_seq a)).
Proof using RS HS.
  intros Hav Hr Hwf Hu. split; [by apply credentials_checked|]. split.
  - pose proof (AddToken_outcome cfg principal w a Hav Hr Hwf Hu) as Hw. unfold wp in Hw.
    destruct (AddToken cfg principal w) as [r w']. intros t ->. destruct Hw as (bytes & Hlen & _ & Hout).
    inversion Hout as [v' a' w1 Hs Hr' _ Hl _ E1 E2| | |]; subst.
    assert (Hne : format_token bytes <> "") by (by apply token_nonempty).
    pose proof (WF_add_token _ _ _ _ _ Hwf Hu Hne Hs) as Hwf'. revert Hs. unfold spec_add_token.
    destruct (Z.eqb_spec principal 0); [done|]. intros [= <- <-]. split_and!; [done..|].
    apply (credentials_checked w' _) in Hr'; [done|unfold latch in Hl; congruence|done].
  - pose proof (DeleteToken_outcome cfg principal token w a Hav Hr Hwf Hu) as Hw. unfold wp in Hw.
    destruct (CoreDeleteToken cfg principal token w) as [r w']. intros ->.
    inversion Hw as [v' a' w1 Hs Hr' _ Hl _ E1 E2| | |]; subst.
    pose proof (WF_delete_token _ _ _ _ _ Hwf Hs) as Hwf'. revert Hs. unfold spec_delete_token.
    destruct (Z.eqb_spec principal 0); [done|]. destruct (str_empty token) eqn:Et; [done|].
    intros [= <-]. apply (credentials_checked w' _) in Hr'; [done|unfold latch in Hl; congruence|done].
Qed.

(** ** Reading the log *)

(** After an acknowledged post, asking for the sequence number of its uuid gives the number
    that was acknowledged: a client that lost the answer can find out that its post is in the
    log, and where. *)
Theorem publish_then_find req context w a seq w' :
  fatal_error_triggered w = false -> repr (cview w) a -> WF a ->
  post_request_ok (pa_principal req) (pa_channel_id req) (pa_uuid req) (pa_payload req)
    (pa_object_keys req) ->
  PublishAutoSeq cfg req context w = (Ok seq, w') ->
  let '(r, w'') := GetSeqByUuid (pa_uuid req) w' in
  (r = Ok seq /\ unchanged w' w'') \/
  exists s, r = Err s /\ fault cfg w' s w'' /\ c_contents w'' = c_contents w'.
Proof using PS RS HS.
  intros Hav Hr Hwf Hreq E. assert (Hu : is_u64 (pa_uuid req)) by apply Hreq.
  destruct (served _ _ _ _ _ _ _ (PublishAutoSeq_outcome cfg req context w a Hav Hr Hwf Hreq) E)
    as (a' & Hs & Hr' & Hl).
  pose proof (WF_publish cfg _ _ _ _ _ _ _ _ _ _ _ _ Hwf Hu Hs) as Hwf'.
  destruct (spec_publish_ok cfg _ _ _ _ _ _ _ _ _ _ _ _ Hs) as (_ & _ & _ & _ & _ & _ & _ & _ & _ & Hpost).
  apply spec_post_ok in Hpost as (c & _ & _ & _ & _ & _ & _ & _ & ->).
  pose proof (GetSeqByUuid_answers cfg _ (pa_uuid req) Hwf' Hu w') as Hq. unfold wp in Hq.
  destruct (GetSeqByUuid (pa_uuid req) w') as [r w'']. unfold spec_seq_by_uuid in Hq.
  cbn [a_append a_uuids em_uuid em_seq] in Hq. rewrite lookup_insert_eq in Hq.
  apply Hq; [|done]. unfold latch in Hl. congruence.
Qed.

(** C20. A page of the log is exact. The handler answers what the specification answers; and of
    a page that starts in the log, the messages are all those of the range covered that the
    reader may see and asked for, in order; the range is not empty, so that the next request
    makes progress; the page has at most the requested number of messages, and its size stays
    within the soft limit unless it is a single message. *)
Theorem fetch_exact a req :
  WF a -> a_max_seq a < two64 - 1 -> fetch_request_ok req -> 0 <= fr_limit req ->
  Answers cfg a (Fetch cfg req) (spec_fetch cfg a req) /\
  forall page, spec_fetch cfg a req = Ok page -> fr_from_seq req <= a_max_seq a ->
    0 < max_scan_records cfg -> 0 <= response_soft_limit_bytes cfg < two64 - 2 ^ 31 ->
    let vis := visible a (fr_principal req) (fr_only_my_recipient req) (list_to_set (fr_channels req)) in
    fs_messages page = List.filter vis (log_range a (fr_from_seq req) (fs_next_seq page)) /\
    fr_from_seq req < fs_next_seq page <= a_max_seq a + 1 /\ fs_last_seq page = a_max_seq a /\
    Z.of_nat (length (fs_messages page)) <= fr_limit req /\ within_budget cfg (fs_messages page) /\
    (forall m, m ∈ fs_messages page -> readable a (fr_principal req) (em_channel_id m) = true).
Proof using PS RS HS.
  intros Hwf Hmax Hreq Hlim. split; [by apply Fetch_answers|].
  intros page. unfold spec_fetch.
  destruct (Z.eqb_spec (fr_limit req) 0) as [|Hl0]; [done|].
  destruct (Z.ltb_spec 1000 (fr_limit req)) as [|Hl1]; [done|]. cbn [orb].
  intros ([] & _ & ([] & _ & [= <-])%rbind_ok)%rbind_ok Hfrom Hscan Hsoft. cbv zeta.
  set (vis := visible _ _ _ _).
  assert (0 <= fr_from_seq req) by apply Hreq.
  pose proof (log_page_ok cfg a (fr_from_seq req) (fr_limit req) vis Hwf ltac:(lia) ltac:(lia))
    as (Hm & Hn & Hlast & Hlen & Hprog & _).
  split_and!; [done|by apply Hprog|lia|done|done| |].
  - unfold log_page. rewrite (proj2 (Z.ltb_ge _ _)) by lia. by apply page_scan_budget.
  - intros m Hin. rewrite Hm in Hin. apply list_elem_of_In, filter_In in Hin as [_ Hv].
    unfold vis, visible in Hv. by apply andb_true_iff in Hv as [[_ ?]%andb_true_iff _].
Qed.

(** A reader that follows [next_seq] until it has passed [last_seq]. *)
Fixpoint fetch_all (fuel : nat) (req : FetchRequest) (from : Z) : RM CoreW (list EventMessage) :=
  match fuel with
  | O => ret (Err out_of_fuel)
  | S fuel =>
      let? page := Fetch cfg {| fr_principal := fr_principal req; fr_token := fr_token req;
                                fr_from_seq := from; fr_limit := fr_limit req;
                                fr_only_my_recipient := fr_only_my_recipient req;
                                fr_channels := fr_channels req |} in
      if fs_last_seq page <? fs_next_seq page then ok (fs_messages page)
      else let? rest := fetch_all fuel req (fs_next_seq page) in ok (fs_messages page ++ rest)
  end.

Lemma Answers_bind {A B} a (m : RM CoreW A) (k : A -> RM CoreW B) r k' :
  Answers cfg a m r -> (forall v, r = Ok v -> Answers cfg a (k v) (k' v)) ->
  Answers cfg a (bind_ok m k) (rbind r k').
Proof.
  intros Hm Hk w Hav Hr. unfold bind_ok. apply wp_bind. eapply wp_mono; [|by apply Hm].
  intros x w1 [[-> Hu]|(s & -> & Hf & Hv)]; [|apply wp_ret; right; by exists s].
  destruct r as [v|e]; cbn; [|apply wp_ret; by left].
  pose proof Hu as (Hv1 & _ & _ & Hl). unfold latch in Hl.
  eapply wp_mono; [|apply Hk; [done|congruence|by injection Hv1 as -> _]].
  intros y w2 [[-> Hu2]|(s & -> & Hf & Hv)]; [left|right].
  - split; [done|by etransitivity].
  - exists s. split_and!; [done|by eapply unchanged_fault|congruence].
Qed.

(** C21. Paging is complete: a reader with a valid credential that follows the pages collects,
    whatever the page limits, exactly the messages from its starting point on that it may see
    and asked for, in order and without repetition, after at most as many requests as there
    are messages. *)
Theorem fetch_all_complete a req fuel :
  WF a -> a_max_seq a < two64 - 1 -> fetch_request_ok req -> 1 <= fr_limit req <= 1000 ->
  0 < max_scan_records cfg -> fr_from_seq req <= a_max_seq a ->
  (Z.to_nat (a_max_seq a - fr_from_seq req) < fuel)%nat ->
  spec_authenticate a (fr_principal req) (fr_token req) = Ok tt ->
  spec_readable_channels a (fr_principal req) (fr_channels req) = Ok tt ->
  Answers cfg a (fetch_all fuel req (fr_from_seq req))
    (Ok (List.filter (visible a (fr_principal req) (fr_only_my_recipient req)
                        (list_to_set (fr_channels req)))
           (drop (Z.to_nat (fr_from_seq req)) (a_log a)))).
Proof using PS RS HS.
  intros Hwf Hmax (Hp & Hf0 & Hch) Hlim Hscan Hfrom Hfuel Hauth Hread.
  set (vis := visible _ _ _ _).
  pose proof (follow_pages_ok cfg fuel a (fr_from_seq req) (fr_limit req) vis Hwf ltac:(lia) ltac:(lia)
    Hscan Hfuel) as Hall.
  set (all := List.filter vis _) in *. clearbody all. clear Hfuel.
  assert (Hpage : forall from, 0 <= from -> Answers cfg a
    (Fetch cfg {| fr_principal := fr_principal req; fr_token := fr_token req; fr_from_seq := from;
       fr_limit := fr_limit req; fr_only_my_recipient := fr_only_my_recipient req;
       fr_channels := fr_channels req |})
    (Ok (log_page cfg a from (fr_limit req) vis))).
  { intros from H0. match goal with |- Answers _ _ (Fetch _ ?q) _ =>
      pose proof (Fetch_answers cfg a q Hwf Hmax ltac:(by split_and!)) as HF end.
    unfold spec_fetch in HF. cbn in HF. rewrite Hauth, Hread in HF. cbn in HF.
    rewrite (proj2 (Z.eqb_neq _ _)), (proj2 (Z.ltb_ge _ _)) in HF by lia. exact HF. }
  generalize dependent (fr_from_seq req). intros from H0 Hle. revert from H0 Hle all.
  induction fuel as [|fuel IH]; intros from H0 Hle all Hall; [done|].
  cbn [follow_pages] in Hall. cbn [fetch_all].
  pose proof (log_page_ok cfg a from (fr_limit req) vis Hwf ltac:(lia) ltac:(lia)) as (_ & Hn & Hlast & _).
  apply (Answers_bind a _ _ (Ok (log_page cfg a from (fr_limit req) vis)) (fun _ => Ok all)); [by apply Hpage|].
  intros page [= <-]. destruct (Z.ltb_spec (fs_last_seq (log_page cfg a from (fr_limit req) vis))
    (fs_next_seq (log_page cfg a from (fr_limit req) vis))) as [Hlt|Hge].
  { injection Hall as <-. apply Answers_ret. }
  apply fmap_Some in Hall as (rest & Hrest & ->).
  apply (Answers_bind a _ _ (Ok rest) (fun rest => Ok (_ ++ rest))); [apply IH; [lia|lia|done]|].
  intros rest' [= <-]. apply Answers_ret.
Qed.

(** The administrator's listing returns every message of the range it covers, private
    channels included, under the same limits. *)
Theorem list_messages_exact a from limit :
  WF a -> a_max_seq a < two64 - 1 -> 0 <= from <= a_max_seq a -> 1 <= limit <= 1000 ->
  exists page, Answers cfg a (ListMessages cfg from limit) (Ok page) /\
    fs_messages page = log_range a from (fs_next_seq page) /\
    (0 < max_scan_records cfg -> from < fs_next_seq page) /\ fs_next_seq page <= a_max_seq a + 1 /\
    Z.of_nat (length (fs_messages page)) <= limit.
Proof using PS RS HS.
  intros Hwf Hmax Hfrom Hlim. exists (log_page cfg a from limit (fun _ => true)).
  pose proof (ListMessages_answers cfg a from limit Hwf Hmax ltac:(lia)) as HA.
  unfold spec_list_messages in HA. rewrite (proj2 (Z.eqb_neq _ _)), (proj2 (Z.ltb_ge _ _)) in HA by lia.
  pose proof (log_page_ok cfg a from limit (fun _ => true) Hwf Hfrom ltac:(lia)) as (Hm & Hn & _ & Hlen & Hprog & _).
  split_and!; [done| |done|lia|done].
  rewrite Hm at 1. generalize (log_range a from (fs_next_seq (log_page cfg a from limit (fun _ => true)))).
  intros l. induction l as [|m l IH]; [done|]. cbn. by rewrite IH.
Qed.

(** ** Channels and objects *)

Lemma channel_ids_sorted a filter principal :
  WF a -> StronglySorted Z.lt
    (ci_channel_id <$> List.filter (listed filter principal) (sorted_entries (a_channels a)).*2).
Proof.
  intros Hwf. assert (Hl : forall i c, (i, c) ∈ sorted_entries (a_channels a) -> ci_channel_id c = i).
  { intros i c E%sorted_entries_elem. by destruct (wf_channel_id a _ _ Hwf E). }
  pose proof (sorted_entries_strict (a_channels a)) as Hs. revert Hl Hs.
  generalize (sorted_entries (a_channels a)). intros l Hl Hs.
  induction Hs as [|[i c] l _ IH Hx]; cbn; [constructor|].
  specialize (IH ltac:(intros; apply Hl; by right)).
  destruct (listed filter principal c); [|done]. cbn. constructor; [done|].
  apply Forall_forall. intros n (c' & -> & Hc')%list_elem_of_fmap.
  apply list_elem_of_In, filter_In in Hc' as [([j c''] & -> & Hj)%list_elem_of_In%list_elem_of_fmap _].
  cbn. rewrite (Hl i c) by (by left). rewrite (Hl j c'') by (by right).
  rewrite Forall_forall in Hx. by apply (Hx (j, c'')).
Qed.

Lemma list_channels_members a principal filter :
  WF a -> ValidateFilter filter = Ok tt ->
  let cs := (if bool_decide (filter = CHANNEL_FILTER_ALL) then [SystemChannel] else []) ++
            List.filter (listed filter principal) (sorted_entries (a_channels a)).*2 in
  StronglySorted Z.lt (ci_channel_id <$> cs) /\
  forall c, c ∈ cs <->
    (filter = CHANNEL_FILTER_ALL /\ c = SystemChannel) \/
    (a_channels a !! ci_channel_id c = Some c /\ open_to c principal /\ selects filter principal c).
Proof.
  intros Hwf HF cs. subst cs.
  assert (Hin : forall c, c ∈ List.filter (listed filter principal) (sorted_entries (a_channels a)).*2 <->
    a_channels a !! ci_channel_id c = Some c /\ open_to c principal /\ selects filter principal c).
  { intros c. rewrite list_elem_of_In, filter_In, <- list_elem_of_In, list_elem_of_fmap.
    assert (Hs : a_channels a !! ci_channel_id c = Some c -> listed filter principal c = true <->
      open_to c principal /\ selects filter principal c).
    { intros E. apply listed_selects; [|done]. destruct (wf_channels _ Hwf _ _ E) as [_ ?]. lia. }
    split.
    - intros [([i c'] & -> & E%sorted_entries_elem) Hl]. cbn in *.
      destruct (wf_channel_id a _ _ Hwf E) as [<- _]. naive_solver.
    - intros [E Hl]. split; [|naive_solver]. exists (ci_channel_id c, c). split; [done|].
      by apply sorted_entries_elem. }
  pose proof (channel_ids_sorted a filter principal Hwf) as Hsort. split.
  - case_bool_decide; [|done]. cbn. constructor; [done|]. apply Forall_forall.
    intros n (c & -> & [E _]%Hin)%list_elem_of_fmap. destruct (wf_channels _ Hwf _ _ E) as [_ ?]. lia.
  - intros c. rewrite elem_of_app, Hin. case_bool_decide as Hall.
    + rewrite list_elem_of_singleton. naive_solver.
    + split; [intros [?%elem_of_nil|?]; [done|by right]|]. intros [[? _]|?]; [done|by right].
Qed.

(** A channel is shown only to a principal with a credential that may read it: anybody for
    the system channel and for public and protected ones, members for private ones. *)
Theorem get_channel_exact a principal token channel_id :
  WF a -> is_u64 principal -> is_u64 channel_id ->
  Answers cfg a (CoreGetChannel principal token channel_id)
    (spec_get_channel a principal token channel_id) /\
  forall c, spec_get_channel a principal token channel_id = Ok c ->
    (principal, token) ∈ a_tokens a /\ spec_channel a channel_id = Some c /\ CanRead c principal = true.
Proof using RS HS.
  intros Hwf Hp Hc. split; [by apply GetChannel_answers|]. intros c. unfold spec_get_channel.
  intros ([] & Ha & Hs)%rbind_ok. destruct (spec_channel a channel_id) as [c'|]; [|done].
  destruct (CanRead c' principal) eqn:E; [|done]. injection Hs as <-. split_and!; [|done..].
  unfold spec_authenticate in Ha. destruct (principal =? 0); [done|]. destruct (str_empty token); [done|].
  by case_bool_decide.
Qed.

(** C31. Listing channels is exact. An unknown filter is refused, and so is a caller without a
    credential. Otherwise the answer holds, in the order of their ids and once each, exactly
    the stored channels that the caller may read (public and protected ones, and those it is
    a member of) and that the filter selects (all, those it is a member of, those it
    created), and the system channel when all are asked for. *)
Theorem list_channels_exact a principal token filter :
  WF a -> is_u64 principal ->
  exists r, Answers cfg a (CoreListChannels principal token filter) r /\
  (forall n, filter = ChannelFilter_other n -> exists s, r = Err s /\ code s = INVALID_ARGUMENT) /\
  (~ (exists n, filter = ChannelFilter_other n) -> ((principal, token) ∉ a_tokens a) ->
     exists s, r = Err s /\ code s ∈ [INVALID_ARGUMENT; UNAUTHENTICATED]) /\
  (~ (exists n, filter = ChannelFilter_other n) -> (principal, token) ∈ a_tokens a ->
     exists cs, r = Ok cs /\ StronglySorted Z.lt (ci_channel_id <$> cs) /\
       forall c, c ∈ cs <->
         (filter = CHANNEL_FILTER_ALL /\ c = SystemChannel) \/
         (a_channels a !! ci_channel_id c = Some c /\ open_to c principal /\
          selects filter principal c)).
Proof using RS HS.
  intros Hwf Hp. exists (spec_list_channels a principal token filter).
  split; [by apply ListChannels_answers|]. unfold spec_list_channels. split; [|split].
  - intros n ->. by eexists.
  - intros Hf Hno. assert (ValidateFilter filter = Ok tt) as -> by (destruct filter; naive_solver).
    cbn [rbind]. unfold spec_authenticate. destruct (principal =? 0);
      [eexists; split; [reflexivity|apply list_elem_of_here]|].
    rewrite bool_decide_eq_false_2 by done.
    destruct (str_empty token); (eexists; split; [reflexivity|apply list_elem_of_further, list_elem_of_here]).
  - intros Hf Hin. assert (HF : ValidateFilter filter = Ok tt) by (destruct filter; naive_solver).
    rewrite HF, (authenticated a principal token) by done. cbn [rbind]. eexists. split; [done|].
    by apply list_channels_members.
Qed.

(** C30. An object is reached only with its token: metadata is returned exactly for a committed
    object named with the token it was given; an object that does not exist, one that is still
    being written and one named with another token get the same answer. *)
Theorem object_capability a id token :
  WF a -> is_u64 id ->
  Answers cfg a (GetObjectMetadata cfg id token)
    (rlet o := spec_object a id token in Ok (metadata_of o)) /\
  (forall o, spec_object a id token = Ok o <->
     a_committed a !! id = Some o /\ so_object_token o = token) /\
  (id <> 0 -> token <> "" ->
   ~ (exists o, a_committed a !! id = Some o /\ so_object_token o = token) ->
   spec_object a id token = Err (mkStatus NOT_FOUND "object capability not found")).
Proof using RS HS.
  intros Hwf Hid. split; [by apply GetObjectMetadata_answers|]. split.
  - intros o. split; [by intros (? & ? & _)%spec_object_ok|]. intros [E Ht].
    destruct (wf_committed _ Hwf _ _ E) as [(_ & Htok & _) Hpos]. unfold spec_object.
    apply IsBase64UrlToken_nonempty in Htok. rewrite Ht in Htok.
    rewrite (proj2 (Z.eqb_neq _ _)), Htok, E by lia. cbn. by rewrite bool_decide_eq_true_2.
  - intros H0 Ht Hno. unfold spec_object. rewrite (proj2 (Z.eqb_neq _ _)) by done.
    destruct token; [done|]. cbn. destruct (a_committed a !! id) as [o|] eqn:E; [|done].
    case_bool_decide; [|done]. destruct Hno. by exists o.
Qed.

(** Registering an object implements its specification: after the credential was checked
    the object gets a fresh id and a token made of 32 random bytes, and is recorded as being
    written; nobody can reach it yet. *)
Theorem register_object_refines req w a :
  fatal_error_triggered w = false -> repr (cview w) a -> WF a -> Room a -> write_request_ok req ->
  let '(r, w') := WriteObject_prepare cfg req w in
  (exists bytes, length bytes = 32%nat /\ Forall is_byte bytes /\
     Outcome cfg prepare_rejection w a (spec_prepare req (base64url bytes) a) r w') /\
  forall o, r = Ok o ->
    so_object_id o = a_next_object a /\ IsBase64UrlToken (so_object_token o) = true /\
    (wr_principal req, wr_token req) ∈ a_tokens a /\
    exists a', repr (cview w') a' /\ WF a' /\ a_preparing a' !! so_object_id o = Some o /\
      a_committed a' = a_committed a /\
      forall token, spec_object a' (so_object_id o) token <> Ok o.
Proof using PS RS HS.
  intros Hav Hr Hwf Hroom Hreq. pose proof (WriteObject_prepare_outcome cfg req w a Hav Hr Hwf Hreq) as Hw.
  unfold wp in Hw. destruct (WriteObject_prepare cfg req w) as [r w']. split; [done|].
  intros o ->. destruct Hw as (bytes & Hlen & Hb & Hout).
  inversion Hout as [v' a' w1 Hs Hr' _ _ _ E1 E2| | |]; subst.
  apply base64url_is_token in Hlen as Htok.
  destruct (spec_prepare_ok req _ a o a' Hreq Hwf Hroom Htok Hs) as (Hwf' & Ho & ->).
  assert (Hp : a_preparing (a_prepare a o) !! so_object_id o = Some o) by apply lookup_insert_eq.
  split_and!; [by subst o|by subst o| |].
  - revert Hs. unfold spec_prepare. destruct (wr_principal req =? 0); [done|].
    destruct (invalid_object_request req); [done|]. intros ([] & Ha & _)%rbind_ok.
    unfold spec_authenticate in Ha. destruct (wr_principal req =? 0); [done|].
    destruct (str_empty (wr_token req)); [done|]. by case_bool_decide.
  - exists (a_prepare a o). split_and!; [done|done|done|done|].
    intros token (Hc & _)%spec_object_ok. pose proof (wf_disjoint _ Hwf') as Hd.
    rewrite map_disjoint_spec in Hd. by eapply Hd.
Qed.

End HandlerTheorems.

(** ** Witnesses *)

Definition demo_post : PublishAutoSeqRequest :=
  {| pa_principal := 5; pa_token := demo_token; pa_channel_id := 1; pa_uuid := 2;
     pa_recipients := [6]; pa_payload := "hello"; pa_object_keys := [] |}.


Definition demo_member : MemberRequest :=
  {| mr_principal := 5; mr_token := demo_token; mr_channel_id := 1; mr_target_principal := 9 |}.

Definition demo_leave : MemberRequest :=
  {| mr_principal := 5; mr_token := demo_token; mr_channel_id := 1; mr_target_principal := 6 |}.

Definition demo_fetch : FetchRequest :=
  {| fr_principal := 5; fr_token := demo_token; fr_from_seq := 0; fr_limit := 1;
     fr_only_my_recipient := false; fr_channels := [] |}.

(** Closes the ground hypotheses of a witness. *)
Ltac ground :=
  match goal with
  | |- repr _ _ => exact (proj1 demo3)
  | |- WF _ => exact (proj2 demo3)
  | |- post_request_ok _ _ _ _ _ => split_and!; [split; [discriminate|reflexivity]..|reflexivity|constructor]
  | |- member_request_ok _ => split_and!; split; [discriminate|reflexivity|discriminate|reflexivity|discriminate|reflexivity]
  | |- create_request_ok _ => split_and!; [split; [discriminate|reflexivity]
      |repeat constructor; (discriminate || reflexivity)|reflexivity..]
  | |- fetch_request_ok _ => split_and!; [split; [discriminate|reflexivity]|discriminate|constructor]
  | |- is_u64 _ => split; [discriminate|reflexivity]
  | |- fatal_error_triggered _ = false => vm_compute; reflexivity
  | |- _ < _ => vm_compute; reflexivity
  | |- _ <= _ => vm_compute; discriminate
  | |- _ /\ _ => split; vm_compute; (reflexivity || discriminate)
  | |- (_ < _)%nat => vm_compute; lia
  | |- _ = _ => vm_compute; reflexivity
  end.

Lemma publish_auto_seq_refines_witness :
  (PublishAutoSeq demo_cfg demo_post None demo_w3).1 = Ok 2 /\
  let '(r, w') := PublishAutoSeq demo_cfg demo_post None demo_w3 in
  Outcome demo_cfg publish_rejection demo_w3 demo_a3
    (spec_publish demo_cfg 5 demo_token 1 2 [6] "hello" [] None (now_ms demo_w3) demo_a3) r w'.
Proof.
  split; [vm_compute; reflexivity|].
  apply (publish_auto_seq_refines demo_cfg demo_post None demo_w3 demo_a3); ground.
Defined.



Lemma publish_effect_witness :
  2 = a_max_seq demo_a3 + 1.
Proof.
  refine (proj1 (publish_effect demo_cfg demo_post None demo_w3 demo_a3 2
    (PublishAutoSeq demo_cfg demo_post None demo_w3).2 _ _ _ _ _)); [ground..|].
  apply run_eq. vm_compute. reflexivity.
Defined.

Lemma create_channel_refines_witness :
  let '(r, w') := CreateChannel demo_cfg demo_create demo_w3 in
  Outcome demo_cfg serialize_rejection demo_w3 demo_a3
    (spec_create_channel demo_create (now_ms demo_w3) demo_a3) r w'.
Proof.
  pose proof (create_channel_refines demo_cfg demo_create demo_w3 demo_a3 ltac:(vm_compute; reflexivity)
    (proj1 demo3) (proj2 demo3) ltac:(ground)) as Hw.
  destruct (CreateChannel demo_cfg demo_create demo_w3). apply Hw.
Defined.

Lemma add_member_refines_witness :
  let '(r, w') := AddMember demo_cfg demo_member demo_w3 in
  Outcome demo_cfg serialize_rejection demo_w3 demo_a3
    (spec_add_member demo_member (now_ms demo_w3) demo_a3) r w'.
Proof.
  pose proof (add_member_refines demo_cfg demo_member demo_w3 demo_a3 ltac:(vm_compute; reflexivity)
    (proj1 demo3) (proj2 demo3) ltac:(ground)) as Hw.
  destruct (AddMember demo_cfg demo_member demo_w3). apply Hw.
Defined.

Lemma remove_member_refines_witness :
  let '(r, w') := RemoveMember demo_cfg demo_leave demo_w3 in
  Outcome demo_cfg serialize_rejection demo_w3 demo_a3
    (spec_remove_member demo_leave (now_ms demo_w3) demo_a3) r w'.
Proof.
  pose proof (remove_member_refines demo_cfg demo_leave demo_w3 demo_a3 ltac:(vm_compute; reflexivity)
    (proj1 demo3) (proj2 demo3) ltac:(ground)) as Hw.
  destruct (RemoveMember demo_cfg demo_leave demo_w3). apply Hw.
Defined.

Lemma allocate_uuids_refines_witness :
  (AllocateUuids demo_cfg 2 demo_w3).1 = Ok [5; 6] /\
  let '(r, w') := AllocateUuids demo_cfg 2 demo_w3 in
  Outcome demo_cfg (fun _ => False) demo_w3 demo_a3 (spec_allocate 2 demo_a3) r w'.
Proof.
  split; [vm_compute; reflexivity|].
  pose proof (allocate_uuids_refines demo_cfg 2 demo_w3 demo_a3 ltac:(vm_compute; reflexivity)
    (proj1 demo3) (proj2 demo3) ltac:(split_and!; vm_compute; reflexivity) ltac:(ground)) as Hw.
  destruct (AllocateUuids demo_cfg 2 demo_w3). apply Hw.
Defined.

Lemma credential_life_witness :
  (AddToken demo_cfg 9 demo_w3).1 = Ok (format_token (seqZ 8 16)) /\
  answers_at demo_cfg (AddToken demo_cfg 9 demo_w3).2 (GetStatus 9 (format_token (seqZ 8 16))) (Ok 1) /\
  (CoreDeleteToken demo_cfg 5 demo_token demo_w3).1 = Ok tt /\
  answers_at demo_cfg (CoreDeleteToken demo_cfg 5 demo_token demo_w3).2 (GetStatus 5 demo_token)
    (Err (mkStatus UNAUTHENTICATED "invalid token")).
Proof.
  assert (Ea : (AddToken demo_cfg 9 demo_w3).1 = Ok (format_token (seqZ 8 16))) by (vm_compute; reflexivity).
  assert (Ed : (CoreDeleteToken demo_cfg 5 demo_token demo_w3).1 = Ok tt) by (vm_compute; reflexivity).
  assert (Em : a_max_seq demo_a3 = 1) by (vm_compute; reflexivity).
  split_and!; [exact Ea| |exact Ed|].
  - destruct (credential_life demo_cfg 9 "" demo_w3 demo_a3 ltac:(vm_compute; reflexivity)
      (proj1 demo3) (proj2 demo3) ltac:(ground)) as (_ & Hw & _).
    pose proof (run_split (AddToken demo_cfg 9 demo_w3) (fun r w' => forall t, r = Ok t -> 9 <> 0 /\ t <> "" /\
      credentials_at demo_cfg w' ({[(9, t)]} ∪ a_tokens demo_a3) (a_max_seq demo_a3)) Hw) as Hw'.
    destruct (Hw' _ Ea) as (_ & _ & Hc). rewrite Em in Hc.
    destruct (Hc 9 (format_token (seqZ 8 16))) as [Hyes _]; [split; [discriminate|reflexivity]|].
    exact (Hyes (proj2 (elem_of_union _ _ _) (or_introl (proj2 (elem_of_singleton _ _) eq_refl)))).
  - destruct (credential_life demo_cfg 5 demo_token demo_w3 demo_a3 ltac:(vm_compute; reflexivity)
      (proj1 demo3) (proj2 demo3) ltac:(ground)) as (_ & _ & Hw).
    pose proof (run_split (CoreDeleteToken demo_cfg 5 demo_token demo_w3) (fun r w' => r = Ok tt ->
      credentials_at demo_cfg w' (a_tokens demo_a3 ∖ {[(5, demo_token)]}) (a_max_seq demo_a3)) Hw) as Hw'.
    destruct (Hw' Ed 5 demo_token) as [_ Hno]; [split; [discriminate|reflexivity]|].
    destruct Hno as (s & Hs & ->); [|exact Hs].
    intros [_ Hno]%elem_of_difference. by apply Hno, elem_of_singleton.
Defined.

Lemma publish_then_find_witness :
  let '(r, w'') := GetSeqByUuid 2 (PublishAutoSeq demo_cfg demo_post None demo_w3).2 in
  (r = Ok 2 /\ unchanged (PublishAutoSeq demo_cfg demo_post None demo_w3).2 w'') \/
  exists s, r = Err s /\ fault demo_cfg (PublishAutoSeq demo_cfg demo_post None demo_w3).2 s w'' /\
    c_contents w'' = c_contents (PublishAutoSeq demo_cfg demo_post None demo_w3).2.
Proof.
  apply (publish_then_find demo_cfg demo_post None demo_w3 demo_a3); [ground..|].
  apply run_eq. vm_compute. reflexivity.
Defined.

Lemma fetch_exact_witness : Answers demo_cfg demo_a3 (Fetch demo_cfg demo_fetch) (spec_fetch demo_cfg demo_a3 demo_fetch).
Proof. apply (fetch_exact demo_cfg demo_a3 demo_fetch); ground. Defined.

Lemma fetch_all_complete_witness :
  Answers demo_cfg demo_a3 (fetch_all demo_cfg 3 demo_fetch 0) (Ok (a_log demo_a3)).
Proof.
  assert (E : a_log demo_a3 = List.filter (visible demo_a3 5 false (list_to_set [])) (drop 0 (a_log demo_a3)))
    by (vm_compute; reflexivity).
  rewrite E. apply (fetch_all_complete demo_cfg demo_a3 demo_fetch 3); ground.
Defined.

Lemma list_messages_exact_witness :
  exists page, Answers demo_cfg demo_a3 (ListMessages demo_cfg 1 10) (Ok page).
Proof.
  destruct (list_messages_exact demo_cfg demo_a3 1 10) as (page & HA & _); [ground..|]. by exists page.
Defined.

Lemma get_channel_exact_witness :
  exists c, spec_get_channel demo_a3 5 demo_token 1 = Ok c /\ CanRead c 5 = true.
Proof.
  eexists. split; [vm_compute; reflexivity|].
  eapply (get_channel_exact demo_cfg demo_a3 5 demo_token 1); [ground..|vm_compute; reflexivity].
Defined.

Lemma list_channels_exact_witness :
  (CoreListChannels 5 demo_token CHANNEL_FILTER_OWNED demo_w3).1 =
    Ok [MkChannelInfo 1 "news" VISIBILITY_PRIVATE "p1" "" (Some 5) [5; 6]] /\
  exists cs, Answers demo_cfg demo_a3 (CoreListChannels 5 demo_token CHANNEL_FILTER_OWNED) (Ok cs) /\
    forall c, c ∈ cs -> ci_creator c = Some 5.
Proof.
  split; [vm_compute; reflexivity|].
  destruct (list_channels_exact demo_cfg demo_a3 5 demo_token CHANNEL_FILTER_OWNED)
    as (r & HA & _ & _ & Hok); [ground..|].
  destruct Hok as (cs & -> & _ & Hcs); [by intros [n Hn]|by apply (bool_decide_unpack _); vm_compute|].
  exists cs. split; [done|]. intros c [[Hf _]|(_ & _ & Hsel)]%Hcs; [discriminate|exact Hsel].
Defined.

Lemma object_capability_witness :
  spec_object demo_a3 1 "guess" = Err (mkStatus NOT_FOUND "object capability not found").
Proof.
  apply (object_capability demo_cfg demo_a3 1 "guess"); [ground|ground|done|done|].
  intros (o & E & _). vm_compute in E. discriminate.
Defined.

Definition demo_object_request : WriteObjectRequest :=
  {| wr_principal := 5; wr_token := demo_token; wr_name := "n"; wr_type := "t"; wr_description := "";
     wr_data := "some data" |}.

Lemma register_object_refines_witness :
  (WriteObject_prepare demo_cfg demo_object_request demo_w3).1 =
    Ok (MkStoredObject 1 (base64url (seqZ 8 32)) 5 "n" "t" "" 9) /\
  let '(r, w') := WriteObject_prepare demo_cfg demo_object_request demo_w3 in
  exists bytes, length bytes = 32%nat /\ Forall is_byte bytes /\
     Outcome demo_cfg prepare_rejection demo_w3 demo_a3
       (spec_prepare demo_object_request (base64url bytes) demo_a3) r w'.
Proof.
  split; [vm_compute; reflexivity|].
  pose proof (register_object_refines demo_cfg demo_object_request demo_w3 demo_a3 ltac:(vm_compute; reflexivity)
    (proj1 demo3) (proj2 demo3) ltac:(split_and!; vm_compute; reflexivity)
    ltac:(split_and!; [split; [discriminate|reflexivity]|reflexivity..])) as Hw.
  destruct (WriteObject_prepare demo_cfg demo_object_request demo_w3). apply Hw.
Defined.
