(* ===== verification/SystemTheorems.v ===== *)
(** * Theorems: the server as a whole

    Runs of the server, with any number of requests and of object writers in
    flight: the invariant, what an acknowledgement guarantees for ever after, and
    how the server stops. *)

From stdpp Require Import relations.
From S2P Require Import Prelude Status Encoding Tokens Proto Json Platform Keys World FileStore.
From S2P Require Import Files Storage Core Commands Model Reads Scan Spec SystemMessages Refine.
From S2P Require Import Handlers ChannelHandlers Invariant Queries Pages Startup Objects Services.
From S2P Require Import Effects Requests Concurrency Reference Demo.

Section SystemTheorems.
Context {R : RocksDB} {P : Protobuf} {F : PosixDir} {H : Host}.
Context {RS : RocksDBSpec} {PS : ProtobufSpec} {HS : HostSpec} {FS : PosixDirSpec}.
Context (cfg : CoreConfig).

(** C3. Whatever requests are served and however object writers interleave with them, the
    database keeps representing a well-formed state, every writer in flight keeps its
    registered object and its own files, every committed object keeps its file, and the log,
    the used uuids, the channels and the committed objects only grow. The bound on the number
    of steps keeps the 64-bit counters from wrapping. *)
Theorem server_invariant n a sys sys' :
  SysInv a sys -> Budget (Z.of_nat n) a -> nsteps (step cfg) n sys sys' ->
  exists a', SysInv a' sys' /\ Extends a a' /\ Keeps a (sdir sys) (sdir sys').
Proof using FS HS PS RS. apply steps_preserved. Qed.

(** A server started on a new root has the invariant at every moment of its first 2^53
    steps. *)
Theorem fresh_server_invariant event_ms w n sys' :
  repr (cview w) (initial_state event_ms) -> dir (c_storage w) = ∅ -> Z.of_nat n < 2 ^ 53 ->
  nsteps (step cfg) n (MkSys w ∅) sys' ->
  exists a', SysInv a' sys' /\ head (a_log a') = Some (InitializationMessage event_ms).
Proof using FS HS PS RS.
  intros Hr Hd Hn Hsteps.
  destruct (steps_preserved cfg n (initial_state event_ms) (MkSys w ∅) sys') as (a' & Hinv & Hx & _);
    [by apply SysInv_initial| |done|].
  - unfold Budget, kMaxUuidBatch, two64, a_max_seq. cbn. lia.
  - exists a'. split; [done|]. destruct (ex_log _ _ Hx) as [rest ->]. done.
Qed.

Lemma publish_open req context w seq w1 :
  PublishAutoSeq cfg req context w = (Ok seq, w1) -> fatal_error_triggered w = false.
Proof.
  intros E. destruct (fatal_error_triggered w) eqn:Hf; [|done]. unfold PublishAutoSeq in E.
  by rewrite unavailable_refused in E.
Qed.

Definition posted (req : PublishAutoSeqRequest) (seq ms : Z) : EventMessage :=
  MkEventMessage seq (pa_channel_id req) (pa_principal req) (pa_recipients req) (pa_payload req) ms
    (pa_uuid req) (pa_object_keys req).

(** A post that was acknowledged, in a run. *)
Lemma publish_step a sys req context seq w1 :
  SysInv a sys -> request_ok (RPublishAutoSeq req context) ->
  PublishAutoSeq cfg req context (sys_core sys) = (Ok seq, w1) ->
  let a1 := a_append a (posted req seq (now_ms (sys_core sys))) in
  SysInv a1 (MkSys w1 (sys_writers sys)) /\ Extends a a1 /\ Bounded a a1 /\
  fatal_error_triggered w1 = false.
Proof using HS PS RS.
  intros Hinv Hreq E. pose proof Hinv as []. assert (Hu : is_u64 (pa_uuid req)) by apply Hreq.
  pose proof (publish_open _ _ _ _ _ E) as Hav.
  pose proof (PublishAutoSeq_outcome cfg req context _ a Hav si_repr si_wf Hreq) as Hout.
  unfold wp in Hout. rewrite E in Hout.
  inversion Hout as [v a1 w2 Hs Hr1 [Hf _] Hl _ E1 E2| | |]; subst.
  destruct (publish_evolves cfg _ _ _ _ _ _ _ _ _ _ _ _ si_wf Hu Hs) as (Hwf1 & Hx & Hb & Hso).
  destruct (spec_publish_ok cfg _ _ _ _ _ _ _ _ _ _ _ _ Hs) as (_ & _ & _ & _ & _ & _ & _ & _ & _ & Hpost).
  apply spec_post_ok in Hpost as (c & _ & _ & _ & _ & _ & _ & _ & ->).
  split_and!; [|done|done|unfold latch in Hl; congruence].
  eapply SysInv_same_objects; [done|done|done|done|]. unfold sdir, dir. by rewrite Hf.
Qed.

(** A uuid that is used up, whether or not the latch is closed: it is refused in either form of
    publishing, and asking for it gives its sequence number. *)
Definition uuid_taken (uuid seq : Z) (w0 : CoreW) : Prop := forall f calls,
  let w := set_latch w0 f calls in
  (forall req context, request_ok (RPublishAutoSeq req context) -> pa_uuid req = uuid ->
     exists s, (PublishAutoSeq cfg req context w).1 = Err s) /\
  (forall req context, request_ok (RPublish req context) -> pr_uuid req = uuid ->
     exists s, (Publish cfg req context w).1 = Err s) /\
  (forall s, (GetSeqByUuid uuid w).1 = Ok s -> s = seq).

Lemma used_uuid_taken a w uuid seq :
  repr (cview w) a -> WF a -> is_u64 uuid -> a_uuids a !! uuid = Some seq -> uuid_taken uuid seq w.
Proof using HS PS RS.
  intros Hr' Hwf Hu Hused f calls. set (w' := set_latch w f calls).
  assert (Hr : repr (cview w') a) by done. clearbody w'. clear Hr' w. rename w' into w.
  cbv zeta. destruct (fatal_error_triggered w) eqn:Hav.
  { split_and!.
    - intros req context _ _. eexists. unfold PublishAutoSeq. by rewrite unavailable_refused.
    - intros req context _ _. eexists. unfold Publish. by rewrite unavailable_refused.
    - intros s. unfold GetSeqByUuid. by rewrite unavailable_refused. }
  split_and!.
  - intros req context Hreq Eu. destruct (PublishAutoSeq cfg req context w) as [[s2|s2] w2] eqn:E2; [|by exists s2].
    pose proof (PublishAutoSeq_outcome cfg req context _ a Hav Hr Hwf Hreq) as Hout.
    unfold wp in Hout. rewrite E2 in Hout. inversion Hout as [v a3 w3 Hs| | |]; subst.
    destruct (spec_publish_ok cfg _ _ _ _ _ _ _ _ _ _ _ _ Hs) as (_ & _ & _ & _ & Hua & _).
    apply spec_available_uuid_ok in Hua as (_ & _ & Hnone). congruence.
  - intros req context Hreq Eu. destruct (Publish cfg req context w) as [[s2|s2] w2] eqn:E2; [|by exists s2].
    pose proof (Publish_outcome cfg req context _ a Hav Hr Hwf Hreq) as Hout.
    unfold wp in Hout. rewrite E2 in Hout. inversion Hout as [v a3 w3 Hs| | |]; subst.
    apply rbind_ok in Hs as ([q a4] & Hs & _).
    destruct (spec_publish_ok cfg _ _ _ _ _ _ _ _ _ _ _ _ Hs) as (_ & _ & _ & _ & Hua & _).
    apply spec_available_uuid_ok in Hua as (_ & _ & Hnone). congruence.
  - intros s Es. pose proof (GetSeqByUuid_answers cfg a uuid Hwf Hu _ Hav Hr) as Hq.
    unfold wp in Hq. destruct (GetSeqByUuid uuid w) as [r w2]. cbn in Es. subst r.
    destruct Hq as [[Hq _]|(e & Hq & _)]; [|done]. unfold spec_seq_by_uuid in Hq.
    rewrite Hused in Hq. congruence.
Qed.

(** C4. A uuid is consumed once: after a post was acknowledged, no later request with the same
    uuid is accepted, in either form of publishing, whatever happened in between; and asking for
    the uuid keeps giving the sequence number that was acknowledged. *)
Theorem uuid_exactly_once n a sys req context seq w1 sys2 :
  SysInv a sys -> Budget (Z.of_nat n + 1) a -> request_ok (RPublishAutoSeq req context) ->
  PublishAutoSeq cfg req context (sys_core sys) = (Ok seq, w1) ->
  nsteps (step cfg) n (MkSys w1 (sys_writers sys)) sys2 ->
  uuid_taken (pa_uuid req) seq (sys_core sys2).
Proof using FS HS PS RS.
  intros Hinv Hb Hreq E Hsteps.
  destruct (publish_step a sys req context seq w1) as (Hinv1 & Hx1 & Hb1 & _); [done..|].
  destruct (steps_preserved cfg n _ _ sys2 Hinv1) as (a2 & [Hr2 Hwf2 _ _ _ _] & Hx2 & _); [|done|].
  { by eapply Budget_step. }
  eapply used_uuid_taken; [done|done|apply Hreq|]. eapply lookup_weaken; [|apply Hx2]. apply lookup_insert_eq.
Qed.

(** An allocation in a run. *)
Lemma allocate_step a sys count uuids w1 :
  SysInv a sys -> Budget 1 a -> 0 <= count -> fatal_error_triggered (sys_core sys) = false ->
  AllocateUuids cfg count (sys_core sys) = (Ok uuids, w1) ->
  exists a1, SysInv a1 (MkSys w1 (sys_writers sys)) /\ Bounded a a1 /\
    forall u, u ∈ uuids -> a_next_uuid a <= u < a_next_uuid a1.
Proof using RS.
  intros Hinv Hb Hc Hav E. pose proof Hinv as [].
  pose proof (Budget_Room 1 a ltac:(lia) Hb) as Hroom.
  pose proof (AllocateUuids_outcome cfg count _ a Hav si_repr si_wf) as Hout. unfold wp in Hout.
  rewrite E in Hout. inversion Hout as [v a1 w2 Hs Hr1 [Hf _] _ _ E1 E2| | |]; subst.
  destruct (allocate_evolves count a uuids a1 si_wf Hroom Hc Hs) as (Hwf1 & Hx & Hb1 & Hso).
  exists a1. split_and!; [|done|].
  - eapply SysInv_same_objects; [done|done|done|done|]. unfold sdir, dir. by rewrite Hf.
  - revert Hs. unfold spec_allocate. destruct Hroom as [Hroom _]. pose proof (wf_next_uuid _ si_wf).
    destruct (Z.eqb_spec count 0); [done|].
    destruct (Z.ltb_spec kMaxUuidBatch count); cbn [orb]; [done|].
    rewrite (u64_add_small _ count) by lia. rewrite (proj2 (Z.eqb_neq _ _)) by lia. intros [= <- <-] u.
    intros (i & -> & Hi%elem_of_seqZ)%list_elem_of_fmap. cbn. rewrite u64_add_small; lia.
Qed.

(** C24. No uuid is handed out twice: the uuids of two allocations, with anything in between,
    are disjoint. *)
Theorem allocations_disjoint n a sys count uuids w1 sys2 count2 uuids2 w2 :
  SysInv a sys -> Budget (Z.of_nat n + 2) a -> 0 <= count -> 0 <= count2 ->
  AllocateUuids cfg count (sys_core sys) = (Ok uuids, w1) ->
  nsteps (step cfg) n (MkSys w1 (sys_writers sys)) sys2 ->
  AllocateUuids cfg count2 (sys_core sys2) = (Ok uuids2, w2) ->
  forall u, u ∈ uuids -> u ∉ uuids2.
Proof using FS HS PS RS.
  intros Hinv Hb Hc Hc2 E1 Hsteps E2.
  assert (Hav : forall c w v w', AllocateUuids cfg c w = (Ok v, w') -> fatal_error_triggered w = false).
  { intros c w v w' E. destruct (fatal_error_triggered w) eqn:Hf; [|done].
    unfold AllocateUuids in E. by rewrite unavailable_refused in E. }
  destruct (allocate_step a sys count uuids w1) as (a1 & Hinv1 & Hb1 & Hu1); [done| |done|by eapply Hav|done|].
  { eapply Budget_mono; [|exact Hb]. lia. }
  assert (Hb' : Budget (Z.of_nat n + 1) a1).
  { eapply Budget_step; [|exact Hb1]. by replace (Z.of_nat n + 1 + 1) with (Z.of_nat n + 2) by lia. }
  destruct (steps_bounded cfg n 1 a1 _ sys2 ltac:(lia) Hinv1 Hb' Hsteps) as (a2 & Hinv2 & Hx2 & _ & Hb2).
  destruct (allocate_step a2 sys2 count2 uuids2 w2) as (a3 & _ & _ & Hu2); [done|done|done|by eapply Hav|done|].
  intros u Hin Hin2. apply Hu1 in Hin. apply Hu2 in Hin2. pose proof (ex_next_uuid _ _ Hx2). lia.
Qed.

(** ** Objects *)

(** A writer that ends well has committed its object, with the data it was given. *)
Lemma writer_success a sys i wt id token w1 :
  SysInv a sys -> sys_writers sys !! i = Some wt ->
  writer_step cfg wt (sys_core sys) = (inr (Ok (id, token)), w1) ->
  exists a1 o, SysInv a1 (MkSys w1 (delete i (sys_writers sys))) /\ Bounded a a1 /\
    a_committed a1 !! id = Some o /\ so_object_token o = token /\
    sdir (MkSys w1 (delete i (sys_writers sys))) !! FinalName id = Some (NFile (wr_data (wt_req wt))) /\
    so_nbytes o = str_size (wr_data (wt_req wt)) /\ on_disk_now w1.
Proof using FS HS PS RS.
  intros Hinv Hi E. destruct wt as [req o stage].
  destruct (si_writers _ _ Hinv i _ Hi) as (Hp & Htext & Hu & Hsz & Hfile). cbn in *.
  destruct stage as [| |status].
  - unfold bind in E. destruct (storage _ (sys_core sys)) as [[[]|e] w2]; [done|].
    destruct (must_exit e); [|done]. by destruct (FatalStorageError cfg e w2).
  - pose proof (WriteObject_commit_outcome cfg req o (sys_core sys) a (si_repr _ _ Hinv)
      (si_wf _ _ Hinv) Hu Hp Htext) as Hc. unfold wp in Hc. unfold bind in E.
    destruct (WriteObject_commit cfg req o (sys_core sys)) as [oc w2].
    destruct oc as [|s|s|s]; cbn [WriteObject_finish] in E; unfold bind, ok, ret in E.
    + injection E as <- <- <-. inversion Hc as [w3 _ Hr [Hf _] _ Hdisk Ew| | | |]; subst.
      assert (Hd : dir (c_storage w2) = sdir sys) by (unfold sdir, dir; by rewrite Hf).
      pose proof (SysInv_committed a sys i (MkWriter req o Written) w2 Hinv Hi eq_refl Hr Hd)
        as (Hinv1 & _ & Hb & _).
      exists (a_commit_object a o), o. split_and!; try done; [apply lookup_insert_eq|].
      unfold sdir. cbn. rewrite Hd. exact Hfile.
    + done.
    + by destruct (FatalStorageError cfg s w2).
    + destruct (must_exit s); [by destruct (FatalStorageError cfg s w2)|done].
  - unfold bind in E. by destruct (CleanupPreparingObject cfg _ status (sys_core sys)).
Qed.

(** What a committed object reads as. *)
Definition reads_as (id : Z) (token data : string) (w : CoreW) : Prop := forall offset nbytes,
  0 <= offset <= str_size data -> 0 < nbytes ->
  let r := (ReadObject cfg id token offset nbytes w).1 in
  r = Ok (take_bytes (Z.to_nat (Z.min nbytes (str_size data - offset))) (drop_bytes (Z.to_nat offset) data)) \/
  exists s, r = Err s /\ (io_status s \/ (fatal_status s /\ fallible)).

Lemma committed_reads a sys id o data :
  SysInv a sys -> fatal_error_triggered (sys_core sys) = false -> a_committed a !! id = Some o ->
  sdir sys !! FinalName id = Some (NFile data) -> so_nbytes o = str_size data ->
  reads_as id (so_object_token o) data (sys_core sys).
Proof using FS HS PS RS.
  intros Hinv Hav Hc Hf Hsz offset nbytes Hoff Hn.
  destruct (wf_committed _ (si_wf _ _ Hinv) _ _ Hc) as [(_ & Htok & _) Hid].
  pose proof (wf_next_object _ (si_wf _ _ Hinv)).
  assert (Hd : file_data (sdir sys) id = data) by (unfold file_data; by rewrite Hf).
  pose proof (ReadObject_outcome cfg a id (so_object_token o) offset nbytes (sys_core sys) Hav (si_repr _ _ Hinv)
    (si_wf _ _ Hinv) (si_files _ _ Hinv) ltac:(unfold is_u64; lia) ltac:(lia) ltac:(lia)) as Hout.
  unfold wp in Hout. destruct (ReadObject cfg id _ offset nbytes (sys_core sys)) as [r w2]. cbn.
  destruct Hout as [_ [[-> _]|(s & -> & Hs)]].
  - left. unfold spec_read_object, spec_object. apply IsBase64UrlToken_nonempty in Htok.
    rewrite !(proj2 (Z.eqb_neq _ _)), Htok, Hc by lia. cbn. rewrite bool_decide_eq_true_2 by done. cbn.
    rewrite Hsz, (proj2 (Z.ltb_ge _ _)) by lia. unfold sdir in Hd. by rewrite Hd.
  - right. exists s. split; [done|]. destruct Hs as [[? _]|(? & [_ ?] & _)]; [by left|by right].
Qed.

(** C9. What was written is what is read: after a writer has reported success, and whatever
    happens afterwards, reading any range of the object with its token returns exactly that
    range of the data, unless the file cannot be read or the storage fails. *)
Theorem write_then_read n a sys i wt id token w1 sys2 :
  SysInv a sys -> Budget (Z.of_nat n + 1) a -> sys_writers sys !! i = Some wt ->
  writer_step cfg wt (sys_core sys) = (inr (Ok (id, token)), w1) ->
  nsteps (step cfg) n (MkSys w1 (delete i (sys_writers sys))) sys2 ->
  fatal_error_triggered (sys_core sys2) = false ->
  reads_as id token (wr_data (wt_req wt)) (sys_core sys2).
Proof using FS HS PS RS.
  intros Hinv Hb Hi E Hsteps Hav.
  destruct (writer_success a sys i wt id token w1) as (a1 & o & Hinv1 & Hb1 & Hc1 & <- & Hf1 & Hsz & _); [done..|].
  destruct (steps_preserved cfg n a1 _ sys2 Hinv1) as (a2 & Hinv2 & Hx2 & Hk2); [|done|].
  { by eapply Budget_step. }
  pose proof (lookup_weaken _ _ _ _ Hc1 (ex_committed _ _ Hx2)) as Hc2.
  eapply committed_reads; [done..| |done]. by rewrite (Hk2 id) by by eexists.
Qed.

(** Writing an object is its three phases in sequence: registering it, writing its file,
    committing it, with the registration withdrawn when the file cannot be written or the
    commit is refused; three phases always suffice. *)
Theorem write_object_phases req w :
  WriteObject cfg req w =
  (let? o := WriteObject_prepare cfg req in run_writer cfg 2 (MkWriter req o Writing)) w.
Proof. apply WriteObject_run. Qed.

(** ** Stopping *)

(** What a closed server answers. *)
Lemma closed_refuses w :
  fatal_error_triggered w = true ->
  let refusal := mkStatus UNAVAILABLE "server is shutting down due to a fatal storage error" in
  (forall r, serve cfg r w = ((ToGrpc refusal, None), w)) /\
  (forall req, WriteObject cfg req w = (Err refusal, w)).
Proof.
  intros Hf refusal. split.
  - intros r. unfold serve, rpc, bind. rewrite handle_unavailable by done. cbn.
    unfold ToGrpcStatus, bind. by rewrite run_HandleRpcStatus.
  - intros req. unfold WriteObject, WriteObject_prepare, bind_ok at 1, bind.
    by rewrite unavailable_refused.
Qed.

(** Computations that leave a closed latch as it is. *)
Definition settled {A} (m : M CoreW A) : Prop :=
  forall w, fatal_error_triggered w = true -> latch (m w).2 = latch w.

Lemma settled_ret {A} (x : A) : settled (ret x).
Proof. by intros w. Qed.

Lemma settled_bind {A B} (m : M CoreW A) (k : A -> M CoreW B) :
  settled m -> (forall x, settled (k x)) -> settled (bind m k).
Proof.
  intros Hm Hk w Hf. unfold bind. specialize (Hm w Hf). destruct (m w) as [x w1]. cbn in Hm.
  rewrite Hk; [done|]. unfold latch in Hm. congruence.
Qed.

Lemma settled_storage {A} (m : M StorageW A) : settled (storage m).
Proof. intros w _. unfold storage. by destruct (m (c_storage w)). Qed.

Lemma settled_fatal s : settled (FatalStorageError cfg s).
Proof. intros w Hf. rewrite run_FatalStorageError. unfold trip. by rewrite Hf. Qed.

Lemma settled_bump : settled (modify bump_generation).
Proof. by intros w. Qed.

Ltac settle :=
  repeat first [apply settled_ret | apply settled_storage | apply settled_fatal | apply settled_bump
               | apply settled_bind; [|intros ?] | case_match].

Lemma settled_writer wt : settled (writer_step cfg wt).
Proof.
  unfold writer_step, WriteObject_commit, WriteObject_finish, CleanupPreparingObject, CommitBatch,
    Authenticate, fail, ok. unfold bind_ok. settle.
Qed.

Lemma closed_latch n sys sys' :
  fatal_error_triggered (sys_core sys) = true -> nsteps (step cfg) n sys sys' ->
  latch (sys_core sys') = latch (sys_core sys).
Proof.
  intros Hf Hsteps. induction Hsteps as [sys|n sys1 sys2 sys3 Hstep _ IH]; [done|].
  assert (Hcl : forall s w, fatal_error_triggered w = true -> latch (closed cfg s w) = latch w).
  { intros s w Hw. unfold closed. rewrite run_HandleRpcStatus. cbn. destruct (must_exit s); [|done].
    unfold trip. by rewrite Hw. }
  assert (H1 : latch (sys_core sys2) = latch (sys_core sys1)).
  { destruct Hstep as [r sys Hreq|i req o w' sys Hreq Hi Hrun|req s w' sys Hreq Hrun
      |i wt wt' w' sys Hi Hrun|i wt r w' sys Hi Hrun|sys sys' _ _]; cbn; [..|done].
    - unfold serve, rpc, bind. rewrite handle_unavailable by done. cbn.
      unfold ToGrpcStatus, bind. by rewrite run_HandleRpcStatus.
    - unfold WriteObject_prepare in Hrun. by rewrite unavailable_refused in Hrun.
    - unfold WriteObject_prepare in Hrun. rewrite unavailable_refused in Hrun by done.
      injection Hrun as <- <-. by apply Hcl.
    - pose proof (settled_writer wt (sys_core sys) Hf) as Hw. by rewrite Hrun in Hw.
    - pose proof (settled_writer wt (sys_core sys) Hf) as Hw. rewrite Hrun in Hw. cbn in Hw.
      rewrite Hcl; [done|]. unfold latch in Hw. congruence. }
  rewrite IH; [done|]. unfold latch in H1. congruence.
Qed.

(** C23. Closing is final and reported once: after any number of steps of a closed server, of
    requests that come too late to be refused or of writers in flight, it is closed, the fatal-error handler has not been called
    a second time, and every request is refused with the same status and changes nothing at
    all. *)
Theorem closed_for_good n sys sys' :
  fatal_error_triggered (sys_core sys) = true -> nsteps (step cfg) n sys sys' ->
  latch (sys_core sys') = latch (sys_core sys) /\
  let refusal := mkStatus UNAVAILABLE "server is shutting down due to a fatal storage error" in
  (forall r, serve cfg r (sys_core sys') = ((ToGrpc refusal, None), sys_core sys')) /\
  (forall req, WriteObject cfg req (sys_core sys') = (Err refusal, sys_core sys')).
Proof.
  intros Hf Hsteps. pose proof (closed_latch n sys sys' Hf Hsteps) as Hl. split; [done|].
  apply closed_refuses. unfold latch in Hl. congruence.
Qed.

End SystemTheorems.

(** ** Witnesses *)

Lemma server_invariant_witness :
  exists a', SysInv a' (MkSys (serve demo_cfg (RGetSeqByUuid 1) demo_w3).2 ∅) /\ Extends demo_a3 a' /\
    Keeps demo_a3 (sdir demo_sys) (sdir (MkSys (serve demo_cfg (RGetSeqByUuid 1) demo_w3).2 ∅)).
Proof.
  apply (server_invariant demo_cfg 1 demo_a3 demo_sys).
  - exact demo_sys_inv.
  - eapply Budget_mono; [|exact demo_budget]. lia.
  - eapply nsteps_l; [|apply nsteps_O]. apply (S_serve demo_cfg (RGetSeqByUuid 1) demo_sys).
    split; [discriminate|reflexivity].
Defined.

Lemma fresh_server_invariant_witness :
  exists a', SysInv a' (MkSys (serve demo_cfg (RAddToken 5) demo_w0).2 ∅) /\
    head (a_log a') = Some (InitializationMessage demo_ms).
Proof.
  apply (fresh_server_invariant demo_cfg demo_ms demo_w0 1).
  - exact (proj1 demo0).
  - vm_compute. reflexivity.
  - reflexivity.
  - eapply nsteps_l; [|apply nsteps_O]. apply (S_serve demo_cfg (RAddToken 5) (MkSys demo_w0 ∅)).
    split; [discriminate|reflexivity].
Defined.

Definition demo_post2 : PublishAutoSeqRequest :=
  {| pa_principal := 5; pa_token := demo_token; pa_channel_id := 1; pa_uuid := 4;
     pa_recipients := []; pa_payload := "again"; pa_object_keys := [] |}.

Lemma uuid_exactly_once_witness :
  exists s, (PublishAutoSeq demo_cfg demo_post2 None
               (set_latch (PublishAutoSeq demo_cfg demo_post2 None demo_w3).2 false [])).1 = Err s.
Proof.
  assert (Hreq : request_ok (RPublishAutoSeq demo_post2 None))
    by (split_and!; [split; [discriminate|reflexivity]..|reflexivity|constructor]).
  destruct (uuid_exactly_once demo_cfg 0 demo_a3 demo_sys demo_post2 None 2
    (PublishAutoSeq demo_cfg demo_post2 None demo_w3).2
    (MkSys (PublishAutoSeq demo_cfg demo_post2 None demo_w3).2 ∅)) with (f := false) (calls := @nil Status)
    as [Hnever _].
  - exact demo_sys_inv.
  - eapply Budget_mono; [|exact demo_budget]. lia.
  - exact Hreq.
  - apply run_eq. vm_compute. reflexivity.
  - apply nsteps_O.
  - exact (Hnever demo_post2 None Hreq eq_refl).
Defined.

Lemma allocations_disjoint_witness : 5 ∉ [6].
Proof.
  refine (allocations_disjoint demo_cfg 0 demo_a3 demo_sys 1 [5] (AllocateUuids demo_cfg 1 demo_w3).2
    (MkSys (AllocateUuids demo_cfg 1 demo_w3).2 ∅) 1 [6]
    (AllocateUuids demo_cfg 1 (AllocateUuids demo_cfg 1 demo_w3).2).2 demo_sys_inv _ _ _ _ (nsteps_O _ _) _ 5 _).
  - eapply Budget_mono; [|exact demo_budget]. lia.
  - lia.
  - lia.
  - apply run_eq. vm_compute. reflexivity.
  - apply run_eq. vm_compute. reflexivity.
  - by left.
Defined.

(** An object is written to the end. *)
Definition demo_write : WriteObjectRequest :=
  {| wr_principal := 5; wr_token := demo_token; wr_name := "n"; wr_type := "t"; wr_description := "";
     wr_data := "some data" |}.

Definition demo_object : StoredObject :=
  MkStoredObject 1 (base64url (seqZ 8 32)) 5 "n" "t" "" 9.

Definition demo_sys4 : Sys :=
  MkSys (WriteObject_prepare demo_cfg demo_write demo_w3).2 {[0%nat := MkWriter demo_write demo_object Writing]}.

Definition demo_sys5 : Sys :=
  MkSys (writer_step demo_cfg (MkWriter demo_write demo_object Writing) (sys_core demo_sys4)).2
    {[0%nat := MkWriter demo_write demo_object Written]}.

Lemma demo_steps : nsteps (step demo_cfg) 2 demo_sys demo_sys5.
Proof.
  apply (nsteps_l _ _ _ demo_sys4).
  - refine (S_prepare demo_cfg 0 demo_write demo_object _ demo_sys _ _ _).
    + split_and!; [split; [discriminate|reflexivity]|reflexivity..].
    + reflexivity.
    + apply run_eq. vm_compute. reflexivity.
  - apply (nsteps_l _ _ _ demo_sys5); [|apply nsteps_O].
    assert (E : demo_sys5 = MkSys (sys_core demo_sys5)
      (<[0%nat := MkWriter demo_write demo_object Written]> (sys_writers demo_sys4))).
    { unfold demo_sys5 at 1. f_equal. }
    rewrite E.
    refine (S_writer demo_cfg 0 (MkWriter demo_write demo_object Writing) _ _ demo_sys4 eq_refl _).
    cbn [sys_core demo_sys5]. refine (run_eq (writer_step demo_cfg _) _ _ _). vm_compute. reflexivity.
Qed.

Definition demo_sys6 : Sys :=
  MkSys (writer_step demo_cfg (MkWriter demo_write demo_object Written) (sys_core demo_sys5)).2
    (delete 0%nat (sys_writers demo_sys5)).

Lemma write_then_read_witness :
  take_bytes (Z.to_nat (Z.min 100 (str_size "some data" - 5))) (drop_bytes (Z.to_nat 5) "some data") = "data" /\
  reads_as demo_cfg 1 (so_object_token demo_object) (wr_data (wt_req (MkWriter demo_write demo_object Written)))
    (sys_core demo_sys6).
Proof.
  split; [reflexivity|].
  destruct (steps_bounded demo_cfg 2 1 demo_a3 demo_sys demo_sys5) as (a5 & Hinv & _ & _ & Hb).
  { lia. }
  { exact demo_sys_inv. }
  { eapply Budget_mono; [|exact demo_budget]. lia. }
  { exact demo_steps. }
  apply (write_then_read demo_cfg 0 a5 demo_sys5 0 (MkWriter demo_write demo_object Written) 1
    (so_object_token demo_object) (sys_core demo_sys6) demo_sys6 Hinv Hb eq_refl).
  - unfold demo_sys6. cbn [sys_core]. refine (run_eq (writer_step demo_cfg _) _ _ _). vm_compute. reflexivity.
  - apply nsteps_O.
  - vm_compute. reflexivity.
Defined.

Definition demo_closed : CoreW := trip demo_cfg (Fatal UNAVAILABLE "disk") demo_w3.

Lemma closed_for_good_witness :
  latch (serve demo_cfg (RAddToken 7) demo_closed).2 = latch demo_closed.
Proof.
  apply (closed_for_good demo_cfg 1 (MkSys demo_closed ∅) (MkSys (serve demo_cfg (RAddToken 7) demo_closed).2 ∅)).
  - vm_compute. reflexivity.
  - eapply nsteps_l; [|apply nsteps_O]. apply (S_serve demo_cfg (RAddToken 7) (MkSys demo_closed ∅)).
    split; [discriminate|reflexivity].
Defined.
