(* ===== verification/ServiceTheorems.v ===== *)
(** * Theorems: the server is the service

    Every run of the server, whatever requests are served and however object
    writers interleave with them, is a run of the service of Service.v with the
    same requests and the same answers; what that says of the clients of the
    public and of the admin server; and that an error leaves no trace clients can see. *)

From S2P Require Import Prelude Status Encoding Tokens Proto Json Platform Keys World FileStore.
From S2P Require Import Files Storage Core Commands Model Reads Scan Spec SystemMessages Refine.
From S2P Require Import Handlers ChannelHandlers Invariant Queries Pages Startup Objects Services.
From S2P Require Import Effects Requests Concurrency Service ServerConfig Endpoints Reference Demo.

Section ServiceTheorems.
Context {R : RocksDB} {P : Protobuf} {F : PosixDir} {H : Host}.
Context {RS : RocksDBSpec} {PS : ProtobufSpec} {HS : HostSpec} {FS : PosixDirSpec}.
Context (cfg : CoreConfig).

(** C1. What clients see of a run of the server they can see of the service that keeps only the
    log, the uuids, the channels, the credentials and the objects with their data: every request
    is answered at one moment by the specification, or refused without effect, or fails with the
    storage and closes the service; an object is stored with all of its data at one moment, when
    its writer is answered, or not at all; and nothing else is seen of what happens in between. At
    the end the server's database, its files and its latch are those of the service. *)
Theorem server_refines_service tr a w sys' :
  SysInv a (MkSys w ∅) -> Budget (Z.of_nat (length tr)) a -> server_run cfg (MkSys w ∅) tr sys' ->
  exists a' s',
    service_run cfg (service_of a (dir (c_storage w)) (negb (fatal_error_triggered w))) tr s' /\
    SysInv a' sys' /\ sv_state s' = hide a' /\ sv_open s' = negb (fatal_error_triggered (sys_core sys')) /\
    (forall id, is_Some (a_committed a' !! id) -> sdir sys' !! FinalName id = Some (NFile (sv_read s' id))).
Proof using FS HS PS RS.
  intros Hinv Hb Hrun. destruct (sim_run cfg tr a _ _ sys' (sim_start a w Hinv) Hb Hrun) as (a' & s' & Hs & []).
  by exists a', s'.
Qed.

(** C17. The two servers are separate. Every call is answered by exactly one of them, by the
    services registered with it. Whatever the clients of the public server do, with any number of
    requests and object writers in flight, the credentials stay those of the start; whatever the
    clients of the admin server do, nothing but the credentials changes: not the log, the uuids, the
    channels or the objects. *)
Theorem servers_separated config tr a w sys' :
  SysInv a (MkSys w ∅) -> Budget (Z.of_nat (length tr)) a -> server_run cfg (MkSys w ∅) tr sys' ->
  exists a', SysInv a' sys' /\
    (forall c, reaches (public_builder config) c = negb (reaches (admin_builder config) c)) /\
    (Forall (seen_at (public_builder config)) tr -> a_tokens a' = a_tokens a) /\
    (Forall (seen_at (admin_builder config)) tr -> hide a' = hide (a_set_tokens a (a_tokens a'))).
Proof using FS HS PS RS.
  intros Hinv Hb Hrun.
  destruct (sim_run cfg tr a _ _ sys' (sim_start a w Hinv) Hb Hrun) as (a' & s' & Hs & [Hinv' Hst _ _ _]).
  exists a'. split_and!; [done|apply reaches_one|..]; intros Htr.
  - pose proof (public_run cfg config _ _ _ Hs Htr) as E. by rewrite Hst in E.
  - destruct (admin_run cfg config _ _ _ Hs Htr) as [E _]. by rewrite Hst in E.
Qed.

(** An error answered to a unary request. *)
Lemma serve_clean r w a g w' :
  repr (cview w) a -> WF a -> a_max_seq a < two64 - 1 -> files_ok a (dir (c_storage w)) ->
  request_ok r -> serve cfg r w = ((g, None), w') ->
  (fatal_error_triggered w' = true /\ fallible) \/ (stored_same w w' /\ latch w' = latch w).
Proof using FS HS PS RS.
  intros Hr Hwf Hmax Hfiles Hreq E. pose proof (handle_clean cfg r w a Hr Hwf Hmax Hfiles Hreq) as Hc.
  unfold wp in Hc. rewrite serve_run in E.
  destruct (handle cfg r w) as [[v|s] w1]; [done|]. cbn [result_status] in E. injection E as <- <-.
  destruct Hc as [(Hfs & Hfall & Hl)|(Hs & Hl & Hm)].
  - left. split; [|done]. unfold must_exit. rewrite Hfs. cbn [orb].
    unfold trip. by destruct (fatal_error_triggered w1) eqn:Ef.
  - right. by rewrite Hm.
Qed.

(** C22. A request that fails changes nothing that clients can see, at any moment of any run.
    When a unary request other than WriteObject is answered with an error, the database, the
    object files, the subscriptions, the commit counter and the latch are as before, unless a
    call of the storage failed, and then the server is closed. A WriteObject works in several
    steps: as long as it has not answered, and when it ends with an error, the server is
    closed or the log, the uuids, the channels, the credentials, the committed objects and
    their files are as before; what it may leave behind is the registration of its object and
    a higher object counter. *)
Theorem errors_have_no_effect tr a w sys :
  SysInv a (MkSys w ∅) -> Budget (Z.of_nat (length tr) + 1) a -> server_run cfg (MkSys w ∅) tr sys ->
  (forall r g w', request_ok r -> serve cfg r (sys_core sys) = ((g, None), w') ->
     (fatal_error_triggered w' = true /\ fallible) \/
     (stored_same (sys_core sys) w' /\ latch w' = latch (sys_core sys))) /\
  exists b, SysInv b sys /\
    forall e sys', lstep cfg sys e sys' -> unsuccessful e ->
      fatal_error_triggered (sys_core sys') = true \/
      exists b', SysInv b' sys' /\ hide b' = hide b /\ Keeps b (sdir sys) (sdir sys').
Proof using FS HS PS RS.
  intros Hinv Hb Hrun.
  destruct (sim_run_budget cfg 1 tr a _ _ sys ltac:(lia) (sim_start a w Hinv) Hb Hrun)
    as (b & s & _ & Hs & Hb').
  pose proof (sm_sys _ _ _ Hs) as Hsys. split.
  - intros r g w' Hreq E. destruct Hsys. eapply serve_clean; [done|done| |done..].
    unfold Budget in Hb'. lia.
  - exists b. split; [done|]. intros e sys'. by apply unsuccessful_step with (s := s).
Qed.

End ServiceTheorems.

(** ** Witnesses *)

Definition demo_call : Request :=
  RPublishAutoSeq {| pa_principal := 5; pa_token := demo_token; pa_channel_id := 1; pa_uuid := 4;
    pa_recipients := []; pa_payload := "seen"; pa_object_keys := [] |} None.

Lemma server_refines_service_witness :
  (serve demo_cfg demo_call demo_w3).1 = reply (Seq 2) /\
  exists s', service_run demo_cfg (service_of demo_a3 (dir (c_storage demo_w3)) (negb (fatal_error_triggered demo_w3)))
    [Some (ECall demo_call (serve demo_cfg demo_call demo_w3).1)] s'.
Proof.
  split; [vm_compute; reflexivity|].
  destruct (server_refines_service demo_cfg [Some (ECall demo_call (serve demo_cfg demo_call demo_w3).1)] demo_a3 demo_w3
    (MkSys (serve demo_cfg demo_call demo_w3).2 ∅)) as (a' & s' & Hs & _).
  - exact demo_sys_inv.
  - eapply Budget_mono; [|exact demo_budget]. cbn. lia.
  - eapply R_cons; [|apply R_nil]. apply (L_serve demo_cfg demo_call demo_sys).
    split_and!; [split; [discriminate|reflexivity]..|reflexivity|constructor].
  - exists s'. exact Hs.
Defined.

Definition demo_ports : ServerConfig := MkServerConfig "0.0.0.0:9527" "127.0.0.1:9528" "/srv/oe" 16777216.

Lemma servers_separated_witness :
  reaches (public_builder demo_ports) (CUnary demo_call) = true /\
  exists a', SysInv a' (MkSys (serve demo_cfg demo_call demo_w3).2 ∅) /\ a_tokens a' = a_tokens demo_a3.
Proof.
  split; [reflexivity|].
  destruct (servers_separated demo_cfg demo_ports [Some (ECall demo_call (serve demo_cfg demo_call demo_w3).1)]
    demo_a3 demo_w3 (MkSys (serve demo_cfg demo_call demo_w3).2 ∅)) as (a' & Hinv & _ & Hpub & _).
  - exact demo_sys_inv.
  - eapply Budget_mono; [|exact demo_budget]. cbn. lia.
  - eapply R_cons; [|apply R_nil]. apply (L_serve demo_cfg demo_call demo_sys).
    split_and!; [split; [discriminate|reflexivity]..|reflexivity|constructor].
  - exists a'. split; [exact Hinv|]. apply Hpub. repeat constructor.
Defined.

Definition demo_upload : WriteObjectRequest :=
  {| wr_principal := 5; wr_token := demo_token; wr_name := "n"; wr_type := "t"; wr_description := "";
     wr_data := "some data" |}.

Definition demo_uploaded : StoredObject := prepared_object demo_upload (base64url (seqZ 8 32)) 1.

Definition demo_registered : Sys :=
  MkSys (WriteObject_prepare demo_cfg demo_upload demo_w3).2
    (<[0%nat := MkWriter demo_upload demo_uploaded Writing]> ∅).

(** An invalid request, and the registration of an object. *)
Lemma errors_have_no_effect_witness :
  (serve demo_cfg (RAddToken 0) demo_w3).1 = ((INVALID_ARGUMENT, "principal must be greater than 0"), None) /\
  (let w' := (serve demo_cfg (RAddToken 0) demo_w3).2 in
   (fatal_error_triggered w' = true /\ fallible) \/ (stored_same demo_w3 w' /\ latch w' = latch demo_w3)) /\
  fatal_error_triggered (sys_core demo_registered) = false /\
  (fatal_error_triggered (sys_core demo_registered) = true \/
   exists b b', SysInv b demo_sys /\ SysInv b' demo_registered /\ hide b' = hide b).
Proof.
  assert (E : (serve demo_cfg (RAddToken 0) demo_w3).1 =
    ((INVALID_ARGUMENT, "principal must be greater than 0"), None)) by (vm_compute; reflexivity).
  destruct (errors_have_no_effect demo_cfg [] demo_a3 demo_w3 demo_sys) as (Hserve & b & Hb & Hstep).
  - exact demo_sys_inv.
  - eapply Budget_mono; [|exact demo_budget]. cbn. lia.
  - apply R_nil.
  - split_and!; [exact E| |vm_compute; reflexivity|].
    + eapply (Hserve (RAddToken 0)); [split; [discriminate|reflexivity]|]. by apply run_eq.
    + destruct (fun Hl => Hstep None demo_registered Hl I) as [Hf|(b' & Hb' & Hh & _)];
        [|left; exact Hf|right; exists b, b'; exact (conj Hb (conj Hb' Hh))].
      apply (L_prepare demo_cfg 0%nat demo_upload demo_uploaded _ demo_sys).
      * split_and!; [split; [discriminate|reflexivity]|reflexivity..].
      * reflexivity.
      * refine (run_eq (WriteObject_prepare demo_cfg demo_upload) _ _ _). vm_compute. reflexivity.
Defined.
