(* ===== verification/StorageTheorems.v ===== *)
(** * Theorems: the storage layer

    Keys and encodings, credentials, the object directory, creation, validation
    and recovery of a storage root.  A theorem with hypotheses is followed by a
    witness on the reference platform. *)

From S2P Require Import Prelude Status Encoding Tokens Proto Json Platform Keys World FileStore.
From S2P Require Import Files Durability Storage Core Commands Model Reads Scan Spec SystemMessages Refine.
From S2P Require Import Handlers ChannelHandlers Invariant Startup Objects Effects Requests Concurrency.
From S2P Require Import Reference Demo.

(** ** Keys *)

(** Iteration in the database's byte order visits records of one kind in the order of
    their numbers: the big-endian encoding after a fixed prefix is strictly monotone, and
    decoding a key gives its number back. *)
Theorem numeric_key_order prefix a b :
  is_u64 a -> is_u64 b ->
  (str_lt (NumericKey prefix a) (NumericKey prefix b) <-> a < b) /\
  (forall what, DecodeNumericKey (NumericKey prefix a) prefix what = Ok a).
Proof.
  intros Ha Hb. split; [by apply NumericKey_lt|]. intros what. by apply DecodeNumericKey_NumericKey.
Qed.

Lemma numeric_key_order_witness :
  (str_lt (NumericKey kMessagePrefix 255) (NumericKey kMessagePrefix 256) <-> 255 < 256) /\
  (forall what, DecodeNumericKey (NumericKey kMessagePrefix 255) kMessagePrefix what = Ok 255).
Proof. apply (numeric_key_order kMessagePrefix 255 256); split; reflexivity || discriminate. Defined.

(** No two records of the database share a key: a message, a uuid, a channel, a
    credential, a registered and a committed object never collide, whatever bytes a token
    holds. *)
Theorem keys_never_collide k1 k2 :
  key_ok k1 -> key_ok k2 -> key_bytes k1 = key_bytes k2 -> k1 = k2.
Proof. apply key_bytes_inj. Qed.

Lemma keys_never_collide_witness :
  KToken 5 "ab" = KToken 5 "ab" /\ key_bytes (KToken 5 "ab") <> key_bytes (KToken 6 "ab").
Proof.
  split.
  - apply (keys_never_collide (KToken 5 "ab") (KToken 5 "ab")); [split; reflexivity || discriminate..|reflexivity].
  - vm_compute. discriminate.
Defined.

(** ** Credentials *)

(** The credentials the server generates keep all the randomness they are made from:
    different random bytes give different tokens, and an object token always has the shape
    that the storage layer demands of it. *)
Theorem credentials_injective b1 b2 :
  length b1 = 32%nat -> length b2 = 32%nat -> Forall is_byte b1 -> Forall is_byte b2 ->
  IsBase64UrlToken (base64url b1) = true /\
  (base64url b1 = base64url b2 -> b1 = b2) /\
  (format_token (take 16 b1) = format_token (take 16 b2) -> take 16 b1 = take 16 b2).
Proof.
  intros H1 H2 B1 B2. split_and!; [by apply base64url_is_token|by apply base64url_inj|].
  apply format_token_inj; try (by apply Forall_take); rewrite length_take; lia.
Qed.

Lemma credentials_injective_witness :
  IsBase64UrlToken (base64url (seqZ 0 32)) = true.
Proof.
  apply (credentials_injective (seqZ 0 32) (seqZ 0 32)); try (vm_compute; reflexivity).
  all: apply Forall_forall; intros x [H0 H1]%elem_of_seqZ; split; lia.
Defined.

(** ** Termination *)

(** Reading random bytes ends: signals may interrupt the call and it may deliver fewer
    bytes than asked for, but the loop returns exactly the number wanted or reports the error
    of the call; it never runs out of the turns the model gives it. *)
Theorem random_bytes_total `{H : Host} `{!HostSpec} want o :
  match (random_bytes want o).1 with
  | Ok bytes => length bytes = want /\ Forall is_byte bytes
  | Err s => exists error, error <> EINTR /\ s = mkStatus INTERNAL ("getrandom failed: " +:+ strerror error)
  end.
Proof.
  pose proof (wp_fill_random (want + os_getrandom_tries o) want [] o) as Hw. unfold wp in Hw.
  unfold random_bytes, bind, get. cbn [length] in Hw.
  destruct (fill_random _ want [] o) as [r o']. apply Hw; [lia|lia|constructor].
Qed.

Lemma random_bytes_total_witness :
  match (@random_bytes MemHost 4 (MkMemOs 0 7)).1 with
  | Ok bytes => length bytes = 4%nat /\ Forall is_byte bytes
  | Err s => exists error, error <> EINTR /\ s = mkStatus INTERNAL ("getrandom failed: " +:+ strerror error)
  end.
Proof. apply (@random_bytes_total MemHost MemHostSpec 4 (MkMemOs 0 7)). Defined.

(** ** Object files *)

Section Files.
Context {R : RocksDB} {F : PosixDir} {H : Host} {FS : PosixDirSpec}.

(** C38. Writing an object's file publishes all of it or nothing: on success the directory has
    the final name with exactly the data, the temporary name is gone, and no other entry
    changed; neither name existed before, so that nothing is ever overwritten; and the file is
    on disk under its final name. On failure at most the object's own two names were touched.
    Nothing that was on disk under other names is lost. It ends for every number of short writes
    and interrupted calls. *)
Theorem object_write_atomic id data w :
  0 < id < two64 ->
  let '(r, w') := Write id data w in
  st_db w' = st_db w /\ keeping (object_names id) w w' /\
  match r with
  | Ok _ => dir w !! TemporaryName id = None /\ dir w !! FinalName id = None /\
            dir w' = <[FinalName id := NFile data]> (dir w) /\ fs_durable (st_fs w') (FinalName id)
  | Err s => write_error id (dir w) s /\ touched (object_names id) (dir w) (dir w')
  end.
Proof using FS.
  intros Hid. pose proof (Write_kept id data w) as Hk.
  assert (Hw : wp (Write id data) (fun r w' => st_db w' = st_db w /\
    match r with
    | Ok _ => dir w !! TemporaryName id = None /\ dir w !! FinalName id = None /\
              dir w' = <[FinalName id := NFile data]> (dir w)
    | Err s => write_error id (dir w) s /\ touched (object_names id) (dir w) (dir w')
    end) w) by (by apply wp_Write).
  unfold wp in *. destruct (Write id data w) as [[[]|s] w']; destruct Hk as [Hk Hdur], Hw as [Hdb Hw].
  - destruct Hw as (? & ? & ?). by split_and!; auto.
  - by split_and!; try apply Hw.
Qed.

(** Cleaning up removes both names of every object given, whether they exist or not, for good,
    and nothing else; when it fails it has removed only such names. *)
Theorem object_cleanup_exact ids w :
  let '(r, w') := Cleanup ids w in
  st_db w' = st_db w /\ keeping (ids ≫= object_names) w w' /\
  match r with
  | Ok _ => (forall n, dir w' !! n = if decide (n ∈ ids ≫= object_names) then None else dir w !! n) /\
            (forall n, n ∈ ids ≫= object_names -> fs_durable (st_fs w') n)
  | Err s => (io_status s \/ code s = DATA_LOSS) /\ touched (ids ≫= object_names) (dir w) (dir w')
  end.
Proof using FS.
  assert (Hw : wp (Cleanup ids) (fun r w' => st_db w' = st_db w /\
    match r with
    | Ok _ => dir w' = without ids (dir w)
    | Err s => (io_status s \/ code s = DATA_LOSS) /\ touched (ids ≫= object_names) (dir w) (dir w')
    end) w) by (by apply wp_Cleanup).
  pose proof (kept_Cleanup ids w) as Hk.
  assert (Hd : wp (Cleanup ids) (fun r w' => r = Ok tt ->
    forall n, n ∈ ids ≫= object_names -> fs_view (st_fs w') !! n = None /\ fs_durable (st_fs w') n) w).
  { destruct ids as [|id ids]; [|by apply Cleanup_durable]. apply wp_bind, wp_ret, wp_ret. by intros _ n ?%elem_of_nil. }
  unfold wp in *. destruct (Cleanup ids w) as [[[]|s] w']; destruct Hw as [Hdb Hw]; split_and!; try done.
  - intros n. rewrite Hw. apply without_lookup.
  - intros n Hn. by apply Hd.
  - apply Hw.
  - apply Hw.
Qed.

(** A file that was written is read back: any range of it, clipped at its end, whatever
    short reads and interrupted calls there are; or the system call's failure is reported. *)
Theorem object_write_read id data offset nbytes w w1 :
  0 < id < two64 -> 0 < str_size data <= kMaxObjectBytes -> 0 <= offset <= str_size data -> 0 < nbytes ->
  Write id data w = (Ok tt, w1) ->
  let '(r, w2) := ReadRange id (str_size data) offset nbytes w1 in
  dir w2 = dir w1 /\
  (r = Ok (take_bytes (Z.to_nat (Z.min nbytes (str_size data - offset)))
             (drop_bytes (Z.to_nat offset) data)) \/ exists s, r = Err s /\ io_status s).
Proof using FS.
  intros Hid Hsz Hoff Hn E.
  assert (Hd : dir w1 !! FinalName id = Some (NFile data)).
  { assert (Hw : wp (Write id data) (fun r w' => r = Ok tt -> dir w' !! FinalName id = Some (NFile data)) w).
    { apply wp_Write; [done| |done]. intros f o _ _ Hf _. unfold dir. cbn. rewrite Hf. apply lookup_insert_eq. }
    unfold wp in Hw. rewrite E in Hw. by apply Hw. }
  assert (Hr : wp (ReadRange id (str_size data) offset nbytes) (fun r w2 => dir w2 = dir w1 /\
    (r = Ok (take_bytes (Z.to_nat (Z.min nbytes (str_size data - offset)))
             (drop_bytes (Z.to_nat offset) data)) \/ exists s, r = Err s /\ io_status s)) w1).
  { apply wp_ReadRange; [lia|done|done|done|done| |].
    - intros w2 [Hd2 _]. split; [done|by left].
    - intros s w2 [Hd2 _] Hs. split; [done|]. right. by exists s. }
  exact Hr.
Qed.

End Files.

Lemma object_write_atomic_witness :
  (Write 3 "data" demo_storage).1 = Ok tt /\ dir (Write 3 "data" demo_storage).2 !! FinalName 3 = Some (NFile "data").
Proof.
  assert (E : (Write 3 "data" demo_storage).1 = Ok tt) by (vm_compute; reflexivity). split; [exact E|].
  pose proof (object_write_atomic 3 "data" demo_storage ltac:(split; reflexivity)) as Hw.
  destruct (Write 3 "data" demo_storage) as [r w']. cbn in E. subst r.
  destruct Hw as (_ & _ & _ & _ & Hd & _). cbn [snd]. rewrite Hd. apply lookup_insert_eq.
Defined.

Lemma object_cleanup_exact_witness :
  (Cleanup [3] (Write 3 "data" demo_storage).2).1 = Ok tt /\
  dir (Cleanup [3] (Write 3 "data" demo_storage).2).2 !! FinalName 3 = None.
Proof.
  assert (E : (Cleanup [3] (Write 3 "data" demo_storage).2).1 = Ok tt) by (vm_compute; reflexivity).
  split; [exact E|]. pose proof (object_cleanup_exact [3] (Write 3 "data" demo_storage).2) as Hw.
  destruct (Cleanup [3] (Write 3 "data" demo_storage).2) as [r w']. cbn in E. subst r.
  destruct Hw as (_ & _ & Hd & _). cbn [snd]. rewrite Hd, decide_True; [reflexivity|]. by right; left.
Defined.

Lemma object_write_read_witness :
  let '(r, w2) := ReadRange 3 (str_size "data") 1 2 (Write 3 "data" demo_storage).2 in
  dir w2 = dir (Write 3 "data" demo_storage).2 /\
  (r = Ok (take_bytes (Z.to_nat (Z.min 2 (str_size "data" - 1))) (drop_bytes (Z.to_nat 1) "data")) \/
   exists s, r = Err s /\ io_status s).
Proof.
  apply (object_write_read 3 "data" 1 2 demo_storage).
  - split; reflexivity.
  - split; [reflexivity|vm_compute; discriminate].
  - split; vm_compute; discriminate.
  - reflexivity.
  - apply run_eq. vm_compute. reflexivity.
Defined.

(** ** Starting up *)

Section Startup.
Context {R : RocksDB} {P : Protobuf} {F : PosixDir} {H : Host}.
Context {RS : RocksDBSpec} {PS : ProtobufSpec} {FS : PosixDirSpec}.

(** A new storage root is created as one batch: on success the database is the initial
    state, with the initialization message as its first entry, also after a crash; on failure
    it is that or empty, never anything in between. *)
Theorem initialize_new_atomic w :
  view w = ∅ ->
  let ms := Z.quot (os_system_clock (st_os w)).1 1000000 in
  is_Some (SerializeMessage (InitializationMessage ms)) ->
  let '(r, w') := InitializeNew_commit w in
  match r with
  | Ok _ => repr (view w') (initial_state ms) /\ WF (initial_state ms) /\ (forall x, disk w' x -> x = view w')
  | Err s => code s <> OK /\ (view w' = ∅ \/ repr (view w') (initial_state ms))
  end.
Proof using PS RS.
  intros Hv ms Hs. pose proof (InitializeNew_outcome w Hv Hs) as Hw. unfold wp in Hw. fold ms in Hw.
  destruct (InitializeNew_commit w) as [[[]|s] w']; [|done]. destruct Hw. split_and!; [done|apply WF_initial|done].
Qed.

(** Validation accepts every well-formed root: opening a root that the server itself left
    behind fails only when the database does, and changes nothing. *)
Theorem validate_accepts w a :
  repr (view w) a -> WF a ->
  let '(r, w') := Validate w in same_store w w' /\ (r = Ok tt \/ faulted r).
Proof using RS. intros Hr Hwf. exact (Validate_ok w a Hr Hwf). Qed.

End Startup.

Lemma initialize_new_atomic_witness :
  (InitializeNew_commit demo_storage).1 = Ok tt /\
  let '(r, w') := InitializeNew_commit demo_storage in
  match r with
  | Ok _ => repr (view w') (initial_state demo_ms) /\ WF (initial_state demo_ms) /\
            (forall x, disk w' x -> x = view w')
  | Err s => code s <> OK /\ (view w' = ∅ \/ repr (view w') (initial_state demo_ms))
  end.
Proof.
  split; [vm_compute; reflexivity|].
  apply (initialize_new_atomic demo_storage); [reflexivity|by eexists].
Defined.

Lemma validate_accepts_witness :
  (Validate (c_storage demo_w3)).1 = Ok tt /\
  let '(r, w') := Validate (c_storage demo_w3) in
  same_store (c_storage demo_w3) w' /\ (r = Ok tt \/ faulted r).
Proof.
  split; [vm_compute; reflexivity|].
  apply (validate_accepts (c_storage demo_w3) demo_a3 (proj1 demo3) (proj2 demo3)).
Defined.

(** ** The bound on the counters *)

Section Wrapping.
Context {R : RocksDB} {P : Protobuf} {F : PosixDir} {H : Host} {RS : RocksDBSpec}.

(** C40. Without room the uuid counter wraps: a request for three uuids when one is left is
    accepted; it hands out uuid 0, which the system's own first message has, and sets the
    counter back, so that uuids already used are handed out again. *)
Theorem allocation_wraps cfg w a :
  ~ fallible -> fatal_error_triggered w = false -> repr (cview w) a -> WF a ->
  a_next_uuid a = two64 - 1 ->
  exists w', AllocateUuids cfg 3 w = (Ok [two64 - 1; 0; 1], w') /\
    repr (cview w') (a_set_next_uuid a 2) /\ is_Some (a_uuids a !! 0).
Proof using RS.
  intros Hh Hav Hr Hwf Hn. pose proof (AllocateUuids_outcome cfg 3 w a Hav Hr Hwf) as Hout.
  unfold wp in Hout. unfold spec_allocate in Hout. rewrite Hn in Hout. cbn in Hout.
  destruct (AllocateUuids cfg 3 w) as [r w'].
  inversion Hout as [v a' w1 Hs Hr' _ _ _ E1 E2|e w1 Hs|s w1 []|s w1 (_ & (_ & Hf) & _)]; subst; [|done|done].
  injection Hs as <- <-. exists w'. split_and!; [done|done|].
  destruct (wf_initialization a Hwf) as (m & Hm & _ & Hu). exists 0. apply (wf_uuids _ Hwf). by exists m.
Qed.

End Wrapping.

(** The new root, with almost all uuids allocated. *)
Definition late_batch : WriteBatch := [BPut CF_meta kNextUuidKey (EncodeUint64 (two64 - 1))].

Definition late_w : @CoreW SafeRocks _ _ :=
  @MkCoreW SafeRocks _ _
    (@MkStorageW SafeRocks _ _ (apply_batch late_batch (@cview SafeRocks _ _ safe_w : Db))
       mem_dir (MkMemOs 0 0)) 0 false [] (@MkSubState SafeRocks None 0 0 0 StatusOk false).

Lemma allocation_wraps_witness :
  exists w', @AllocateUuids SafeRocks _ _ demo_cfg 3 late_w = (Ok [two64 - 1; 0; 1], w').
Proof.
  destruct safe0 as [Hr Hwf].
  destruct (@allocation_wraps SafeRocks _ _ _ SafeRocksSpec demo_cfg late_w
    (a_set_next_uuid demo_a0 (two64 - 1)) SafeRocks_healthy eq_refl) as (w' & E & _).
  - refine (repr_batch _ demo_a0 _ late_batch [(KNextUuid, Some (VU64 (two64 - 1)))] Hr _ _); [solve_ops|].
    intros k _. unfold tapply, tset. cbn [fold_left fst snd]. case_decide as Ek; [by subst k|]. by destruct k.
  - apply WF_set_next_uuid; [exact Hwf|]. split; [discriminate|reflexivity].
  - reflexivity.
  - by exists w'.
Defined.
