(* ===== verification/SubTheorems.v ===== *)
(** * Theorems: subscriptions

    What a subscriber may rely on: a stream starts and continues from a state at
    least as new as every commit before its request, it delivers the log in order
    without gaps or repetitions, it is never left waiting by the refresher, it
    catches up with the log, and it ends when its call is cancelled. *)

From stdpp Require Import relations.
From S2P Require Import Prelude Status Encoding Tokens Proto Json Platform Keys World FileStore.
From S2P Require Import Files Storage Core Commands Model Reads Scan Spec SystemMessages Refine.
From S2P Require Import Handlers ChannelHandlers Invariant Queries Pages Startup Objects Services.
From S2P Require Import Effects Requests Concurrency Tracks Subscription SubInvariant Delivery SubProgress CatchUp.
From S2P Require Import Unique History Reference Demo.

Section SubTheorems.
Context {R : RocksDB} {P : Protobuf} {F : PosixDir} {H : Host}.
Context {RS : RocksDBSpec} {PS : ProtobufSpec} {HS : HostSpec} {FS : PosixDirSpec}.
Context (cfg : CoreConfig).

(** The snapshot that ends a wait is the one in place, and new enough unless the server is
    closed or stopping. *)
Lemma acquired y g s v w' :
  acquire g (ss_core y) = (Some (Ok (s, v)), w') ->
  subscription_snapshot (c_sub (ss_core y)) = Some s /\
  (g <= subscription_snapshot_generation (c_sub (ss_core y)) \/
   fatal_error_triggered (ss_core y) = true \/ stop_subscription_snapshot_thread (c_sub (ss_core y)) = true).
Proof.
  unfold acquire, acquire_end, bind, get. destruct (acquire_ready g (ss_core y)) eqn:Er; [|done].
  destruct (negb _ && _) eqn:Eb; [done|].
  destruct (subscription_snapshot (c_sub (ss_core y))) as [s'|] eqn:Es;
    [|by destruct (fatal_error_triggered (ss_core y))].
  intros [= -> _ _]. split; [done|]. unfold acquire_ready in Er. rewrite Eb, orb_false_r, !orb_true_iff in Er.
  destruct Er as [[?|?]|?%Z.leb_le]; auto.
Qed.

(** C14. A subscriber reads its own writes, and everyone else's. The snapshot a stream gets
    always shows exactly the state the server was in at a moment of its run, whatever the
    server, the refresher thread and the other streams do; and this moment is not before the
    one at which the stream asked, so that every commit made until then is in it. The one
    exception is a server that a fatal storage error has closed, or whose core is being
    destroyed, when the wait ends: the stream is then given the last snapshot there was, which
    may be older. *)
Theorem subscription_reads_writes tr1 tr2 a st r0 w0 x y required w1 s v w' :
  SysInv a (MkSys (unstarted st) ∅) -> construct cfg st = (r0, w0) ->
  Budget (Z.of_nat (length tr1) + Z.of_nat (length tr2)) a ->
  Z.of_nat (length tr1) + Z.of_nat (length tr2) < two64 ->
  history cfg tr1 (MkSubSys (MkSys w0 ∅) r0 (MkEventService ∅ false) ∅) x ->
  acquire_begin (ss_core x) = (Ok required, w1) -> history cfg tr2 x y ->
  acquire required (ss_core y) = (Some (Ok (s, v)), w') ->
  exists z c, z ∈ tr1 ++ tr2 /\ SysInv c (ss_sys z) /\ repr (snap_view s) c /\
    ((z ∈ tr2 /\ forall ax, SysInv ax (ss_sys x) -> Extends ax c) \/
     fatal_error_triggered (ss_core y) = true \/
     stop_subscription_snapshot_thread (c_sub (ss_core y)) = true).
Proof using FS HS PS RS.
  intros Hsys Hc Hb Hn Hh1 Hbegin Hh2 Hacq.
  destruct (Taken_construct cfg a st r0 w0 Hsys Hc) as (Hinv0 & Hg0 & Ht0 & _).
  destruct (history_invariant cfg (Z.of_nat (length tr2)) tr1 _ a a _ x ltac:(lia) Hinv0 Hb) as
    (ax & bx & Hinvx & Hxx & Hbx & _ & Hgx & Hall1); [unfold ss_core; cbn; lia|done|].
  destruct (history_invariant cfg 0 tr2 _ ax bx x y ltac:(lia) Hinvx) as
    (ay & by' & Hinvy & _ & _ & Hle & _ & Hall2); [by rewrite Z.add_0_r|lia|done|].
  assert (Hx : fatal_error_triggered (ss_core x) = false /\ required = commit_generation (ss_core x)).
  { revert Hbegin. unfold acquire_begin, EnsureAvailable, bind_ok, bind, get.
    destruct (fatal_error_triggered (ss_core x)); [done|]. by intros [= <- _]. }
  destruct Hx as [Hopenx ->]. destruct (acquired y _ s v w' Hacq) as [Es Hnew].
  destruct (history_first _ _ _ _ Hh1) as [tr1' E1]. destruct (history_first _ _ _ _ Hh2) as [tr2' E2].
  destruct (decide (commit_generation (ss_core x) <= subscription_snapshot_generation (c_sub (ss_core y)))) as [Hge|Hlt].
  - destruct (Hall2 (commit_generation (ss_core x)) (eq ax) (during ax tr2)) as [[Ht _] _].
    + intros c [<-|Hd]; [|done]. exists x. split_and!; [rewrite E2; by left|apply Hinvx|done].
    + by eapply Taken_now.
    + destruct (Ht s Es Hge) as (c & (z & Hz & Hcz & Hxc) & _ & Hr). exists z, c.
      split_and!; [apply elem_of_app; by right|done|done|]. left. split; [done|]. intros ax' Hax'.
      by rewrite (repr_inj _ _ _ (si_repr _ _ Hax') (si_repr _ _ (xi_sys _ _ _ _ Hinvx))
        (si_wf _ _ Hax') (si_wf _ _ (xi_sys _ _ _ _ Hinvx))).
  - destruct (Hall1 0 (eq a) (during a tr1)) as [Htx _]; [|done|].
    { intros c [<-|Hd]; [|done]. eexists. split_and!; [rewrite E1; by left|apply Hinv0|done]. }
    destruct (Hall2 0 (during a tr1) (during a (tr1 ++ tr2))) as [[Ht _] _]; [|done|].
    { intros c [Hd|Hd]; [by apply during_app_l|apply during_app_r; by eapply during_extends]. }
    destruct (Ht s Es) as (c & (z & Hz & Hcz & _) & _ & Hr).
    { destruct Hinvy. cbv zeta in xi_generations. lia. }
    exists z, c. split_and!; [done..|]. right. destruct Hnew as [?|?]; [lia|done].
Qed.

(** C6. From the construction of the core on, at every moment of a run, what a stream has
    sent is in the order of the log, each message once. Every message sent was in the log at
    a moment of this run at which the subscriber was entitled to it: its credential was
    valid, it could read the channel (the system channel, a public or protected one, or one
    it was a member of), and the message was of the channels and for the recipient it asked
    for. Of the messages of channels open to everyone that the request asks for, none before
    the last one sent is missing, and none before the next sequence number while the stream
    waits for more. *)
Theorem stream_delivery tr a st r0 w0 y i sm :
  SysInv a (MkSys (unstarted st) ∅) -> construct cfg st = (r0, w0) ->
  Budget (Z.of_nat (length tr)) a -> Z.of_nat (length tr) < two64 ->
  history cfg tr (MkSubSys (MkSys w0 ∅) r0 (MkEventService ∅ false) ∅) y ->
  ss_streams y !! i = Some sm ->
  let req := sm_req sm in
  exists a', SysInv a' (ss_sys y) /\ Extends a a' /\
    StronglySorted seq_lt (sm_sent sm) /\
    (forall m, m ∈ sm_sent sm -> m ∈ a_log a' /\ sq_from_seq req <= em_seq m /\
       exists z b, z ∈ tr /\ SysInv b (ss_sys z) /\ entitled b req m) /\
    (forall m m', m ∈ a_log a' -> asked_for a' req m -> sq_from_seq req <= em_seq m ->
       m' ∈ sm_sent sm -> em_seq m <= em_seq m' -> m ∈ sm_sent sm) /\
    (forall m v, sm_phase sm = PLoop \/ sm_phase sm = PIdle v -> m ∈ a_log a' ->
       asked_for a' req m -> sq_from_seq req <= em_seq m < sm_next_seq sm -> m ∈ sm_sent sm).
Proof using FS HS PS RS.
  intros Hsys Hc Hb Hn Hh Hi req.
  destruct (Taken_construct cfg a st r0 w0 Hsys Hc) as (Hinv0 & Hg0 & Ht0 & Hs0).
  destruct (history_invariant cfg 0 tr _ a a _ y ltac:(lia) Hinv0) as
    (a' & b' & Hinv' & Hx & _ & _ & _ & Hall); [by rewrite Z.add_0_r|unfold ss_core; cbn; lia|done|].
  destruct (history_first _ _ _ _ Hh) as [tr' E].
  destruct (Hall 0 (eq a) (during a tr)) as [_ Hsent]; [|done|].
  { intros c [<-|Hd]; [|done]. eexists. split_and!; [rewrite E; by left|apply Hinv0|done]. }
  specialize (Hsent eq_refl Hs0 i sm Hi).
  exists a'. destruct Hinv'. destruct (xi_streams i sm Hi) as [Hreq Hph]. pose proof (si_wf _ _ xi_sys) as Hwf.
  assert (Hf : 0 <= sq_from_seq req) by (destruct Hreq as (_ & [? ?] & _); done).
  destruct (sent_delivered _ _ _ (xi_streams i sm Hi)) as (next & rest & Hd). fold req in Hd.
  pose proof (delivered_sorted _ _ _ _ Hd Hwf Hf) as Hsort.
  destruct (delivered_bounds _ _ _ _ Hd Hwf Hf) as [_ Hin]. split_and!; [done|done| | | |].
  - by apply StronglySorted_app in Hsort as (_ & ? & _).
  - intros m Hm. destruct (Hin m ltac:(apply elem_of_app; by left)) as [? [? _]]. split_and!; try done.
    destruct (Hsent m ltac:(apply elem_of_app; by left)) as (c & (z & Hz & Hcz & _) & Hent). by exists z, c.
  - intros m m' Hm Hw%asked_wanted Hfrom Hm' Hle.
    destruct (Hin m' ltac:(apply elem_of_app; by left)) as [_ Hb'].
    eapply (StronglySorted_app_before seq_lt); [done| |done|unfold seq_lt; lia].
    eapply delivered_complete; try done. lia.
  - intros m v Hp Hm Hw%asked_wanted Hb'.
    assert (Hd' : delivered a' req (sm_next_seq sm) (sm_sent sm)).
    { destruct Hp as [Hp|Hp]; rewrite Hp in Hph; apply Hph. }
    by eapply delivered_complete.
Qed.

(** C19. A stream waits for the refresher thread for at most five of its moves, whatever else
    runs in between and whether or not the database fails: a run with that many moves ends
    every wait for a commit made before the run. *)
Theorem waiting_streams_served k n mk a b x y required :
  SubInv mk a b x -> Budget (Z.of_nat n) a -> commit_generation (ss_core x) + Z.of_nat n < two64 ->
  required <= commit_generation (ss_core x) -> paced cfg k n x y -> (5 <= k)%nat ->
  exists r w', acquire required (ss_core y) = (Some r, w').
Proof using FS HS PS RS.
  intros Hinv Hb Hg Hreq Hp Hk.
  pose proof (paced_ready cfg required k n mk a b x y Hinv Hb Hg Hreq Hp Hk) as Hr.
  unfold acquire, bind, get. rewrite Hr. destruct (acquire_end required (ss_core y)) as [r w'].
  by exists r, w'.
Qed.

(** C16. When the server stops its subscriptions it cancels exactly the streams that run and
    admits no other; and a stream whose call is cancelled returns, in at most 104 steps or as
    many as its batch in hand needs, once the snapshot it waits for is there. *)
Theorem stopped_streams_end mk a b x i sm :
  SubInv mk a b x -> a_max_seq a < two64 - 1 -> ss_streams x !! i = Some sm ->
  (forall g, awaits (ss_core x) sm = Some g -> acquire_ready g (ss_core x) = true) ->
  let '(cancelled, e') := StopSubscriptions (ss_service x) in
  (forall j, j ∈ cancelled <-> is_Some (ss_streams x !! j)) /\
  (forall j, RegisterSubscription j e' = (false, e')) /\
  ended (run_cancelled cfg (cancel_bound sm) sm (ss_core x)).1.
Proof using RS.
  intros [] Hmax Hi Hready. cbn. split_and!.
  - intros j. rewrite elem_of_elements, <- xi_registered. apply elem_of_dom.
  - done.
  - destruct xi_old as [Hwf Hx]. pose proof (Extends_max_seq b a Hx).
    assert (Hw : wp (run_cancelled cfg (cancel_bound sm) sm) (fun sm' _ => ended sm') (ss_core x)).
    { apply (cancelled_ends cfg a b); [done|lia| |by eapply xi_streams|done].
      intros s E. apply (sh_repr _ _ _ _ _ _ (xi_snapshot s E)). }
    unfold wp in Hw. by destruct (run_cancelled cfg _ sm (ss_core x)).
Qed.

(** The server runs: it is open and not stopping, and the refresher has not failed. *)
Definition undisturbed (w : CoreW) : bool :=
  negb (fatal_error_triggered w) && negb (stop_subscription_snapshot_thread (c_sub w)) &&
  bool_decide (is_Some (subscription_snapshot (c_sub w))) && status_ok (subscription_snapshot_status (c_sub w)).

Lemma undisturbed_current required w :
  undisturbed w = true -> acquire_ready required w = true -> commit_generation w = required ->
  snapshot_current w = true.
Proof.
  unfold undisturbed, acquire_ready, snapshot_current. intros Hu Hr <-. rewrite !andb_true_iff, !negb_true_iff in Hu.
  destruct Hu as [[[Hf Hst] Hs] Hok]. rewrite Hf, Hst, Hok in Hr. rewrite Hf, Hok, Hs.
  cbn in Hr. rewrite orb_false_r in Hr. by rewrite Hr.
Qed.

(** C18. A stream catches up. Once nothing is committed any more and the refresher has moved five
    times, whatever else runs, a stream that has work to do and whose client takes what is written
    ends, in a number of steps the length of the log bounds, waiting for more with every message of
    the log sent that the request asks for in channels open to everyone; unless the request is
    refused on the current state or starts beyond the log, or the storage fails and closes the
    server. *)
Theorem streams_catch_up k n mk a b x y i sm :
  0 < max_scan_records cfg ->
  SubInv mk a b x -> Budget (Z.of_nat n) a -> commit_generation (ss_core x) + Z.of_nat n < two64 ->
  paced cfg k n x y -> (5 <= k)%nat -> commit_generation (ss_core y) = commit_generation (ss_core x) ->
  undisturbed (ss_core y) = true -> ss_streams y !! i = Some sm -> asks (ss_core y) sm = true ->
  let req := sm_req sm in
  exists a' j, SysInv a' (ss_sys y) /\ (j <= catch_bound a' sm)%nat /\
    let '(sm', w') := run_stream cfg j sm (ss_core y) in
    fatal_error_triggered w' = true \/
    (exists e, spec_subscriber a' req = Err e /\ sm_phase sm' = PDone (ToGrpc e)) \/
    (sm_phase sm' = PDone (OUT_OF_RANGE, "from_seq exceeds max_seq + 1") /\ a_max_seq a' + 1 < sq_from_seq req) \/
    (exists v, sm_phase sm' = PIdle v) /\
    forall m, m ∈ a_log a' -> wanted a' req m = true -> sq_from_seq req <= em_seq m -> m ∈ sm_sent sm'.
Proof using FS HS PS RS.
  intros Hscan Hinv Hb Hg Hp Hk Hgen Hu Hi Hask req.
  pose proof (paced_ready cfg (commit_generation (ss_core x)) k n mk a b x y Hinv Hb Hg ltac:(lia) Hp Hk) as Hr.
  pose proof (undisturbed_current _ _ Hu Hr Hgen) as Hcur.
  destruct (sub_steps_preserved cfg n mk a b x y Hinv Hb Hg (paced_steps cfg k n x y Hp)) as (a' & b' & Hinv' & _ & _ & Hroom).
  destruct (SubInv_current mk a' b' y Hinv' Hcur) as (s & Hc & ->). pose proof Hinv' as [].
  pose proof (si_wf _ _ xi_sys) as Hwf. assert (Hm' : a_max_seq a' < two64 - 1) by (unfold Budget in Hroom; lia).
  destruct (stream_catches cfg Hscan a' Hwf Hm' a' sm (ss_core y) s Hc (xi_streams i sm Hi) ltac:(lia) Hask)
    as (j & Hj & Hcaught).
  pose proof (run_stream_ok cfg a' a' j sm (ss_core y) Hwf ltac:(done) Hm') as Hok.
  pose proof (run_stream_req cfg j sm (ss_core y)) as Hreq. fold req in Hreq.
  exists a', j. split; [done|]. split; [done|]. unfold wp in Hcaught, Hok.
  destruct (run_stream cfg j sm (ss_core y)) as [sm' w']. cbn in Hreq. unfold caught_up in Hcaught. rewrite Hreq in Hcaught.
  destruct Hcaught as [?|[?|[?|(v & Hv & Hn)]]]; [by left|by right; left|by right; right; left|]. right; right; right.
  split; [by exists v|]. destruct Hok as [_ [Hq Hph]].
  { intros s' Hs'. rewrite (cu_snapshot _ _ _ Hc) in Hs'. injection Hs' as <-. apply Hc. }
  { by eapply xi_streams. }
  rewrite Hv, Hn in Hph. destruct Hph as [Hd _]. intros m Hm Hw Hf. rewrite Hreq in Hd, Hq.
  eapply delivered_complete; [done|done|apply Hq|done| |done].
  split; [done|]. apply list_elem_of_lookup in Hm as (l & Hl). destruct (wf_log _ Hwf _ _ Hl) as (-> & _).
  apply lookup_lt_Some in Hl. unfold a_max_seq. lia.
Qed.

End SubTheorems.

(** ** Witnesses *)

Definition sub_storage : StorageW := c_storage demo_w3.

(** The core constructed on the storage of the run, and a request after it. *)
Definition sub_core : CoreW := (construct demo_cfg sub_storage).2.
Definition sub_refresher : Refresher := (construct demo_cfg sub_storage).1.

Definition started (r : Refresher) (w : CoreW) : SubSys :=
  MkSubSys (MkSys w ∅) r (MkEventService ∅ false) ∅.

Definition sub_served : CoreW := (serve demo_cfg (RAllocateUuids 1) sub_core).2.

(** A move of the refresher. *)
Definition refreshed (x : SubSys) : SubSys :=
  MkSubSys (with_core x (refresh demo_cfg (ss_refresher x) (ss_core x)).2)
    (refresh demo_cfg (ss_refresher x) (ss_core x)).1 (ss_service x) (ss_streams x).

Definition sub_y : SubSys := refreshed (refreshed (refreshed (started sub_refresher sub_served))).

Lemma sub_sys_inv : SysInv demo_a3 (MkSys (unstarted sub_storage) ∅).
Proof. exact (SysInv_unstarted demo_a3 demo_sys demo_sys_inv eq_refl). Qed.

Lemma sub_constructed : construct demo_cfg sub_storage = (sub_refresher, sub_core).
Proof. apply surjective_pairing. Qed.

Lemma sub_inv0 :
  SubInv (demo_a3, 0) demo_a3 demo_a3 (started sub_refresher sub_core) /\ commit_generation sub_core = 0.
Proof. exact (wp_run _ _ _ _ _ (SubInv_construct demo_cfg demo_a3 sub_storage sub_sys_inv) sub_constructed). Qed.

Lemma sub_budget : Budget 16 demo_a3.
Proof. split_and!; vm_compute; reflexivity. Qed.

Lemma refreshed_step x : sub_step demo_cfg x (refreshed x).
Proof. apply X_refresh, surjective_pairing. Qed.

Lemma served_step r req w :
  request_ok req -> sub_step demo_cfg (started r w) (started r (serve demo_cfg req w).2).
Proof. intros Hreq. exact (X_server demo_cfg (started r w) _ (S_serve demo_cfg req (MkSys w ∅) Hreq)). Qed.

Lemma sub_run_y : nsteps (sub_step demo_cfg) 4 (started sub_refresher sub_core) sub_y.
Proof.
  eapply nsteps_l; [|do 3 (eapply nsteps_l; [apply refreshed_step|]); apply nsteps_O].
  apply (served_step sub_refresher (RAllocateUuids 1) sub_core). cbn. lia.
Qed.

Lemma run_acquire_begin `{R : RocksDB, F : PosixDir, H : Host} (w : CoreW) :
  fatal_error_triggered w = false -> acquire_begin w = (Ok (commit_generation w), w).
Proof. unfold acquire_begin, EnsureAvailable, bind_ok, bind, get. by intros ->. Qed.

(** The version of the snapshot acquired. *)
Lemma acquired_version `{R : RocksDB, F : PosixDir, H : Host} g v (w : CoreW) :
  match (acquire g w).1 with Some (Ok (_, v')) => v' =? v | _ => false end = true ->
  exists s, (acquire g w).1 = Some (Ok (s, v)).
Proof. destruct (acquire g w).1 as [[[s v']|]|]; try done. intros ->%Z.eqb_eq. by exists s. Qed.

Lemma subscription_reads_writes_witness :
  exists s c, (acquire 0 (ss_core sub_y)).1 = Some (Ok (s, 2)) /\ repr (snap_view s) c /\ Extends demo_a3 c.
Proof.
  destruct sub_inv0 as [Hinv Hg].
  destruct (acquired_version 0 2 (ss_core sub_y)) as [s Hs]; [vm_compute; reflexivity|].
  destruct (history_of_steps demo_cfg _ _ _ sub_run_y) as (tr & Hh & Hl).
  destruct (subscription_reads_writes demo_cfg [started sub_refresher sub_core] tr demo_a3 sub_storage
    sub_refresher sub_core (started sub_refresher sub_core) sub_y 0 sub_core s 2
    (acquire 0 (ss_core sub_y)).2) as (z & c & _ & _ & Hr & Hnew).
  - exact sub_sys_inv.
  - exact sub_constructed.
  - rewrite Hl. eapply Budget_mono; [|exact sub_budget]. cbn. lia.
  - rewrite Hl. reflexivity.
  - apply History_start.
  - rewrite <- Hg. apply run_acquire_begin. vm_compute. reflexivity.
  - exact Hh.
  - by apply run_eq.
  - exists s, c. split; [exact Hs|]. split; [exact Hr|]. destruct Hnew as [[_ Hx]|[Hf|Hf]].
    + apply Hx. exact (xi_sys _ _ _ _ Hinv).
    + vm_compute in Hf. discriminate Hf.
    + vm_compute in Hf. discriminate Hf.
Defined.

(** A subscriber that reads the log from its start. *)
Definition sub_request : SubscribeRequest := MkSubscribeRequest 5 demo_token 0 false [].

Fixpoint stream_run (k : nat) (sm : Stream) (w : CoreW) : Stream * CoreW :=
  match k with
  | O => (sm, w)
  | S k => stream_run k (stream_step demo_cfg false true sm w).1 (stream_step demo_cfg false true sm w).2
  end.

Definition streaming (r : Refresher) (x : Stream * CoreW) : SubSys :=
  MkSubSys (MkSys x.2 ∅) r (MkEventService {[7]} false) {[7 := x.1]}.

Lemma stream_run_steps r k sm w :
  nsteps (sub_step demo_cfg) k (streaming r (sm, w)) (streaming r (stream_run k sm w)).
Proof.
  revert sm w. induction k as [|k IH]; intros sm w; [apply nsteps_O|]. eapply nsteps_l; [|apply IH].
  pose proof (X_stream demo_cfg (streaming r (sm, w)) 7 sm false true
    (stream_step demo_cfg false true sm w).1 (stream_step demo_cfg false true sm w).2
    (lookup_singleton_eq 7 sm) (surjective_pairing _)) as Hs.
  unfold streaming, with_core in *. cbn in Hs. by rewrite insert_singleton_eq in Hs.
Qed.

Lemma subscribe_step r w :
  sub_step demo_cfg (started r w) (streaming r (open_stream sub_request, w)).
Proof.
  assert (Hreq : subscribe_request_ok sub_request) by (split_and!; [done|done|constructor]).
  pose proof (X_subscribe demo_cfg (started r w) 7 sub_request (MkEventService ({[7]} ∪ ∅) false) Hreq
    (lookup_empty 7) eq_refl) as Hs.
  rewrite union_empty_r_L in Hs. exact Hs.
Qed.

Definition sub_streamed : Stream * CoreW := stream_run 7 (open_stream sub_request) (sub_core).

Lemma stream_delivery_witness :
  (em_seq <$> sm_sent sub_streamed.1) = [0; 1] /\ sm_phase sub_streamed.1 = PIdle 1 /\
  (forall m, m ∈ sm_sent sub_streamed.1 -> exists b, entitled b sub_request m) /\
  exists a', Extends demo_a3 a' /\
    (forall m, m ∈ a_log a' -> asked_for a' sub_request m -> 0 <= em_seq m < 2 ->
       m ∈ sm_sent sub_streamed.1).
Proof.
  assert (Hp : sm_phase sub_streamed.1 = PIdle 1) by (vm_compute; reflexivity).
  assert (Hn : sm_next_seq sub_streamed.1 = 2) by (vm_compute; reflexivity).
  assert (Hq : sm_req sub_streamed.1 = sub_request) by (vm_compute; reflexivity).
  assert (Hrun : nsteps (sub_step demo_cfg) 8 (started sub_refresher sub_core) (streaming sub_refresher sub_streamed)).
  { eapply nsteps_l; [apply subscribe_step|]. apply stream_run_steps. }
  destruct (history_of_steps demo_cfg _ _ _ Hrun) as (tr & Hh & Hl).
  split; [vm_compute; reflexivity|]. split; [exact Hp|].
  destruct (stream_delivery demo_cfg tr demo_a3 sub_storage sub_refresher
    sub_core (streaming sub_refresher sub_streamed) 7 sub_streamed.1)
    as (a' & _ & Hx & _ & Hsent & _ & Hall).
  - exact sub_sys_inv.
  - exact sub_constructed.
  - rewrite Hl. eapply Budget_mono; [|exact sub_budget]. lia.
  - rewrite Hl. reflexivity.
  - exact Hh.
  - apply lookup_singleton_eq.
  - rewrite Hq in Hsent, Hall. rewrite Hn in Hall. split.
    + intros m Hm. destruct (Hsent m Hm) as (_ & _ & z & b & _ & _ & Hent). by exists b.
    + exists a'. split; [exact Hx|]. intros m Hm Hw Hb. apply (Hall m 1); [by right|exact Hm|exact Hw|exact Hb].
Defined.

Lemma waiting_streams_served_witness :
  exists r w', acquire 0 (ss_core (refreshed (refreshed (refreshed (refreshed (refreshed (started sub_refresher sub_core))))))) = (Some r, w').
Proof.
  destruct sub_inv0 as [Hinv Hg].
  refine (waiting_streams_served demo_cfg 5 5 (demo_a3, 0) demo_a3 demo_a3 (started sub_refresher sub_core) _ 0 Hinv _ _ _ _ _).
  - eapply Budget_mono; [|exact sub_budget]. lia.
  - change (ss_core (started sub_refresher sub_core)) with sub_core. rewrite Hg. reflexivity.
  - change (ss_core (started sub_refresher sub_core)) with sub_core. rewrite Hg. reflexivity.
  - do 5 (eapply Paced_refresh; [apply surjective_pairing|]). apply Paced_nil.
  - lia.
Defined.

Lemma open_awaits `{R : RocksDB, F : PosixDir, H : Host} (w : CoreW) req g :
  awaits w (open_stream req) = Some g -> g = commit_generation w.
Proof. by intros [= <-]. Qed.

Lemma sub_ready : acquire_ready (commit_generation sub_core) sub_core = true.
Proof. vm_compute. reflexivity. Qed.

Lemma stopped_streams_end_witness :
  ended (run_cancelled demo_cfg 104 (open_stream sub_request) (sub_core)).1.
Proof.
  destruct sub_inv0 as [Hinv Hg].
  destruct (sub_step_preserved demo_cfg (demo_a3, 0) demo_a3 demo_a3 _ _ Hinv
    (Budget_mono 16 1 demo_a3 ltac:(lia) sub_budget) ltac:(unfold started, ss_core; cbn; rewrite Hg; reflexivity) (subscribe_step sub_refresher sub_core))
    as (a' & b' & Hinv' & _ & _ & Hbd & _).
  destruct (stopped_streams_end demo_cfg (demo_a3, 0) a' b' _ 7 (open_stream sub_request) Hinv') as (_ & _ & He).
  - destruct Hbd as [Hbd _]. pose proof sub_budget as (Hb & _). lia.
  - apply lookup_singleton_eq.
  - intros g E. rewrite (open_awaits _ _ _ E). exact sub_ready.
  - exact He.
Defined.

(** A new subscriber after five moves of the refresher. *)
Definition sub_ahead : SubSys :=
  refreshed (refreshed (refreshed (refreshed (refreshed (streaming sub_refresher (open_stream sub_request, sub_core)))))).

Lemma streams_catch_up_witness :
  exists a' j, (j <= catch_bound a' (open_stream sub_request))%nat /\
    let '(sm', w') := run_stream demo_cfg j (open_stream sub_request) (ss_core sub_ahead) in
    fatal_error_triggered w' = true \/
    (exists e, spec_subscriber a' sub_request = Err e /\ sm_phase sm' = PDone (ToGrpc e)) \/
    (sm_phase sm' = PDone (OUT_OF_RANGE, "from_seq exceeds max_seq + 1") /\ a_max_seq a' + 1 < 0) \/
    (exists v, sm_phase sm' = PIdle v) /\
    forall m, m ∈ a_log a' -> wanted a' sub_request m = true -> 0 <= em_seq m -> m ∈ sm_sent sm'.
Proof.
  destruct sub_inv0 as [Hinv Hg].
  destruct (streams_catch_up demo_cfg 5 6 (demo_a3, 0) demo_a3 demo_a3 (started sub_refresher sub_core) sub_ahead 7
    (open_stream sub_request)) as (a' & j & _ & Hj & Hend).
  - reflexivity.
  - exact Hinv.
  - eapply Budget_mono; [|exact sub_budget]. lia.
  - change (ss_core (started sub_refresher sub_core)) with sub_core. rewrite Hg. reflexivity.
  - eapply Paced_step; [apply subscribe_step|].
    do 5 (eapply Paced_refresh; [apply surjective_pairing|]). apply Paced_nil.
  - lia.
  - vm_compute. reflexivity.
  - vm_compute. reflexivity.
  - apply lookup_singleton_eq.
  - vm_compute. reflexivity.
  - exists a', j. split; [exact Hj|exact Hend].
Defined.

(** What it comes to there. *)
Example sub_caught_up :
  let '(sm', _) := run_stream demo_cfg 7 (open_stream sub_request) (ss_core sub_ahead) in
  sm_phase sm' = PIdle 1 /\ (em_seq <$> sm_sent sm') = [0; 1].
Proof. vm_compute. by split. Qed.
