(* ===== verification/RootTheorems.v ===== *)
(** * Theorems: storage roots

    Which directories the server turns into a root, when a new root is on disk, and
    what a root holds when it is opened. *)

From S2P Require Import Prelude Status Encoding Tokens Proto Json Platform Keys World FileStore.
From S2P Require Import Files Storage Core Commands Model Reads Scan Spec SystemMessages Refine.
From S2P Require Import Handlers ChannelHandlers Invariant Queries Pages Startup Objects Services.
From S2P Require Import Effects Requests Concurrency Subscription Root RootOpen Reference Demo RootReference.

Section RootTheorems.
Context {R : RocksDB} {P : Protobuf} {F : PosixDir} {H : Host} {T : RootFs} {E : RocksEnv}.
Context {RS : RocksDBSpec} {PS : ProtobufSpec} {FS : PosixDirSpec} {TS : RootFsSpec} {ES : RocksEnvSpec}.

(** C35. The server never turns something else into a storage root: a path that exists and is
    not an empty directory is refused, and nothing on disk is touched, unless it holds exactly
    the directories [db] and [objects]. *)
Theorem open_refuses_foreign path w :
  let v := tr_view (rw_tree w) in
  is_Some (v !! path) -> (v !! path = Some true -> exists n, is_name n = true /\ is_Some (v !! path_join path n)) ->
  ~ root_layout v path ->
  let '(r, w') := Open path w in (exists s, r = Err s /\ code s <> OK) /\ same_root w w'.
Proof using TS.
  intros v Hex Hne Hlay.
  cut (wp (Open path) (fun r w' => (exists s, r = Err s /\ code s <> OK) /\ same_root w w') w).
  { unfold wp. by destruct (Open path w). }
  unfold Open. destruct (str_empty path); [apply wp_ret; split; [by eexists|done]|].
  apply wp_bind. eapply wp_mono; [|apply IsNewStorageRoot_ok]. intros b w1 [H1 Hb].
  assert (Hold : b = false).
  { destruct b; [|done]. destruct (Hb eq_refl) as [Hn|[Hd Hn]]; [fold v in Hn; rewrite Hn in Hex; by destruct Hex|].
    destruct (Hne Hd) as (n & Hname & x & Hx). fold v in Hn. by rewrite (Hn n Hname) in Hx. }
  subst b. unfold OpenChecked, bind_ok. apply wp_bind, wp_ret, wp_bind.
  eapply wp_mono; [|apply ValidateStorageRootLayout_ok]. intros [[]|s] w2 [H2 Hr].
  - destruct H1 as ([Hv _] & _). rewrite Hv in Hr. by destruct Hlay.
  - apply wp_ret. split; [by eexists|by etransitivity].
Qed.

(** C36. When the directories of a new root have been created, the root and both directories
    are there, and every directory that was created is on disk in its parent; otherwise the
    call reports why. The search for an existing ancestor always ends. *)
Theorem new_directories_durable path w :
  let '(r, w') := CreateStorageDirectories path w in
  tr_view (rw_tree w) ⊆ tr_view (rw_tree w') /\
  match r with
  | Ok _ => exists root t, tr_absolute path (rw_tree w) = (inr root, t) /\
      (forall p, p = root \/ p = path_join root "db" \/ p = path_join root "objects" ->
         tr_view (rw_tree w') !! p = Some true) /\
      (forall p, is_Some (tr_view (rw_tree w') !! p) -> tr_view (rw_tree w) !! p = None ->
         p ∈ tr_durable (rw_tree w'))
  | Err s => code s = UNAVAILABLE
  end.
Proof using TS.
  pose proof (CreateStorageDirectories_ok path w) as Hw. unfold wp in Hw.
  destruct (CreateStorageDirectories path w) as [r w']. destruct Hw as [(Hv & _) Hr]. by split.
Qed.

(** C32. Opening a root that holds the state [a] gives a storage with everything that was
    committed and no unfinished object, all of it on disk; if it fails, the database still holds
    [a] or that recovered state, and only names of unfinished objects were touched. *)
Theorem open_existing_root path w a fams d :
  is_Some (tr_view (rw_tree w) !! path) -> is_Some (tr_view (rw_tree w) !! DatabasePath path) ->
  env_view (rw_env w) (DatabasePath path) = Some (fams, d) -> repr d a -> WF a ->
  let '(r, w') := Open path w in
  match r with
  | Ok st => repr (view st) (a_recovered a) /\ WF (a_recovered a) /\ disk_now st /\
             dir st = without (so_object_id <$> preparing_objects a) (fs_view (rw_objects w))
  | Err s => code s <> OK /\ left_behind a path w w'
  end.
Proof using ES FS RS TS.
  intros Hex Hdb Hd Hr Hwf.
  pose proof (Open_existing path w a fams d Hex Hdb Hd Hr Hwf) as Hopen. unfold wp in Hopen.
  destruct (Open path w) as [[st|s] w']; [|done]. destruct Hopen as (? & ? & ? & _).
  split_and!; [done|by apply WF_recovered|done|done].
Qed.

(** Opening a path with no database gives a storage with the initial state and no object
    files, from which a server can be constructed; or it fails. *)
Theorem open_new_root path w :
  env_view (rw_env w) (DatabasePath path) = None -> fs_view (rw_objects w) = ∅ ->
  let ms := Z.quot (os_system_clock (rw_os w)).1 1000000 in
  is_Some (SerializeMessage (InitializationMessage ms)) ->
  let '(r, w') := Open path w in
  match r with
  | Ok st => repr (view st) (initial_state ms) /\
             SysInv (initial_state ms) (MkSys (unstarted st) ∅)
  | Err s => code s <> OK
  end.
Proof using ES FS PS RS TS.
  intros Hnone Hobj ms Hser. pose proof (Open_new path w Hnone Hser) as Hopen. unfold wp in Hopen.
  destruct (Open path w) as [[st|s] w']; [|apply Hopen].
  destruct Hopen as (w1 & Ho & (_ & _ & Hnew & root & t & Hroot & Hdirs) & Hr & Hnow & Hd & _).
  assert (Hempty : dir st = ∅).
  { rewrite Hd, Ho, Hobj. apply map_eq. intros k. by rewrite without_lookup, lookup_empty; case_decide. }
  split; [exact Hr|]. by apply (SysInv_initial ms (unstarted st)).
Qed.

End RootTheorems.

(** ** On the reference disk *)

Definition is_ok {A} (r : Result A) : bool := match r with Ok _ => true | Err _ => false end.

Lemma is_ok_inv {A} (r : Result A) : is_ok r = true -> exists v, r = Ok v.
Proof. destruct r as [v|]; [|done]. by exists v. Qed.

Lemma open_refuses_foreign_witness :
  exists s, (Open "/srv" demo_foreign_root).1 = Err s /\ code s <> OK.
Proof.
  pose proof (open_refuses_foreign "/srv" demo_foreign_root) as Ht. cbv zeta in Ht.
  destruct (Open "/srv" demo_foreign_root) as [r w'].
  destruct Ht as [Hr _].
  - by exists true.
  - intros _. exists "www". split; [reflexivity|]. by exists true.
  - intros (Hn & _). by destruct (Hn "www" eq_refl ltac:(by exists true)).
  - exact Hr.
Defined.

Lemma new_directories_durable_witness :
  "/srv/oe/db" ∈ tr_durable (rw_tree (CreateStorageDirectories "/srv/oe" demo_new_root).2).
Proof.
  pose proof (new_directories_durable "/srv/oe" demo_new_root) as Ht.
  destruct (CreateStorageDirectories "/srv/oe" demo_new_root) as [r w'] eqn:Er. destruct Ht as [_ Hr].
  assert (Hok : is_ok r = true) by (change r with (r, w').1; rewrite <- Er; vm_compute; reflexivity).
  destruct r as [u|]; [|done]. destruct Hr as (root & t & Ha & Hp & Hd). cbn in Ha. injection Ha as <- <-.
  apply Hd; [|reflexivity]. exists true. apply Hp. right; left. reflexivity.
Defined.

Lemma open_existing_root_witness :
  exists st, (Open "/srv/oe" demo_old_root).1 = Ok st /\ repr (view st) (a_recovered demo_a3).
Proof.
  destruct demo3 as [Hr Hwf].
  pose proof (open_existing_root "/srv/oe" demo_old_root demo_a3 known_families (cview demo_w3)) as Ht.
  assert (Hok : is_ok (Open "/srv/oe" demo_old_root).1 = true) by (vm_compute; reflexivity).
  destruct (Open "/srv/oe" demo_old_root) as [r w'].
  destruct (is_ok_inv r Hok) as [st ->]. exists st. split; [reflexivity|]. apply Ht.
  - by exists true.
  - by exists true.
  - apply lookup_singleton_eq.
  - exact Hr.
  - exact Hwf.
Defined.

Lemma open_new_root_witness :
  exists st, (Open "/srv/oe" demo_new_root).1 = Ok st /\
    SysInv (initial_state demo_ms) (MkSys (unstarted st) ∅).
Proof.
  pose proof (open_new_root "/srv/oe" demo_new_root) as Ht. cbv zeta in Ht.
  assert (Hok : is_ok (Open "/srv/oe" demo_new_root).1 = true) by (vm_compute; reflexivity).
  destruct (Open "/srv/oe" demo_new_root) as [r w'].
  destruct (is_ok_inv r Hok) as [st ->]. exists st. split; [reflexivity|]. apply Ht; [done|done|by eexists].
Defined.
