(* ===== verification/ServerTheorems.v ===== *)
(** * Theorems: configuration, start and shutdown of the process

    Which configurations are accepted, what the server that [main] starts satisfies,
    and that the process always shuts down. *)

From S2P Require Import Prelude Status Encoding Tokens Proto Json Platform Keys World FileStore.
From S2P Require Import Files Durability Storage Core Commands Model Reads Scan Spec SystemMessages.
From S2P Require Import Refine Handlers ChannelHandlers Invariant Queries Pages Startup Objects.
From S2P Require Import Services Effects Requests Concurrency Tracks Crash Subscription SubInvariant.
From S2P Require Import ServerConfig Endpoints Root Process RootOpen Lives Reference Demo RootReference.

Section ServerTheorems.
Context {R : RocksDB} {P : Protobuf} {F : PosixDir} {H : Host} {T : RootFs} {E : RocksEnv}.
Context {Y : Yaml} {D : FileStatus}.
Context {RS : RocksDBSpec} {PS : ProtobufSpec} {FS : PosixDirSpec} {TS : RootFsSpec} {ES : RocksEnvSpec}.

(** ** Configuration *)

(** C37. A configuration is loaded exactly when the file is a regular file that parses and its
    values are acceptable: both addresses given and different, a storage path, a payload limit
    between 1 byte and 60 MiB. Each value is the file's, or the default when the file has none;
    every refusal is an invalid argument. *)
Theorem load_config_exact path :
  (forall c, LoadServerConfig path = Ok c <->
     path <> "" /\ file_exists path = inr true /\ file_is_regular path = inr true /\
     read_config path = inr c /\ config_ok c) /\
  match LoadServerConfig path with
  | Ok c => exists root, yaml_LoadFile path = inr root /\
      grpc_listen_addr c = from_option id "0.0.0.0:9527" (field_of yaml_as_string root "grpc" "listen_addr") /\
      admin_listen_addr c = from_option id "127.0.0.1:9528" (field_of yaml_as_string root "admin" "listen_addr") /\
      field_of yaml_as_string root "storage" "path" = Some (storage_path c) /\
      config_max_payload_bytes c =
        from_option id 16777216 (field_of yaml_as_size root "limits" "max_payload_bytes")
  | Err s => code s = INVALID_ARGUMENT
  end.
Proof.
  unfold LoadServerConfig. destruct (str_empty path) eqn:Ep.
  { apply str_empty_spec in Ep as ->. by split; [intros c; split; [|intros (? & _)]|]. }
  assert (Hne : path <> "") by (by destruct path).
  destruct (file_exists path) as [e|[]]; [by split; [intros c; split; [|intros (_ & ? & _)]|]| |
    by split; [intros c; split; [|intros (_ & ? & _)]|]].
  destruct (file_is_regular path) as [e|[]]; [by split; [intros c; split; [|intros (_ & _ & ? & _)]|]| |
    by split; [intros c; split; [|intros (_ & _ & ? & _)]|]].
  destruct (read_config path) as [e|c] eqn:Er; [by split; [intros c; split; [|intros (_ & _ & _ & ? & _)]|]|].
  pose proof (ValidateServerConfig_ok c) as Hv. destruct (read_config_value path c Er) as (root & Hroot & Hc).
  destruct (ValidateServerConfig c) as [[]|s] eqn:Ev; cbn.
  - destruct Hv as [Hv _]. specialize (Hv eq_refl). split.
    + intros c'. split; [intros [= <-]; by split_and!|]. by intros (_ & _ & _ & [= <-] & _).
    + exists root. split; [done|]. destruct Hv as (_ & _ & _ & Hs & _). subst c. cbn in *.
      destruct (field_of yaml_as_string root "storage" "path"); [by split_and!|done].
  - split; [|by eapply ValidateServerConfig_code]. intros c'. split; [done|].
    intros (_ & _ & _ & [= <-] & Hok). apply Hv in Hok. done.
Qed.

(** ** Start *)

(** C12. Whatever lives, crashes and failed starts a root has been through, the next server
    starts from it: when [main] gets as far as serving, the server has the invariant of its
    requests, streams and refresher and survives a crash at once, it is open, has the
    configured payload limit, shows only what is on disk, and holds the log, the used
    uuids, the channels and the committed objects with their files that were safe; otherwise [main] exits with code 1 and the root is as safe
    as before. *)
Theorem main_start_serves launch path c m b d w :
  LoadServerConfig path = Ok c -> Rooted m b d (storage_path c) w ->
  let '(r, w') := main_start launch [path] w in
  match r with
  | Running config cfg refresher core =>
      config = c /\ max_payload_bytes cfg = config_max_payload_bytes c /\
      exists a, SubInv (a, 0) a a (newborn refresher core) /\ CrashInv m a a (MkSys core ∅) /\
        fatal_error_triggered core = false /\ on_disk_now core /\ a_preparing a = ∅ /\
        Extends b a /\ Keeps b d (dir (c_storage core))
  | Exit n _ => n = 1 /\ Rooted m b d (storage_path c) w'
  end.
Proof using ES FS RS TS.
  intros Hc Hroot. pose proof (main_start_born launch path c m b d w Hc Hroot) as Hs.
  destruct (main_start launch [path] w) as [[n text|config cfg rf core] w']; [done|].
  destruct Hs as (-> & -> & (a & Hsub & Hcr & Ho & _ & Hnow & Hp & Hx & Hk) & _).
  split_and!; [done|done|]. exists a. by split_and!.
Qed.

End ServerTheorems.

(** ** Shutdown *)

(** C15. Once a signal has arrived or the storage has failed, the process exits, although
    [Shutdown()] of a server waits for the handlers that run and a Subscribe handler runs
    until its stream is cancelled. In any order of the steps of the threads, the servers and
    the handlers, with calls, streams, signals and failures arriving meanwhile, the process
    makes at most so many moves of its own as its measure and what arrived allow, and it is
    never stuck: left to itself it comes to the return of [main]. At most one thread shuts
    the servers down. When [main] has returned the streams were cancelled, both servers are
    down, no handler runs, all threads have ended, and the exit code tells whether the
    storage failed. *)
Theorem shutdown_completes x n k y :
  reachable x -> triggered (threads x) = true -> mixed_run n k x y ->
  (n <= measure x + k)%nat /\
  (forall v1 v2, signal_pc (threads y) = SServers v1 -> fatal_pc (threads y) = FServers v2 -> False) /\
  (exited (threads y) = false -> prog_moves y <> []) /\
  (exists m z, mixed_run m 0 y z /\ exited (threads z) = true) /\
  (exited (threads y) = true ->
   main_pc (threads y) = MExited (fatal_storage_error (threads y)) /\ prog_moves y = [] /\
   streams_stopped (threads y) = true /\ public_server (threads y) = Down /\ admin_server (threads y) = Down /\
   in_flight y = MkInFlight 0 0 0 /\
   signal_pc (threads y) = SDone /\ fatal_pc (threads y) = FDone /\ admin_joined (threads y) = true).
Proof.
  intros Hr Ht Hrun. pose proof (reachable_ok x Hr) as Hx. pose proof (mixed_run_ok n k x y Hx Hrun) as Hy.
  pose proof (triggered_run n k x y Hx Hrun Ht) as Hty. split_and!.
  - apply mixed_run_bound in Hrun. lia.
  - intros v1 v2. apply one_shutdown, Hy.
  - by apply reachable_moves.
  - destruct (prog_run_ends y) as (m & z & Hz & Hend). exists m, z. split; [done|].
    destruct (exited (threads z)) eqn:Ee; [done|]. exfalso.
    by apply (reachable_moves z); [by eapply mixed_run_ok|by eapply triggered_run|..].
  - unfold exited. destruct (main_pc (threads y)) eqn:Em; try done. intros _.
    destruct (exited_state y failed Hy Em) as (Hd & Hs & Hf & Ha & -> & Hh).
    unfold all_down in Hd. rewrite !andb_true_iff in Hd. destruct Hd as ((Hst & Hp) & Had).
    assert (Edown : forall s, is_down s = true -> s = Down) by (by intros []).
    apply Edown in Hp, Had. split_and!; try done.
    unfold prog_moves, thread_moves, main_moves, signal_moves, fatal_moves, admin_moves, grpc_moves, handler_moves.
    by rewrite Em, Hs, Hf, Ha, Hp, Had, Hh.
Qed.

(** ** On the reference platform *)

(** A YAML document with one value. *)
Inductive DemoYaml := YMap (entries : list (string * DemoYaml)) | YText (s : string) | YNone.

Definition demo_document : DemoYaml := YMap [("storage", YMap [("path", YText "/srv/oe")])].

Definition demo_index (d : DemoYaml) (key : string) : string + DemoYaml :=
  match d with
  | YMap entries => inr (from_option snd YNone (List.find (fun e => String.eqb (fst e) key) entries))
  | YText _ => inl "bad subscript"
  | YNone => inr YNone
  end.

#[export] Instance MemYaml : Yaml := {|
  yaml_node := DemoYaml;
  yaml_LoadFile := fun _ => inr demo_document;
  yaml_index := demo_index;
  yaml_defined := fun d => match d with YNone => false | _ => true end;
  yaml_as_string := fun d => match d with YText s => inr s | _ => inl "bad conversion" end;
  yaml_as_size := fun _ => inl "bad conversion"
|}.

#[export] Instance MemFileStatus : FileStatus := {|
  file_exists := fun p => inr (String.eqb p "oe.yaml");
  file_is_regular := fun _ => inr true
|}.

Definition demo_config : ServerConfig := MkServerConfig "0.0.0.0:9527" "127.0.0.1:9528" "/srv/oe" 16777216.

Definition demo_launch : Launch := MkLaunch "openevent-server" true (fun _ => true).

Definition is_running (s : Started) : bool := match s with Running _ _ _ _ => true | Exit _ _ => false end.

Lemma main_start_serves_witness :
  exists cfg rf core a, (main_start demo_launch ["oe.yaml"] demo_old_root).1 = Running demo_config cfg rf core /\
    SubInv (a, 0) a a (newborn rf core) /\ CrashInv 1000 a a (MkSys core ∅) /\ Extends demo_a3 a.
Proof.
  pose proof (main_start_serves demo_launch "oe.yaml" demo_config 1000 demo_a3 (sdir demo_sys) demo_old_root
    eq_refl demo_rooted) as Ht.
  assert (Hrun : is_running (main_start demo_launch ["oe.yaml"] demo_old_root).1 = true) by (vm_compute; reflexivity).
  destruct (main_start demo_launch ["oe.yaml"] demo_old_root) as [r w'].
  destruct r as [n text|config cfg rf core]; [discriminate Hrun|]. destruct Ht as (-> & _ & a & Hinv & Hcr & _ & _ & _ & Hx & _).
  exists cfg, rf, core, a. split; [reflexivity|]. split; [exact Hinv|]. split; [exact Hcr|exact Hx].
Defined.

(** A stream is open when the signal arrives. *)
Definition demo_busy : Process := MkProcess (with_pending true proc_start) (MkInFlight 1 0 0).

Lemma shutdown_completes_witness :
  exists n y, mixed_run n 0 demo_busy y /\ exited (threads y) = true /\ streams (in_flight y) = 0%nat.
Proof.
  assert (Hr : reachable demo_busy).
  { eapply Reach_move; [eapply Reach_move; [apply Reach_start|]|].
    - apply elem_of_app. right. right. left.
    - apply elem_of_app. right. cbn. right. right. right. right. left. }
  destruct (shutdown_completes demo_busy 0 0 demo_busy Hr eq_refl (Run_nil _))
    as (_ & _ & _ & (m & z & Hz & He) & _).
  exists m, z. split; [exact Hz|]. split; [exact He|].
  destruct (shutdown_completes demo_busy m 0 z Hr eq_refl Hz) as (_ & _ & _ & _ & Hexit).
  destruct (Hexit He) as (_ & _ & _ & _ & _ & -> & _). reflexivity.
Defined.
