(* ===== verification/CrashTheorems.v ===== *)
(** * Theorems: crashes and restarts

    What clients were told holds in every later life of the server, however the lives
    end: the power fails between two steps or in the middle of one, the process
    closes its storage, or it does not get as far as serving. *)

From stdpp Require Import relations.
From S2P Require Import Prelude Status Encoding Tokens Proto Json Platform Keys World FileStore.
From S2P Require Import Files Durability Storage Core Commands Model Unique Reads Scan Spec.
From S2P Require Import SystemMessages Refine Handlers ChannelHandlers Invariant Queries Pages.
From S2P Require Import Startup Objects Services Effects Requests Concurrency Tracks Crash Subscription.
From S2P Require Import SubInvariant ServerConfig Endpoints Root Process RootOpen Lives FirstStart Reference Demo.
From S2P Require Import RootReference SystemTheorems ServerTheorems.

Section CrashTheorems.
Context {R : RocksDB} {P : Protobuf} {F : PosixDir} {H : Host} {T : RootFs} {E : RocksEnv}.
Context {Y : Yaml} {D : FileStatus}.
Context {RS : RocksDBSpec} {PS : ProtobufSpec} {HS : HostSpec} {FS : PosixDirSpec}.
Context {TS : RootFsSpec} {ES : RocksEnvSpec}.
Context (config_file : string) (config : ServerConfig).

(** C11. A storage root stays one: through any number of lives, each a start that fails or in
    which the power fails, or a run of any requests, writers and streams that ends with the
    storage closed, with a crash between two steps or with a crash in the middle of one, the
    root holds a well-formed state with the files of its objects, and of what was safe at the
    beginning the log, the used uuids, the channels with all but their members, and the
    committed objects with their files are neither lost nor changed. *)
Theorem root_survives m b d n w w' :
  LoadServerConfig config_file = Ok config -> 0 <= m -> Z.of_nat n + m < two64 ->
  Rooted (Z.of_nat n + m) b d (storage_path config) w -> lives config_file (storage_path config) n w w' ->
  Rooted m b d (storage_path config) w'.
Proof using ES FS HS PS RS TS. apply lives_rooted. Qed.

(** The server that is started after more lives. *)
Lemma safe_later cfg m n k l b d x y w w1 w2 launch config' cfg' rf core w3 :
  LoadServerConfig config_file = Ok config -> 0 <= m ->
  Live (Z.of_nat (n + k + l) + m) b d (storage_path config) x w ->
  nsteps (sub_step cfg) n x y -> ended cfg (storage_path config) y w k w1 ->
  lives config_file (storage_path config) l w1 w2 ->
  main_start launch [config_file] w2 = (Running config' cfg' rf core, w3) ->
  exists a, SysInv a (MkSys core ∅) /\ fatal_error_triggered core = false /\ Extends b a /\
    Keeps b d (dir (c_storage core)).
Proof using ES FS HS PS RS TS.
  intros Hc Hm Hl Hsteps Hend Hlives Hstart. pose proof (Live_bound _ _ _ _ _ _ Hl).
  assert (Hroot : Rooted m b d (storage_path config) w2).
  { eapply (lives_rooted _ _ _ _ _ l); [done|done|lia| |exact Hlives]. eapply Live_ended; [| |exact Hend]; [lia|].
    eapply Live_steps; [lia| |exact Hsteps].
    by replace (Z.of_nat n + (Z.of_nat k + (Z.of_nat l + m))) with (Z.of_nat (n + k + l) + m) by lia. }
  pose proof (main_start_born launch config_file config m b d w2 Hc Hroot) as Hborn. rewrite Hstart in Hborn.
  destruct Hborn as (_ & _ & (a & Hsub & _ & Ho & _ & _ & _ & Hx & Hk) & _).
  exists a. split_and!; [apply (xi_sys _ _ _ _ Hsub)|done..].
Qed.

(** C5. An acknowledged post is never lost: once the server has answered a post with a sequence
    number, then whatever it serves afterwards, however it ends and however many lives follow,
    every server started later has the message in its log under that number, and takes the uuid
    for used. *)
Theorem acknowledged_post_survives cfg n k l b d x w req context seq w' y w1 w2 launch config' cfg' rf core w3 :
  LoadServerConfig config_file = Ok config ->
  Live (Z.of_nat (n + k + l) + 1) b d (storage_path config) x w ->
  request_ok (RPublishAutoSeq req context) ->
  PublishAutoSeq cfg req context (ss_core x) = (Ok seq, w') ->
  nsteps (sub_step cfg) n (served x w' (sys_writers (ss_sys x))) y ->
  ended cfg (storage_path config) y w k w1 -> lives config_file (storage_path config) l w1 w2 ->
  main_start launch [config_file] w2 = (Running config' cfg' rf core, w3) ->
  (exists a, SysInv a (MkSys core ∅) /\ posted req seq (now_ms (ss_core x)) ∈ a_log a) /\
  uuid_taken cfg' (pa_uuid req) seq core.
Proof using ES FS HS PS RS TS.
  intros Hc Hl Hreq Ep Hsteps Hend Hlives Hstart. pose proof Hl as (_ & _ & _ & _ & _ & a & _ & _ & Hcr).
  destruct (publish_step cfg a (ss_sys x) req context seq w') as (Hs1 & _ & _ & Hopen); [apply Hcr|done|done|].
  set (a1 := a_append a _) in Hs1.
  assert (Hl1 : Live (Z.of_nat (n + k + l)) b d (storage_path config) (served x w' (sys_writers (ss_sys x))) w).
  { eapply (Live_request cfg _ _ _ _ _ _ (RPublishAutoSeq req context) (Seq seq)); [lia|exact Hl|exact Hreq|].
    cbn. unfold respond, bind_ok, bind. by rewrite Ep. }
  pose proof Hl1 as (_ & _ & _ & Hdisk & _). pose proof (Live_safe _ _ _ _ _ _ a1 Hl1 (Hdisk Hopen) Hs1) as Hsafe.
  edestruct (safe_later cfg 0 n k l a1) as (a2 & Hs2 & _ & Hx & _);
    [exact Hc|done|rewrite Z.add_0_r; exact Hsafe|exact Hsteps|exact Hend|exact Hlives|exact Hstart|].
  pose proof Hs2 as [Hr2 Hwf2 _ _ _ _]. split.
  - exists a2. split; [done|]. destruct (ex_log _ _ Hx) as [rest ->].
    apply elem_of_app. left. cbn. apply elem_of_app. right. by left.
  - eapply used_uuid_taken; [done|done|apply Hreq|]. eapply lookup_weaken; [|apply Hx]. apply lookup_insert_eq.
Qed.

(** C10. An acknowledged object is never lost: once a writer has reported success, every server
    started later, however many lives are in between and however they end, reads any range of
    the object with its token as exactly that range of the data, unless its file cannot be read
    or its storage fails. *)
Theorem acknowledged_object_survives cfg n k l b d x w i wt id token w' y w1 w2 launch config' cfg' rf core w3 :
  LoadServerConfig config_file = Ok config ->
  Live (Z.of_nat (n + k + l) + 1) b d (storage_path config) x w ->
  sys_writers (ss_sys x) !! i = Some wt -> writer_step cfg wt (ss_core x) = (inr (Ok (id, token)), w') ->
  nsteps (sub_step cfg) n (served x w' (delete i (sys_writers (ss_sys x)))) y ->
  ended cfg (storage_path config) y w k w1 -> lives config_file (storage_path config) l w1 w2 ->
  main_start launch [config_file] w2 = (Running config' cfg' rf core, w3) ->
  reads_as cfg' id token (wr_data (wt_req wt)) core.
Proof using ES FS HS PS RS TS.
  intros Hc Hl Hi Ew Hsteps Hend Hlives Hstart. pose proof Hl as (_ & _ & _ & _ & _ & a & _ & _ & Hcr).
  destruct (writer_success cfg a (ss_sys x) i wt id token w') as (a1 & o & Hs1 & _ & Hc1 & <- & Hf1 & Hsz & Hnow);
    [apply Hcr|done|done|].
  assert (Hl1 : Live (Z.of_nat (n + k + l)) b d (storage_path config)
      (served x w' (delete i (sys_writers (ss_sys x)))) w) by (eapply Live_writer; [lia|done..]).
  pose proof (Live_safe _ _ _ _ _ _ a1 Hl1 Hnow Hs1) as Hsafe.
  edestruct (safe_later cfg 0 n k l a1) as (a2 & Hs2 & Hopen & Hx & Hk);
    [exact Hc|done|rewrite Z.add_0_r; exact Hsafe|exact Hsteps|exact Hend|exact Hlives|exact Hstart|].
  eapply (committed_reads cfg' a2 (MkSys core ∅)); [done|done| | |done].
  - eapply lookup_weaken; [exact Hc1|apply Hx].
  - unfold sdir. cbn [sys_core]. rewrite (Hk id) by (by eexists). exact Hf1.
Qed.

(** C13. An open server shows nothing it could lose: at any moment of a run at which no fatal
    error has closed the server, a crash leaves exactly the database it shows, and every file
    of a committed object as it is. *)
Theorem crash_loses_nothing cfg path m b d n x y w w' :
  Live (Z.of_nat n + m) b d path x w -> 0 <= m -> nsteps (sub_step cfg) n x y ->
  fatal_error_triggered (ss_core y) = false -> crashed path (ss_core y) w w' ->
  exists a fams, SysInv a (ss_sys y) /\
    env_view (rw_env w') (DatabasePath path) = Some (fams, cview (ss_core y)) /\
    Rooted m a (sdir (ss_sys y)) path w'.
Proof using FS HS PS RS.
  intros Hl Hm Hsteps Hopen Hcrash. pose proof (Live_steps cfg n m b d path x y w Hm Hl Hsteps) as Hy.
  pose proof Hy as (Hthere & _ & _ & Hd & mk & a & p & Hinv & Hcr). specialize (Hd Hopen).
  pose proof Hcrash as (_ & _ & fams & z & He & ->%Hd). exists a, fams. split_and!; [apply Hcr|done|].
  eapply crashed_rooted; [by eapply CrashInv_now|done|done|done|done].
Qed.

Lemma born_live m ms rf core w' :
  0 <= m < 2 ^ 53 -> born m (initial_state ms) ∅ rf core (initial_state ms) -> root_there (storage_path config) (rw_tree w') ->
  repr (cview core) (initial_state ms) /\ fatal_error_triggered core = false /\
  Live m (initial_state ms) (dir (c_storage core)) (storage_path config) (newborn rf core) w'.
Proof.
  intros Hm (Hsub & Hcr & Ho & Hg & Hnow & _ & _ & _) Hthere.
  pose proof (xi_sys _ _ _ _ Hsub) as Hsys. split_and!; [apply Hsys|done|].
  split_and!; [done|done|unfold ss_core, two64; cbn; lia|by intros _|by eexists _, _, _].
Qed.

(** C33. The first start: on a path where there is nothing yet, [main] makes the root, with its
    directories and the initial state on disk, and serves from it, able to lose power at once;
    or it exits with code 1. *)
Theorem first_start launch m w :
  LoadServerConfig config_file = Ok config ->
  (forall t, (tr_absolute (storage_path config) t).1 = inr (storage_path config)) ->
  (forall p, p = storage_path config \/ p = DatabasePath (storage_path config) -> tr_view (rw_tree w) !! p = None) ->
  env_view (rw_env w) (DatabasePath (storage_path config)) = None ->
  fs_view (rw_objects w) = ∅ -> (forall n, fs_durable (rw_objects w) n) ->
  let ms := Z.quot (os_system_clock (rw_os w)).1 1000000 in
  is_Some (SerializeMessage (InitializationMessage ms)) -> 0 <= m < 2 ^ 53 ->
  let '(r, w') := main_start launch [config_file] w in
  match r with
  | Running config' cfg refresher core =>
      config' = config /\ repr (cview core) (initial_state ms) /\ fatal_error_triggered core = false /\
      Live m (initial_state ms) (dir (c_storage core)) (storage_path config) (newborn refresher core) w'
  | Exit n _ => n = 1
  end.
Proof using ES FS PS RS TS.
  intros Hc Habs Hfree Henv Hobj Hdur ms Hser Hm.
  assert (Hb : Budget m (initial_state ms)) by (unfold Budget, kMaxUuidBatch, two64, a_max_seq; cbn; lia).
  pose proof (main_start_new launch config_file config m w Hc Habs ltac:(intros p Hp; left; by apply Hfree)
    Henv Hobj Hdur Hser Hb) as Hs. fold ms in Hs.
  destruct (main_start launch [config_file] w) as [[n text|config' cfg rf core] w']; [apply Hs|].
  destruct Hs as (_ & -> & _ & Hborn & Hthere). split; [done|]. by apply born_live.
Qed.

(** C34. Making a root can be interrupted: whatever a failure of the power leaves in the middle of
    it, and however often that happens, a later start serves exactly the initial state, able to lose
    power at once, or exits with code 1; a root with a database that lacks the first batch is never
    served. *)
Theorem interrupted_creation launch m w0 w :
  LoadServerConfig config_file = Ok config ->
  (forall t, (tr_absolute (storage_path config) t).1 = inr (storage_path config)) ->
  (forall ms, is_Some (SerializeMessage (InitializationMessage ms))) -> 0 <= m < 2 ^ 53 ->
  Unborn (storage_path config) w0 -> creations config_file config w0 w ->
  let '(r, w') := main_start launch [config_file] w in
  match r with
  | Running config' cfg refresher core =>
      config' = config /\
      (forall fams, env_view (rw_env w) (DatabasePath (storage_path config)) <> Some (fams, ∅)) /\
      exists ms, repr (cview core) (initial_state ms) /\ fatal_error_triggered core = false /\
        Live m (initial_state ms) (dir (c_storage core)) (storage_path config) (newborn refresher core) w'
  | Exit n _ => n = 1
  end.
Proof using ES FS PS RS TS.
  intros Hc Habs Hser Hm Hub Hcr.
  assert (Hw : Unborn (storage_path config) w) by (by eapply unborn_creations).
  pose proof (unborn_start config_file config Hc Habs Hser launch m w Hm Hw) as Hs.
  pose proof (main_start_blank config_file config Hc launch) as Hblank.
  destruct (main_start launch [config_file] w) as [[n text|config' cfg rf core] w'] eqn:Erun; destruct Hs as [_ Hs]; [done|].
  destruct Hs as (-> & _ & ms & Hborn & Hthere). split; [done|]. split.
  - intros fams He. destruct (Hblank fams w) as (text & w1 & Hrun & _); [|done|congruence].
    apply (ub_database _ _ Hw _ _ He).
  - exists ms. by apply born_live.
Qed.

End CrashTheorems.

(** ** On the reference disk *)

(** The power fails: what the core shows is on disk. *)
Definition power_off (core : CoreW) (w : RootW) : RootW :=
  MkRootW (rw_tree w) ({["/srv/oe/db" := (known_families, cview core)]} : MemEnv)
    (st_fs (c_storage core)) (rw_os w).

Lemma power_off_crashed core w : crashed "/srv/oe" core w (power_off core w).
Proof.
  split; [by intros p|]. split; [by intros n|]. exists known_families, (cview core).
  split; [apply lookup_singleton_eq|by left].
Qed.

Definition demo_started : Started * RootW := main_start demo_launch ["oe.yaml"] demo_old_root.

(** Start again. *)
Definition starts_again (w : RootW) : bool := is_running (main_start demo_launch ["oe.yaml"] w).1.

Lemma demo_live config cfg rf core w :
  demo_started = (Running config cfg rf core, w) ->
  Live 1000 demo_a3 (sdir demo_sys) "/srv/oe" (newborn rf core) w.
Proof. intros E. by eapply (Live_start demo_launch "oe.yaml" demo_config); [|..|exact demo_rooted|exact E]. Qed.

Lemma Live_room m m' b d path x w : m' <= m -> Live m b d path x w -> Live m' b d path x w.
Proof.
  intros Hm (H1 & H2 & H3 & H4 & mk & a & p & H5 & H6). split_and!; [done|done|lia|done|].
  exists mk, a, p. split; [done|by eapply CrashInv_mono].
Qed.

Lemma root_survives_witness :
  exists w, lives "oe.yaml" "/srv/oe" 0 demo_old_root w /\ Rooted 1000 demo_a3 (sdir demo_sys) "/srv/oe" w.
Proof.
  assert (Hrun : is_running demo_started.1 = true) by (vm_compute; reflexivity).
  destruct demo_started as [[? ?|config cfg rf core] w] eqn:E; [discriminate Hrun|].
  assert (Hl : lives "oe.yaml" "/srv/oe" 0 demo_old_root (power_off core w)).
  { apply (Lives_more "oe.yaml" "/srv/oe" 0 0 demo_old_root (power_off core w)); [|apply Lives_none].
    eapply (Life_runs "oe.yaml" "/srv/oe" demo_launch config cfg rf core demo_old_root w 0 _ 0);
      [exact E|apply nsteps_O|]. apply Ended_crashed, power_off_crashed. }
  exists (power_off core w). split; [exact Hl|].
  refine (root_survives "oe.yaml" demo_config 1000 demo_a3 (sdir demo_sys) 0 demo_old_root _ eq_refl _ _ demo_rooted Hl).
  - lia.
  - reflexivity.
Defined.

Definition demo_post_test : bool :=
  match demo_started with
  | (Running _ cfg rf core, w) =>
      match PublishAutoSeq cfg demo_post2 None core with
      | (Ok seq, core') => (seq =? 2) && starts_again (power_off core' w)
      | (Err _, _) => false
      end
  | _ => false
  end.

Lemma acknowledged_post_survives_witness :
  exists cfg cfg' core core', uuid_taken cfg' (pa_uuid demo_post2) 2 core' /\
    (PublishAutoSeq cfg demo_post2 None core).1 = Ok 2.
Proof.
  assert (Ht : demo_post_test = true) by (vm_compute; reflexivity). unfold demo_post_test in Ht.
  destruct demo_started as [[? ?|config cfg rf core] w] eqn:E; [discriminate Ht|].
  destruct (PublishAutoSeq cfg demo_post2 None core) as [[seq|] core1] eqn:Ep; [|discriminate Ht].
  apply andb_prop in Ht as [Hseq%Z.eqb_eq Ht]. subst seq. unfold starts_again in Ht.
  destruct (main_start demo_launch ["oe.yaml"] (power_off core1 w)) as [[? ?|config2 cfg2 rf2 core2] w2] eqn:E2;
    [discriminate Ht|].
  exists cfg, cfg2, core, core2. rewrite Ep. split; [|reflexivity].
  refine (proj2 (acknowledged_post_survives "oe.yaml" demo_config cfg 0 0 0 demo_a3 (sdir demo_sys)
    (newborn rf core) w demo_post2 None 2 core1 _ (power_off core1 w) (power_off core1 w) demo_launch _ _ _ core2 w2
    eq_refl _ _ Ep (nsteps_O _ _) _ (Lives_none _ _ _) E2)).
  - eapply Live_room; [|by eapply demo_live]. lia.
  - split_and!; [split; [discriminate|reflexivity]..|reflexivity|constructor].
  - apply Ended_crashed, power_off_crashed.
Defined.

Definition demo_object_test : bool :=
  match demo_started with
  | (Running _ cfg rf core, w) =>
      match WriteObject_prepare cfg demo_write core with
      | (Ok o, core1) =>
          match writer_step cfg (MkWriter demo_write o Writing) core1 with
          | (inl wt, core2) =>
              match writer_step cfg wt core2 with
              | (inr (Ok _), core3) =>
                  bool_decide (wr_data (wt_req wt) = "some data") && starts_again (power_off core3 w)
              | _ => false
              end
          | _ => false
          end
      | _ => false
      end
  | _ => false
  end.

Lemma acknowledged_object_survives_witness :
  exists cfg id token core, reads_as cfg id token "some data" core.
Proof.
  assert (Ht : demo_object_test = true) by (vm_compute; reflexivity). unfold demo_object_test in Ht.
  destruct demo_started as [[? ?|config cfg rf core] w] eqn:E; [discriminate Ht|].
  destruct (WriteObject_prepare cfg demo_write core) as [[o|] core1] eqn:E1; [|discriminate Ht].
  destruct (writer_step cfg (MkWriter demo_write o Writing) core1) as [[wt|] core2] eqn:E2; [|discriminate Ht].
  destruct (writer_step cfg wt core2) as [[|[[id token]|]] core3] eqn:E3; [discriminate Ht| |discriminate Ht].
  apply andb_prop in Ht as [Hd%bool_decide_eq_true Ht]. rewrite <- Hd. unfold starts_again in Ht.
  destruct (main_start demo_launch ["oe.yaml"] (power_off core3 w)) as [[? ?|config2 cfg2 rf2 core4] w2] eqn:E4;
    [discriminate Ht|]. exists cfg2, id, token, core4.
  set (x := newborn rf core). set (x1 := served x core1 {[0%nat := MkWriter demo_write o Writing]}).
  set (x2 := served x core2 (<[0%nat := wt]> {[0%nat := MkWriter demo_write o Writing]})).
  assert (Hsteps : nsteps (sub_step cfg) 2 x x2).
  { apply (nsteps_l _ _ _ x1); [|apply (nsteps_l _ _ _ x2); [|apply nsteps_O]].
    - apply (X_server cfg x). apply (S_prepare cfg 0 demo_write o core1 (ss_sys x)); [|reflexivity|exact E1].
      split_and!; [split; [discriminate|reflexivity]|reflexivity..].
    - apply (X_server cfg x1 (ss_sys x2)).
      eapply (S_writer cfg 0); [reflexivity|exact E2]. }
  refine (acknowledged_object_survives "oe.yaml" demo_config cfg 0 0 0 demo_a3 (sdir demo_sys) x2 w 0%nat wt id token
    core3 _ (power_off core3 w) (power_off core3 w) demo_launch _ _ _ core4 w2
    eq_refl _ _ E3 (nsteps_O _ _) _ (Lives_none _ _ _) E4).
  - eapply (Live_steps cfg 2); [lia| |exact Hsteps]. eapply Live_room; [|by eapply demo_live]. lia.
  - reflexivity.
  - apply Ended_crashed, power_off_crashed.
Defined.

Lemma crash_loses_nothing_witness :
  exists core w a fams, env_view (rw_env w) "/srv/oe/db" = Some (fams, cview core) /\
    Rooted 1000 a (dir (c_storage core)) "/srv/oe" w.
Proof.
  assert (Ht : match demo_started.1 with Running _ _ _ core => negb (fatal_error_triggered core) | _ => false end = true)
    by (vm_compute; reflexivity).
  destruct demo_started as [[? ?|config cfg rf core] w] eqn:E; [discriminate Ht|]. apply negb_true_iff in Ht.
  destruct (crash_loses_nothing cfg "/srv/oe" 1000 demo_a3 (sdir demo_sys) 0 (newborn rf core) (newborn rf core) w
    (power_off core w)) as (a & fams & _ & He & Hr).
  - by eapply demo_live.
  - lia.
  - apply nsteps_O.
  - exact Ht.
  - apply power_off_crashed.
  - exists core, (power_off core w), a, fams. split; [exact He|exact Hr].
Defined.

Lemma first_start_witness :
  exists config cfg rf core w, main_start demo_launch ["oe.yaml"] demo_new_root = (Running config cfg rf core, w) /\
    Live 1000 (initial_state demo_ms) (dir (c_storage core)) "/srv/oe" (newborn rf core) w.
Proof.
  assert (Hrun : starts_again demo_new_root = true) by (vm_compute; reflexivity). unfold starts_again in Hrun.
  pose proof (first_start "oe.yaml" demo_config demo_launch 1000 demo_new_root eq_refl) as Ht.
  destruct (main_start demo_launch ["oe.yaml"] demo_new_root) as [[? ?|config cfg rf core] w]; [discriminate Hrun|].
  exists config, cfg, rf, core, w. split; [reflexivity|]. apply Ht.
  - reflexivity.
  - intros p [->| ->]; reflexivity.
  - reflexivity.
  - reflexivity.
  - intros n. apply not_elem_of_empty.
  - vm_compute. by eexists.
  - lia.
Defined.

(** The power fails after the first batch was written: the root is found as far as it was made. *)
Definition demo_made_root : RootW :=
  MkRootW (demo_tree ["/srv"; "/srv/oe"; "/srv/oe/db"; "/srv/oe/objects"])
    ({["/srv/oe/db" := (known_families, apply_batch (InitializationBatch (clock_ms demo_new_root)) ∅)]} : MemEnv)
    mem_dir (MkMemOs 1800000000000000000 7).

Lemma demo_unborn : Unborn "/srv/oe" demo_new_root.
Proof.
  constructor.
  - reflexivity.
  - intros n. apply not_elem_of_empty.
  - intros p [->| ->]; by left.
  - intros fams x He. vm_compute in He. discriminate He.
Qed.

Lemma demo_tree_durable paths p : is_Some (mt_view (demo_tree paths) !! p) -> p ∈ mt_durable (demo_tree paths).
Proof.
  intros [b Hb%elem_of_list_to_map_2]. apply list_elem_of_fmap in Hb as (q & [= -> _] & Hq).
  by apply elem_of_list_to_set.
Qed.

Lemma demo_interrupted r w' :
  fs_view (start_objects r w') = ∅ -> creation_interrupted "/srv/oe" r demo_new_root w' demo_made_root.
Proof.
  intros Ho. split_and!.
  - intros p Hp. assert (p = "/srv") as -> by (by apply elem_of_list_to_set, list_elem_of_singleton in Hp). split; [reflexivity|].
    apply elem_of_list_to_set. by left.
  - apply demo_tree_durable.
  - by intros n.
  - intros fams x He. split.
    + intros p [->| ->]; by eexists.
    + right. split; [reflexivity|]. right.
      assert (Hv : env_view (rw_env demo_made_root) "/srv/oe/db" =
        Some (known_families, apply_batch (InitializationBatch (clock_ms demo_new_root)) ∅)) by apply lookup_singleton_eq.
      change (DatabasePath "/srv/oe") with "/srv/oe/db" in He. rewrite Hv in He. by injection He as _ <-.
Qed.

Lemma demo_serialize ms : is_Some (SerializeMessage (InitializationMessage ms)).
Proof. by eexists. Qed.

Lemma interrupted_creation_witness :
  exists config cfg rf core w ms, main_start demo_launch ["oe.yaml"] demo_made_root = (Running config cfg rf core, w) /\
    Live 1000 (initial_state ms) (dir (c_storage core)) "/srv/oe" (newborn rf core) w.
Proof.
  assert (Hrun : starts_again demo_made_root = true) by (vm_compute; reflexivity). unfold starts_again in Hrun.
  assert (Hcr : creations "oe.yaml" demo_config demo_new_root demo_made_root).
  { pose proof (unborn_start "oe.yaml" demo_config eq_refl (fun _ => eq_refl) demo_serialize demo_launch 0 demo_new_root
      ltac:(lia) demo_unborn) as Hs.
    destruct (main_start demo_launch ["oe.yaml"] demo_new_root) as [r w'] eqn:E.
    eapply Creations_more; [exact E|apply demo_interrupted; apply Hs|apply Creations_none]. }
  pose proof (interrupted_creation "oe.yaml" demo_config demo_launch 1000 demo_new_root demo_made_root eq_refl
    (fun _ => eq_refl) demo_serialize ltac:(lia) demo_unborn Hcr) as Ht.
  destruct (main_start demo_launch ["oe.yaml"] demo_made_root) as [[? ?|config cfg rf core] w]; [discriminate Hrun|].
  destruct Ht as (_ & _ & ms & _ & _ & Hl). exists config, cfg, rf, core, w, ms. split; [reflexivity|exact Hl].
Defined.

(** ** A creation that is killed

    The process ends between creating the directory of the root and [fsync] of its parent, and is
    started again without a failure of the power. *)

Definition demo_killed_root : RootW :=
  MkRootW (tr_create_directory "/srv/oe" (rw_tree demo_new_root)).2 (rw_env demo_new_root)
    (rw_objects demo_new_root) (rw_os demo_new_root).

(** The directory is there, so it is not created again, and its parent is not synchronised: the server
    runs on a root whose own entry is not on disk. *)
Theorem killed_creation_not_durable :
  tr_view (rw_tree demo_killed_root) !! "/srv/oe" = Some true /\
  is_running (main_start demo_launch ["oe.yaml"] demo_killed_root).1 = true /\
  "/srv/oe" ∉ tr_durable (rw_tree (main_start demo_launch ["oe.yaml"] demo_killed_root).2).
Proof.
  split; [reflexivity|]. split; [vm_compute; reflexivity|].
  assert (Ht : bool_decide ("/srv/oe" ∈ mt_durable (rw_tree (main_start demo_launch ["oe.yaml"] demo_killed_root).2)) = false)
    by (vm_compute; reflexivity).
  by apply bool_decide_eq_false in Ht.
Qed.
